(* ===== verification/_CoqProject ===== *)
-Q . S2P
Prelude.v
Path.v
Id.v
BTree.v
Database.v
HashMapDb.v
RocksLib.v
Rocks.v
RocksSpec.v
RocksModel.v
RocksRuns.v
Snapshots.v
External.v
MerkleNode.v
Instances.v
Trie.v
Error.v
Changes.v
Logs.v
KeyValueDb.v
Tree.v
Iterator.v
Update.v
Trees.v
Proof.v
Storage.v
Annot.v
TreeInv.v
SeekSpec.v
WalkSpec.v
SetSpec.v
DeleteSpec.v
CommitSpec.v
TreeSpec.v
TreeCorrect.v
IterCorrect.v
TreesSpec.v
StorageSpec.v
LogSpec.v
StorageCorrect.v
ContentsCorrect.v
CommitErrors.v
ReadErrors.v
StateRuns.v
StateCorrect.v
ListCorrect.v
ProofSpec.v
GenSpec.v
ProofCorrect.v
GenCorrect.v
Dump.v
RocksOpen.v
Findings.v
FaultFindings.v
Tests.v
TestCorrect.v
Witnesses.v
