(* ===== verification/Prelude.v ===== *)
(** * bonsai-trie: a verification development

    The program is a storage for Merkle-Patricia tries: maps from keys of a
    fixed number of bits to field elements, one map per identifier, kept in a
    key-value database. It hashes each map to a root hash, proves bindings under
    it, commits windows of writes with a log of what they change, and takes
    snapshots from which past states are read. The development models it file
    by file and proves that it behaves as a family of finite maps.

    ** The program and its model

    The layers, from the bottom; each file names the functions it models.

    - Paths ([Path.v], of [src/src/trie/path.rs] and the key conversions of
      [src/src/trie/tree.rs]), commit identifiers ([Id.v], [src/src/id.rs]).
    - Databases: the traits and their contract as classes ([Database.v], of
      [src/src/bonsai_database.rs] and [src/src/trie/trie_db.rs]); the two
      implementations, [HashMapDb.v] ([src/src/databases/hashmap_db.rs]) and
      [Rocks.v] ([src/src/databases/rocks_db.rs]) over the crate [rocksdb], the
      class of [RocksLib.v]; [BTree.v] is the [BTreeMap] of their snapshots.
    - The key-value layer ([KeyValueDb.v], [src/src/key_value_db.rs]) with its
      trie logs ([Changes.v], [src/src/changes.rs]) and errors ([Error.v],
      [src/src/error.rs]).
    - The tree of one identifier: nodes and hashes ([MerkleNode.v],
      [src/src/trie/merkle_node.rs]), state, loading, hashing and commit
      ([Tree.v], [src/src/trie/tree.rs]), traversal ([Iterator.v],
      [src/src/trie/iterator.rs]), insertion and deletion ([Update.v],
      [src/src/trie/tree.rs]).
    - The trees of a storage ([Trees.v], [src/src/trie/trees.rs]), proofs
      ([Proof.v], [src/src/trie/proof.rs]), the storage itself ([Storage.v],
      [src/src/lib.rs]).
    - Around them: opening a RocksDB database ([RocksOpen.v],
      [src/src/databases/rocks_db.rs]), the dumps of trees and databases
      ([Dump.v]), the repository's tests ([Tests.v], of [src/src/tests/proptest.rs],
      [src/src/tests/simple.rs], [src/src/tests/transactional_state.rs] and the
      test modules of [src/src/trie/]).

    A method on [&mut self] is an [action]: it returns the new state with an
    [outcome], which is a value, an error, a panic with its message, or, in the
    model only, exhausted fuel; the state survives an error, as in Rust. A loop
    whose body may fail is [for_each]. Machine integers are [Z] or [nat] with
    their wrap-around or checks written out; a slice of bits is a list of
    booleans, a byte string a list of [Z]. Code outside the repository (field
    elements, the hash, the slot map, the derived codec of a node, the order in
    which a hash map is iterated, [rocksdb], the file system) is a parameter:
    classes of operations in [External.v], [MerkleNode.v], [RocksLib.v],
    [RocksOpen.v] and [Dump.v], with the documented behaviour the program relies
    on in their [Lawful...] classes.
    [Instances.v] and [RocksModel.v] are concrete instances, on which the
    witnesses and the examples evaluate.

    ** The specification

    A map with keys of one length has exactly one well-formed trie ([Trie.v]),
    and the root hash is the hash of that trie ([map_root_hash]). An annotated
    tree ([Annot.v]) says of every node of a trie whether it is in memory or in
    the database; [tree_rep] ([TreeInv.v]) is the invariant that ties it to the
    state of a [MerkleTree] and its database; [tree_models] ([TreeSpec.v]) says
    that the tree holds a map over a committed one, and [storage_model]
    ([StorageSpec.v]) that a storage holds a family of maps. Total correctness
    is [wp] below: the action returns a value, without error, panic or lack of
    fuel, and its state and value satisfy the postcondition.

    ** The theorems

    - A tree refines a map: seeking ([SeekSpec.v]), insertion ([SetSpec.v]),
      deletion ([DeleteSpec.v]), hashing and commit ([CommitSpec.v]); the
      properties are in [TreeCorrect.v]. Traversals that continue one another
      ([WalkSpec.v]) leave the iterator where a new one would stand
      ([IterCorrect.v]).
    - The storage refines a family of maps ([TreesSpec.v], [StorageSpec.v]):
      histories of commits, pending reads, resets, reopening, independence of
      the history and of the kind of database, reachability of every family of
      maps ([StorageCorrect.v]); the database holds exactly the nodes and leaves
      of the tries ([ContentsCorrect.v]); listing the keys ([ListCorrect.v]).
    - Proofs: the verifier is sound, complete and terminates ([ProofSpec.v],
      [ProofCorrect.v]); the generator's proofs are accepted ([GenSpec.v]), any
      session of commits, resets and proofs succeeds, and the nodes in memory
      always form a tree ([GenCorrect.v]).
    - Trie logs: the round trip ([Changes.v]), reading in any order ([Logs.v]);
      the log of a commit undoes it, and undoing several, oldest first, leads to
      the state before the last change ([LogSpec.v]); on both databases, which
      meet the contract of [Snapshots.v], what a run of commits leaves
      ([StateRuns.v]) determines what [get_transactional_state] returns for the
      identifier after any of them: what none of the commits changed is as at
      the identifier ([storage_state_unchanged], [StateCorrect.v]).
    - A commit whose writes the database refuses ([CommitErrors.v]), and an insertion
      during which it fails to read ([ReadErrors.v]).
    - Databases: [HashMapDb] refines a map; RocksDB meets the same contract,
      agrees with it, and its transactions, snapshots and read errors
      ([RocksSpec.v], with runs in [RocksRuns.v]); a storage on a database that
      [create_rocks_db] opens answers as its maps ([RocksOpen.v]).
    - The dumps end without panic and show every node and entry once ([Dump.v]).
    - The repository's tests run on the model: the unit tests by evaluation,
      with the same node indices as in the code ([Tests.v]), the random
      sequences of seeks for every sequence, and the property test for every
      sequence of steps the trie follows, at every height ([TestCorrect.v]).
    - Codecs and identifiers ([Path.v], [Id.v]).

    [Witnesses.v] applies each theorem that has hypotheses at a concrete input.
    [Findings.v] runs the model where the code does not do what it means to, and
    [FaultFindings.v] where the database fails.

    ** Assumptions

    - The writes of a commit window are those the trie follows ([window],
      [write_ok]): a key may be written any number of times, but a pending value
      is not replaced by another one, and the committed value of a removed key
      is not restored. The other writes are mishandled, against the documentation
      of [insert] ([set_twice_root], [remove_reinsert_lost], [Findings.v]):
      [MerkleTree_set_irregular] ([TreeCorrect.v]) says that they reach the
      leaves at most, not the trie. A window that writes each key at most once satisfies this
      ([window_once]).
    - The identifiers in use are [identifier_safe] and [separated] (and [apart],
      for listing): identifier and path are concatenated without a separator,
      and a split edge enters the death row without its identifier. Identifiers
      of one length that start with a byte above the height satisfy all three.
    - Hashes: a theorem about proofs or about equal root hashes has the
      alternative that two different nodes have the same hash, or a forged node
      has the hash of another; nothing is assumed of the hash function.
    - A past state is asked for with the identifier after some consecutive
      commits ([numbered]), the first of which took the oldest snapshot, while the
      database keeps that snapshot ([has_room]) and their logs ([outside]). The
      documentation means the state at the identifier; the code agrees with it on
      what did not change since before the first of these commits. What it
      returns for the rest is a finding, which [storage_state_before_snapshot]
      and [storage_later_state] describe in full: each key as before the last of
      these commits that changed it. Without the logs the state is wrong, without
      an error ([expired_log_ignored], [Findings.v]).
    - Writes that fail leave the database as it was, which is how RocksDB writes
      a batch; that of [HashMapDb] cannot fail.
    - Heights are between 1 and 255 bits (a length is stored in one byte).

    ** Fuel

    [compute_hashes] and [commit_subtree] recurse from a node in memory to its
    children in memory: [tree_fuel], one more than the number of nodes in the
    slot map, is enough because the nodes in memory form a tree. The traversal
    advances by at least one bit per step: it has two more steps than the key
    has bits. [verify_loop] does not advance at an edge without bits; if it met
    more of these at one place than the proof has nodes it would meet one again
    and never return, so that [verify_fuel] is enough for every run that ends.
    The dump of a tree has the fuel of its hashing; that of a database has one
    more step than a column has entries. Theorems state that the actions return,
    so that none holds for lack of fuel.

    ** Not modelled

    The [Debug] implementations that print the fields of a struct, and the text
    of the lines of a dump, which only format; the [Clone] implementations of the
    benches, which copy the fields. The other integration tests: they compare
    with hashes of Pedersen, which is not in the repository, or repeat those
    modelled, and those of [merge] and the rest of transactional states are
    disabled in [src/src/tests/mod.rs] and call what is not implemented. The benches and the [no_std] check,
    which build the crate. The parallel hashing of two subtrees and the
    parallel collection of the trees' updates are the sequential calls: they
    share nothing that either writes. *)
From Stdlib Require Export ZArith Lia String ZifyNat ZifyBool.
From stdpp Require Export base tactics option list list_numbers gmap fin_maps sets numbers strings.

#[export] Set Warnings "-clear-no-such-hyp".

#[global] Open Scope Z_scope.
#[global] Open Scope nat_scope.

(** ** Machine data

    [u8] values are integers of [0, 256); a [ByteVec] (SmallVec<[u8; 32]>) is
    the list of its bytes and a [BitVec]/[BitSlice] (Msb0 over u8) the list of
    its bits, most significant first. *)
Abbreviation u8 := Z (only parsing).
Abbreviation ByteVec := (list Z) (only parsing).
Abbreviation BitVec := (list bool) (only parsing).

Definition is_u8 (b : Z) : Prop := (0 <= b < 256)%Z.

(** [x as u8] of an unsigned value. *)
Definition as_u8 (x : Z) : Z := (x mod 256)%Z.

(** [x as u64] of an unsigned value. *)
Definition as_u64 (x : Z) : Z := (x mod 2 ^ 64)%Z.

(** ** Results

    What a call of the program can do: return [Ok], return [Err], panic
    (with the message it panics with), or, only in the model, exhaust the
    fuel of a loop or recursion that is not structural. *)
Inductive outcome (E A : Type) : Type :=
| Ok (a : A)
| Err (e : E)
| Panic (why : string)
| NoFuel.
Arguments Ok {E A} a.
Arguments Err {E A} e.
Arguments Panic {E A} why.
Arguments NoFuel {E A}.

#[export] Instance outcome_ret {E} : MRet (outcome E) := fun A a => Ok a.
#[export] Instance outcome_bind {E} : MBind (outcome E) := fun A B f m =>
  match m with
  | Ok a => f a
  | Err e => Err e
  | Panic w => Panic w
  | NoFuel => NoFuel
  end.
#[export] Instance outcome_fmap {E} : FMap (outcome E) := fun A B f m =>
  m ≫= fun a => Ok (f a).

(** [Result::map_err] and the [From] conversion behind the [?] operator. *)
Definition map_err {E E' A} (f : E -> E') (m : outcome E A) : outcome E' A :=
  match m with
  | Ok a => Ok a
  | Err e => Err (f e)
  | Panic w => Panic w
  | NoFuel => NoFuel
  end.

(** A call whose return type has no error. *)
Definition no_err {E A} (m : outcome Empty_set A) : outcome E A :=
  map_err (fun e : Empty_set => match e with end) m.

(** [Option::ok_or]. *)
Definition ok_or {E A} (o : option A) (e : E) : outcome E A :=
  match o with Some a => Ok a | None => Err e end.

(** [Option::expect] / [Result::unwrap]. *)
Definition expect {E A} (o : option A) (why : string) : outcome E A :=
  match o with Some a => Ok a | None => Panic why end.
Definition unwrap {E E' A} (m : outcome E A) : outcome E' A :=
  match m with
  | Ok a => Ok a
  | Err _ => Panic "called `Result::unwrap()` on an `Err` value"
  | Panic w => Panic w
  | NoFuel => NoFuel
  end.

(** ** Methods on [&mut self]

    A method that mutates a state [S] and may fail. The state survives an
    [Err]: Rust's [?] returns early and keeps the mutations made so far. *)
Definition action (S E A : Type) : Type := S -> S * outcome E A.

#[export] Instance action_ret {S E} : MRet (action S E) := fun A a s => (s, Ok a).
#[export] Instance action_bind {S E} : MBind (action S E) := fun A B f m s =>
  match m s with
  | (s', Ok a) => f a s'
  | (s', Err e) => (s', Err e)
  | (s', Panic w) => (s', Panic w)
  | (s', NoFuel) => (s', NoFuel)
  end.

#[export] Instance action_fmap {S E} : FMap (action S E) := fun A B f m => m ≫= fun a => mret (f a).

Definition lift {S E A} (m : outcome E A) : action S E A := fun s => (s, m).
Definition gets {S E A} (f : S -> A) : action S E A := fun s => (s, Ok (f s)).
Definition modify {S E} (f : S -> S) : action S E unit := fun s => (f s, Ok tt).
Definition throw {S E A} (e : E) : action S E A := lift (Err e).
Definition panic {S E A} (why : string) : action S E A := lift (Panic why).

(** Run an action on a part of the state (a field borrowed mutably). *)
Definition zoom {S T E A} (get : S -> T) (put : T -> S -> S) (m : action T E A) : action S E A :=
  fun s => let '(t, r) := m (get s) in (put t s, r).

(** A [for] loop whose body mutates the state and may return early. *)
Fixpoint for_each {S E A} (l : list A) (body : A -> action S E unit) : action S E unit :=
  match l with
  | [] => mret tt
  | a :: l => body a ≫= fun _ => for_each l body
  end.

Lemma bind_ok {S E A B} (m : action S E A) (f : A -> action S E B) s s' a :
  m s = (s', Ok a) -> (m ≫= f) s = f a s'.
Proof. intros H. unfold mbind, action_bind. by rewrite H. Qed.

Lemma bind_ret {S E A B} (a : A) (f : A -> action S E B) s : (mret a ≫= f) s = f a s.
Proof. done. Qed.

Lemma for_each_cons_ok {S E A} (a : A) l (body : A -> action S E unit) s s' :
  body a s = (s', Ok tt) -> for_each (a :: l) body s = for_each l body s'.
Proof. intros H. simpl. by erewrite bind_ok. Qed.

Lemma for_each_app {S E A} l1 l2 (body : A -> action S E unit) s :
  for_each (l1 ++ l2) body s = (for_each l1 body ≫= fun _ => for_each l2 body) s.
Proof.
  revert s. induction l1 as [|a l1 IH]; intros s; [done|]. cbn [for_each app]. unfold mbind, action_bind in *.
  destruct (body a s) as [s1 [[]| | |]]; done.
Qed.

Lemma for_each_app_ok {S E A} l1 l2 (body : A -> action S E unit) s s' :
  for_each l1 body s = (s', Ok tt) -> for_each (l1 ++ l2) body s = for_each l2 body s'.
Proof.
  intros H. rewrite for_each_app. by rewrite (bind_ok _ _ _ _ _ H).
Qed.

(** Invariant rule for a loop whose body always succeeds. *)
Lemma for_each_inv {S E A} (P : list A -> S -> Prop) l (body : A -> action S E unit) s :
  (forall pre a post s, l = pre ++ a :: post -> P pre s ->
     exists s', body a s = (s', Ok tt) /\ P (pre ++ [a]) s') ->
  P [] s -> exists s', for_each l body s = (s', Ok tt) /\ P l s'.
Proof.
  intros Hbody. assert (forall suf pre s, l = pre ++ suf -> P pre s ->
    exists s', for_each suf body s = (s', Ok tt) /\ P l s') as Hgen.
  { induction suf as [|a suf IH]; intros pre s0 Hl HP.
    - rewrite app_nil_r in Hl. subst. by exists s0.
    - destruct (Hbody pre a suf s0 Hl HP) as (s1 & Hs1 & HP1).
      rewrite (for_each_cons_ok _ _ _ _ _ Hs1). apply (IH (pre ++ [a])); [|done].
      by rewrite <- app_assoc. }
  intros HP. by apply (Hgen l []).
Qed.

(** ** Total correctness of actions

    [wp m s Q]: run from [s], the action returns [Ok] (it neither fails, panics
    nor exhausts its fuel) in a state and with a value that satisfy [Q]. *)
Definition wp {S E A} (m : action S E A) (s : S) (Q : S -> A -> Prop) : Prop :=
  exists s' a, m s = (s', Ok a) /\ Q s' a.

Section Wp.
Context {S T E A B : Type}.
Implicit Types (m : action S E A) (Q : S -> A -> Prop).

Lemma wp_mono m s Q Q' : (forall s' a, Q s' a -> Q' s' a) -> wp m s Q -> wp m s Q'.
Proof. intros HQ (s' & a & Hm & H). exists s', a. auto. Qed.

Lemma wp_bind m (f : A -> action S E B) s (Q : S -> B -> Prop) :
  wp m s (fun s' a => wp (f a) s' Q) -> wp (m ≫= f) s Q.
Proof. intros (s' & a & Hm & Hf). unfold wp in *. by rewrite (bind_ok _ _ _ _ _ Hm). Qed.

Lemma wp_ret a s Q : Q s a -> wp (E := E) (mret a) s Q.
Proof. by exists s, a. Qed.

Lemma wp_lift (o : outcome E A) a s Q : o = Ok a -> Q s a -> wp (lift o) s Q.
Proof. intros ->. by exists s, a. Qed.

Lemma wp_gets (f : S -> A) s Q : Q s (f s) -> wp (E := E) (gets f) s Q.
Proof. by exists s, (f s). Qed.

Lemma wp_modify (f : S -> S) s (Q : S -> unit -> Prop) : Q (f s) tt -> wp (modify (E := E) f) s Q.
Proof. by exists (f s), tt. Qed.

Lemma wp_zoom (get : S -> T) (put : T -> S -> S) (m : action T E A) s Q :
  wp m (get s) (fun t a => Q (put t s) a) -> wp (zoom get put m) s Q.
Proof. intros (t & a & Hm & H). exists (put t s), a. split; [|done]. unfold zoom. by rewrite Hm. Qed.

Lemma wp_fmap m (f : A -> B) s (Q : S -> B -> Prop) :
  wp m s (fun s' a => Q s' (f a)) -> wp (f <$> m) s Q.
Proof. intros H. apply wp_bind. eapply wp_mono; [|done]. intros s' a HQ. by exists s', (f a). Qed.
End Wp.

Lemma wp_for_each_app {S E A} l1 l2 (body : A -> action S E unit) s (Q : S -> unit -> Prop) :
  wp (for_each l1 body) s (fun s' _ => wp (for_each l2 body) s' Q) -> wp (for_each (l1 ++ l2) body) s Q.
Proof. intros Hl. unfold wp. rewrite for_each_app. by apply wp_bind. Qed.

(** Facts the specifications of the components share. *)
Create HintDb bonsai.

(** One step of a [wp] goal whose action is a bind of a primitive. *)
Ltac wp_step :=
  cbn beta iota;
  lazymatch goal with
  | |- wp (mbind _ _) _ _ => apply wp_bind
  | |- wp (mret _) _ _ => apply wp_ret
  | |- wp (gets _) _ _ => apply wp_gets
  | |- wp (modify _) _ _ => apply wp_modify
  | |- wp (zoom _ _ _) _ _ => apply wp_zoom
  | |- wp (fmap _ _) _ _ => apply wp_fmap
  | |- wp (lift _) _ _ => eapply wp_lift; [done|]
  end.

(** Apply the specification of the action and go on with its postcondition. *)
Tactic Notation "wp_apply" uconstr(spec) :=
  eapply wp_mono; [|first [by apply spec|by eapply spec]]; cbn beta.

(** Linear arithmetic with constant divisions and remainders. *)
Ltac div_lia := zify; Z.to_euclidean_division_equations; lia.

(** Extracting a bit with a shift and a mask. *)
Lemma shiftr_land_1 x i : (0 <= i)%Z -> (Z.land (Z.shiftr x i) 1 =? 1)%Z = Z.testbit x i.
Proof.
  intros Hi. change 1%Z with (Z.ones 1) at 1.
  rewrite Z.land_ones, Z.shiftr_div_pow2 by lia. change (2 ^ 1)%Z with 2%Z.
  rewrite <- Z.testbit_spec' by lia. by destruct (Z.testbit x i).
Qed.

Lemma elem_of_option_list {A} (x : A) o : x ∈ option_list o <-> o = Some x.
Proof. destruct o; cbn; set_solver. Qed.
