(* ===== verification/Path.v ===== *)
(** * Paths and their byte encodings

    Models [src/src/trie/path.rs] ([Path], its SCALE [Encode]/[Decode], the
    conversions to database keys) and the two key conversions of
    [src/src/trie/tree.rs] ([bitslice_to_bytes], [bytes_to_bitvec]).

    A [BitVec] of the [bitvec] crate with [Msb0] order over [u8] is the list of
    its bits; [bits_to_bytes] is its storage (bit [i] is bit [7 - i mod 8] of
    byte [i / 8]; the unused low bits of the last byte of a fresh copy are
    zero), which is what [as_raw_slice] shows of [to_bitvec], and
    [bytes_to_bits] is [BitSlice::from_slice]. Slices start at bit 0. *)
From S2P Require Import Prelude.

(** ** Msb0 bit storage *)

(** The byte whose high bits are [l], padded with zero bits. *)
Fixpoint byte_of_bits_from (w : Z) (l : BitVec) : Z :=
  match l with
  | [] => 0
  | b :: l => ((if b then w else 0) + byte_of_bits_from (w / 2) l)%Z
  end.
Definition byte_of_bits (l : BitVec) : Z := byte_of_bits_from 128 l.

Fixpoint bits_to_bytes (l : BitVec) : ByteVec :=
  match l with
  | [] => []
  | b7 :: b6 :: b5 :: b4 :: b3 :: b2 :: b1 :: b0 :: rest =>
      byte_of_bits [b7; b6; b5; b4; b3; b2; b1; b0] :: bits_to_bytes rest
  | short => [byte_of_bits short]
  end.

Definition bits_of_byte (s : Z) : BitVec :=
  (Z.testbit s) <$> [7; 6; 5; 4; 3; 2; 1; 0]%Z.

Definition bytes_to_bits (bs : ByteVec) : BitVec := bs ≫= bits_of_byte.

(** ** [impl Encode for Path]

    The loop state of [encode_to]: the output, [next_store] and
    [pos_in_next_store]. *)
Record EncodeState := mkEncodeState {
  dest : ByteVec;
  next_store : Z;
  pos_in_next_store : Z;
}.

Definition Path_encode_bit (st : EncodeState) (b : bool) : EncodeState :=
  let bit := if b then 1%Z else 0%Z in
  let next_store := Z.lor st.(next_store) (as_u8 (Z.shiftl bit st.(pos_in_next_store))) in
  if (st.(pos_in_next_store) =? 0)%Z
  then mkEncodeState (st.(dest) ++ [next_store]) 0 (8 - 1)
  else mkEncodeState st.(dest) next_store (st.(pos_in_next_store) - 1).

Definition Path_encode (self : BitVec) : ByteVec :=
  let len := length self in
  let st := fold_left Path_encode_bit self (mkEncodeState [as_u8 (Z.of_nat len)] 0 7) in
  if (st.(pos_in_next_store) <? 7)%Z then st.(dest) ++ [st.(next_store)] else st.(dest).

Definition Path_size_hint (self : BitVec) : nat := 1 + (length self + 7) / 8.

(** ** [impl Decode for Path] *)

(** Errors of the codec carry a description. *)
Definition CodecError : Type := string.

(** [Input::read_byte] of a byte slice. *)
Definition read_byte (input : ByteVec) : outcome CodecError (Z * ByteVec) :=
  match input with
  | [] => Err "Not enough data to fill buffer"%string
  | b :: input => Ok (b, input)
  end.

Fixpoint Path_decode_bits (remaining_bits : nat) (current_byte : option Z) (bit : Z)
    (bits : BitVec) (input : ByteVec) : outcome CodecError (BitVec * ByteVec) :=
  match remaining_bits with
  | 0 => Ok (bits, input)
  | S remaining_bits =>
      '(store, input) ← (match current_byte with
                         | Some store => Ok (store, input)
                         | None => read_byte input
                         end);
      let bits := bits ++ [(Z.land (Z.shiftr store bit) 1 =? 1)%Z] in
      if (bit =? 0)%Z
      then Path_decode_bits remaining_bits None (8 - 1) bits input
      else Path_decode_bits remaining_bits (Some store) (bit - 1) bits input
  end.

Definition Path_decode (input : ByteVec) : outcome CodecError (BitVec * ByteVec) :=
  '(len, input) ← read_byte input;
  Path_decode_bits (Z.to_nat len) None 7 [] input.

(** ** Keys of leaves *)
Definition bitslice_to_bytes (bitslice : BitVec) : ByteVec :=
  match bitslice with
  | [] => []
  | _ => as_u8 (Z.of_nat (length bitslice)) :: bits_to_bytes bitslice
  end.

(** [&bytes[1..]] panics on an empty slice. *)
Definition bytes_to_bitvec {E} (bytes : ByteVec) : outcome E BitVec :=
  match bytes with
  | [] => Panic "range start index 1 out of range for slice of length 0"
  | _ :: raw => Ok (bytes_to_bits raw)
  end.

(** ** Lemmas *)

(** Induction over a bit list, a byte at a time. *)
Lemma bits_ind8 (P : BitVec -> Prop) :
  (forall l, length l < 8 -> P l) ->
  (forall c l, length c = 8 -> P l -> P (c ++ l)) ->
  forall l, P l.
Proof.
  intros Hs Hc l. remember (length l) as n eqn:Hn. revert l Hn.
  induction n as [n IH] using lt_wf_ind. intros l ->.
  destruct (decide (length l < 8)) as [?|Hlen]; [by apply Hs|].
  rewrite <- (take_drop 8 l). apply Hc; [rewrite length_take; lia|].
  eapply (IH (length (drop 8 l))); [rewrite length_drop; lia|done].
Qed.

(** Checking a decidable property of chunks by enumerating them. *)
Fixpoint chunks_upto (n : nat) : list BitVec :=
  match n with
  | 0 => [[]]
  | S n => [] :: ((cons true) <$> chunks_upto n) ++ ((cons false) <$> chunks_upto n)
  end.

Lemma elem_of_chunks_upto n l : length l <= n -> l ∈ chunks_upto n.
Proof.
  revert l. induction n as [|n IH]; intros [|b l] Hl; simpl in *; try lia; [set_solver..|].
  apply elem_of_cons. right. apply elem_of_app.
  destruct b; [left|right]; apply list_elem_of_fmap_2; apply IH; lia.
Qed.

Lemma chunk_check (P : BitVec -> Prop) `{!forall l, Decision (P l)} :
  forallb (fun l => bool_decide (P l)) (chunks_upto 8) = true ->
  forall l, length l <= 8 -> P l.
Proof.
  intros Hall l Hl. eapply bool_decide_eq_true_1.
  rewrite forallb_forall in Hall. apply (Hall l).
  apply list_elem_of_In. by apply elem_of_chunks_upto.
Qed.

Ltac by_chunks :=
  lazymatch goal with
  | |- forall l, length l <= 8 -> @?P l =>
      unshelve refine (@chunk_check P _ _);
      [intros; cbv beta; unfold is_u8; apply _ ..|by vm_compute]
  end.

Lemma bits_to_bytes_chunk c l : length c = 8 -> bits_to_bytes (c ++ l) = byte_of_bits c :: bits_to_bytes l.
Proof. intros H. do 8 (destruct c as [|? c]; [done|]). by destruct c. Qed.

Lemma bits_to_bytes_short l : 0 < length l < 8 -> bits_to_bytes l = [byte_of_bits l].
Proof. intros H. do 8 (destruct l as [|? l]; simpl in *; try lia; try done). Qed.

Lemma length_bits_to_bytes l : length (bits_to_bytes l) = (length l + 7) / 8.
Proof.
  induction l as [l Hl|c l Hc IH] using bits_ind8.
  - destruct (decide (length l = 0)) as [H0|H0]; [by destruct l|].
    rewrite bits_to_bytes_short by lia. change (1 = (length l + 7) / 8). div_lia.
  - rewrite bits_to_bytes_chunk by done. cbn [length]. rewrite IH, length_app. div_lia.
Qed.

Lemma byte_of_bits_u8 l : length l <= 8 -> is_u8 (byte_of_bits l).
Proof. revert l. by_chunks. Qed.

Lemma bits_of_byte_of_bits l :
  length l <= 8 -> bits_of_byte (byte_of_bits l) = l ++ replicate (8 - length l) false.
Proof. revert l. by_chunks. Qed.

Lemma bytes_to_bits_cons b bs : bytes_to_bits (b :: bs) = bits_of_byte b ++ bytes_to_bits bs.
Proof. done. Qed.

(** The storage holds the bits, padded to a whole number of bytes. *)
Lemma bytes_to_bits_to_bytes l :
  bytes_to_bits (bits_to_bytes l) = l ++ replicate (8 * ((length l + 7) / 8) - length l) false.
Proof.
  induction l as [l Hl|c l Hc IH] using bits_ind8.
  - destruct (decide (length l = 0)) as [H0|H0]; [by destruct l|].
    rewrite bits_to_bytes_short by lia.
    rewrite bytes_to_bits_cons, bits_of_byte_of_bits by lia. cbn. rewrite app_nil_r.
    do 2 f_equal. change (8 - length l = 8 * ((length l + 7) / 8) - length l). div_lia.
  - rewrite bits_to_bytes_chunk, bytes_to_bits_cons, bits_of_byte_of_bits, Hc, IH by lia.
    change (replicate (8 - 8) false) with (@nil bool).
    rewrite app_nil_r, length_app, <- app_assoc. do 3 f_equal. div_lia.
Qed.

(** *** The encoder loop *)

#[export] Instance EncodeState_eq_dec : EqDecision EncodeState.
Proof. solve_decision. Defined.

Lemma Path_encode_bits_dest out l o n p :
  fold_left Path_encode_bit l (mkEncodeState (out ++ o) n p) =
  let st := fold_left Path_encode_bit l (mkEncodeState o n p) in
  mkEncodeState (out ++ st.(dest)) st.(next_store) st.(pos_in_next_store).
Proof.
  revert o n p. induction l as [|b l IH]; intros o n p; [done|].
  cbn [fold_left].
  replace (Path_encode_bit (mkEncodeState (out ++ o) n p) b) with
    (let st := Path_encode_bit (mkEncodeState o n p) b in
     mkEncodeState (out ++ st.(dest)) st.(next_store) st.(pos_in_next_store)).
  - cbn zeta. destruct (Path_encode_bit (mkEncodeState o n p) b). apply IH.
  - unfold Path_encode_bit. cbn [pos_in_next_store next_store dest].
    destruct (p =? 0)%Z; cbn; [by rewrite app_assoc|done].
Qed.

Lemma Path_encode_bits_chunk out c :
  length c = 8 ->
  fold_left Path_encode_bit c (mkEncodeState out 0 7) = mkEncodeState (out ++ [byte_of_bits c]) 0 7.
Proof.
  intros Hc. rewrite <- (app_nil_r out) at 1. rewrite Path_encode_bits_dest.
  assert (length c = 8 ->
    fold_left Path_encode_bit c (mkEncodeState [] 0 7) = mkEncodeState [byte_of_bits c] 0 7) as Hnil.
  { assert (Hc' : length c <= 8) by lia. clear Hc. revert c Hc'. by_chunks. }
  by rewrite Hnil.
Qed.

Lemma Path_encode_bits_short out l :
  length l < 8 ->
  fold_left Path_encode_bit l (mkEncodeState out 0 7) =
  mkEncodeState out (byte_of_bits l) (7 - Z.of_nat (length l)).
Proof.
  intros Hl. rewrite <- (app_nil_r out) at 1. rewrite Path_encode_bits_dest.
  assert (length l < 8 ->
    fold_left Path_encode_bit l (mkEncodeState [] 0 7) =
    mkEncodeState [] (byte_of_bits l) (7 - Z.of_nat (length l))) as Hnil.
  { assert (Hl' : length l <= 8) by lia. clear Hl. revert l Hl'. by_chunks. }
  rewrite Hnil by done. cbn. by rewrite app_nil_r.
Qed.

Lemma Path_encode_bits_eq out l :
  let st := fold_left Path_encode_bit l (mkEncodeState out 0 7) in
  (if (st.(pos_in_next_store) <? 7)%Z then st.(dest) ++ [st.(next_store)] else st.(dest)) =
  out ++ bits_to_bytes l.
Proof.
  revert out. induction l as [l Hl|c l Hc IH] using bits_ind8; intros out.
  - rewrite Path_encode_bits_short by done. cbn [pos_in_next_store next_store dest].
    destruct (decide (length l = 0)) as [H0|H0].
    + destruct l; [|done]. by rewrite app_nil_r.
    + rewrite bits_to_bytes_short by lia. by replace (_ <? 7)%Z with true by lia.
  - rewrite fold_left_app, Path_encode_bits_chunk by done. cbn zeta. rewrite IH.
    by rewrite bits_to_bytes_chunk, <- app_assoc by done.
Qed.

(** The encoder writes the length byte and then the packed bits. *)
Lemma Path_encode_eq p : Path_encode p = as_u8 (Z.of_nat (length p)) :: bits_to_bytes p.
Proof. unfold Path_encode. by rewrite Path_encode_bits_eq. Qed.

(** *** The decoder loop *)

Lemma Path_decode_bits_chunk n s bits input :
  Path_decode_bits (8 + n) None 7 bits (s :: input) =
  Path_decode_bits n None 7 (bits ++ bits_of_byte s) input.
Proof.
  cbn -[Z.land Z.shiftr]. rewrite <- !app_assoc. cbn -[Z.land Z.shiftr].
  unfold bits_of_byte. cbn -[Z.land Z.shiftr Z.testbit]. by rewrite !shiftr_land_1 by lia.
Qed.

Lemma Path_decode_bits_short n s bits input :
  0 < n < 8 ->
  Path_decode_bits n None 7 bits (s :: input) = Ok (bits ++ take n (bits_of_byte s), input).
Proof.
  intros Hn. assert (n ∈ [1; 2; 3; 4; 5; 6; 7]) as Hin.
  { rewrite !elem_of_cons. lia. }
  clear Hn. revert n Hin. rewrite <- Forall_forall. repeat constructor.
  all: cbn -[Z.land Z.shiftr]; rewrite <- ?app_assoc; cbn -[Z.land Z.shiftr].
  all: by rewrite !shiftr_land_1 by lia.
Qed.

Lemma Path_decode_bits_packed p bits rest :
  Path_decode_bits (length p) None 7 bits (bits_to_bytes p ++ rest) = Ok (bits ++ p, rest).
Proof.
  revert bits. induction p as [p Hp|c p Hc IH] using bits_ind8; intros bits.
  - destruct (decide (length p = 0)) as [H0|H0].
    + destruct p; [|done]. by rewrite app_nil_r.
    + rewrite bits_to_bytes_short by lia. cbn [app].
      rewrite Path_decode_bits_short, bits_of_byte_of_bits by lia.
      by rewrite take_app_length.
  - rewrite bits_to_bytes_chunk, length_app, Hc by done. cbn [app].
    rewrite Path_decode_bits_chunk, IH, bits_of_byte_of_bits, Hc by lia.
    rewrite <- app_assoc. by rewrite app_nil_r.
Qed.

(** *** Consequences of the layout *)

Lemma as_u8_small n : n <= 255 -> as_u8 (Z.of_nat n) = Z.of_nat n.
Proof. intros H. unfold as_u8. rewrite Z.mod_small; lia. Qed.

Lemma Path_decode_encode_app p rest :
  length p <= 255 -> Path_decode (Path_encode p ++ rest) = Ok (p, rest).
Proof.
  intros Hp. rewrite Path_encode_eq, as_u8_small by done.
  unfold Path_decode. cbn. rewrite Nat2Z.id. apply Path_decode_bits_packed.
Qed.

(** Encodings are prefix-free. *)
Lemma Path_encode_app_inj p q r s :
  length p <= 255 -> length q <= 255 ->
  Path_encode p ++ r = Path_encode q ++ s -> p = q /\ r = s.
Proof.
  intros Hp Hq H. pose proof (Path_decode_encode_app p r Hp) as H1.
  rewrite H, Path_decode_encode_app in H1 by done. by simplify_eq.
Qed.

Lemma Path_encode_inj p q :
  length p <= 255 -> length q <= 255 -> Path_encode p = Path_encode q -> p = q.
Proof.
  intros Hp Hq H. apply (Path_encode_app_inj p q [] []); [done..|].
  by rewrite !app_nil_r.
Qed.

(** A leaf key and the path of a node share their encoding, the root apart. *)
Lemma bitslice_to_bytes_eq k : k <> [] -> bitslice_to_bytes k = Path_encode k.
Proof. intros Hk. rewrite Path_encode_eq. by destruct k. Qed.

Lemma Path_encode_nil : Path_encode [] = [0%Z].
Proof. done. Qed.

Lemma bitslice_to_bytes_inj k1 k2 :
  length k1 <= 255 -> length k2 <= 255 -> bitslice_to_bytes k1 = bitslice_to_bytes k2 -> k1 = k2.
Proof.
  intros H1 H2. destruct k1 as [|b1 k1], k2 as [|b2 k2]; [done..|].
  rewrite !bitslice_to_bytes_eq by done. by apply Path_encode_inj.
Qed.

(** ** Properties of the encodings *)

Lemma Path_decode_bits_truncated n bits input :
  8 * length input < n -> exists e, Path_decode_bits n None 7 bits input = Err e.
Proof.
  revert n bits. induction input as [|s input IH]; intros n bits Hn; cbn [length] in Hn.
  - destruct n as [|n]; [lia|]. by eexists.
  - replace n with (8 + (n - 8)) by lia. rewrite Path_decode_bits_chunk. apply IH. lia.
Qed.

(** C38 The SCALE codec of paths is a round trip: decoding the encoding of a path
    of at most 255 bits, whatever follows it, returns the path and what follows. *)
Theorem Path_decode_encode p rest :
  length p <= 255 -> Path_decode (Path_encode p ++ rest) = Ok (p, rest).
Proof. apply Path_decode_encode_app. Qed.

(** The encoding takes the number of bytes [size_hint] announces, and every
    element of it is a byte. *)
Theorem Path_encode_size p : length (Path_encode p) = Path_size_hint p /\ Forall is_u8 (Path_encode p).
Proof.
  rewrite Path_encode_eq. split; [cbn [length]; by rewrite length_bits_to_bytes|].
  apply Forall_cons. split; [unfold is_u8, as_u8; apply Z.mod_pos_bound; lia|].
  induction p as [p Hp|c p Hc IH] using bits_ind8.
  - destruct (decide (length p = 0)); [by destruct p|].
    rewrite bits_to_bytes_short by lia. constructor; [apply byte_of_bits_u8; lia|constructor].
  - rewrite bits_to_bytes_chunk by done. constructor; [apply byte_of_bits_u8; lia|done].
Qed.

(** C39 The encodings of paths are prefix-free, hence two nodes of a trie never
    have database keys of which one is a prefix of the other. *)
Theorem Path_encode_prefix_free p q :
  length p <= 255 -> length q <= 255 -> Path_encode p `prefix_of` Path_encode q -> p = q.
Proof.
  intros Hp Hq [r Hr]. apply (Path_encode_app_inj p q r []); [done..|]. by rewrite app_nil_r.
Qed.

(** A truncated encoding does not decode: the decoder reports an error on
    every proper prefix of the encoding of a path. *)
Theorem Path_decode_truncated p bs :
  length p <= 255 -> bs `prefix_of` Path_encode p -> bs <> Path_encode p ->
  exists e, Path_decode bs = Err e.
Proof.
  intros Hp [r Hr] Hne. rewrite Path_encode_eq, as_u8_small in Hr, Hne by done.
  destruct bs as [|b bs]; [by eexists|]. cbn in Hr. injection Hr as <- Hr.
  unfold Path_decode. cbn [read_byte mbind outcome_bind]. rewrite Nat2Z.id.
  apply Path_decode_bits_truncated.
  assert (length (bits_to_bytes p) = length bs + length r) as Hl by by rewrite Hr, length_app.
  rewrite length_bits_to_bytes in Hl. assert (0 < length r) as Hr0.
  { destruct r; [|cbn; lia]. by rewrite app_nil_r in Hr; subst. }
  assert ((length p + 7) / 8 * 8 <= length p + 7) by (rewrite Nat.mul_comm; apply Nat.Div0.mul_div_le). lia.
Qed.

(** [bytes_to_bitvec] forgets the length that [bitslice_to_bytes] records: it
    returns the key padded with zeros to a whole number of bytes, so it inverts
    [bitslice_to_bytes] only on keys of whole bytes. *)
Theorem bytes_to_bitvec_bitslice_to_bytes {E} k :
  k <> [] ->
  bytes_to_bitvec (E := E) (bitslice_to_bytes k) = Ok (k ++ replicate (8 * ((length k + 7) / 8) - length k) false) /\
  (bytes_to_bitvec (E := E) (bitslice_to_bytes k) = Ok k <-> length k mod 8 = 0).
Proof.
  intros Hk. assert (bytes_to_bitvec (E := E) (bitslice_to_bytes k) =
    Ok (k ++ replicate (8 * ((length k + 7) / 8) - length k) false)) as Heq.
  { destruct k as [|b k]; [done|]. unfold bytes_to_bitvec, bitslice_to_bytes.
    by rewrite bytes_to_bits_to_bytes. }
  split; [done|]. rewrite Heq. split.
  - intros Hok. assert (k ++ replicate (8 * ((length k + 7) / 8) - length k) false = k) as Happ by congruence.
    apply (f_equal length) in Happ. rewrite length_app, length_replicate in Happ.
    assert (8 * ((length k + 7) / 8) - length k = 0) as Hz by lia. clear -Hz. div_lia.
  - intros Hm. f_equal. replace (8 * ((length k + 7) / 8) - length k) with 0; [apply app_nil_r|].
    clear -Hm. div_lia.
Qed.
