(* ===== verification/Id.v ===== *)
(** * Commit identifiers

    Models [src/src/id.rs]: the [Id] trait, [BasicId] and [BasicIdBuilder]. *)
From S2P Require Import Prelude.
From stdpp Require Import sorting pretty.

(** [trait Id: Hash + Ord + Debug + Copy + Default]; [Id_ltb] is [<] of [Ord],
    [id_debug] is [{:?}]. *)
Class Id (ID : Type) := {
  Id_eq_dec :: EqDecision ID;
  Id_ltb : ID -> ID -> bool;
  Id_default : ID;
  id_debug : ID -> string;
  to_bytes : ID -> ByteVec;
  id_as_u64 : ID -> Z;
  from_u64 : Z -> ID;
}.

(** What the storage relies on: valid identifiers are the 64-bit integers, in
    their order, and their byte strings have one length and tell them apart. *)
Class LawfulId (ID : Type) `{Id ID} := {
  id_wf : ID -> Prop;
  id_as_u64_range : forall i, id_wf i -> (0 <= id_as_u64 i < 2 ^ 64)%Z;
  from_u64_wf : forall v, (0 <= v < 2 ^ 64)%Z -> id_wf (from_u64 v);
  from_u64_as_u64 : forall i, id_wf i -> from_u64 (id_as_u64 i) = i;
  id_as_u64_from_u64 : forall v, (0 <= v < 2 ^ 64)%Z -> id_as_u64 (from_u64 v) = v;
  Id_ltb_lt : forall i j, id_wf i -> id_wf j -> Id_ltb i j = (id_as_u64 i <? id_as_u64 j)%Z;
  to_bytes_inj : forall i j, id_wf i -> id_wf j -> to_bytes i = to_bytes j -> i = j;
  to_bytes_length : forall i j, id_wf i -> id_wf j -> length (to_bytes i) = length (to_bytes j);
}.

(** ** [BasicId] *)
Record BasicId := mkBasicId { BasicId_0 : Z }.

Definition BasicId_new (id : Z) : BasicId := mkBasicId id.

(** [u64::to_be_bytes]. *)
Definition to_be_bytes (v : Z) : ByteVec :=
  (fun i => as_u8 (Z.shiftr v i)) <$> [56; 48; 40; 32; 24; 16; 8; 0]%Z.

Definition BasicId_to_bytes (self : BasicId) : ByteVec := to_be_bytes self.(BasicId_0).
Definition BasicId_as_u64 (self : BasicId) : Z := self.(BasicId_0).
Definition BasicId_from_u64 (v : Z) : BasicId := mkBasicId v.

#[export] Instance BasicId_eq_dec : EqDecision BasicId.
Proof. solve_decision. Defined.

#[export] Instance BasicId_Id : Id BasicId := {|
  Id_eq_dec := BasicId_eq_dec;
  Id_ltb i j := (i.(BasicId_0) <? j.(BasicId_0))%Z;
  Id_default := mkBasicId 0;
  id_debug i := "BasicId(" +:+ pretty i.(BasicId_0) +:+ ")";
  to_bytes := BasicId_to_bytes;
  id_as_u64 := BasicId_as_u64;
  from_u64 := BasicId_from_u64;
|}.

(** ** [BasicIdBuilder] *)
Record BasicIdBuilder := mkBasicIdBuilder { last_id : Z }.

Definition BasicIdBuilder_new : BasicIdBuilder := mkBasicIdBuilder 0.
Definition BasicIdBuilder_default : BasicIdBuilder := BasicIdBuilder_new.

(** [u64::checked_add] and [u64::checked_sub]. *)
Definition checked_add (a b : Z) : option Z :=
  if (a + b <? 2 ^ 64)%Z then Some (a + b)%Z else None.
Definition checked_sub (a b : Z) : option Z :=
  if (a <? b)%Z then None else Some (a - b)%Z.

Definition BasicIdBuilder_new_id {E} : action BasicIdBuilder E BasicId :=
  last ← gets last_id;
  let id := mkBasicId last in
  last' ← lift (expect (checked_add last 1) "Id overflow");
  _ ← modify (fun _ => mkBasicIdBuilder last');
  mret id.

(** [n] calls of [new_id] in a row. *)
Fixpoint BasicIdBuilder_take {E} (n : nat) : action BasicIdBuilder E (list BasicId) :=
  match n with
  | 0 => mret []
  | S n => id ← BasicIdBuilder_new_id; ids ← BasicIdBuilder_take n; mret (id :: ids)
  end.

(** ** Lemmas *)

(** The value of a big-endian byte string. *)
Definition from_be_bytes (bs : ByteVec) : Z := fold_left (fun acc b => (acc * 256 + b)%Z) bs 0%Z.

Lemma from_be_bytes_to_be_bytes v : (0 <= v < 2 ^ 64)%Z -> from_be_bytes (to_be_bytes v) = v.
Proof.
  intros Hv. unfold from_be_bytes, to_be_bytes, as_u8. cbn [fmap list_fmap fold_left].
  rewrite !Z.shiftr_div_pow2 by lia. change (2 ^ 0)%Z with 1%Z. change (2 ^ 8)%Z with 256%Z.
  change (2 ^ 16)%Z with 65536%Z. change (2 ^ 24)%Z with 16777216%Z.
  change (2 ^ 32)%Z with 4294967296%Z. change (2 ^ 40)%Z with 1099511627776%Z.
  change (2 ^ 48)%Z with 281474976710656%Z. change (2 ^ 56)%Z with 72057594037927936%Z.
  change (2 ^ 64)%Z with 18446744073709551616%Z in Hv.
  Z.to_euclidean_division_equations. lia.
Qed.

Lemma length_to_be_bytes v : length (to_be_bytes v) = 8.
Proof. done. Qed.

Lemma to_be_bytes_u8 v : Forall is_u8 (to_be_bytes v).
Proof.
  unfold to_be_bytes. apply Forall_fmap, Forall_true. intros i.
  unfold compose, as_u8, is_u8. apply Z.mod_pos_bound. lia.
Qed.

(** A [BasicId] holds a [u64]. *)
Definition BasicId_wf (i : BasicId) : Prop := (0 <= i.(BasicId_0) < 2 ^ 64)%Z.

Lemma BasicId_to_bytes_inj i j :
  BasicId_wf i -> BasicId_wf j -> BasicId_to_bytes i = BasicId_to_bytes j -> i = j.
Proof.
  unfold BasicId_wf, BasicId_to_bytes. destruct i as [i], j as [j]. cbn [BasicId_0]. intros Hi Hj H.
  f_equal. rewrite <- (from_be_bytes_to_be_bytes i Hi), <- (from_be_bytes_to_be_bytes j Hj).
  by rewrite H.
Qed.

#[export] Instance BasicId_lawful : LawfulId BasicId.
Proof.
  refine {| id_wf := BasicId_wf |}; try done.
  - intros [v]; done.
  - apply BasicId_to_bytes_inj.
Defined.

Lemma new_id_eq {E} (b : BasicIdBuilder) :
  BasicIdBuilder_new_id (E := E) b =
  if (b.(last_id) + 1 <? 2 ^ 64)%Z
  then (mkBasicIdBuilder (b.(last_id) + 1), Ok (mkBasicId b.(last_id)))
  else (b, Panic "Id overflow").
Proof.
  unfold BasicIdBuilder_new_id, checked_add, mbind, action_bind, gets, lift.
  by destruct (_ <? _)%Z.
Qed.

(** [n] calls return [n] consecutive identifiers, from [last_id]. *)
Lemma BasicIdBuilder_take_eq {E} n (b : BasicIdBuilder) :
  (0 <= b.(last_id))%Z -> (b.(last_id) + Z.of_nat n < 2 ^ 64)%Z ->
  BasicIdBuilder_take (E := E) n b =
  (mkBasicIdBuilder (b.(last_id) + Z.of_nat n), Ok (mkBasicId <$> seqZ b.(last_id) (Z.of_nat n))).
Proof.
  revert b. induction n as [|n IH]; intros [v]; cbn [last_id] in *; intros H0 Hn.
  - cbn. by rewrite Z.add_0_r.
  - cbn [BasicIdBuilder_take]. erewrite bind_ok.
    2:{ rewrite new_id_eq. cbn [last_id]. by replace (_ <? _)%Z with true by lia. }
    erewrite bind_ok by (apply IH; cbn [last_id]; lia).
    cbn [last_id].
    rewrite (seqZ_cons v) by lia.
    replace (Z.pred (Z.of_nat (S n))) with (Z.of_nat n) by lia.
    replace (v + Z.of_nat (S n))%Z with (v + 1 + Z.of_nat n)%Z by lia. done.
Qed.

(** A run that returns has not overflowed. *)
Lemma BasicIdBuilder_take_bound {E} n (b b' : BasicIdBuilder) ids :
  (0 <= b.(last_id) < 2 ^ 64)%Z -> BasicIdBuilder_take (E := E) n b = (b', Ok ids) ->
  (b.(last_id) + Z.of_nat n < 2 ^ 64)%Z.
Proof.
  revert b b' ids. induction n as [|n IH]; intros b b' ids Hb Hrun; [lia|].
  cbn [BasicIdBuilder_take] in Hrun. unfold mbind at 1, action_bind at 1 in Hrun. rewrite new_id_eq in Hrun.
  destruct (b.(last_id) + 1 <? 2 ^ 64)%Z eqn:Hlt; [|done].
  unfold mbind at 1, action_bind at 1 in Hrun.
  destruct (BasicIdBuilder_take n _) as [b1 [ids1| | |]] eqn:Hrun1; try done.
  apply IH in Hrun1; cbn [last_id] in *; lia.
Qed.

Lemma StronglySorted_ids a n : StronglySorted (fun i j => Id_ltb i j = true) (mkBasicId <$> seqZ a (Z.of_nat n)).
Proof.
  revert a. induction n as [|n IH]; intros a; [constructor|].
  rewrite seqZ_cons by lia. replace (Z.pred (Z.of_nat (S n))) with (Z.of_nat n) by lia.
  cbn [fmap list_fmap]. constructor; [apply IH|].
  apply Forall_fmap, Forall_forall. intros x Hx%elem_of_seqZ. cbn. lia.
Qed.

(** C40 The identifiers a builder hands out are the consecutive 64-bit integers:
    they are pairwise distinct, strictly increasing, and so are their byte
    strings pairwise distinct, as long as the counter does not overflow; when it
    does, [new_id] panics and the counter is unchanged. *)
Theorem BasicIdBuilder_fresh {E} n (b : BasicIdBuilder) :
  (0 <= b.(last_id) < 2 ^ 64)%Z ->
  (forall ids b', BasicIdBuilder_take (E := E) n b = (b', Ok ids) ->
     length ids = n /\ StronglySorted (fun i j => Id_ltb i j = true) ids /\ NoDup (to_bytes <$> ids)) /\
  ((b.(last_id) + Z.of_nat n < 2 ^ 64)%Z -> exists ids b', BasicIdBuilder_take (E := E) n b = (b', Ok ids)) /\
  (b.(last_id) = 2 ^ 64 - 1 -> BasicIdBuilder_new_id (E := E) b = (b, Panic "Id overflow"))%Z.
Proof.
  intros Hb. split; [|split].
  - intros ids b' Hrun. assert (b.(last_id) + Z.of_nat n < 2 ^ 64)%Z as Hn by (by eapply BasicIdBuilder_take_bound).
    rewrite BasicIdBuilder_take_eq in Hrun by lia. injection Hrun as _ <-.
    split; [rewrite length_fmap, length_seqZ; lia|]. split.
    + apply StronglySorted_ids.
    + rewrite <- list_fmap_compose. apply NoDup_fmap_2_strong; [|apply NoDup_seqZ].
      intros x y Hx%elem_of_seqZ Hy%elem_of_seqZ Heq.
      assert (mkBasicId x = mkBasicId y) as Hxy; [|by injection Hxy].
      apply BasicId_to_bytes_inj; [unfold BasicId_wf; cbn [BasicId_0]; lia..|exact Heq].
  - intros Hn. do 2 eexists. apply BasicIdBuilder_take_eq; lia.
  - intros Hl. rewrite new_id_eq, Hl. done.
Qed.
