(* ===== verification/BTree.v ===== *)
(** * [BTreeMap]

    The [BTreeMap<ID, _>] in which the databases keep their snapshots
    ([src/src/databases/hashmap_db.rs], [src/src/databases/rocks_db.rs]): the list
    of its entries in the order of their keys. *)
From S2P Require Import Prelude Id.
From stdpp Require Import sorting.
#[export] Set Warnings "-register-all".

Section BTreeMap.
Context {K V : Type} (ltb : K -> K -> bool).

(** [insert]: an entry with the same key is replaced. *)
Fixpoint btree_insert (k : K) (v : V) (m : list (K * V)) : list (K * V) :=
  match m with
  | [] => [(k, v)]
  | (k', v') :: m' =>
      if ltb k k' then (k, v) :: m
      else if ltb k' k then (k', v') :: btree_insert k v m'
      else (k, v) :: m'
  end.

(** [range(..k)]: the entries with a key below [k], in order. *)
Fixpoint btree_range_to (k : K) (m : list (K * V)) : list (K * V) :=
  match m with
  | [] => []
  | (k', v') :: m' => if ltb k' k then (k', v') :: btree_range_to k m' else []
  end.

(** [while m.len() > max { m.pop_first(); }]. *)
Fixpoint btree_pop_while (max : Z) (m : list (K * V)) : list (K * V) :=
  match m with
  | [] => []
  | _ :: m' => if (max <? Z.of_nat (length m))%Z then btree_pop_while max m' else m
  end.

Lemma btree_insert_length k v m : length (btree_insert k v m) <= S (length m).
Proof.
  induction m as [|[k' v'] m IH]; cbn; [lia|]. destruct (ltb k k'); [done|].
  destruct (ltb k' k); cbn in *; lia.
Qed.

Lemma btree_pop_while_drop max m :
  (0 <= max)%Z -> btree_pop_while max m = drop (length m - Z.to_nat max) m.
Proof.
  intros Hmax. induction m as [|kv m IH]; [by rewrite drop_nil|]. cbn [btree_pop_while].
  destruct (Z.ltb_spec max (Z.of_nat (length (kv :: m)))) as [H|H]; cbn [length] in *.
  - replace (S (length m) - Z.to_nat max) with (S (length m - Z.to_nat max)) by lia. apply IH.
  - by replace (S (length m) - Z.to_nat max) with 0 by lia.
Qed.
End BTreeMap.

(** ** Maps keyed by identifiers *)
Section Identifiers.
Context {ID V : Type} `{LawfulId ID}.
Implicit Types m : list (ID * V).

(** Valid identifiers, in strictly increasing order. *)
Definition btree_wf m : Prop :=
  StronglySorted (fun x y => id_as_u64 x < id_as_u64 y)%Z m.*1 /\ Forall id_wf m.*1.

Lemma Id_ltb_eq (i j : ID) : id_wf i -> id_wf j -> Id_ltb i j = false -> Id_ltb j i = false -> i = j.
Proof.
  intros Hi Hj. rewrite !Id_ltb_lt by done. intros H1 H2.
  rewrite <- (from_u64_as_u64 i Hi), <- (from_u64_as_u64 j Hj). f_equal. lia.
Qed.

(** The keys after an insertion. *)
Lemma btree_insert_fst k v m : Forall id_wf m.*1 -> id_wf k ->
  forall i, i ∈ (btree_insert Id_ltb k v m).*1 <-> i = k \/ i ∈ m.*1.
Proof.
  intros Hm Hk i. induction m as [|[k' v'] m IH]; cbn; [set_solver|].
  cbn in Hm. apply Forall_cons in Hm as [Hk' Hm].
  destruct (Id_ltb k k') eqn:H1; [set_solver|].
  destruct (Id_ltb k' k) eqn:H2; cbn; [set_solver|].
  rewrite <- (Id_ltb_eq k k') by done. set_solver.
Qed.

Lemma btree_insert_wf k v m : btree_wf m -> id_wf k -> btree_wf (btree_insert Id_ltb k v m).
Proof.
  intros [Hs Hw] Hk. split.
  2:{ apply Forall_forall. intros i [->|Hi]%btree_insert_fst; [done| |done|done].
      by eapply (proj1 (Forall_forall _ _)). }
  revert Hs Hw. induction m as [|[k' v'] m IH]; intros Hs Hw; cbn in *; [repeat constructor|].
  apply Forall_cons in Hw as [Hk' Hw]. inversion_clear Hs as [|? ? Hs' Hall].
  destruct (Id_ltb k k') eqn:H1; [|destruct (Id_ltb k' k) eqn:H2]; cbn.
  - rewrite Id_ltb_lt in H1 by done. constructor; [by constructor|]. constructor; [lia|].
    eapply Forall_impl; [exact Hall|]. cbn. lia.
  - rewrite Id_ltb_lt in H2 by done. constructor; [by apply IH|]. apply Forall_forall.
    intros i [->|Hi]%btree_insert_fst; [lia| |done|done]. rewrite Forall_forall in Hall. by apply Hall.
  - rewrite (Id_ltb_eq k k') by done. by constructor.
Qed.

(** The value under a key after an insertion. *)
Lemma btree_insert_elem k v m i w : btree_wf m -> id_wf k ->
  (i, w) ∈ btree_insert Id_ltb k v m <-> (i = k /\ w = v) \/ (i <> k /\ (i, w) ∈ m).
Proof.
  intros [Hs Hw] Hk. induction m as [|[k' v'] m IH]; cbn; [set_solver|].
  cbn in *. apply Forall_cons in Hw as [Hk' Hw]. inversion_clear Hs as [|? ? Hs' Hall].
  rewrite Forall_forall in Hall.
  assert (forall w, (k, w) ∈ m -> (id_as_u64 k' < id_as_u64 k)%Z) as Hin.
  { intros w' Hw'. apply Hall. apply list_elem_of_fmap. by exists (k, w'). }
  destruct (Id_ltb k k') eqn:H1; [|destruct (Id_ltb k' k) eqn:H2]; cbn.
  - rewrite Id_ltb_lt in H1 by done. rewrite !elem_of_cons. split.
    + intros [[= -> ->]|[[= -> ->]|Hi]]; [by left|right|right].
      * split; [intros ->; lia|by left].
      * split; [intros ->; specialize (Hin w Hi); lia|by right].
    + naive_solver.
  - rewrite !elem_of_cons, IH by done. rewrite Id_ltb_lt in H2 by done.
    split; [|naive_solver]. intros [[= -> ->]|Hi]; [right|naive_solver]. split; [intros ->; lia|by left].
  - assert (k = k') as <- by (by apply Id_ltb_eq). rewrite !elem_of_cons. split.
    + intros [[= -> ->]|Hi]; [by left|right]. split; [intros ->; specialize (Hin w Hi); lia|by right].
    + naive_solver.
Qed.

(** A key has one value. *)
Lemma btree_functional k v w m : btree_wf m -> (k, v) ∈ m -> (k, w) ∈ m -> v = w.
Proof.
  intros [Hs _]. induction m as [|[k' v'] m IH]; [by intros ?%elem_of_nil|].
  cbn in Hs. inversion_clear Hs as [|? ? Hs' Hall]. rewrite Forall_forall in Hall.
  assert (forall u, (k', u) ∈ m -> False) as Hno.
  { intros u Hu. enough (id_as_u64 k' < id_as_u64 k')%Z by lia. apply Hall, list_elem_of_fmap. by exists (k', u). }
  rewrite !elem_of_cons. intros [Hv|Hv] [Hw|Hw]; simplify_eq; [done|by destruct (Hno w)|by destruct (Hno v)|by apply IH].
Qed.

Lemma btree_wf_drop n m : btree_wf m -> btree_wf (drop n m).
Proof.
  intros [Hs Hw]. unfold btree_wf. rewrite fmap_drop. split; [|by apply Forall_drop].
  rewrite <- (take_drop n m.*1) in Hs. by apply StronglySorted_app in Hs as (_ & _ & ?).
Qed.

(** What dropping the first entries drops is before what it keeps. *)
Lemma btree_drop_before n m i j : btree_wf m ->
  i ∈ m.*1 -> i ∉ (drop n m).*1 -> j ∈ (drop n m).*1 -> (id_as_u64 i < id_as_u64 j)%Z.
Proof.
  intros [Hs _]. rewrite fmap_drop. rewrite <- (take_drop n m.*1) in Hs |- * at 1.
  apply StronglySorted_app in Hs as [Hs _]. rewrite elem_of_app. intros [Hi|Hi] Hni Hj; [by apply Hs|done].
Qed.

(** [range(..k).next()] is the oldest entry, when it is before [k]. *)
Lemma btree_range_to_oldest k m : btree_wf m -> id_wf k ->
  match head (btree_range_to Id_ltb k m) with
  | Some (i, v) =>
      (i, v) ∈ m /\ (id_as_u64 i < id_as_u64 k)%Z /\ forall j, j ∈ m.*1 -> (id_as_u64 i <= id_as_u64 j)%Z
  | None => forall j, j ∈ m.*1 -> (id_as_u64 k <= id_as_u64 j)%Z
  end.
Proof.
  intros [Hs Hw] Hk. destruct m as [|[i v] m]; [set_solver|]. cbn in *.
  apply Forall_cons in Hw as [Hi Hw]. inversion_clear Hs as [|? ? Hs' Hall].
  rewrite Forall_forall in Hall. rewrite Id_ltb_lt by done.
  destruct (id_as_u64 i <? id_as_u64 k)%Z eqn:Hlt; cbn.
  - split; [by left|]. split; [lia|]. intros j [->|Hj]%elem_of_cons; [lia|]. specialize (Hall j Hj). lia.
  - intros j [->|Hj]%elem_of_cons; [lia|]. specialize (Hall j Hj). lia.
Qed.
End Identifiers.
