(* ===== verification/Database.v ===== *)
(** * The database interface

    Models [src/src/bonsai_database.rs] ([DatabaseKey], the traits
    [BonsaiDatabase] and [BonsaiPersistentDatabase]) and [src/src/trie/trie_db.rs]
    ([TrieKey]). The traits are classes of operations; [LawfulDatabase] and
    [LawfulPersistentDatabase] state what the key-value layer above relies on,
    and each database of the crate discharges them. *)
From S2P Require Import Prelude Id.

(** ** Keys *)
Inductive DatabaseKey : Type :=
| DatabaseKey_Trie (slice : ByteVec)
| DatabaseKey_Flat (slice : ByteVec)
| DatabaseKey_TrieLog (slice : ByteVec).

Definition DatabaseKey_as_slice (self : DatabaseKey) : ByteVec :=
  match self with
  | DatabaseKey_Trie slice => slice
  | DatabaseKey_Flat slice => slice
  | DatabaseKey_TrieLog slice => slice
  end.

#[export] Instance DatabaseKey_eq_dec : EqDecision DatabaseKey.
Proof. solve_decision. Defined.
#[export] Instance DatabaseKey_countable : Countable DatabaseKey.
Proof.
  refine (inj_countable'
    (fun k => match k with
      | DatabaseKey_Trie s => inl s
      | DatabaseKey_Flat s => inr (inl s)
      | DatabaseKey_TrieLog s => inr (inr s) end)
    (fun k => match k with
      | inl s => DatabaseKey_Trie s
      | inr (inl s) => DatabaseKey_Flat s
      | inr (inr s) => DatabaseKey_TrieLog s end) _).
  by intros [].
Defined.

Inductive TrieKey : Type :=
| TrieKey_Trie (bytes : ByteVec)
| TrieKey_Flat (bytes : ByteVec).

Inductive TrieKeyType : Type := TrieKeyType_Trie | TrieKeyType_Flat.

#[export] Instance TrieKey_eq_dec : EqDecision TrieKey.
Proof. solve_decision. Defined.
#[export] Instance TrieKey_countable : Countable TrieKey.
Proof.
  refine (inj_countable'
    (fun k => match k with TrieKey_Trie s => inl s | TrieKey_Flat s => inr s end)
    (fun k => match k with inl s => TrieKey_Trie s | inr s => TrieKey_Flat s end) _).
  by intros [].
Defined.

(** [TrieKeyType as u8]. *)
Definition TrieKeyType_as_u8 (t : TrieKeyType) : Z :=
  match t with TrieKeyType_Trie => 0 | TrieKeyType_Flat => 1 end.

(** [impl From<&TrieKey> for u8]. *)
Definition TrieKey_u8 (value : TrieKey) : Z :=
  match value with
  | TrieKey_Trie _ => TrieKeyType_as_u8 TrieKeyType_Trie
  | TrieKey_Flat _ => TrieKeyType_as_u8 TrieKeyType_Flat
  end.

Definition TrieKey_new (identifier : ByteVec) (key_type : TrieKeyType) (key : ByteVec) : TrieKey :=
  let final_key := identifier ++ key in
  match key_type with
  | TrieKeyType_Trie => TrieKey_Trie final_key
  | TrieKeyType_Flat => TrieKey_Flat final_key
  end.

Definition TrieKey_from_variant_and_bytes {E} (variant : Z) (bytes : ByteVec) : outcome E TrieKey :=
  if (variant =? TrieKeyType_as_u8 TrieKeyType_Trie)%Z then Ok (TrieKey_Trie bytes)
  else if (variant =? TrieKeyType_as_u8 TrieKeyType_Flat)%Z then Ok (TrieKey_Flat bytes)
  else Panic "Invalid trie key type".

Definition TrieKey_as_slice (self : TrieKey) : ByteVec :=
  match self with TrieKey_Trie slice => slice | TrieKey_Flat slice => slice end.

(** [impl From<&TrieKey> for DatabaseKey]. *)
Definition DatabaseKey_from (key : TrieKey) : DatabaseKey :=
  let key_slice := TrieKey_as_slice key in
  match key with
  | TrieKey_Trie _ => DatabaseKey_Trie key_slice
  | TrieKey_Flat _ => DatabaseKey_Flat key_slice
  end.

#[export] Instance DatabaseKey_from_inj : Inj (=) (=) DatabaseKey_from.
Proof. intros [] [] H; cbn in H; congruence. Qed.

Lemma TrieKey_from_variant_roundtrip {E} k :
  TrieKey_from_variant_and_bytes (E := E) (TrieKey_u8 k) (TrieKey_as_slice k) = Ok k.
Proof. by destruct k. Qed.

(** ** [trait BonsaiDatabase]

    A mutating operation returns the new database with its result; an
    operation given [Some batch] also returns the new batch. *)
Class BonsaiDatabase (DB : Type) := {
  Batch : Type;
  DatabaseError : Type;
  db_create_batch : DB -> Batch;
  db_get : DB -> DatabaseKey -> outcome DatabaseError (option ByteVec);
  db_get_by_prefix : DB -> DatabaseKey -> outcome DatabaseError (list (ByteVec * ByteVec));
  db_contains : DB -> DatabaseKey -> outcome DatabaseError bool;
  db_insert : DB -> DatabaseKey -> ByteVec -> option Batch ->
    (DB * option Batch) * outcome DatabaseError (option ByteVec);
  db_remove : DB -> DatabaseKey -> option Batch ->
    (DB * option Batch) * outcome DatabaseError (option ByteVec);
  db_remove_by_prefix : DB -> DatabaseKey -> DB * outcome DatabaseError unit;
  db_write_batch : DB -> Batch -> DB * outcome DatabaseError unit;
}.
Arguments Batch DB {_}.
Arguments DatabaseError DB {_}.

(** ** [trait BonsaiPersistentDatabase<ID>]

    [transaction] has no error to return, but an implementation may panic. *)
Class BonsaiPersistentDatabase (DB ID : Type) `{BonsaiDatabase DB} := {
  Transaction : Type;
  Transaction_database :: BonsaiDatabase Transaction;
  db_snapshot : DB -> ID -> DB;
  db_transaction : DB -> ID -> outcome Empty_set (option (ID * Transaction));
  db_merge : DB -> Transaction -> DB * outcome (DatabaseError DB) unit;
}.
Arguments Transaction DB ID {_ _}.

(** ** The contract of a database

    [db_holds db m]: the database holds the bindings [m]. [db_pending db b m0 m]:
    [b] is a batch opened on [db] when it held [m0], and writing it makes the
    database hold [m]. An implementation is free to apply a batched operation at
    once or when the batch is written: the old value it returns is fixed only
    for a key the batch has not touched. *)
Abbreviation contents := (gmap DatabaseKey ByteVec) (only parsing).

(** Keys of the same column that start with a prefix. *)
Definition DatabaseKey_has_prefix (prefix key : DatabaseKey) : Prop :=
  match prefix, key with
  | DatabaseKey_Trie p, DatabaseKey_Trie k
  | DatabaseKey_Flat p, DatabaseKey_Flat k
  | DatabaseKey_TrieLog p, DatabaseKey_TrieLog k => p `prefix_of` k
  | _, _ => False
  end.
#[export] Instance DatabaseKey_has_prefix_dec p k : Decision (DatabaseKey_has_prefix p k).
Proof. destruct p, k; simpl; apply _. Defined.

(** The key of a column with given bytes. *)
Definition DatabaseKey_with (column : DatabaseKey) (s : ByteVec) : DatabaseKey :=
  match column with
  | DatabaseKey_Trie _ => DatabaseKey_Trie s
  | DatabaseKey_Flat _ => DatabaseKey_Flat s
  | DatabaseKey_TrieLog _ => DatabaseKey_TrieLog s
  end.

Lemma DatabaseKey_has_prefix_with p k :
  DatabaseKey_has_prefix p k <->
  k = DatabaseKey_with p (DatabaseKey_as_slice k) /\ DatabaseKey_as_slice p `prefix_of` DatabaseKey_as_slice k.
Proof. destruct p, k; cbn; naive_solver. Qed.

(** Entries with a prefix, given by their bytes and by their keys. *)
Lemma prefix_entries_perm p (m : gmap DatabaseKey ByteVec) (l : list (ByteVec * ByteVec)) :
  NoDup l ->
  (forall s v, (s, v) ∈ l <-> DatabaseKey_as_slice p `prefix_of` s /\ m !! DatabaseKey_with p s = Some v) ->
  l ≡ₚ prod_map DatabaseKey_as_slice id <$>
    map_to_list (filter (fun kv => DatabaseKey_has_prefix p kv.1) m).
Proof.
  intros Hnd Hl. apply NoDup_Permutation; [done| |].
  - eapply (NoDup_fmap_1 (fun kv => (DatabaseKey_with p kv.1, kv.2))).
    rewrite <- list_fmap_compose.
    rewrite (list_fmap_ext _ id); [rewrite list_fmap_id; apply NoDup_map_to_list|].
    intros i [k v] Hin%list_elem_of_lookup_2%elem_of_map_to_list%map_lookup_filter_Some. cbn in *.
    destruct Hin as [_ [<- _]%DatabaseKey_has_prefix_with]. done.
  - intros [s v]. rewrite Hl, list_elem_of_fmap. cbn. split.
    + intros [Hpre Hs]. exists (DatabaseKey_with p s, v). split; [by destruct p|].
      apply elem_of_map_to_list, map_lookup_filter_Some.
      split; [done|]. apply DatabaseKey_has_prefix_with. by destruct p.
    + intros ([k v'] & [= -> ->] & Hin). apply elem_of_map_to_list, map_lookup_filter_Some in Hin.
      destruct Hin as [Hk [Heq Hpre]%DatabaseKey_has_prefix_with]. cbn in *.
      split; [done|]. by rewrite <- Heq.
Qed.

Class LawfulDatabase (DB : Type) `{BonsaiDatabase DB} := {
  db_holds : DB -> contents -> Prop;
  db_pending : DB -> Batch DB -> contents -> contents -> Prop;
  db_create_batch_spec : forall db m, db_holds db m -> db_pending db (db_create_batch db) m m;
  db_get_spec : forall db m k, db_holds db m -> db_get db k = Ok (m !! k);
  db_contains_spec : forall db m k,
    db_holds db m -> db_contains db k = Ok (bool_decide (is_Some (m !! k)));
  db_get_by_prefix_spec : forall db m p, db_holds db m ->
    exists l, db_get_by_prefix db p = Ok l /\
      l ≡ₚ prod_map DatabaseKey_as_slice id <$>
        map_to_list (filter (fun kv => DatabaseKey_has_prefix p kv.1) m);
  db_insert_spec : forall db m k v, db_holds db m ->
    exists db', db_insert db k v None = ((db', None), Ok (m !! k)) /\ db_holds db' (<[k := v]> m);
  db_insert_batch_spec : forall db b m0 m k v, db_pending db b m0 m ->
    exists db' b' old, db_insert db k v (Some b) = ((db', Some b'), Ok old) /\
      (m !! k = m0 !! k -> old = m0 !! k) /\ db_pending db' b' m0 (<[k := v]> m);
  db_remove_spec : forall db m k, db_holds db m ->
    exists db', db_remove db k None = ((db', None), Ok (m !! k)) /\ db_holds db' (delete k m);
  db_remove_batch_spec : forall db b m0 m k, db_pending db b m0 m ->
    exists db' b' old, db_remove db k (Some b) = ((db', Some b'), Ok old) /\
      (m !! k = m0 !! k -> old = m0 !! k) /\ db_pending db' b' m0 (delete k m);
  db_remove_by_prefix_spec : forall db m p, db_holds db m ->
    exists db', db_remove_by_prefix db p = (db', Ok tt) /\
      db_holds db' (filter (fun kv => ~ DatabaseKey_has_prefix p kv.1) m);
  db_write_batch_spec : forall db b m0 m, db_pending db b m0 m ->
    exists db', db_write_batch db b = (db', Ok tt) /\ db_holds db' m;
}.

(** A snapshot leaves the contents alone. *)
Class LawfulPersistentDatabase (DB ID : Type) `{LawfulDatabase DB, !BonsaiPersistentDatabase DB ID} := {
  db_snapshot_spec : forall db m (id : ID), db_holds db m -> db_holds (db_snapshot db id) m;
}.

(** ** Programs over a database *)
Inductive db_op : Type :=
| OpGet (k : DatabaseKey)
| OpContains (k : DatabaseKey)
| OpInsert (k : DatabaseKey) (v : ByteVec)
| OpRemove (k : DatabaseKey)
| OpRemoveByPrefix (p : DatabaseKey).

Inductive db_answer : Type :=
| AnsValue (o : option ByteVec)
| AnsBool (b : bool)
| AnsUnit.

Section Programs.
Context {DB : Type} `{BonsaiDatabase DB}.

Definition db_step (db : DB) (o : db_op) : DB * outcome (DatabaseError DB) db_answer :=
  match o with
  | OpGet k => (db, AnsValue <$> db_get db k)
  | OpContains k => (db, AnsBool <$> db_contains db k)
  | OpInsert k v => let '((db', _), r) := db_insert db k v None in (db', AnsValue <$> r)
  | OpRemove k => let '((db', _), r) := db_remove db k None in (db', AnsValue <$> r)
  | OpRemoveByPrefix p => let '(db', r) := db_remove_by_prefix db p in (db', (fun _ => AnsUnit) <$> r)
  end.

Fixpoint db_run (db : DB) (ops : list db_op) : DB * list (outcome (DatabaseError DB) db_answer) :=
  match ops with
  | [] => (db, [])
  | o :: ops =>
      let '(db, r) := db_step db o in
      let '(db, rs) := db_run db ops in (db, r :: rs)
  end.
End Programs.

(** The same program on a map. *)
Definition map_step (m : gmap DatabaseKey ByteVec) (o : db_op) : gmap DatabaseKey ByteVec * db_answer :=
  match o with
  | OpGet k => (m, AnsValue (m !! k))
  | OpContains k => (m, AnsBool (bool_decide (is_Some (m !! k))))
  | OpInsert k v => (<[k := v]> m, AnsValue (m !! k))
  | OpRemove k => (delete k m, AnsValue (m !! k))
  | OpRemoveByPrefix p => (filter (fun kv => ~ DatabaseKey_has_prefix p kv.1) m, AnsUnit)
  end.

Fixpoint map_run (m : gmap DatabaseKey ByteVec) (ops : list db_op) : gmap DatabaseKey ByteVec * list db_answer :=
  match ops with
  | [] => (m, [])
  | o :: ops => let '(m, r) := map_step m o in let '(m, rs) := map_run m ops in (m, r :: rs)
  end.

(** A lawful database refines a map. *)
Lemma lawful_run {DB} `{LawfulDatabase DB} (db : DB) m ops :
  db_holds db m -> exists db', db_run db ops = (db', Ok <$> (map_run m ops).2) /\ db_holds db' (map_run m ops).1.
Proof.
  revert db m. induction ops as [|o ops IH]; intros db m Hm; [by exists db|].
  assert (exists db', db_step db o = (db', Ok (map_step m o).2) /\ db_holds db' (map_step m o).1) as (db1 & Hstep & Hm1).
  { destruct o as [k|k|k v|k|p]; cbn.
    - exists db. by rewrite (db_get_spec _ _ _ Hm).
    - exists db. by rewrite (db_contains_spec _ _ _ Hm).
    - destruct (db_insert_spec _ _ k v Hm) as (db' & -> & ?). by exists db'.
    - destruct (db_remove_spec _ _ k Hm) as (db' & -> & ?). by exists db'.
    - destruct (db_remove_by_prefix_spec _ _ p Hm) as (db' & -> & ?). by exists db'. }
  cbn. rewrite Hstep. destruct (map_step m o) as [m1 r]. destruct (IH db1 m1 Hm1) as (db2 & Hrun & Hm2).
  rewrite Hrun. exists db2. by destruct (map_run m1 ops).
Qed.
