(* ===== verification/HashMapDb.v ===== *)
(** * The in-memory database

    Models [src/src/databases/hashmap_db.rs]: [HashMapDb], its implementation of
    [BonsaiDatabase] (batches are ignored: every write is immediate) and of
    [BonsaiPersistentDatabase] (snapshots are copies kept in a [BTreeMap]). *)
From S2P Require Import Prelude Id BTree Database.

(** ** [struct HashMapDb] *)
Inductive HashMapDbError : Type := mkHashMapDbError.

(** [impl Display]: nothing is written. *)
Definition HashMapDbError_fmt (self : HashMapDbError) : string := EmptyString.

Inductive HashMapDb (ID : Type) : Type := mkHashMapDb {
  trie_db : gmap ByteVec ByteVec;
  flat_db : gmap ByteVec ByteVec;
  trie_log_db : gmap ByteVec ByteVec;
  snapshots : list (ID * HashMapDb ID);
}.
Arguments mkHashMapDb {ID}.
Arguments trie_db {ID}.
Arguments flat_db {ID}.
Arguments trie_log_db {ID}.
Arguments snapshots {ID}.

Definition HashMapDb_default {ID} : HashMapDb ID := mkHashMapDb ∅ ∅ ∅ [].

Section HashMapDb.
Context {ID : Type} `{Id ID}.
Implicit Types db : HashMapDb ID.

Definition HashMapDb_get_map db (key : DatabaseKey) : gmap ByteVec ByteVec :=
  match key with
  | DatabaseKey_Trie _ => db.(trie_db)
  | DatabaseKey_Flat _ => db.(flat_db)
  | DatabaseKey_TrieLog _ => db.(trie_log_db)
  end.

(** Assignment through [get_map_mut]. *)
Definition HashMapDb_get_map_mut db (key : DatabaseKey)
    (f : gmap ByteVec ByteVec -> gmap ByteVec ByteVec) : HashMapDb ID :=
  match key with
  | DatabaseKey_Trie _ => mkHashMapDb (f db.(trie_db)) db.(flat_db) db.(trie_log_db) db.(snapshots)
  | DatabaseKey_Flat _ => mkHashMapDb db.(trie_db) (f db.(flat_db)) db.(trie_log_db) db.(snapshots)
  | DatabaseKey_TrieLog _ => mkHashMapDb db.(trie_db) db.(flat_db) (f db.(trie_log_db)) db.(snapshots)
  end.

(** *** [impl BonsaiDatabase for HashMapDb] *)
Definition HashMapDb_create_batch db : unit := tt.

Definition HashMapDb_remove_by_prefix db (prefix : DatabaseKey)
    : HashMapDb ID * outcome HashMapDbError unit :=
  let keys := (map_to_list (HashMapDb_get_map db prefix)).*1 in
  let keys_to_remove := filter (fun key => DatabaseKey_as_slice prefix `prefix_of` key) keys in
  (fold_left (fun db key => HashMapDb_get_map_mut db prefix (delete key)) keys_to_remove db, Ok tt).

Definition HashMapDb_get db (key : DatabaseKey) : outcome HashMapDbError (option ByteVec) :=
  Ok (HashMapDb_get_map db key !! DatabaseKey_as_slice key).

Definition HashMapDb_get_by_prefix db (prefix : DatabaseKey)
    : outcome HashMapDbError (list (ByteVec * ByteVec)) :=
  Ok (filter (fun kv => DatabaseKey_as_slice prefix `prefix_of` kv.1)
        (map_to_list (HashMapDb_get_map db prefix))).

Definition HashMapDb_insert db (key : DatabaseKey) (value : ByteVec) (batch : option unit)
    : (HashMapDb ID * option unit) * outcome HashMapDbError (option ByteVec) :=
  ((HashMapDb_get_map_mut db key <[DatabaseKey_as_slice key := value]>, batch),
   Ok (HashMapDb_get_map db key !! DatabaseKey_as_slice key)).

Definition HashMapDb_remove db (key : DatabaseKey) (batch : option unit)
    : (HashMapDb ID * option unit) * outcome HashMapDbError (option ByteVec) :=
  ((HashMapDb_get_map_mut db key (delete (DatabaseKey_as_slice key)), batch),
   Ok (HashMapDb_get_map db key !! DatabaseKey_as_slice key)).

Definition HashMapDb_contains db (key : DatabaseKey) : outcome HashMapDbError bool :=
  Ok (bool_decide (is_Some (HashMapDb_get_map db key !! DatabaseKey_as_slice key))).

Definition HashMapDb_write_batch db (batch : unit) : HashMapDb ID * outcome HashMapDbError unit :=
  (db, Ok tt).

#[export] Instance HashMapDb_database : BonsaiDatabase (HashMapDb ID) := {|
  Batch := unit;
  DatabaseError := HashMapDbError;
  db_create_batch := HashMapDb_create_batch;
  db_get := HashMapDb_get;
  db_get_by_prefix := HashMapDb_get_by_prefix;
  db_contains := HashMapDb_contains;
  db_insert := HashMapDb_insert;
  db_remove := HashMapDb_remove;
  db_remove_by_prefix := HashMapDb_remove_by_prefix;
  db_write_batch := HashMapDb_write_batch;
|}.

(** *** [impl BonsaiPersistentDatabase for HashMapDb] *)
Definition HashMapDb_snapshot db (id : ID) : HashMapDb ID :=
  mkHashMapDb db.(trie_db) db.(flat_db) db.(trie_log_db)
    (btree_insert Id_ltb id db db.(snapshots)).

Definition HashMapDb_transaction db (id : ID) : option (ID * HashMapDb ID) :=
  head (btree_range_to Id_ltb id db.(snapshots)).

Definition HashMapDb_merge db (transaction : HashMapDb ID) : HashMapDb ID * outcome HashMapDbError unit :=
  (mkHashMapDb transaction.(trie_db) transaction.(flat_db) transaction.(trie_log_db) db.(snapshots),
   Ok tt).

#[export] Instance HashMapDb_persistent : BonsaiPersistentDatabase (HashMapDb ID) ID := {|
  Transaction := HashMapDb ID;
  Transaction_database := HashMapDb_database;
  db_snapshot := HashMapDb_snapshot;
  db_transaction db id := Ok (HashMapDb_transaction db id);
  db_merge := HashMapDb_merge;
|}.

(** ** What the database holds *)

(** The bindings of the three columns in one map. *)
Definition HashMapDb_contents db : gmap DatabaseKey ByteVec :=
  kmap DatabaseKey_Trie db.(trie_db) ∪
  (kmap DatabaseKey_Flat db.(flat_db) ∪ kmap DatabaseKey_TrieLog db.(trie_log_db)).

Lemma HashMapDb_contents_lookup db k :
  HashMapDb_contents db !! k = HashMapDb_get_map db k !! DatabaseKey_as_slice k.
Proof.
  assert (Inj (=) (=) DatabaseKey_Trie) by (intros ?? [=]; done).
  assert (Inj (=) (=) DatabaseKey_Flat) by (intros ?? [=]; done).
  assert (Inj (=) (=) DatabaseKey_TrieLog) by (intros ?? [=]; done).
  unfold HashMapDb_contents. destruct k as [s|s|s]; cbn.
  - rewrite lookup_union_l; [by rewrite lookup_kmap|].
    apply lookup_union_None; split; apply lookup_kmap_None; naive_solver.
  - rewrite lookup_union_r by (apply lookup_kmap_None; naive_solver).
    rewrite lookup_union_l; [by rewrite lookup_kmap|].
    apply lookup_kmap_None; naive_solver.
  - rewrite lookup_union_r by (apply lookup_kmap_None; naive_solver).
    rewrite lookup_union_r by (apply lookup_kmap_None; naive_solver).
    by rewrite lookup_kmap.
Qed.

Lemma HashMapDb_contents_insert db k v :
  HashMapDb_contents (HashMapDb_get_map_mut db k <[DatabaseKey_as_slice k := v]>) =
  <[k := v]> (HashMapDb_contents db).
Proof.
  apply map_eq. intros k'. rewrite HashMapDb_contents_lookup, lookup_insert.
  case_decide as Hk; [subst; by destruct k'; cbn; rewrite lookup_insert_eq|].
  rewrite HashMapDb_contents_lookup.
  destruct k as [s|s|s], k' as [s'|s'|s']; cbn; try done; rewrite lookup_insert_ne; congruence.
Qed.

Lemma HashMapDb_contents_delete db k :
  HashMapDb_contents (HashMapDb_get_map_mut db k (delete (DatabaseKey_as_slice k))) =
  delete k (HashMapDb_contents db).
Proof.
  apply map_eq. intros k'. rewrite HashMapDb_contents_lookup, lookup_delete.
  case_decide as Hk; [subst; by destruct k'; cbn; rewrite lookup_delete_eq|].
  rewrite HashMapDb_contents_lookup.
  destruct k as [s|s|s], k' as [s'|s'|s']; cbn; try done; rewrite lookup_delete_ne; congruence.
Qed.

Lemma HashMapDb_delete_keys_lookup db p keys k :
  HashMapDb_contents (fold_left (fun db key => HashMapDb_get_map_mut db p (delete key)) keys db) !! k =
  if decide (k ∈ DatabaseKey_with p <$> keys) then None else HashMapDb_contents db !! k.
Proof.
  revert db. induction keys as [|s keys IH]; intros db; cbn [fold_left].
  - rewrite decide_False; [done|]. by intros ?%elem_of_nil.
  - rewrite IH. rewrite fmap_cons.
    replace (HashMapDb_get_map_mut db p (delete s)) with
      (HashMapDb_get_map_mut db (DatabaseKey_with p s) (delete (DatabaseKey_as_slice (DatabaseKey_with p s))))
      by (by destruct p).
    rewrite HashMapDb_contents_delete, lookup_delete.
    repeat case_decide; set_solver.
Qed.

Lemma HashMapDb_contents_remove_by_prefix db p :
  HashMapDb_contents (HashMapDb_remove_by_prefix db p).1 =
  filter (fun kv => ~ DatabaseKey_has_prefix p kv.1) (HashMapDb_contents db).
Proof.
  apply map_eq. intros k. unfold HashMapDb_remove_by_prefix. cbn [fst].
  rewrite HashMapDb_delete_keys_lookup.
  destruct (HashMapDb_contents db !! k) as [v|] eqn:Hk.
  2:{ rewrite (map_lookup_filter_None_2 _ _ _ (or_introl Hk)). by case_decide. }
  destruct (decide (DatabaseKey_has_prefix p k)) as [Hp|Hp].
  - rewrite decide_True, map_lookup_filter_None_2; [done|right; naive_solver|].
    apply DatabaseKey_has_prefix_with in Hp as [Heq Hpre]. rewrite Heq.
    apply list_elem_of_fmap_2, list_elem_of_filter. split; [done|].
    rewrite HashMapDb_contents_lookup, Heq in Hk.
    apply list_elem_of_fmap. exists (DatabaseKey_as_slice k, v). split; [done|].
    apply elem_of_map_to_list. by destruct p, k.
  - rewrite decide_False.
    + symmetry. by apply map_lookup_filter_Some.
    + intros (s & -> & [Hs Hin]%list_elem_of_filter)%list_elem_of_fmap.
      apply Hp, DatabaseKey_has_prefix_with. by destruct p.
Qed.

Lemma HashMapDb_get_by_prefix_perm db p :
  filter (fun kv => DatabaseKey_as_slice p `prefix_of` kv.1) (map_to_list (HashMapDb_get_map db p)) ≡ₚ
  prod_map DatabaseKey_as_slice id <$>
    map_to_list (filter (fun kv => DatabaseKey_has_prefix p kv.1) (HashMapDb_contents db)).
Proof.
  apply prefix_entries_perm; [apply NoDup_filter, NoDup_map_to_list|].
  intros s v. rewrite list_elem_of_filter, elem_of_map_to_list, HashMapDb_contents_lookup. by destruct p.
Qed.

(** [HashMapDb] meets the contract of a database. *)
#[export] Instance HashMapDb_lawful : LawfulDatabase (HashMapDb ID).
Proof.
  refine {| db_holds db m := HashMapDb_contents db = m;
            db_pending db _ _ m := HashMapDb_contents db = m |}.
  - done.
  - intros db m k <-. cbn. unfold HashMapDb_get. by rewrite HashMapDb_contents_lookup.
  - intros db m k <-. cbn. unfold HashMapDb_contains. by rewrite HashMapDb_contents_lookup.
  - intros db m p <-. eexists. split; [done|]. apply HashMapDb_get_by_prefix_perm.
  - intros db m k v <-. eexists. cbn. unfold HashMapDb_insert.
    rewrite HashMapDb_contents_lookup. split; [done|]. apply HashMapDb_contents_insert.
  - intros db b m0 m k v <-. do 3 eexists. cbn. unfold HashMapDb_insert. split; [reflexivity|].
    split; [by rewrite HashMapDb_contents_lookup|]. apply HashMapDb_contents_insert.
  - intros db m k <-. eexists. cbn. unfold HashMapDb_remove.
    rewrite HashMapDb_contents_lookup. split; [done|]. apply HashMapDb_contents_delete.
  - intros db b m0 m k <-. do 3 eexists. cbn. unfold HashMapDb_remove. split; [reflexivity|].
    split; [by rewrite HashMapDb_contents_lookup|]. apply HashMapDb_contents_delete.
  - intros db m p <-. eexists. split; [done|]. apply HashMapDb_contents_remove_by_prefix.
  - intros db b m0 m Hm. by exists db.
Defined.

#[export] Instance HashMapDb_lawful_persistent : LawfulPersistentDatabase (HashMapDb ID) ID.
Proof. by split. Defined.

(** C32 [HashMapDb] refines a map over the keys of the three columns: every
    program of reads, insertions, removals and removals by prefix returns on it
    what it returns on the map, and leaves what it leaves there. *)
Theorem HashMapDb_refines_map db ops :
  (db_run db ops).2 = Ok <$> (map_run (HashMapDb_contents db) ops).2 /\
  HashMapDb_contents (db_run db ops).1 = (map_run (HashMapDb_contents db) ops).1.
Proof.
  assert (db_holds db (HashMapDb_contents db)) as Hdb by done.
  by destruct (lawful_run db (HashMapDb_contents db) ops Hdb) as (db' & -> & ?).
Qed.

(** ** Snapshots *)
Section Snapshots.
Context `{!LawfulId ID}.

Definition snapshots_wf db : Prop := btree_wf db.(snapshots).

Lemma snapshot_wf db id : snapshots_wf db -> id_wf id -> snapshots_wf (HashMapDb_snapshot db id).
Proof. apply btree_insert_wf. Qed.

(** [transaction] returns a snapshot taken strictly before the requested
    identifier, and of these the oldest: every other snapshot is at least as
    recent, or is not before the identifier. It returns none exactly when no
    snapshot was taken before. *)
Theorem HashMapDb_transaction_oldest db id :
  snapshots_wf db -> id_wf id ->
  match HashMapDb_transaction db id with
  | Some (i, snap) =>
      (i, snap) ∈ db.(snapshots) /\ (id_as_u64 i < id_as_u64 id)%Z /\
      forall j, j ∈ db.(snapshots).*1 -> (id_as_u64 i <= id_as_u64 j)%Z
  | None => forall j, j ∈ db.(snapshots).*1 -> (id_as_u64 id <= id_as_u64 j)%Z
  end.
Proof.
  apply btree_range_to_oldest.
Qed.
End Snapshots.
End HashMapDb.
