(* ===== verification/RocksLib.v ===== *)
(** * The [rocksdb] crate

    The calls [src/src/databases/rocks_db.rs] makes into the [rocksdb] crate are
    parameters, the methods of the class [RocksLib]. [LawfulRocksLib] states
    their documented behaviour on a database that is open with the three column
    families and suffers no I/O error: point operations act on the column of the
    handle, an iterator yields the entries from a key on in lexicographic order,
    a batch is applied as a whole with the last write of a key winning, and an
    optimistic transaction reads its own writes over the database (over the
    snapshot of its read options, for [get_cf_opt]) and commits them when no
    other write came in between. [RocksModel.v] gives an instance. *)
From S2P Require Import Prelude.
From stdpp Require Import lexico sorting.
#[export] Set Warnings "-register-all".

(** A column family and a key. *)
Abbreviation column_key := (string * list Z)%type (only parsing).

(** [Iterator::Item] of a database iterator: an entry or an error. *)
Class RocksLib := {
  RocksError : Type;
  OptimisticTransactionDB : Type;
  ColumnFamilyRef : Type;
  WriteBatchWithTransaction : Type;
  SnapshotWithThreadMode : Type;
  ReadOptions : Type;
  WriteOptions : Type;
  OptimisticTransactionOptions : Type;
  RocksTransaction : Type;
  (** the database *)
  cf_handle : OptimisticTransactionDB -> string -> option ColumnFamilyRef;
  get_cf : OptimisticTransactionDB -> ColumnFamilyRef -> ByteVec -> outcome RocksError (option ByteVec);
  put_cf : OptimisticTransactionDB -> ColumnFamilyRef -> ByteVec -> ByteVec ->
    OptimisticTransactionDB * outcome RocksError unit;
  delete_cf : OptimisticTransactionDB -> ColumnFamilyRef -> ByteVec ->
    OptimisticTransactionDB * outcome RocksError unit;
  (** [iterator_cf] with [IteratorMode::From(from, Direction::Forward)] *)
  iterator_cf : OptimisticTransactionDB -> ColumnFamilyRef -> ByteVec ->
    list ((ByteVec * ByteVec) + RocksError);
  write : OptimisticTransactionDB -> WriteBatchWithTransaction ->
    OptimisticTransactionDB * outcome RocksError unit;
  snapshot : OptimisticTransactionDB -> SnapshotWithThreadMode;
  transaction_opt : OptimisticTransactionDB -> WriteOptions -> OptimisticTransactionOptions -> RocksTransaction;
  (** batches *)
  batch_default : WriteBatchWithTransaction;
  batch_put_cf : WriteBatchWithTransaction -> ColumnFamilyRef -> ByteVec -> ByteVec -> WriteBatchWithTransaction;
  batch_delete_cf : WriteBatchWithTransaction -> ColumnFamilyRef -> ByteVec -> WriteBatchWithTransaction;
  (** options *)
  WriteOptions_default : WriteOptions;
  OptimisticTransactionOptions_default : OptimisticTransactionOptions;
  OptimisticTransactionOptions_set_snapshot : OptimisticTransactionOptions -> bool -> OptimisticTransactionOptions;
  ReadOptions_default : ReadOptions;
  ReadOptions_set_snapshot : ReadOptions -> SnapshotWithThreadMode -> ReadOptions;
  (** transactions *)
  txn_get_cf_opt : RocksTransaction -> ColumnFamilyRef -> ByteVec -> ReadOptions ->
    outcome RocksError (option ByteVec);
  txn_put_cf : RocksTransaction -> ColumnFamilyRef -> ByteVec -> ByteVec ->
    RocksTransaction * outcome RocksError unit;
  txn_delete_cf : RocksTransaction -> ColumnFamilyRef -> ByteVec -> RocksTransaction * outcome RocksError unit;
  txn_iterator_cf : RocksTransaction -> ColumnFamilyRef -> ByteVec -> list ((ByteVec * ByteVec) + RocksError);
  txn_get_writebatch : RocksTransaction -> WriteBatchWithTransaction;
  txn_rebuild_from_writebatch : RocksTransaction -> WriteBatchWithTransaction ->
    RocksTransaction * outcome RocksError unit;
  txn_commit : RocksTransaction -> OptimisticTransactionDB -> OptimisticTransactionDB * outcome RocksError unit;
}.

(** ** Pending writes

    The net effect of a sequence of writes: [Some v] for a put, [None] for a
    deletion. *)
Abbreviation writes := (gmap (string * list Z) (option (list Z))) (only parsing).

(** The contents [m] under the writes [w]. *)
Definition overlay (w : gmap (string * list Z) (option (list Z))) (m : gmap (string * list Z) (list Z)) :
    gmap (string * list Z) (list Z) :=
  omap id (w ∪ (Some <$> m)).

Lemma lookup_overlay w m k :
  overlay w m !! k = match w !! k with Some o => o | None => m !! k end.
Proof.
  unfold overlay. rewrite lookup_omap, lookup_union, lookup_fmap.
  destruct (w !! k) as [[v|]|], (m !! k); done.
Qed.

Lemma overlay_empty m : overlay ∅ m = m.
Proof. apply map_eq. intros k. by rewrite lookup_overlay, lookup_empty. Qed.

Lemma overlay_union w w' m : overlay (w ∪ w') m = overlay w (overlay w' m).
Proof.
  apply map_eq. intros k. rewrite !lookup_overlay, lookup_union.
  destruct (w !! k), (w' !! k); done.
Qed.

Lemma overlay_insert k o w m :
  overlay (<[k := o]> w) m = match o with Some v => <[k := v]> (overlay w m) | None => delete k (overlay w m) end.
Proof.
  apply map_eq. intros k'. rewrite lookup_overlay, lookup_insert.
  destruct o; [rewrite lookup_insert|rewrite lookup_delete]; case_decide; try done; by rewrite lookup_overlay.
Qed.

(** ** Iteration

    [scan m cf from l]: [l] lists the entries of the column [cf] of [m] whose
    keys are not below [from], in increasing order of their keys. *)
Definition scan (m : gmap (string * list Z) (list Z)) (cf : string) (from : ByteVec)
    (l : list (ByteVec * ByteVec)) : Prop :=
  StronglySorted lexico l.*1 /\
  forall k v, (k, v) ∈ l <-> m !! (cf, k) = Some v /\ ~ lexico k from.

(** ** The documented behaviour *)
Class LawfulRocksLib (names : list string) `{RocksLib} := {
  rocks_ok : OptimisticTransactionDB -> Prop;
  rocks_view : OptimisticTransactionDB -> gmap (string * list Z) (list Z);
  cf_name : ColumnFamilyRef -> string;
  batch_writes : WriteBatchWithTransaction -> gmap (string * list Z) (option (list Z));
  snapshot_view : SnapshotWithThreadMode -> gmap (string * list Z) (list Z);
  options_view : ReadOptions -> option (gmap (string * list Z) (list Z));
  txn_ok : RocksTransaction -> Prop;
  txn_base : RocksTransaction -> gmap (string * list Z) (list Z);
  txn_writes : RocksTransaction -> gmap (string * list Z) (option (list Z));

  cf_handle_spec : forall db name, rocks_ok db -> name ∈ names ->
    exists h, cf_handle db name = Some h /\ cf_name h = name;
  get_cf_spec : forall db h k, rocks_ok db -> get_cf db h k = Ok (rocks_view db !! (cf_name h, k));
  put_cf_spec : forall db h k v, rocks_ok db ->
    exists db', put_cf db h k v = (db', Ok tt) /\ rocks_ok db' /\
      rocks_view db' = <[(cf_name h, k) := v]> (rocks_view db);
  delete_cf_spec : forall db h k, rocks_ok db ->
    exists db', delete_cf db h k = (db', Ok tt) /\ rocks_ok db' /\
      rocks_view db' = delete (cf_name h, k) (rocks_view db);
  iterator_cf_spec : forall db h from, rocks_ok db ->
    exists l, iterator_cf db h from = inl <$> l /\ scan (rocks_view db) (cf_name h) from l;
  write_spec : forall db b, rocks_ok db ->
    exists db', write db b = (db', Ok tt) /\ rocks_ok db' /\
      rocks_view db' = overlay (batch_writes b) (rocks_view db);
  snapshot_spec : forall db, rocks_ok db -> snapshot_view (snapshot db) = rocks_view db;

  batch_default_spec : batch_writes batch_default = ∅;
  batch_put_cf_spec : forall b h k v,
    batch_writes (batch_put_cf b h k v) = <[(cf_name h, k) := Some v]> (batch_writes b);
  batch_delete_cf_spec : forall b h k,
    batch_writes (batch_delete_cf b h k) = <[(cf_name h, k) := None]> (batch_writes b);

  options_default_spec : options_view ReadOptions_default = None;
  options_snapshot_spec : forall o s, options_view (ReadOptions_set_snapshot o s) = Some (snapshot_view s);

  transaction_opt_spec : forall db w o, rocks_ok db ->
    let t := transaction_opt db w o in txn_ok t /\ txn_base t = rocks_view db /\ txn_writes t = ∅;
  txn_get_cf_opt_spec : forall t h k o, txn_ok t ->
    txn_get_cf_opt t h k o =
      Ok (overlay (txn_writes t) (default (txn_base t) (options_view o)) !! (cf_name h, k));
  txn_put_cf_spec : forall t h k v, txn_ok t ->
    exists t', txn_put_cf t h k v = (t', Ok tt) /\ txn_ok t' /\ txn_base t' = txn_base t /\
      txn_writes t' = <[(cf_name h, k) := Some v]> (txn_writes t);
  txn_delete_cf_spec : forall t h k, txn_ok t ->
    exists t', txn_delete_cf t h k = (t', Ok tt) /\ txn_ok t' /\ txn_base t' = txn_base t /\
      txn_writes t' = <[(cf_name h, k) := None]> (txn_writes t);
  txn_iterator_cf_spec : forall t h from, txn_ok t ->
    exists l, txn_iterator_cf t h from = inl <$> l /\
      scan (overlay (txn_writes t) (txn_base t)) (cf_name h) from l;
  txn_get_writebatch_spec : forall t, txn_ok t -> batch_writes (txn_get_writebatch t) = txn_writes t;
  txn_rebuild_spec : forall t b, txn_ok t ->
    exists t', txn_rebuild_from_writebatch t b = (t', Ok tt) /\ txn_ok t' /\ txn_base t' = txn_base t /\
      txn_writes t' = batch_writes b ∪ txn_writes t;
  txn_commit_spec : forall t db, txn_ok t -> rocks_ok db -> rocks_view db = txn_base t ->
    exists db', txn_commit t db = (db', Ok tt) /\ rocks_ok db' /\
      rocks_view db' = overlay (txn_writes t) (rocks_view db);
}.

(** ** Keys with a prefix, in lexicographic order *)

Lemma lexico_cons (a b : Z) (x y : ByteVec) :
  lexico (a :: x) (b :: y) <-> (a < b)%Z \/ a = b /\ lexico x y.
Proof. reflexivity. Qed.

(** A key with a prefix is not below it. *)
Lemma prefix_not_below (p k : ByteVec) : p `prefix_of` k -> ~ lexico k p.
Proof.
  intros [q ->]. induction p as [|a p IH]; [intros H; by destruct q|].
  cbn [app]. rewrite lexico_cons. intros [H|[_ H]]; [lia|by apply IH].
Qed.

(** The keys with a prefix are an interval that starts at the prefix. *)
Lemma prefix_interval (p x y : ByteVec) :
  ~ lexico x p -> lexico x y -> p `prefix_of` y -> p `prefix_of` x.
Proof.
  intros Hx Hxy [q ->]. revert x Hx Hxy. induction p as [|a p IH]; intros x Hx Hxy; [apply prefix_nil|].
  destruct x as [|b x]; [by destruct Hx|].
  cbn [app] in Hxy. rewrite lexico_cons in Hx, Hxy.
  destruct Hxy as [Hlt|[-> Hxy]]; [naive_solver|].
  apply prefix_cons, IH; naive_solver.
Qed.

(** [Iterator::map_while] collected. *)
Fixpoint map_while {A B} (f : A -> option B) (l : list A) : list B :=
  match l with
  | [] => []
  | a :: l => match f a with Some b => b :: map_while f l | None => [] end
  end.

(** On the entries from a prefix on, stopping at the first key without it
    collects all that have it. *)
Lemma map_while_prefix {E} (f : (ByteVec * ByteVec) + E -> option (ByteVec * ByteVec)) p l :
  (forall kv, f (inl kv) = if decide (p `prefix_of` kv.1) then Some kv else None) ->
  StronglySorted lexico l.*1 -> Forall (fun k => ~ lexico k p) l.*1 ->
  map_while f (inl <$> l) = filter (fun kv => p `prefix_of` kv.1) l.
Proof.
  intros Hf. induction l as [|[k v] l IH]; intros Hs Hp; [done|].
  cbn in Hs, Hp. inversion_clear Hs as [|? ? Hs' Hall]. apply Forall_cons in Hp as [Hk Hp].
  rewrite fmap_cons. cbn [map_while]. rewrite Hf. cbn [fst]. case_decide as Hpre.
  - rewrite filter_cons_True by done. by rewrite IH.
  - rewrite filter_cons_False by done. symmetry. apply elem_of_nil_inv.
    intros [k' v'] [Hpre' Hin]%list_elem_of_filter. cbn in Hpre'. apply Hpre.
    apply (prefix_interval p k k'); [done| |done].
    rewrite Forall_forall in Hall. apply Hall, list_elem_of_fmap. by exists (k', v').
Qed.
