(* ===== verification/Rocks.v ===== *)
(** * The RocksDB database

    Models [src/src/databases/rocks_db.rs]: the wrapper [RocksDB] over an
    [OptimisticTransactionDB] with one column family per kind of key, its
    transactions [RocksDBTransaction], and the snapshots it keeps. The [rocksdb]
    crate is the parameter [RocksLib]. A reference [&'db] to the library's
    database, which is mutated through it, is the state of that database.
    [create_rocks_db] is in [RocksOpen.v], the dumps in [Dump.v]. *)
From S2P Require Import Prelude Id BTree Database RocksLib.
From stdpp Require Import lexico sorting.
#[export] Set Warnings "-register-all".

Definition TRIE_LOG_CF : string := "trie_log".
Definition TRIE_CF : string := "trie".
Definition FLAT_CF : string := "flat".
Definition CF_ERROR : string := "critical: rocksdb column family operation failed".

(** ** [struct RocksDBConfig] *)
Record RocksDBConfig := mkRocksDBConfig { rocks_max_saved_snapshots : option Z }.
Definition RocksDBConfig_default : RocksDBConfig := mkRocksDBConfig (Some 100%Z).

(** ** [impl DatabaseKey] *)
Definition DatabaseKey_get_cf (self : DatabaseKey) : string :=
  match self with
  | DatabaseKey_Trie _ => TRIE_CF
  | DatabaseKey_Flat _ => FLAT_CF
  | DatabaseKey_TrieLog _ => TRIE_LOG_CF
  end.

(** ** [enum RocksDBError] *)
Inductive RocksDBError (E : Type) : Type :=
| RocksDBError_RocksDB (err : E)
| RocksDBError_Custom (msg : string).
Arguments RocksDBError_RocksDB {E}.
Arguments RocksDBError_Custom {E}.

(** [impl From<Error> for RocksDBError], behind [?]. *)
Definition from_RocksError {E A} (m : outcome E A) : outcome (RocksDBError E) A :=
  map_err RocksDBError_RocksDB m.

(** [impl StdError for RocksDBError]. *)
Definition RocksDBError_cause {E} (self : RocksDBError E) : option E :=
  match self with RocksDBError_RocksDB err => Some err | RocksDBError_Custom _ => None end.
Definition RocksDBError_source {E} (self : RocksDBError E) : option E :=
  match self with RocksDBError_RocksDB err => Some err | RocksDBError_Custom _ => None end.

(** [impl Display for RocksDBError]: the display of the crate's error is given. *)
Definition RocksDBError_fmt {E} (fmt_error : E -> string) (self : RocksDBError E) : string :=
  match self with
  | RocksDBError_RocksDB err => "RocksDB error: " +:+ fmt_error err
  | RocksDBError_Custom err => "RocksDB error in trie: " +:+ err
  end.

(** ** [struct RocksDB] *)
Record RocksDB (ID : Type) `{RocksLib} := mkRocksDB {
  rocks_db : OptimisticTransactionDB;
  rocks_config : RocksDBConfig;
  rocks_snapshots : list (ID * SnapshotWithThreadMode);
}.
Arguments mkRocksDB {ID _}.
Arguments rocks_db {ID _}.
Arguments rocks_config {ID _}.
Arguments rocks_snapshots {ID _}.

(** ** [struct RocksDBTransaction] *)
Record RocksDBTransaction `{RocksLib} := mkRocksDBTransaction {
  txn : RocksTransaction;
  read_options : ReadOptions;
  column_families : gmap string ColumnFamilyRef;
}.
Arguments mkRocksDBTransaction {_}.
Arguments txn {_}.
Arguments read_options {_}.
Arguments column_families {_}.

Section RocksDB.
Context `{RocksLib}.
Abbreviation RocksDBBatch := WriteBatchWithTransaction.
Abbreviation error := (RocksDBError RocksError).

(** The closure of [map_while] in [get_by_prefix]. *)
Definition prefix_entry (prefix : ByteVec) (kv : (ByteVec * ByteVec) + RocksError) :
    option (ByteVec * ByteVec) :=
  match kv with
  | inl (key, value) => if decide (prefix `prefix_of` key) then Some (key, value) else None
  | inr _ => None
  end.

(** The loop of [remove_by_prefix] over the iterator. *)
Fixpoint prefix_batch (handle : ColumnFamilyRef) (prefix : ByteVec)
    (iter : list ((ByteVec * ByteVec) + RocksError)) (batch : RocksDBBatch) : RocksDBBatch :=
  match iter with
  | inl (key, _) :: iter =>
      if decide (prefix `prefix_of` key)
      then prefix_batch handle prefix iter (batch_delete_cf batch handle key)
      else batch
  | _ => batch
  end.

(** ** [impl BonsaiDatabase for RocksDB] *)
Section Wrapper.
Context {ID : Type}.
Abbreviation RocksDB := (RocksDB ID).
Implicit Types self : RocksDB.

Definition set_rocks_db (db : OptimisticTransactionDB) self : RocksDB :=
  mkRocksDB db self.(rocks_config) self.(rocks_snapshots).

Definition RocksDB_new (db : OptimisticTransactionDB) (config : RocksDBConfig) : RocksDB :=
  mkRocksDB db config [].

(** [self.db.cf_handle(key.get_cf()).expect(CF_ERROR)]. *)
Definition RocksDB_cf self (key : DatabaseKey) : outcome error ColumnFamilyRef :=
  expect (cf_handle self.(rocks_db) (DatabaseKey_get_cf key)) CF_ERROR.

(** A call that mutates the library's database. *)
Definition on_rocks_db (f : OptimisticTransactionDB -> OptimisticTransactionDB * outcome RocksError unit) :
    action (RocksDB * option RocksDBBatch) error unit :=
  fun '(self, batch) =>
  let '(db, r) := f self.(rocks_db) in ((set_rocks_db db self, batch), from_RocksError r).

Definition RocksDB_create_batch self : RocksDBBatch := batch_default.

Definition RocksDB_insert (key : DatabaseKey) (value : ByteVec) :
    action (RocksDB * option RocksDBBatch) error (option ByteVec) :=
  self ← gets fst;
  handle_cf ← lift (RocksDB_cf self key);
  old_value ← lift (from_RocksError (get_cf self.(rocks_db) handle_cf (DatabaseKey_as_slice key)));
  batch ← gets snd;
  _ ← match batch with
      | Some batch =>
          modify (fun s => (s.1, Some (batch_put_cf batch handle_cf (DatabaseKey_as_slice key) value)))
      | None => on_rocks_db (fun db => put_cf db handle_cf (DatabaseKey_as_slice key) value)
      end;
  mret old_value.

Definition RocksDB_get self (key : DatabaseKey) : outcome error (option ByteVec) :=
  handle ← RocksDB_cf self key;
  from_RocksError (get_cf self.(rocks_db) handle (DatabaseKey_as_slice key)).

Definition RocksDB_get_by_prefix self (prefix : DatabaseKey) : outcome error (list (ByteVec * ByteVec)) :=
  handle ← RocksDB_cf self prefix;
  let iter := iterator_cf self.(rocks_db) handle (DatabaseKey_as_slice prefix) in
  Ok (map_while (prefix_entry (DatabaseKey_as_slice prefix)) iter).

Definition RocksDB_contains self (key : DatabaseKey) : outcome error bool :=
  handle ← RocksDB_cf self key;
  value ← from_RocksError (get_cf self.(rocks_db) handle (DatabaseKey_as_slice key));
  Ok (bool_decide (is_Some value)).

Definition RocksDB_remove (key : DatabaseKey) :
    action (RocksDB * option RocksDBBatch) error (option ByteVec) :=
  self ← gets fst;
  handle ← lift (RocksDB_cf self key);
  old_value ← lift (from_RocksError (get_cf self.(rocks_db) handle (DatabaseKey_as_slice key)));
  batch ← gets snd;
  _ ← match batch with
      | Some batch => modify (fun s => (s.1, Some (batch_delete_cf batch handle (DatabaseKey_as_slice key))))
      | None => on_rocks_db (fun db => delete_cf db handle (DatabaseKey_as_slice key))
      end;
  mret old_value.

Definition RocksDB_write_batch self (batch : RocksDBBatch) : RocksDB * outcome error unit :=
  let '(db, r) := write self.(rocks_db) batch in (set_rocks_db db self, from_RocksError r).

Definition RocksDB_remove_by_prefix self (prefix : DatabaseKey) : RocksDB * outcome error unit :=
  match RocksDB_cf self prefix with
  | Ok handle =>
      let iter := iterator_cf self.(rocks_db) handle (DatabaseKey_as_slice prefix) in
      let batch := prefix_batch handle (DatabaseKey_as_slice prefix) iter (RocksDB_create_batch self) in
      RocksDB_write_batch self batch
  | Err e => (self, Err e)
  | Panic w => (self, Panic w)
  | NoFuel => (self, NoFuel)
  end.

#[export] Instance RocksDB_database : BonsaiDatabase RocksDB := {|
  Batch := RocksDBBatch;
  DatabaseError := error;
  db_create_batch := RocksDB_create_batch;
  db_get := RocksDB_get;
  db_get_by_prefix := RocksDB_get_by_prefix;
  db_contains := RocksDB_contains;
  db_insert self key value batch := RocksDB_insert key value (self, batch);
  db_remove self key batch := RocksDB_remove key (self, batch);
  db_remove_by_prefix := RocksDB_remove_by_prefix;
  db_write_batch := RocksDB_write_batch;
|}.
End Wrapper.

(** ** [impl BonsaiDatabase for RocksDBTransaction] *)
Section Transactions.
Implicit Types self : RocksDBTransaction.

Definition set_txn (t : RocksTransaction) self : RocksDBTransaction :=
  mkRocksDBTransaction t self.(read_options) self.(column_families).

Definition RocksDBTransaction_cf self (key : DatabaseKey) : outcome error ColumnFamilyRef :=
  expect (self.(column_families) !! DatabaseKey_get_cf key) CF_ERROR.

Definition on_txn (f : RocksTransaction -> RocksTransaction * outcome RocksError unit) :
    action (RocksDBTransaction * option RocksDBBatch) error unit :=
  fun '(self, batch) =>
  let '(t, r) := f self.(txn) in ((set_txn t self, batch), from_RocksError r).

Definition RocksDBTransaction_create_batch self : RocksDBBatch := txn_get_writebatch self.(txn).

(** [self.txn.get_cf_opt(handle, key.as_slice(), &self.read_options)]. *)
Definition RocksDBTransaction_read self (handle : ColumnFamilyRef) (key : DatabaseKey) :
    outcome error (option ByteVec) :=
  from_RocksError (txn_get_cf_opt self.(txn) handle (DatabaseKey_as_slice key) self.(read_options)).

Definition RocksDBTransaction_insert (key : DatabaseKey) (value : ByteVec) :
    action (RocksDBTransaction * option RocksDBBatch) error (option ByteVec) :=
  self ← gets fst;
  handle_cf ← lift (RocksDBTransaction_cf self key);
  old_value ← lift (RocksDBTransaction_read self handle_cf key);
  batch ← gets snd;
  _ ← match batch with
      | Some batch =>
          modify (fun s => (s.1, Some (batch_put_cf batch handle_cf (DatabaseKey_as_slice key) value)))
      | None => on_txn (fun t => txn_put_cf t handle_cf (DatabaseKey_as_slice key) value)
      end;
  mret old_value.

Definition RocksDBTransaction_get self (key : DatabaseKey) : outcome error (option ByteVec) :=
  handle ← RocksDBTransaction_cf self key;
  RocksDBTransaction_read self handle key.

(** The iterator does not take the read options. *)
Definition RocksDBTransaction_get_by_prefix self (prefix : DatabaseKey) :
    outcome error (list (ByteVec * ByteVec)) :=
  handle ← RocksDBTransaction_cf self prefix;
  let iter := txn_iterator_cf self.(txn) handle (DatabaseKey_as_slice prefix) in
  Ok (map_while (prefix_entry (DatabaseKey_as_slice prefix)) iter).

Definition RocksDBTransaction_contains self (key : DatabaseKey) : outcome error bool :=
  handle ← RocksDBTransaction_cf self key;
  value ← RocksDBTransaction_read self handle key;
  Ok (bool_decide (is_Some value)).

Definition RocksDBTransaction_remove (key : DatabaseKey) :
    action (RocksDBTransaction * option RocksDBBatch) error (option ByteVec) :=
  self ← gets fst;
  handle ← lift (RocksDBTransaction_cf self key);
  old_value ← lift (RocksDBTransaction_read self handle key);
  batch ← gets snd;
  _ ← match batch with
      | Some batch => modify (fun s => (s.1, Some (batch_delete_cf batch handle (DatabaseKey_as_slice key))))
      | None => on_txn (fun t => txn_delete_cf t handle (DatabaseKey_as_slice key))
      end;
  mret old_value.

Definition RocksDBTransaction_write_batch self (batch : RocksDBBatch) :
    RocksDBTransaction * outcome error unit :=
  let '(t, r) := txn_rebuild_from_writebatch self.(txn) batch in (set_txn t self, from_RocksError r).

Definition RocksDBTransaction_remove_by_prefix self (prefix : DatabaseKey) :
    RocksDBTransaction * outcome error unit :=
  let batch := RocksDBTransaction_create_batch self in
  match RocksDBTransaction_cf self prefix with
  | Ok handle =>
      let iter := txn_iterator_cf self.(txn) handle (DatabaseKey_as_slice prefix) in
      let batch := prefix_batch handle (DatabaseKey_as_slice prefix) iter batch in
      RocksDBTransaction_write_batch self batch
  | Err e => (self, Err e)
  | Panic w => (self, Panic w)
  | NoFuel => (self, NoFuel)
  end.

#[export] Instance RocksDBTransaction_database : BonsaiDatabase RocksDBTransaction := {|
  Batch := RocksDBBatch;
  DatabaseError := error;
  db_create_batch := RocksDBTransaction_create_batch;
  db_get := RocksDBTransaction_get;
  db_get_by_prefix := RocksDBTransaction_get_by_prefix;
  db_contains := RocksDBTransaction_contains;
  db_insert self key value batch := RocksDBTransaction_insert key value (self, batch);
  db_remove self key batch := RocksDBTransaction_remove key (self, batch);
  db_remove_by_prefix := RocksDBTransaction_remove_by_prefix;
  db_write_batch := RocksDBTransaction_write_batch;
|}.
End Transactions.

(** ** [impl BonsaiPersistentDatabase for RocksDB] *)
Section Persistent.
Context {ID : Type} `{Id ID}.
Abbreviation RocksDB := (RocksDB ID).
Implicit Types self : RocksDB.

Definition RocksDB_snapshot self (id : ID) : RocksDB :=
  let snapshots := btree_insert Id_ltb id (snapshot self.(rocks_db)) self.(rocks_snapshots) in
  let snapshots :=
    match self.(rocks_config).(rocks_max_saved_snapshots) with
    | Some max_number_snapshot => btree_pop_while max_number_snapshot snapshots
    | None => snapshots
    end in
  mkRocksDB self.(rocks_db) self.(rocks_config) snapshots.

(** [column_families.insert(name.to_string(), self.db.cf_handle(name).expect(CF_ERROR))]. *)
Definition insert_cf {E} self (name : string) (families : gmap string ColumnFamilyRef) :
    outcome E (gmap string ColumnFamilyRef) :=
  handle ← expect (cf_handle self.(rocks_db) name) CF_ERROR;
  Ok (<[name := handle]> families).

Definition RocksDB_transaction self (id : ID) : outcome Empty_set (option (ID * RocksDBTransaction)) :=
  match head (btree_range_to Id_ltb id self.(rocks_snapshots)) with
  | Some (id, snapshot) =>
      let write_opts := WriteOptions_default in
      let txn_opts := OptimisticTransactionOptions_set_snapshot OptimisticTransactionOptions_default true in
      let txn := transaction_opt self.(rocks_db) write_opts txn_opts in
      let read_options := ReadOptions_set_snapshot ReadOptions_default snapshot in
      column_families ← insert_cf self TRIE_LOG_CF ∅;
      column_families ← insert_cf self TRIE_CF column_families;
      column_families ← insert_cf self FLAT_CF column_families;
      Ok (Some (id, mkRocksDBTransaction txn read_options column_families))
  | None => Ok None
  end.

Definition RocksDB_merge self (transaction : RocksDBTransaction) : RocksDB * outcome error unit :=
  let '(db, r) := txn_commit transaction.(txn) self.(rocks_db) in (set_rocks_db db self, from_RocksError r).

#[export] Instance RocksDB_persistent : BonsaiPersistentDatabase RocksDB ID := {|
  Transaction := RocksDBTransaction;
  Transaction_database := RocksDBTransaction_database;
  db_snapshot := RocksDB_snapshot;
  db_transaction := RocksDB_transaction;
  db_merge := RocksDB_merge;
|}.
End Persistent.
End RocksDB.
