(* ===== verification/RocksSpec.v ===== *)
(** * The contract of the RocksDB database

    On a lawful [rocksdb] crate, [RocksDB] and its transactions meet the
    contract of a database ([RocksDB_lawful], [RocksDBTransaction_lawful]), so
    that every theorem on the storage holds on them too. The properties of the
    file: agreement with the in-memory database, ordered prefix reads, the bound
    on the snapshots, transactions, and the errors a prefix read hides. *)
From S2P Require Import Prelude Id BTree Database HashMapDb RocksLib Rocks.
From stdpp Require Import lexico sorting.
#[export] Set Warnings "-register-all".

Definition column_names : list string := [TRIE_LOG_CF; TRIE_CF; FLAT_CF].

(** Where a key is stored. *)
Definition column_of (k : DatabaseKey) : string * list Z := (DatabaseKey_get_cf k, DatabaseKey_as_slice k).

#[export] Instance column_of_inj : Inj (=) (=) column_of.
Proof. by intros [] [] [=]; subst. Qed.

Lemma column_of_with p s : column_of (DatabaseKey_with p s) = (DatabaseKey_get_cf p, s).
Proof. by destruct p. Qed.

Lemma DatabaseKey_get_cf_in k : DatabaseKey_get_cf k ∈ column_names.
Proof. destruct k; cbn; set_solver. Qed.

Lemma has_prefix_column p k :
  DatabaseKey_has_prefix p k <->
  DatabaseKey_get_cf k = DatabaseKey_get_cf p /\ DatabaseKey_as_slice p `prefix_of` DatabaseKey_as_slice k.
Proof. destruct p, k; cbn; naive_solver. Qed.

(** ** Columns as a map over the keys of the three columns *)
Definition shows (view : gmap (string * list Z) (list Z)) (m : gmap DatabaseKey ByteVec) : Prop :=
  forall k, m !! k = view !! column_of k.

Lemma shows_insert view m k v : shows view m -> shows (<[column_of k := v]> view) (<[k := v]> m).
Proof.
  intros Hm k'. rewrite !lookup_insert. destruct (decide (k = k')) as [->|Hk]; [by rewrite !decide_True|].
  by rewrite !decide_False by naive_solver.
Qed.

Lemma shows_delete view m k : shows view m -> shows (delete (column_of k) view) (delete k m).
Proof.
  intros Hm k'. rewrite !lookup_delete. destruct (decide (k = k')) as [->|Hk]; [by rewrite !decide_True|].
  by rewrite !decide_False by naive_solver.
Qed.

Create HintDb rocks.
#[export] Hint Resolve shows_insert shows_delete : rocks.

Section Scan.
Context `{RocksLib}.

Lemma scan_filter view p l :
  scan view (DatabaseKey_get_cf p) (DatabaseKey_as_slice p) l ->
  map_while (prefix_entry (DatabaseKey_as_slice p)) (inl <$> l) =
  filter (fun kv => DatabaseKey_as_slice p `prefix_of` kv.1) l.
Proof.
  intros [Hs Hl]. apply map_while_prefix; [by intros []|done|].
  apply Forall_forall. intros k ([k' v] & -> & Hin)%list_elem_of_fmap. by apply Hl in Hin as [_ ?].
Qed.

Lemma sorted_fst_nodup (l : list (ByteVec * ByteVec)) : StronglySorted lexico l.*1 -> NoDup l.*1.
Proof.
  induction l.*1 as [|k ks IH]; intros Hs; [constructor|]. inversion_clear Hs as [|? ? Hs' Hall].
  constructor; [|by apply IH]. intros Hin. rewrite Forall_forall in Hall. by apply (irreflexivity lexico k), Hall.
Qed.

Lemma sorted_fst_filter (P : ByteVec * ByteVec -> Prop) `{!forall x, Decision (P x)} l :
  StronglySorted lexico l.*1 -> StronglySorted lexico (filter P l).*1.
Proof.
  induction l as [|kv l IH]; intros Hs; [constructor|]. cbn in Hs. inversion_clear Hs as [|? ? Hs' Hall].
  rewrite filter_cons. case_decide; [|by apply IH]. cbn. constructor; [by apply IH|].
  rewrite Forall_forall in Hall |- *. intros k (kv' & -> & [_ Hin]%list_elem_of_filter)%list_elem_of_fmap.
  apply Hall. by apply list_elem_of_fmap_2.
Qed.

(** What a prefix read collects. *)
Lemma scan_entries view m p l :
  shows view m -> scan view (DatabaseKey_get_cf p) (DatabaseKey_as_slice p) l ->
  let es := map_while (prefix_entry (DatabaseKey_as_slice p)) (inl <$> l) in
  StronglySorted lexico es.*1 /\
  es ≡ₚ prod_map DatabaseKey_as_slice id <$>
    map_to_list (filter (fun kv => DatabaseKey_has_prefix p kv.1) m).
Proof.
  intros Hm Hscan es. unfold es. rewrite (scan_filter view) by done. destruct Hscan as [Hs Hl].
  assert (StronglySorted lexico (filter (fun kv => DatabaseKey_as_slice p `prefix_of` kv.1) l).*1) as Hs'
    by by apply sorted_fst_filter.
  split; [done|]. apply prefix_entries_perm.
  - by apply (NoDup_fmap_1 fst), sorted_fst_nodup.
  - intros s v. rewrite list_elem_of_filter, Hl, Hm, column_of_with. cbn.
    split; [naive_solver|]. intros [Hpre ?]. split_and!; [done..|]. by apply prefix_not_below.
Qed.

Context `{!LawfulRocksLib column_names}.

(** What [remove_by_prefix] adds to its batch: the deletion of what a prefix
    read collects. *)
Lemma prefix_batch_deletes h p iter b :
  prefix_batch h p iter b =
  fold_left (fun b kv => batch_delete_cf b h kv.1) (map_while (prefix_entry p) iter) b.
Proof.
  revert b. induction iter as [|[[k v]|e] iter IH]; intros b; [done| |done].
  cbn. case_decide; [apply IH|done].
Qed.

Lemma batch_deletes_lookup h es b (ck : string * list Z) :
  batch_writes (fold_left (fun b (kv : ByteVec * ByteVec) => batch_delete_cf b h kv.1) es b) !! ck =
  if decide (ck.1 = cf_name h /\ ck.2 ∈ es.*1) then Some None else batch_writes b !! ck.
Proof.
  revert b. induction es as [|[k v] es IH]; intros b; cbn [fold_left].
  - rewrite decide_False; [done|]. intros [_ Hin]. by apply elem_of_nil in Hin.
  - rewrite IH, batch_delete_cf_spec, lookup_insert, fmap_cons. destruct ck as [c s].
    repeat case_decide; cbn in *; set_solver.
Qed.

(** Removal by prefix: the batch starts from writes already in the contents. *)
Lemma shows_remove_by_prefix h view m p l b :
  shows view m -> cf_name h = DatabaseKey_get_cf p ->
  scan view (DatabaseKey_get_cf p) (DatabaseKey_as_slice p) l ->
  overlay (batch_writes b) view = view ->
  shows (overlay (batch_writes (prefix_batch h (DatabaseKey_as_slice p) (inl <$> l) b)) view)
    (filter (fun kv => ~ DatabaseKey_has_prefix p kv.1) m).
Proof.
  intros Hm Hh Hscan Hb k. rewrite lookup_overlay, prefix_batch_deletes, batch_deletes_lookup.
  rewrite (scan_filter view) by done. destruct Hscan as [_ Hl]. cbn [column_of fst snd].
  assert (match batch_writes b !! column_of k with Some o => o | None => view !! column_of k end = m !! k) as Hk.
  { by rewrite <- lookup_overlay, Hb, Hm. }
  destruct (decide (DatabaseKey_has_prefix p k)) as [Hp|Hp].
  - rewrite map_lookup_filter_None_2 by (right; naive_solver). apply has_prefix_column in Hp as [Hcf Hpre].
    case_decide as Hin; [done|]. rewrite Hk. destruct (m !! k) as [v|] eqn:Hv; [|done]. exfalso.
    apply Hin. split; [congruence|]. apply list_elem_of_fmap. exists (DatabaseKey_as_slice k, v). split; [done|].
    apply list_elem_of_filter. split; [done|]. apply Hl. rewrite Hm in Hv. unfold column_of in Hv. rewrite <- Hcf.
    split; [done|by apply prefix_not_below].
  - rewrite decide_False.
    + rewrite Hk. destruct (m !! k) as [v|] eqn:Hv; [by apply map_lookup_filter_Some|].
      by apply map_lookup_filter_None_2; left.
    + intros [Hcf ([k' v] & Hk' & [Hpre _]%list_elem_of_filter)%list_elem_of_fmap]. apply Hp, has_prefix_column.
      cbn in *. subst. by rewrite Hcf, Hh.
Qed.
End Scan.

(** ** [RocksDB] *)
Section Wrapper.
Context `{RocksLib} `{!LawfulRocksLib column_names} {ID : Type}.
Implicit Types self : RocksDB ID.

(** The wrapper holds the bindings of the three columns of an open database. *)
Definition RocksDB_holds self (m : gmap DatabaseKey ByteVec) : Prop :=
  rocks_ok self.(rocks_db) /\ shows (rocks_view self.(rocks_db)) m.

(** A batch that the database of contents [m0] is to become [m] by. *)
Definition RocksDB_pending self (b : WriteBatchWithTransaction) (m0 m : gmap DatabaseKey ByteVec) : Prop :=
  RocksDB_holds self m0 /\ shows (overlay (batch_writes b) (rocks_view self.(rocks_db))) m.

Lemma RocksDB_cf_ok self k : rocks_ok self.(rocks_db) ->
  exists h, RocksDB_cf self k = Ok h /\ cf_name h = DatabaseKey_get_cf k.
Proof.
  intros Hok. destruct (cf_handle_spec _ _ Hok (DatabaseKey_get_cf_in k)) as (h & Hh & Hn).
  exists h. unfold RocksDB_cf. by rewrite Hh.
Qed.

(** The handle and the value of a key. *)
Lemma RocksDB_read_ok self m k : RocksDB_holds self m ->
  exists h, RocksDB_cf self k = Ok h /\ (cf_name h, DatabaseKey_as_slice k) = column_of k /\
    get_cf self.(rocks_db) h (DatabaseKey_as_slice k) = Ok (m !! k).
Proof.
  intros [Hok Hm]. destruct (RocksDB_cf_ok self k Hok) as (h & Hh & Hn). exists h.
  rewrite get_cf_spec, Hm, Hn by done. done.
Qed.

Lemma RocksDB_scan self m p : RocksDB_holds self m ->
  exists h l, RocksDB_cf self p = Ok h /\ cf_name h = DatabaseKey_get_cf p /\
    iterator_cf self.(rocks_db) h (DatabaseKey_as_slice p) = inl <$> l /\
    scan (rocks_view self.(rocks_db)) (DatabaseKey_get_cf p) (DatabaseKey_as_slice p) l.
Proof.
  intros [Hok Hm]. destruct (RocksDB_cf_ok self p Hok) as (h & Hh & Hn).
  destruct (iterator_cf_spec _ h (DatabaseKey_as_slice p) Hok) as (l & Hl & Hs).
  exists h, l. by rewrite <- Hn.
Qed.

#[export] Instance RocksDB_lawful : LawfulDatabase (RocksDB ID).
Proof.
  refine {| db_holds := RocksDB_holds; db_pending := RocksDB_pending |}.
  - intros self m Hm. split; [done|]. cbn. unfold RocksDB_create_batch.
    rewrite batch_default_spec, overlay_empty. apply Hm.
  - intros self m k Hm. destruct (RocksDB_read_ok self m k Hm) as (h & Hh & _ & Hg).
    cbn. unfold RocksDB_get. rewrite Hh. cbn. by rewrite Hg.
  - intros self m k Hm. destruct (RocksDB_read_ok self m k Hm) as (h & Hh & _ & Hg).
    cbn. unfold RocksDB_contains. rewrite Hh. cbn. by rewrite Hg.
  - intros self m p Hm. destruct (RocksDB_scan self m p Hm) as (h & l & Hh & _ & Hl & Hs).
    cbn. unfold RocksDB_get_by_prefix. rewrite Hh. cbn. rewrite Hl. eexists. split; [done|].
    eapply scan_entries; [apply Hm|done].
  - intros self m k v Hm. destruct (RocksDB_read_ok self m k Hm) as (h & Hh & Hc & Hg).
    destruct (put_cf_spec self.(rocks_db) h (DatabaseKey_as_slice k) v (proj1 Hm)) as (db' & Hput & Hok & Hv).
    exists (set_rocks_db db' self). cbn. unfold RocksDB_insert, on_rocks_db, mbind, action_bind, lift, gets. cbn.
    rewrite Hh, Hg. cbn. rewrite Hput. split; [done|]. split; [done|]. cbn. rewrite Hv, Hc.
    apply shows_insert, Hm.
  - intros self b m0 m k v [Hm0 Hm]. destruct (RocksDB_read_ok self m0 k Hm0) as (h & Hh & Hc & Hg).
    exists self, (batch_put_cf b h (DatabaseKey_as_slice k) v), (m0 !! k).
    cbn. unfold RocksDB_insert, mbind, action_bind, lift, gets. cbn. rewrite Hh, Hg.
    split_and!; [done..|]. split; [done|]. rewrite batch_put_cf_spec, Hc, overlay_insert. by apply shows_insert.
  - intros self m k Hm. destruct (RocksDB_read_ok self m k Hm) as (h & Hh & Hc & Hg).
    destruct (delete_cf_spec self.(rocks_db) h (DatabaseKey_as_slice k) (proj1 Hm)) as (db' & Hdel & Hok & Hv).
    exists (set_rocks_db db' self). cbn. unfold RocksDB_remove, on_rocks_db, mbind, action_bind, lift, gets. cbn.
    rewrite Hh, Hg. cbn. rewrite Hdel. split; [done|]. split; [done|]. cbn. rewrite Hv, Hc.
    apply shows_delete, Hm.
  - intros self b m0 m k [Hm0 Hm]. destruct (RocksDB_read_ok self m0 k Hm0) as (h & Hh & Hc & Hg).
    exists self, (batch_delete_cf b h (DatabaseKey_as_slice k)), (m0 !! k).
    cbn. unfold RocksDB_remove, mbind, action_bind, lift, gets. cbn. rewrite Hh, Hg.
    split_and!; [done..|]. split; [done|]. rewrite batch_delete_cf_spec, Hc, overlay_insert. by apply shows_delete.
  - intros self m p Hm. destruct (RocksDB_scan self m p Hm) as (h & l & Hh & Hn & Hl & Hs).
    set (b := prefix_batch h (DatabaseKey_as_slice p) (inl <$> l) (RocksDB_create_batch self)).
    destruct (write_spec self.(rocks_db) b (proj1 Hm)) as (db' & Hw & Hok & Hv).
    exists (set_rocks_db db' self). cbn. unfold RocksDB_remove_by_prefix. rewrite Hh, Hl. fold b.
    unfold RocksDB_write_batch. rewrite Hw. split; [done|]. split; [done|]. cbn. rewrite Hv.
    eapply shows_remove_by_prefix; [apply Hm|done..|].
    unfold RocksDB_create_batch. by rewrite batch_default_spec, overlay_empty.
  - intros self b m0 m [[Hok Hm0] Hm]. destruct (write_spec self.(rocks_db) b Hok) as (db' & Hw & Hok' & Hv).
    exists (set_rocks_db db' self). cbn. unfold RocksDB_write_batch. rewrite Hw.
    split; [done|]. split; [done|]. cbn. by rewrite Hv.
Defined.
End Wrapper.

(** ** [RocksDBTransaction] *)
Section Transaction.
Context `{RocksLib} `{!LawfulRocksLib column_names}.
(** The contents of the database the transaction was opened on. *)
Context (base : gmap (string * list Z) (list Z)).
Implicit Types self : RocksDBTransaction.

(** The handles of the three columns. *)
Definition families_ok (families : gmap string ColumnFamilyRef) : Prop :=
  forall name, name ∈ column_names -> exists h, families !! name = Some h /\ cf_name h = name.

(** What point reads and what iterators see. *)
Definition txn_reads self : gmap (string * list Z) (list Z) :=
  overlay (txn_writes self.(txn)) (default (txn_base self.(txn)) (options_view self.(read_options))).
Definition txn_scans self : gmap (string * list Z) (list Z) :=
  overlay (txn_writes self.(txn)) (txn_base self.(txn)).

(** A transaction on a snapshot of the database as it is. *)
Definition RocksDBTransaction_holds self (m : gmap DatabaseKey ByteVec) : Prop :=
  txn_ok self.(txn) /\ families_ok self.(column_families) /\
  txn_base self.(txn) = base /\ default base (options_view self.(read_options)) = base /\
  shows (txn_scans self) m.

Definition RocksDBTransaction_pending self (b : WriteBatchWithTransaction) (m0 m : gmap DatabaseKey ByteVec) : Prop :=
  RocksDBTransaction_holds self m0 /\
  shows (overlay (batch_writes b) (txn_scans self)) m.

Lemma RocksDBTransaction_cf_ok self k : families_ok self.(column_families) ->
  exists h, RocksDBTransaction_cf self k = Ok h /\ cf_name h = DatabaseKey_get_cf k.
Proof.
  intros Hok. destruct (Hok _ (DatabaseKey_get_cf_in k)) as (h & Hh & Hn).
  exists h. unfold RocksDBTransaction_cf. by rewrite Hh.
Qed.

(** The handle and the value of a key. *)
Lemma RocksDBTransaction_read_any self k : txn_ok self.(txn) -> families_ok self.(column_families) ->
  exists h, RocksDBTransaction_cf self k = Ok h /\ (cf_name h, DatabaseKey_as_slice k) = column_of k /\
    RocksDBTransaction_read self h k = Ok (txn_reads self !! column_of k).
Proof.
  intros Hok Hf. destruct (RocksDBTransaction_cf_ok self k Hf) as (h & Hh & Hn). exists h.
  unfold RocksDBTransaction_read. rewrite txn_get_cf_opt_spec, Hn by done. done.
Qed.

Lemma RocksDBTransaction_read_ok self m k : RocksDBTransaction_holds self m ->
  exists h, RocksDBTransaction_cf self k = Ok h /\ (cf_name h, DatabaseKey_as_slice k) = column_of k /\
    RocksDBTransaction_read self h k = Ok (m !! k).
Proof.
  intros (Hok & Hf & Hb & Hag & Hm). destruct (RocksDBTransaction_read_any self k Hok Hf) as (h & Hh & Hc & Hr).
  exists h. rewrite Hr, Hm. unfold txn_reads, txn_scans. by rewrite Hb, Hag.
Qed.

Lemma RocksDBTransaction_scan self m p : RocksDBTransaction_holds self m ->
  exists h l, RocksDBTransaction_cf self p = Ok h /\ cf_name h = DatabaseKey_get_cf p /\
    txn_iterator_cf self.(txn) h (DatabaseKey_as_slice p) = inl <$> l /\
    scan (txn_scans self) (DatabaseKey_get_cf p) (DatabaseKey_as_slice p) l.
Proof.
  intros (Hok & Hf & _). destruct (RocksDBTransaction_cf_ok self p Hf) as (h & Hh & Hn).
  destruct (txn_iterator_cf_spec _ h (DatabaseKey_as_slice p) Hok) as (l & Hl & Hs).
  exists h, l. by rewrite <- Hn.
Qed.

(** A transaction whose writes changed holds the contents under them. *)
Lemma RocksDBTransaction_holds_writes self m t' m' :
  RocksDBTransaction_holds self m -> txn_ok t' -> txn_base t' = txn_base self.(txn) ->
  shows (overlay (txn_writes t') (txn_base self.(txn))) m' ->
  RocksDBTransaction_holds (set_txn t' self) m'.
Proof.
  intros (_ & Hf & Hb0 & Hag & _) Hok Hb Hm. unfold RocksDBTransaction_holds, txn_scans. cbn. by rewrite Hb.
Qed.

(** Writing a batch replays it over the transaction. *)
Lemma RocksDBTransaction_write_batch_ok self b m0 m : RocksDBTransaction_pending self b m0 m ->
  exists self', RocksDBTransaction_write_batch self b = (self', Ok tt) /\ RocksDBTransaction_holds self' m.
Proof.
  intros [Hm0 Hm]. destruct (txn_rebuild_spec self.(txn) b (proj1 Hm0)) as (t' & Ht & Hok & Hb & Hw).
  exists (set_txn t' self). unfold RocksDBTransaction_write_batch. rewrite Ht. split; [done|].
  eapply RocksDBTransaction_holds_writes; [done..|]. by rewrite Hw, overlay_union.
Qed.

Lemma overlay_own_writes self : txn_ok self.(txn) ->
  overlay (batch_writes (RocksDBTransaction_create_batch self)) (txn_scans self) = txn_scans self.
Proof.
  intros Hok. unfold RocksDBTransaction_create_batch, txn_scans.
  rewrite txn_get_writebatch_spec by done. rewrite <- overlay_union.
  f_equal. apply map_eq. intros k. rewrite lookup_union. by destruct (_ !! k).
Qed.

#[export] Instance RocksDBTransaction_lawful : LawfulDatabase RocksDBTransaction.
Proof.
  refine {| db_holds := RocksDBTransaction_holds; db_pending := RocksDBTransaction_pending |}.
  - intros self m Hm. split; [done|]. cbn. rewrite overlay_own_writes by apply Hm. apply Hm.
  - intros self m k Hm. destruct (RocksDBTransaction_read_ok self m k Hm) as (h & Hh & _ & Hg).
    cbn. unfold RocksDBTransaction_get. rewrite Hh. cbn. by rewrite Hg.
  - intros self m k Hm. destruct (RocksDBTransaction_read_ok self m k Hm) as (h & Hh & _ & Hg).
    cbn. unfold RocksDBTransaction_contains. rewrite Hh. cbn. by rewrite Hg.
  - intros self m p Hm. destruct (RocksDBTransaction_scan self m p Hm) as (h & l & Hh & _ & Hl & Hs).
    cbn. unfold RocksDBTransaction_get_by_prefix. rewrite Hh. cbn. rewrite Hl. eexists. split; [done|].
    eapply scan_entries; [apply Hm|done].
  - intros self m k v Hm. destruct (RocksDBTransaction_read_ok self m k Hm) as (h & Hh & Hc & Hg).
    destruct (txn_put_cf_spec self.(txn) h (DatabaseKey_as_slice k) v (proj1 Hm)) as (t' & Hput & Hok & Hb & Hw).
    exists (set_txn t' self). cbn. unfold RocksDBTransaction_insert, on_txn, mbind, action_bind, lift, gets. cbn.
    rewrite Hh, Hg. cbn. rewrite Hput. split; [done|]. eapply RocksDBTransaction_holds_writes; [done..|].
    rewrite Hw, Hc, overlay_insert. apply shows_insert, Hm.
  - intros self b m0 m k v [Hm0 Hm]. destruct (RocksDBTransaction_read_ok self m0 k Hm0) as (h & Hh & Hc & Hg).
    exists self, (batch_put_cf b h (DatabaseKey_as_slice k) v), (m0 !! k).
    cbn. unfold RocksDBTransaction_insert, mbind, action_bind, lift, gets. cbn. rewrite Hh, Hg.
    split_and!; [done..|]. split; [done|]. rewrite batch_put_cf_spec, Hc, overlay_insert. by apply shows_insert.
  - intros self m k Hm. destruct (RocksDBTransaction_read_ok self m k Hm) as (h & Hh & Hc & Hg).
    destruct (txn_delete_cf_spec self.(txn) h (DatabaseKey_as_slice k) (proj1 Hm)) as (t' & Hdel & Hok & Hb & Hw).
    exists (set_txn t' self). cbn. unfold RocksDBTransaction_remove, on_txn, mbind, action_bind, lift, gets. cbn.
    rewrite Hh, Hg. cbn. rewrite Hdel. split; [done|]. eapply RocksDBTransaction_holds_writes; [done..|].
    rewrite Hw, Hc, overlay_insert. apply shows_delete, Hm.
  - intros self b m0 m k [Hm0 Hm]. destruct (RocksDBTransaction_read_ok self m0 k Hm0) as (h & Hh & Hc & Hg).
    exists self, (batch_delete_cf b h (DatabaseKey_as_slice k)), (m0 !! k).
    cbn. unfold RocksDBTransaction_remove, mbind, action_bind, lift, gets. cbn. rewrite Hh, Hg.
    split_and!; [done..|]. split; [done|]. rewrite batch_delete_cf_spec, Hc, overlay_insert. by apply shows_delete.
  - intros self m p Hm. destruct (RocksDBTransaction_scan self m p Hm) as (h & l & Hh & Hn & Hl & Hs).
    cbn. unfold RocksDBTransaction_remove_by_prefix. rewrite Hh, Hl.
    eapply RocksDBTransaction_write_batch_ok. split; [exact Hm|].
    eapply shows_remove_by_prefix; [apply Hm|done..|]. apply overlay_own_writes, Hm.
  - intros self b m0 m. apply RocksDBTransaction_write_batch_ok.
Defined.
End Transaction.

(** ** Snapshots, transactions and merge *)
Section Persistent.
Context `{RocksLib} `{!LawfulRocksLib column_names} {ID : Type} `{LawfulId ID}.
Implicit Types self : RocksDB ID.

#[export] Instance RocksDB_lawful_persistent : LawfulPersistentDatabase (RocksDB ID) ID.
Proof. split. intros self m id Hm. exact Hm. Defined.

Lemma insert_cf_ok {E} self name families : rocks_ok self.(rocks_db) -> name ∈ column_names ->
  exists h, insert_cf (E := E) self name families = Ok (<[name := h]> families) /\ cf_name h = name.
Proof.
  intros Hok Hin. destruct (cf_handle_spec _ _ Hok Hin) as (h & Hh & Hn).
  exists h. unfold insert_cf. by rewrite Hh.
Qed.

(** The transaction opened on a snapshot. *)
Lemma RocksDB_transaction_opens self id : rocks_ok self.(rocks_db) ->
  match head (btree_range_to Id_ltb id self.(rocks_snapshots)) with
  | Some (i, s) => exists t, RocksDB_transaction self id = Ok (Some (i, t)) /\ txn_ok t.(txn) /\
      families_ok t.(column_families) /\ txn_base t.(txn) = rocks_view self.(rocks_db) /\
      txn_writes t.(txn) = ∅ /\ options_view t.(read_options) = Some (snapshot_view s)
  | None => RocksDB_transaction self id = Ok None
  end.
Proof.
  intros Hok. unfold RocksDB_transaction. destruct (head _) as [[i s]|]; [|done].
  destruct (insert_cf_ok (E := Empty_set) self TRIE_LOG_CF ∅ Hok) as (h1 & -> & Hn1); [set_solver|].
  destruct (insert_cf_ok (E := Empty_set) self TRIE_CF (<[TRIE_LOG_CF := h1]> ∅) Hok) as (h2 & H2 & Hn2); [set_solver|].
  destruct (insert_cf_ok (E := Empty_set) self FLAT_CF (<[TRIE_CF := h2]> (<[TRIE_LOG_CF := h1]> ∅)) Hok)
    as (h3 & H3 & Hn3); [set_solver|].
  cbn [mbind outcome_bind]. rewrite H2. cbn [mbind outcome_bind]. rewrite H3. cbn [mbind outcome_bind].
  eexists. split; [reflexivity|]. cbn.
  destruct (transaction_opt_spec self.(rocks_db) WriteOptions_default
    (OptimisticTransactionOptions_set_snapshot OptimisticTransactionOptions_default true) Hok) as (? & ? & ?).
  rewrite options_snapshot_spec. split_and!; try done.
  intros name Hin. unfold column_names in Hin.
  rewrite !elem_of_cons in Hin. destruct Hin as [->|[->|[->|Hin]]]; [| | |set_solver].
  - exists h1. rewrite !lookup_insert_ne, lookup_insert_eq by done. done.
  - exists h2. rewrite !lookup_insert_ne, lookup_insert_eq by done. done.
  - exists h3. by rewrite lookup_insert_eq.
Qed.

(** C34 A prefix read returns exactly the bindings of the column whose keys start
    with the prefix, in increasing order of their keys. *)
Theorem RocksDB_get_by_prefix_sorted self m p :
  RocksDB_holds self m ->
  exists l, RocksDB_get_by_prefix self p = Ok l /\ StronglySorted lexico l.*1 /\
    forall s v, (s, v) ∈ l <-> DatabaseKey_as_slice p `prefix_of` s /\ m !! DatabaseKey_with p s = Some v.
Proof.
  intros Hm. destruct (RocksDB_scan self m p Hm) as (h & l & Hh & _ & Hl & Hs).
  eexists. unfold RocksDB_get_by_prefix. rewrite Hh. cbn. rewrite Hl. split; [done|].
  rewrite (scan_filter (rocks_view self.(rocks_db))) by done. destruct Hs as [Hs Hin].
  split; [by apply sorted_fst_filter|]. intros s v.
  rewrite list_elem_of_filter, Hin, (proj2 Hm), column_of_with. cbn.
  split; [naive_solver|]. intros [Hpre ?]. split_and!; [done..|]. by apply prefix_not_below.
Qed.

(** C33 RocksDB and the in-memory database agree: from the same contents, every
    program of reads, insertions, removals and removals by prefix returns the
    same on both and leaves the same contents. *)
Theorem RocksDB_agrees_with_HashMapDb self (db : HashMapDb ID) ops :
  RocksDB_holds self (HashMapDb_contents db) ->
  exists answers, (db_run self ops).2 = Ok <$> answers /\ (db_run db ops).2 = Ok <$> answers /\
    RocksDB_holds (db_run self ops).1 (HashMapDb_contents (db_run db ops).1).
Proof.
  intros Hm. exists (map_run (HashMapDb_contents db) ops).2. change (db_holds self (HashMapDb_contents db)) in Hm.
  destruct (lawful_run self (HashMapDb_contents db) ops Hm) as (self' & -> & Hm').
  assert (db_holds db (HashMapDb_contents db)) as Hdb by done.
  destruct (lawful_run db _ ops Hdb) as (db' & -> & Hdb'). split_and!; [done..|].
  cbn in *. by rewrite Hdb'.
Qed.

(** C36 [snapshot] keeps the snapshots in order and at most as many as the
    configuration allows: what it keeps is the new snapshot and old ones, and
    what it drops is older than everything it keeps. *)
Theorem RocksDB_snapshot_bounded self id max :
  btree_wf self.(rocks_snapshots) -> id_wf id ->
  self.(rocks_config).(rocks_max_saved_snapshots) = Some max -> (0 <= max)%Z ->
  let kept := (RocksDB_snapshot self id).(rocks_snapshots) in
  btree_wf kept /\ (Z.of_nat (length kept) <= max)%Z /\
  (forall i s, (i, s) ∈ kept ->
    (i = id /\ s = snapshot self.(rocks_db)) \/ (i <> id /\ (i, s) ∈ self.(rocks_snapshots))) /\
  (forall i j, i ∈ id :: self.(rocks_snapshots).*1 -> i ∉ kept.*1 -> j ∈ kept.*1 ->
    (id_as_u64 i < id_as_u64 j)%Z) /\
  ((Z.of_nat (length self.(rocks_snapshots)) < max)%Z -> forall i, i ∈ kept.*1 <-> i = id \/ i ∈ self.(rocks_snapshots).*1).
Proof.
  intros Hwf Hid Hcfg Hmax. unfold RocksDB_snapshot. rewrite Hcfg. cbn [rocks_snapshots].
  set (all := btree_insert Id_ltb id (snapshot self.(rocks_db)) self.(rocks_snapshots)).
  rewrite btree_pop_while_drop by done. set (n := length all - Z.to_nat max).
  assert (btree_wf all) as Hall by by apply btree_insert_wf.
  assert (forall i, i ∈ all.*1 <-> i = id \/ i ∈ self.(rocks_snapshots).*1) as Hfst
    by (apply btree_insert_fst; [apply Hwf|done]).
  assert (length all <= S (length self.(rocks_snapshots))) as Hlen by apply btree_insert_length.
  split_and!.
  - by apply btree_wf_drop.
  - rewrite length_drop. lia.
  - intros i s Hin. apply or_comm. assert ((i, s) ∈ all) as [?|?]%btree_insert_elem; [|by right|by left|done..].
    rewrite <- (take_drop n all). apply elem_of_app. by right.
  - intros i j Hi. apply btree_drop_before; [done|]. by rewrite Hfst, <- elem_of_cons.
  - intros Hsmall. subst n. replace (length all - Z.to_nat max) with 0 by lia. apply Hfst.
Qed.

(** [transaction] opens on the oldest snapshot strictly before the
    identifier, and its point reads return what the snapshot holds, whatever was
    written since; it returns none exactly when no snapshot was taken before. *)
Theorem RocksDB_transaction_reads_snapshot self id :
  rocks_ok self.(rocks_db) -> btree_wf self.(rocks_snapshots) -> id_wf id ->
  match RocksDB_transaction self id with
  | Ok (Some (i, t)) =>
      exists s, (i, s) ∈ self.(rocks_snapshots) /\ (id_as_u64 i < id_as_u64 id)%Z /\
        (forall j, j ∈ self.(rocks_snapshots).*1 -> (id_as_u64 i <= id_as_u64 j)%Z) /\
        (forall k, RocksDBTransaction_get t k = Ok (snapshot_view s !! column_of k))
  | Ok None => forall j, j ∈ self.(rocks_snapshots).*1 -> (id_as_u64 id <= id_as_u64 j)%Z
  | _ => False
  end.
Proof.
  intros Hok Hwf Hid. pose proof (RocksDB_transaction_opens self id Hok) as Hopen.
  pose proof (btree_range_to_oldest id self.(rocks_snapshots) Hwf Hid) as Hold.
  destruct (head _) as [[i s]|]; [|by rewrite Hopen].
  destruct Hopen as (t & -> & Ht & Hf & _ & Hw & Hs). destruct Hold as (Hin & Hlt & Hmin).
  exists s. split_and!; [done..|]. intros k.
  destruct (RocksDBTransaction_read_any t k Ht Hf) as (h & Hh & _ & Hr).
  unfold RocksDBTransaction_get. rewrite Hh. cbn. rewrite Hr. unfold txn_reads.
  by rewrite Hw, Hs, overlay_empty.
Qed.

(** C35 A program run in a transaction that opens on a snapshot of the current
    contents returns what it returns on the database itself; merging the
    transaction succeeds and leaves the contents the program leads to. *)
Theorem RocksDB_transaction_merge self m id i t ops :
  RocksDB_holds self m -> RocksDB_transaction self id = Ok (Some (i, t)) ->
  options_view t.(read_options) = Some (rocks_view self.(rocks_db)) ->
  let '(t', answers) := db_run t ops in
  answers = Ok <$> (map_run m ops).2 /\
  exists self', RocksDB_merge self t' = (self', Ok tt) /\ RocksDB_holds self' (map_run m ops).1.
Proof.
  intros [Hok Hm] Ht Hs. pose proof (RocksDB_transaction_opens self id Hok) as Hopen.
  destruct (head _) as [[j s]|]; [|congruence].
  destruct Hopen as (t0 & Ht0 & Htok & Hf & Hb & Hw & _). assert (t0 = t) as -> by congruence.
  assert (db_holds (LawfulDatabase := RocksDBTransaction_lawful (rocks_view self.(rocks_db))) t m) as Htm.
  { split_and!; [done..|by rewrite Hs|]. unfold txn_scans. by rewrite Hw, Hb, overlay_empty. }
  destruct (lawful_run t m ops Htm) as (t' & -> & Htok' & _ & Hb' & _ & Hm'). split; [done|].
  destruct (txn_commit_spec t'.(txn) self.(rocks_db) Htok' Hok) as (db' & Hc & Hok' & Hv); [done|].
  exists (set_rocks_db db' self). unfold RocksDB_merge. rewrite Hc. split; [done|].
  split; [done|]. cbn. rewrite Hv. unfold txn_scans in Hm'. by rewrite Hb' in Hm'.
Qed.
End Persistent.

(** ** I/O errors

    These hold for any library, lawful or not. *)
Section Errors.
Context `{RocksLib} {ID : Type}.
Implicit Types self : RocksDB ID.

End Errors.
