(* ===== verification/RocksModel.v ===== *)
(** * A model of the [rocksdb] crate

    An instance of [RocksLib] whose database is a map from column families and
    keys to values; it discharges the laws of [RocksLib.v], and the witnesses on
    RocksDB evaluate on it. *)
From S2P Require Import Prelude RocksLib Rocks RocksSpec.
From stdpp Require Import lexico sorting.
#[export] Set Warnings "-register-all".

(** The columns of a database opened by [create_rocks_db], its contents, and the
    keys whose entries cannot be read back. *)
Record ModelDb := mkModelDb {
  model_names : list string;
  model_view : gmap (string * list Z) (list Z);
  model_bad : list (list Z);
}.
Record ModelTxn := mkModelTxn {
  model_base : gmap (string * list Z) (list Z);
  model_writes : gmap (string * list Z) (option (list Z));
}.
(** An entry cannot be read; a commit conflicts with other writes. *)
Inductive ModelError := model_corruption | model_busy.

Definition model_map (f : gmap (string * list Z) (list Z) -> gmap (string * list Z) (list Z)) (db : ModelDb) :
    ModelDb := mkModelDb db.(model_names) (f db.(model_view)) db.(model_bad).

(** Order of the entries of a column. *)
Definition entry_le (x y : list Z * list Z) : Prop := ~ lexico y.1 x.1.

#[export] Instance lexico_dec (x y : list Z) : Decision (lexico x y).
Proof. apply trichotomyT_dec. Defined.
#[export] Instance entry_le_dec x y : Decision (entry_le x y).
Proof. unfold entry_le. apply _. Defined.

(** The entries of a column from a key on, in order. *)
Definition model_entries (m : gmap (string * list Z) (list Z)) (cf : string) (from : list Z) :
    list (list Z * list Z) :=
  merge_sort entry_le
    (omap (fun kv : (string * list Z) * list Z =>
       if decide (kv.1.1 = cf /\ ~ lexico kv.1.2 from) then Some (kv.1.2, kv.2) else None) (map_to_list m)).

(** Iteration stops at an entry that cannot be read. *)
Fixpoint model_iter (bad : list (list Z)) (l : list (list Z * list Z)) : list ((list Z * list Z) + ModelError) :=
  match l with
  | [] => []
  | kv :: l => if decide (kv.1 ∈ bad) then [inr model_corruption] else inl kv :: model_iter bad l
  end.

#[export] Instance ModelRocks : RocksLib := {|
  RocksError := ModelError;
  OptimisticTransactionDB := ModelDb;
  ColumnFamilyRef := string;
  WriteBatchWithTransaction := gmap (string * list Z) (option (list Z));
  SnapshotWithThreadMode := gmap (string * list Z) (list Z);
  ReadOptions := option (gmap (string * list Z) (list Z));
  WriteOptions := unit;
  OptimisticTransactionOptions := bool;
  RocksTransaction := ModelTxn;
  cf_handle db name := if decide (name ∈ db.(model_names)) then Some name else None;
  get_cf db h k :=
    if decide (k ∈ db.(model_bad)) then Err model_corruption else Ok (db.(model_view) !! (h, k));
  put_cf db h k v := (model_map <[(h, k) := v]> db, Ok tt);
  delete_cf db h k := (model_map (delete (h, k)) db, Ok tt);
  iterator_cf db h from := model_iter db.(model_bad) (model_entries db.(model_view) h from);
  write db b := (model_map (overlay b) db, Ok tt);
  snapshot db := db.(model_view);
  transaction_opt db _ _ := mkModelTxn db.(model_view) ∅;
  batch_default := ∅;
  batch_put_cf b h k v := <[(h, k) := Some v]> b;
  batch_delete_cf b h k := <[(h, k) := None]> b;
  WriteOptions_default := tt;
  OptimisticTransactionOptions_default := false;
  OptimisticTransactionOptions_set_snapshot _ b := b;
  ReadOptions_default := None;
  ReadOptions_set_snapshot _ s := Some s;
  txn_get_cf_opt t h k o := Ok (overlay t.(model_writes) (default t.(model_base) o) !! (h, k));
  txn_put_cf t h k v := (mkModelTxn t.(model_base) (<[(h, k) := Some v]> t.(model_writes)), Ok tt);
  txn_delete_cf t h k := (mkModelTxn t.(model_base) (<[(h, k) := None]> t.(model_writes)), Ok tt);
  txn_iterator_cf t h from := inl <$> model_entries (overlay t.(model_writes) t.(model_base)) h from;
  txn_get_writebatch t := t.(model_writes);
  txn_rebuild_from_writebatch t b := (mkModelTxn t.(model_base) (b ∪ t.(model_writes)), Ok tt);
  txn_commit t db :=
    if decide (db.(model_view) = t.(model_base)) then (model_map (overlay t.(model_writes)) db, Ok tt)
    else (db, Err model_busy);
|}.

#[local] Instance entry_le_total : Total entry_le.
Proof.
  intros x y. unfold entry_le. destruct (decide (lexico y.1 x.1)) as [Hlt|Hge]; [right|by left].
  intros Hlt'. by apply (irreflexivity lexico x.1), (transitivity Hlt').
Qed.
#[local] Instance entry_le_trans : Transitive entry_le.
Proof.
  intros x y z Hxy Hyz Hzx. unfold entry_le in *.
  destruct (trichotomyT lexico x.1 y.1) as [[Hlt|Heq]|Hgt]; [|congruence|done].
  by apply Hyz, (transitivity Hzx).
Qed.

(** Distinct keys in [entry_le] order are in lexicographic order. *)
Lemma entry_le_sorted l : NoDup l.*1 -> StronglySorted entry_le l -> StronglySorted lexico l.*1.
Proof.
  induction l as [|kv l IH]; intros Hnd Hs; [constructor|].
  cbn in Hnd. apply NoDup_cons in Hnd as [Hni Hnd]. inversion_clear Hs as [|? ? Hs' Hall].
  cbn. constructor; [by apply IH|]. apply Forall_forall.
  intros k (kv' & -> & Hin)%list_elem_of_fmap.
  pose proof (proj1 (Forall_forall _ _) Hall kv' Hin) as Hle. unfold entry_le in Hle.
  destruct (trichotomyT lexico kv.1 kv'.1) as [[Hlt|Heq]|Hgt]; [done| |done].
  destruct Hni. rewrite Heq. by apply list_elem_of_fmap_2.
Qed.

(** The entries of one column. *)
Definition column_entry (cf : string) (from : list Z) (kv : (string * list Z) * list Z) :
    option (list Z * list Z) :=
  if decide (kv.1.1 = cf /\ ~ lexico kv.1.2 from) then Some (kv.1.2, kv.2) else None.

Lemma column_entry_nodup cf from l : NoDup l.*1 -> NoDup (omap (column_entry cf from) l).*1.
Proof.
  induction l as [|[[c k] v] l IH]; intros Hnd; [constructor|].
  cbn in Hnd. apply NoDup_cons in Hnd as [Hni Hnd].
  cbn. unfold column_entry at 1. cbn. case_decide as Hc; [|by apply IH].
  cbn. apply NoDup_cons. split; [|by apply IH].
  intros ([k' v'] & -> & ([[c' k''] w] & Hin & Hk)%list_elem_of_omap)%list_elem_of_fmap.
  unfold column_entry in Hk. cbn in Hk. case_decide; simplify_eq/=.
  apply Hni, list_elem_of_fmap. eexists. split; [|exact Hin]. cbn. f_equal. naive_solver.
Qed.

Lemma model_entries_scan m cf from : scan m cf from (model_entries m cf from).
Proof.
  unfold model_entries. change (omap _ _) with (omap (column_entry cf from) (map_to_list m)).
  set (l := omap _ _).
  assert (forall k v, (k, v) ∈ l <-> m !! (cf, k) = Some v /\ ~ lexico k from) as Hl.
  { intros k v. unfold l. rewrite list_elem_of_omap. unfold column_entry. split.
    - intros ([[c k'] v'] & Hin%elem_of_map_to_list & Hc). cbn in Hc. case_decide; naive_solver.
    - intros [Hin%elem_of_map_to_list Hge]. eexists. split; [exact Hin|]. cbn. by rewrite decide_True. }
  assert (NoDup l.*1) as Hnd by apply column_entry_nodup, NoDup_fst_map_to_list.
  split.
  - apply entry_le_sorted; [by rewrite merge_sort_Permutation|by apply StronglySorted_merge_sort; apply _].
  - intros k v. by rewrite merge_sort_Permutation, Hl.
Qed.

Lemma model_iter_good l : model_iter [] l = inl <$> l.
Proof.
  induction l as [|kv l IH]; [done|]. cbn [model_iter]. rewrite decide_False by apply not_elem_of_nil.
  rewrite fmap_cons. by f_equal.
Qed.

#[export] Instance ModelRocks_lawful : LawfulRocksLib column_names.
Proof.
  refine {| rocks_ok db := db.(model_names) = column_names /\ db.(model_bad) = [];
            rocks_view := model_view; cf_name h := h; batch_writes b := b; snapshot_view s := s;
            options_view o := o; txn_ok _ := True; txn_base := model_base; txn_writes := model_writes |}; try done.
  all: cbn; intros; destruct_and?; try (by eexists).
  - eexists. by rewrite decide_True by congruence.
  - rewrite decide_False; [done|]. match goal with H : model_bad _ = [] |- _ => rewrite H end. apply not_elem_of_nil.
  - eexists. split; [|apply model_entries_scan].
    match goal with H : model_bad _ = [] |- _ => rewrite H end. apply model_iter_good.
  - eexists. split; [done|]. apply model_entries_scan.
  - eexists. by rewrite decide_True by done.
Defined.
