(* ===== verification/RocksRuns.v ===== *)
(** * RocksDB: concrete runs

    The theorems of [RocksSpec.v] at inputs where their hypotheses hold, on the
    model of the [rocksdb] crate, and what that model shows of the code. *)
From S2P Require Import Prelude Id BTree Database HashMapDb RocksLib Rocks RocksSpec RocksModel.
From stdpp Require Import lexico sorting.
#[export] Set Warnings "-register-all".

Abbreviation XRocks := (RocksDB (H := ModelRocks) BasicId).

(** Four writes in the three columns. *)
Definition r_ops : list db_op :=
  [OpInsert (DatabaseKey_Flat [1%Z; 2%Z]) [7%Z]; OpInsert (DatabaseKey_Flat [1%Z]) [8%Z];
   OpInsert (DatabaseKey_Trie [1%Z; 3%Z]) [9%Z]; OpInsert (DatabaseKey_Flat [2%Z]) [5%Z];
   OpGet (DatabaseKey_Flat [1%Z]); OpRemoveByPrefix (DatabaseKey_Flat [1%Z])].
Definition r_empty : XRocks := RocksDB_new (mkModelDb column_names ∅ []) (mkRocksDBConfig (Some 2%Z)).
Definition r_writes : XRocks := (db_run r_empty (take 4 r_ops)).1.
Definition r_map : gmap DatabaseKey ByteVec := (map_run ∅ (take 4 r_ops)).1.

Lemma r_empty_holds : RocksDB_holds r_empty ∅.
Proof. by split. Qed.
Lemma r_writes_holds : RocksDB_holds r_writes r_map.
Proof.
  assert (db_holds r_empty ∅) as He by exact r_empty_holds.
  destruct (lawful_run r_empty ∅ (take 4 r_ops) He) as (db' & Hrun & Hm).
  unfold r_writes. by rewrite Hrun.
Qed.

Lemma RocksDB_get_by_prefix_sorted_witness :
  exists l, RocksDB_get_by_prefix r_writes (DatabaseKey_Flat [1%Z]) = Ok l /\ StronglySorted lexico l.*1 /\
    forall s v, (s, v) ∈ l <->
      [1%Z] `prefix_of` s /\ r_map !! DatabaseKey_with (DatabaseKey_Flat [1%Z]) s = Some v.
Proof. exact (RocksDB_get_by_prefix_sorted r_writes r_map (DatabaseKey_Flat [1%Z]) r_writes_holds). Defined.

(** The read returns the two bindings of the column, in order. *)
Example r_prefix_run :
  RocksDB_get_by_prefix r_writes (DatabaseKey_Flat [1%Z]) = Ok [([1%Z], [8%Z]); ([1%Z; 2%Z], [7%Z])].
Proof. vm_compute. reflexivity. Qed.

Lemma RocksDB_agrees_with_HashMapDb_witness :
  exists answers, (db_run r_empty r_ops).2 = Ok <$> answers /\
    (db_run (HashMapDb_default : HashMapDb BasicId) r_ops).2 = Ok <$> answers /\
    RocksDB_holds (db_run r_empty r_ops).1
      (HashMapDb_contents (db_run (HashMapDb_default : HashMapDb BasicId) r_ops).1).
Proof. apply RocksDB_agrees_with_HashMapDb. exact r_empty_holds. Defined.

(** Snapshots at 3 and 5. *)
Definition r_snaps : XRocks :=
  RocksDB_snapshot (RocksDB_snapshot r_writes (mkBasicId 5)) (mkBasicId 3).
Lemma r_snaps_wf : btree_wf r_snaps.(rocks_snapshots).
Proof.
  unfold btree_wf. replace (r_snaps.(rocks_snapshots).*1) with [mkBasicId 3; mkBasicId 5] by reflexivity.
  split; repeat (constructor; try done).
Qed.

Lemma RocksDB_snapshot_bounded_witness :
  let kept := (RocksDB_snapshot r_snaps (mkBasicId 8)).(rocks_snapshots) in
  btree_wf kept /\ (Z.of_nat (length kept) <= 2)%Z /\
  (forall i s, (i, s) ∈ kept ->
    (i = mkBasicId 8 /\ s = snapshot r_snaps.(rocks_db)) \/
    (i <> mkBasicId 8 /\ (i, s) ∈ r_snaps.(rocks_snapshots))) /\
  (forall i j, i ∈ mkBasicId 8 :: r_snaps.(rocks_snapshots).*1 -> i ∉ kept.*1 -> j ∈ kept.*1 ->
    (id_as_u64 i < id_as_u64 j)%Z) /\
  ((Z.of_nat (length r_snaps.(rocks_snapshots)) < 2)%Z ->
    forall i, i ∈ kept.*1 <-> i = mkBasicId 8 \/ i ∈ r_snaps.(rocks_snapshots).*1).
Proof. apply (RocksDB_snapshot_bounded r_snaps (mkBasicId 8) 2%Z); [exact r_snaps_wf|done|done|done]. Defined.

Lemma RocksDB_transaction_reads_snapshot_witness :
  match RocksDB_transaction r_snaps (mkBasicId 4) with
  | Ok (Some (i, t)) =>
      exists s, (i, s) ∈ r_snaps.(rocks_snapshots) /\ (id_as_u64 i < id_as_u64 (mkBasicId 4))%Z /\
        (forall j, j ∈ r_snaps.(rocks_snapshots).*1 -> (id_as_u64 i <= id_as_u64 j)%Z) /\
        (forall k, RocksDBTransaction_get t k = Ok (snapshot_view s !! column_of k))
  | Ok None => forall j, j ∈ r_snaps.(rocks_snapshots).*1 -> (id_as_u64 (mkBasicId 4) <= id_as_u64 j)%Z
  | _ => False
  end.
Proof. apply RocksDB_transaction_reads_snapshot; [done|exact r_snaps_wf|done]. Defined.

Definition r_txn : RocksDBTransaction :=
  match RocksDB_transaction r_snaps (mkBasicId 4) with
  | Ok (Some (_, t)) => t
  | _ => mkRocksDBTransaction (mkModelTxn ∅ ∅) None ∅
  end.
Lemma RocksDB_transaction_merge_witness :
  let '(t', answers) := db_run r_txn r_ops in
  answers = Ok <$> (map_run r_map r_ops).2 /\
  exists self', RocksDB_merge r_snaps t' = (self', Ok tt) /\ RocksDB_holds self' (map_run r_map r_ops).1.
Proof.
  apply (RocksDB_transaction_merge r_snaps r_map (mkBasicId 4) (mkBasicId 3) r_txn r_ops).
  - exact r_writes_holds.
  - reflexivity.
  - reflexivity.
Defined.

(** A database on which the entry of the key [1; 2] cannot be read. *)
Definition r_bad : XRocks :=
  RocksDB_new (mkModelDb column_names r_writes.(rocks_db).(model_view) [[1%Z; 2%Z]]) RocksDBConfig_default.

(** ** What the model shows *)

(** An iteration that fails in the middle is cut short without an error. *)
Example rocks_prefix_read_truncated :
  RocksDB_get_by_prefix r_bad (DatabaseKey_Flat [1%Z]) = Ok [([1%Z], [8%Z])].
Proof. vm_compute. reflexivity. Qed.

(** A key is written after the snapshot at 3: in the transaction opened on this
    snapshot [get] does not find it, [get_by_prefix] does. *)
Example rocks_transaction_scan_ignores_snapshot :
  let self := (db_run r_snaps [OpInsert (DatabaseKey_Flat [4%Z]) [6%Z]]).1 in
  match RocksDB_transaction self (mkBasicId 4) with
  | Ok (Some (_, t)) =>
      RocksDBTransaction_get t (DatabaseKey_Flat [4%Z]) = Ok None /\
      RocksDBTransaction_get_by_prefix t (DatabaseKey_Flat [4%Z]) = Ok [([4%Z], [6%Z])]
  | _ => False
  end.
Proof. vm_compute. by split. Qed.
