(* ===== verification/Snapshots.v ===== *)
(** * Databases with snapshots

    What a storage needs of its database to reach past states: the contract
    [SnapshotDatabase] of the trait [BonsaiPersistentDatabase], in terms of the
    contents each snapshot was taken of. A past state is a transaction, of which
    a storage uses point reads and batched writes only ([PointDatabase]); the
    iterators of a transaction of RocksDB do not read its snapshot. [HashMapDb]
    and [RocksDB] both meet the contract. *)
From S2P Require Import Prelude Id BTree Database HashMapDb RocksLib Rocks RocksSpec.

(** ** Point reads and batched writes *)
Class PointDatabase (DB : Type) `{BonsaiDatabase DB} := {
  point_holds : DB -> gmap DatabaseKey ByteVec -> Prop;
  point_pending : DB -> Batch DB -> gmap DatabaseKey ByteVec -> Prop;
  point_create_batch_spec : forall db m, point_holds db m -> point_pending db (db_create_batch db) m;
  point_get_spec : forall db m k, point_holds db m -> db_get db k = Ok (m !! k);
  point_contains_spec : forall db m k, point_holds db m -> db_contains db k = Ok (bool_decide (is_Some (m !! k)));
  point_insert_spec : forall db b m k v, point_pending db b m ->
    exists db' b' old, db_insert db k v (Some b) = ((db', Some b'), Ok old) /\ point_pending db' b' (<[k := v]> m);
  point_remove_spec : forall db b m k, point_pending db b m ->
    exists db' b' old, db_remove db k (Some b) = ((db', Some b'), Ok old) /\ point_pending db' b' (delete k m);
  point_write_batch_spec : forall db b m, point_pending db b m ->
    exists db', db_write_batch db b = (db', Ok tt) /\ point_holds db' m;
}.

(** A lawful database has them. *)
Definition LawfulDatabase_point {DB} `{LawfulDatabase DB} : PointDatabase DB.
Proof.
  refine {| point_holds := db_holds; point_pending db b m := exists m0, db_pending db b m0 m |}.
  - intros db m Hm. exists m. by apply db_create_batch_spec.
  - apply db_get_spec.
  - apply db_contains_spec.
  - intros db b m k v [m0 Hp]. destruct (db_insert_batch_spec db b m0 m k v Hp) as (db' & b' & old & Hrun & _ & Hp').
    exists db', b', old. split; [done|]. by exists m0.
  - intros db b m k [m0 Hp]. destruct (db_remove_batch_spec db b m0 m k Hp) as (db' & b' & old & Hrun & _ & Hp').
    exists db', b', old. split; [done|]. by exists m0.
  - intros db b m [m0 Hp]. by eapply db_write_batch_spec.
Defined.

(** ** A property of the database that its operations leave alone *)
Class Stable {DB} `{BonsaiDatabase DB} (P : DB -> Prop) := {
  stable_insert : forall db k v b, P db -> P (db_insert db k v b).1.1;
  stable_remove : forall db k b, P db -> P (db_remove db k b).1.1;
  stable_remove_by_prefix : forall db p, P db -> P (db_remove_by_prefix db p).1;
  stable_write_batch : forall db b, P db -> P (db_write_batch db b).1;
}.

(** The contract holds with the property. *)
Definition framed {DB} `{LawfulDatabase DB} (P : DB -> Prop) `{!Stable P} : LawfulDatabase DB.
Proof.
  refine {| db_holds db m := db_holds db m /\ P db; db_pending db b m0 m := db_pending db b m0 m /\ P db |}.
  - intros db m [Hm HP]. split; [by apply db_create_batch_spec|done].
  - intros db m k [Hm _]. by apply db_get_spec.
  - intros db m k [Hm _]. by apply db_contains_spec.
  - intros db m p [Hm _]. by apply db_get_by_prefix_spec.
  - intros db m k v [Hm HP]. destruct (db_insert_spec db m k v Hm) as (db' & Hrun & Hm').
    pose proof (stable_insert db k v None HP) as HP'. rewrite Hrun in HP'. by exists db'.
  - intros db b m0 m k v [Hm HP]. destruct (db_insert_batch_spec db b m0 m k v Hm) as (db' & b' & old & Hrun & Hold & Hm').
    pose proof (stable_insert db k v (Some b) HP) as HP'. rewrite Hrun in HP'. by exists db', b', old.
  - intros db m k [Hm HP]. destruct (db_remove_spec db m k Hm) as (db' & Hrun & Hm').
    pose proof (stable_remove db k None HP) as HP'. rewrite Hrun in HP'. by exists db'.
  - intros db b m0 m k [Hm HP]. destruct (db_remove_batch_spec db b m0 m k Hm) as (db' & b' & old & Hrun & Hold & Hm').
    pose proof (stable_remove db k (Some b) HP) as HP'. rewrite Hrun in HP'. by exists db', b', old.
  - intros db m p [Hm HP]. destruct (db_remove_by_prefix_spec db m p Hm) as (db' & Hrun & Hm').
    pose proof (stable_remove_by_prefix db p HP) as HP'. rewrite Hrun in HP'. by exists db'.
  - intros db b m0 m [Hm HP]. destruct (db_write_batch_spec db b m0 m Hm) as (db' & Hrun & Hm').
    pose proof (stable_write_batch db b HP) as HP'. rewrite Hrun in HP'. by exists db'.
Defined.

(** ** The contract of the snapshots

    [snap_lawful max S]: the database has taken snapshots of the contents [S]
    and keeps [max] of them, or all. *)
Abbreviation snapshots_of ID := (list (ID * gmap DatabaseKey (list Z))) (only parsing).

Definition has_room {A} (max : option nat) (l : list A) (n : nat) : Prop :=
  match max with Some max => length l + n <= max | None => True end.

Class SnapshotDatabase (DB ID : Type) `{BonsaiDatabase DB, Id ID, !BonsaiPersistentDatabase DB ID} := {
  snap_point :: PointDatabase (Transaction DB ID);
  snap_lawful : option nat -> snapshots_of ID -> LawfulDatabase DB;
  snap_take_spec : forall max S db m (id : ID),
    db_holds (LawfulDatabase := snap_lawful max S) db m -> has_room max S 1 ->
    db_holds (LawfulDatabase := snap_lawful max (btree_insert Id_ltb id m S)) (db_snapshot db id) m;
  snap_open_spec : forall max S db m (id : ID),
    db_holds (LawfulDatabase := snap_lawful max S) db m ->
    match head (btree_range_to Id_ltb id S) with
    | Some (i, t) => exists txn, db_transaction db id = Ok (Some (i, txn)) /\ point_holds txn t
    | None => db_transaction db id = Ok None
    end;
}.

(** The snapshots a database keeps, and the contents they were taken of. *)
Section SnapsOf.
Context {ID V W : Type} (ltb : ID -> ID -> bool) (R : V -> W -> Prop).
Definition snaps_of (l : list (ID * V)) (S : list (ID * W)) : Prop := Forall2 (fun x y => x.1 = y.1 /\ R x.2 y.2) l S.

Lemma snaps_of_insert l S id v m : snaps_of l S -> R v m -> snaps_of (btree_insert ltb id v l) (btree_insert ltb id m S).
Proof.
  intros HS Hv. induction HS as [|[i x] [j y] l S [Hij Hxy] HS IH]; cbn in *; [by repeat constructor|]. subst.
  destruct (ltb id j); [by repeat constructor|]. destruct (ltb j id); by repeat constructor.
Qed.

Lemma snaps_of_head l S id : snaps_of l S ->
  match head (btree_range_to ltb id l), head (btree_range_to ltb id S) with
  | Some x, Some y => x.1 = y.1 /\ R x.2 y.2
  | None, None => True
  | _, _ => False
  end.
Proof. destruct 1 as [|[i x] [j y] l S [Hij Hxy] HS]; cbn in *; [done|]. subst. by destruct (ltb j id). Qed.
End SnapsOf.

(** ** [HashMapDb] keeps every snapshot *)
Section HashMapDb.
Context {ID : Type} `{Id ID}.
Implicit Types db : HashMapDb ID.

Lemma get_map_mut_snapshots db k f : (HashMapDb_get_map_mut db k f).(snapshots) = db.(snapshots).
Proof. by destruct k. Qed.

Lemma remove_by_prefix_snapshots db p : (HashMapDb_remove_by_prefix db p).1.(snapshots) = db.(snapshots).
Proof.
  unfold HashMapDb_remove_by_prefix. cbn [fst]. generalize (filter (fun key => DatabaseKey_as_slice p `prefix_of` key) (map_to_list (HashMapDb_get_map db p)).*1).
  intros l. revert db. induction l as [|key l IH]; intros db; [done|]. cbn [fold_left]. by rewrite IH, get_map_mut_snapshots.
Qed.

Definition HashMapDb_snaps (S : snapshots_of ID) db : Prop :=
  snaps_of (fun snap t => HashMapDb_contents snap = t) db.(snapshots) S.

#[export] Instance HashMapDb_snaps_stable S : Stable (HashMapDb_snaps S).
Proof.
  unfold HashMapDb_snaps. split; cbn [db_insert db_remove db_remove_by_prefix db_write_batch HashMapDb_database]; [..|done].
  - intros db k v b HS. cbn. by rewrite get_map_mut_snapshots.
  - intros db k b HS. cbn. by rewrite get_map_mut_snapshots.
  - intros db p HS. by rewrite remove_by_prefix_snapshots.
Qed.

#[export] Instance HashMapDb_snapshot_database : SnapshotDatabase (HashMapDb ID) ID.
Proof.
  refine {| snap_point := LawfulDatabase_point (DB := HashMapDb ID); snap_lawful _ S := framed (HashMapDb_snaps S) |}.
  - intros max S db m id [Hm HS] _. split; [exact Hm|]. by apply snaps_of_insert.
  - intros max S db m id [Hm HS]. pose proof (snaps_of_head Id_ltb _ _ _ id HS) as Hh.
    cbn. unfold HashMapDb_transaction. destruct (head (btree_range_to Id_ltb id S)) as [[i t]|], (head (btree_range_to Id_ltb id (snapshots db))) as [[j snap]|]; try done.
    destruct Hh as [Hi Ht]. cbn in Hi, Ht. subst. by exists snap.
Defined.
End HashMapDb.

(** ** The past states of RocksDB *)
Section RocksDBTransaction.
Context `{RocksLib} `{!LawfulRocksLib column_names}.
Implicit Types self : RocksDBTransaction.

(** Point reads see the snapshot of the read options under the writes. *)
Definition RocksDBTransaction_point_pending self (b : WriteBatchWithTransaction) (m : gmap DatabaseKey ByteVec) : Prop :=
  txn_ok self.(txn) /\ families_ok self.(column_families) /\
  shows (overlay (batch_writes b ∪ txn_writes self.(txn)) (default (txn_base self.(txn)) (options_view self.(read_options)))) m.

#[export] Instance RocksDBTransaction_point : PointDatabase RocksDBTransaction.
Proof.
  refine {| point_holds self m := txn_ok self.(txn) /\ families_ok self.(column_families) /\ shows (txn_reads self) m;
    point_pending := RocksDBTransaction_point_pending |}.
  - intros self m (Hok & Hf & Hm). split_and!; [done..|]. cbn. unfold RocksDBTransaction_create_batch.
    rewrite txn_get_writebatch_spec by done. by rewrite map_union_idemp.
  - intros self m k (Hok & Hf & Hm). destruct (RocksDBTransaction_read_any self k Hok Hf) as (h & Hh & _ & Hr).
    cbn. unfold RocksDBTransaction_get. rewrite Hh. cbn. by rewrite Hr, Hm.
  - intros self m k (Hok & Hf & Hm). destruct (RocksDBTransaction_read_any self k Hok Hf) as (h & Hh & _ & Hr).
    cbn. unfold RocksDBTransaction_contains. rewrite Hh. cbn. by rewrite Hr, Hm.
  - intros self b m k v (Hok & Hf & Hm). destruct (RocksDBTransaction_read_any self k Hok Hf) as (h & Hh & Hc & Hr).
    cbn. unfold RocksDBTransaction_insert, mbind, action_bind, lift, gets. cbn. rewrite Hh, Hr.
    do 3 eexists. split; [reflexivity|]. split_and!; [done..|].
    rewrite batch_put_cf_spec, Hc, <- insert_union_l, overlay_insert. by apply shows_insert.
  - intros self b m k (Hok & Hf & Hm). destruct (RocksDBTransaction_read_any self k Hok Hf) as (h & Hh & Hc & Hr).
    cbn. unfold RocksDBTransaction_remove, mbind, action_bind, lift, gets. cbn. rewrite Hh, Hr.
    do 3 eexists. split; [reflexivity|]. split_and!; [done..|].
    rewrite batch_delete_cf_spec, Hc, <- insert_union_l, overlay_insert. by apply shows_delete.
  - intros self b m (Hok & Hf & Hm). destruct (txn_rebuild_spec self.(txn) b Hok) as (t' & Ht & Hok' & Hb & Hw).
    exists (set_txn t' self). cbn. unfold RocksDBTransaction_write_batch. rewrite Ht. split; [done|]. split_and!; [done..|].
    unfold txn_reads. cbn. by rewrite Hw, Hb.
Defined.
End RocksDBTransaction.

(** ** [RocksDB] keeps as many snapshots as it is configured to *)
Section RocksDB.
Context `{RocksLib} `{!LawfulRocksLib column_names} {ID : Type} `{Id ID}.
Implicit Types self : RocksDB ID.

(** The parts of the wrapper that only [snapshot] changes. *)
Definition RocksDB_snaps (max : option nat) (S : snapshots_of ID) self : Prop :=
  self.(rocks_config).(rocks_max_saved_snapshots) = Z.of_nat <$> max /\
  snaps_of (fun s m => shows (snapshot_view s) m) self.(rocks_snapshots) S.

Definition same_snaps self self' : Prop :=
  self'.(rocks_config) = self.(rocks_config) /\ self'.(rocks_snapshots) = self.(rocks_snapshots).

Lemma RocksDB_snaps_same max S self self' : same_snaps self self' -> RocksDB_snaps max S self -> RocksDB_snaps max S self'.
Proof. intros [Hc Hs] [? ?]. split; by rewrite ?Hc, ?Hs. Qed.

Lemma write_batch_same self b : same_snaps self (RocksDB_write_batch self b).1.
Proof. unfold RocksDB_write_batch. by destruct (write (rocks_db self) b). Qed.

#[export] Instance RocksDB_snaps_stable max S : Stable (RocksDB_snaps max S).
Proof.
  split; cbn [db_insert db_remove db_remove_by_prefix db_write_batch RocksDB_database].
  - intros self k v b. apply RocksDB_snaps_same. unfold RocksDB_insert, on_rocks_db, mbind, action_bind, lift, gets, modify. cbn.
    repeat (case_match; simplify_eq/=; try done).
  - intros self k b. apply RocksDB_snaps_same. unfold RocksDB_remove, on_rocks_db, mbind, action_bind, lift, gets, modify. cbn.
    repeat (case_match; simplify_eq/=; try done).
  - intros self p. apply RocksDB_snaps_same. unfold RocksDB_remove_by_prefix. destruct (RocksDB_cf self p); try done.
    apply write_batch_same.
  - intros self b. apply RocksDB_snaps_same, write_batch_same.
Qed.

#[export] Instance RocksDB_snapshot_database : SnapshotDatabase (RocksDB ID) ID.
Proof.
  refine {| snap_point := RocksDBTransaction_point; snap_lawful max S := framed (RocksDB_snaps max S) |}.
  - intros max S self m id [[Hok Hm] [Hmax HS]] Hroom. split; [by split|].
    assert (shows (snapshot_view (snapshot self.(rocks_db))) m) as Hs by by rewrite snapshot_spec.
    pose proof (snaps_of_insert Id_ltb _ _ S id _ m HS Hs) as Hins. cbn. unfold RocksDB_snapshot. rewrite Hmax. split; [done|]. cbn [rocks_snapshots].
    destruct max as [max|]; [|exact Hins]. cbn [fmap option_fmap option_map]. rewrite btree_pop_while_drop by lia.
    pose proof (btree_insert_length Id_ltb id (snapshot self.(rocks_db)) self.(rocks_snapshots)) as Hlen.
    cbn in Hroom. rewrite <- (Forall2_length _ _ _ HS) in Hroom.
    replace (length (btree_insert Id_ltb id (snapshot (rocks_db self)) (rocks_snapshots self)) - Z.to_nat (Z.of_nat max)) with 0 by lia.
    exact Hins.
  - intros max S self m id [[Hok Hm] [Hmax HS]]. pose proof (snaps_of_head Id_ltb _ _ _ id HS) as Hh.
    pose proof (RocksDB_transaction_opens self id Hok) as Hopen.
    destruct (head (btree_range_to Id_ltb id S)) as [[i t]|], (head (btree_range_to Id_ltb id (rocks_snapshots self))) as [[j s]|]; try done.
    destruct Hh as [Hi Ht]. cbn in Hi, Ht. subst. destruct Hopen as (tx & Hrun & Htok & Hf & _ & Hw & Hv). exists tx. split; [exact Hrun|].
    split_and!; [done..|]. unfold txn_reads. by rewrite Hw, Hv, overlay_empty.
Defined.
End RocksDB.
