(* ===== verification/External.v ===== *)
(** * Code outside the repository

    The third-party crates the program calls are parameters of the
    development, given as classes of operations; the [Lawful...] classes state
    the documented behaviour the program relies on. [Instances.v] gives concrete
    instances, on which the witnesses evaluate.

    - [starknet_types_core]: [Felt] and the hash [H: StarkHash];
    - [slotmap]: [SlotMap<NodeKey, Node>];
    - [hashbrown]: maps and sets are stdpp's [gmap] and [gset]; the order in
      which a [HashMap] is iterated is the parameter [HashMapIter]. *)
From S2P Require Import Prelude Path.

(** ** [starknet_types_core::felt::Felt] *)
Class StarkFelt (F : Type) := {
  Felt_eq_dec :: EqDecision F;
  Felt_countable :: Countable F;
  Felt_ZERO : F;
  Felt_add : F -> F -> F;
  Felt_from_bytes_be : ByteVec -> F;
  (** [parity_scale_codec]'s [Encode]/[Decode] of a felt; decoding returns the
      rest of the input. *)
  Felt_encode : F -> ByteVec;
  Felt_decode : ByteVec -> outcome CodecError (F * ByteVec);
}.

Class LawfulFelt (F : Type) `{StarkFelt F} := {
  Felt_decode_encode : forall x rest, Felt_decode (Felt_encode x ++ rest) = Ok (x, rest);
}.

#[export] Instance Felt_encode_inj {F} `{LawfulFelt F} : Inj (=) (=) (Felt_encode (F := F)).
Proof.
  intros x y Heq. pose proof (Felt_decode_encode x []) as Hx. rewrite Heq, Felt_decode_encode in Hx. congruence.
Qed.

(** ** [starknet_types_core::hash::StarkHash] *)
Class StarkHash (F : Type) := stark_hash : F -> F -> F.

(** ** [slotmap::SlotMap]

    [slot_view] is the map from keys to values that a slot map stands for. *)
Class SlotMap (K : Type) (M : Type -> Type) := {
  SlotMap_eq_dec :: EqDecision K;
  SlotMap_countable :: Countable K;
  slot_view : forall {V}, M V -> gmap K V;
  (** [{:?}] of a key *)
  key_debug : K -> string;
  slot_default : forall {V}, M V;
  slot_insert : forall {V}, M V -> V -> K * M V;
  slot_remove : forall {V}, M V -> K -> M V;
  (** assignment through [get_mut] or [IndexMut], for a key that is present *)
  slot_set : forall {V}, M V -> K -> V -> M V;
}.

Definition slot_get `{SlotMap K M} {V} (m : M V) (k : K) : option V := slot_view m !! k.

Class LawfulSlotMap (K : Type) (M : Type -> Type) `{SlotMap K M} := {
  slot_view_default : forall V, slot_view (slot_default (V := V)) = ∅;
  slot_insert_fresh : forall V (m : M V) v, slot_view m !! (slot_insert m v).1 = None;
  slot_view_insert : forall V (m : M V) v,
    slot_view (slot_insert m v).2 = <[(slot_insert m v).1 := v]> (slot_view m);
  slot_view_remove : forall V (m : M V) k, slot_view (slot_remove m k) = delete k (slot_view m);
  slot_view_set : forall V (m : M V) k v,
    is_Some (slot_view m !! k) -> slot_view (slot_set m k v) = <[k := v]> (slot_view m);
}.

(** ** Iteration of a [hashbrown::HashMap] *)
Class HashMapIter := {
  hash_iter : forall {K V} `{Countable K}, gmap K V -> list (K * V);
  hash_iter_perm : forall {K V} `{Countable K} (m : gmap K V), hash_iter m ≡ₚ map_to_list m;
}.
