(* ===== verification/MerkleNode.v ===== *)
(** * Nodes of the Merkle-Patricia trie

    Models [src/src/trie/merkle_node.rs]: [NodeHandle], [BinaryNode], [EdgeNode],
    [Node], [Direction], their methods, and the two node hashes. *)
From S2P Require Import Prelude Path External.

Inductive Direction : Type := Left | Right.

Definition Direction_invert (self : Direction) : Direction :=
  match self with Left => Right | Right => Left end.

(** [impl From<bool> for Direction] and back. *)
Definition Direction_from (tf : bool) : Direction := if tf then Right else Left.
Definition bool_from (direction : Direction) : bool :=
  match direction with Left => false | Right => true end.

Lemma bool_from_Direction_from b : bool_from (Direction_from b) = b.
Proof. by destruct b. Qed.
Lemma bool_from_invert d : bool_from (Direction_invert d) = negb (bool_from d).
Proof. by destruct d. Qed.

Section Nodes.
Context {F K : Type}.

Inductive NodeHandle : Type :=
| Hash (felt : F)
| InMemory (node_id : K).

Definition NodeHandle_as_hash (self : NodeHandle) : option F :=
  match self with Hash felt => Some felt | InMemory _ => None end.

Record BinaryNode := mkBinaryNode {
  binary_hash : option F;
  binary_height : nat;
  binary_left : NodeHandle;
  binary_right : NodeHandle;
}.

Record EdgeNode := mkEdgeNode {
  edge_hash : option F;
  edge_height : nat;
  edge_path : BitVec;
  edge_child : NodeHandle;
}.

Inductive Node : Type :=
| Binary (node : BinaryNode)
| Edge (node : EdgeNode).

(** [key[i]] on a bit slice. *)
Definition bit_index {E} (key : BitVec) (i : nat) : outcome E bool :=
  expect (key !! i) "index out of bounds".

Definition BinaryNode_direction {E} (self : BinaryNode) (key : BitVec) : outcome E Direction :=
  Direction_from <$> bit_index key self.(binary_height).

Definition BinaryNode_get_child (self : BinaryNode) (direction : Direction) : NodeHandle :=
  match direction with Left => self.(binary_left) | Right => self.(binary_right) end.

(** Assignment through [get_child_mut]. *)
Definition BinaryNode_set_child (self : BinaryNode) (direction : Direction) (h : NodeHandle) : BinaryNode :=
  match direction with
  | Left => mkBinaryNode self.(binary_hash) self.(binary_height) h self.(binary_right)
  | Right => mkBinaryNode self.(binary_hash) self.(binary_height) self.(binary_left) h
  end.

Definition Node_as_binary (self : Node) : option BinaryNode :=
  match self with Binary node => Some node | Edge _ => None end.

Definition Node_get_hash (self : Node) : option F :=
  match self with
  | Binary binary => binary.(binary_hash)
  | Edge edge => edge.(edge_hash)
  end.

(** [&key[lo..hi]], for bounds that are in range. *)
Definition slice (lo hi : nat) (key : BitVec) : BitVec := take (hi - lo) (drop lo key).

Definition EdgeNode_path_matches {E} (self : EdgeNode) (key : BitVec) (node_height : nat) : outcome E bool :=
  if decide (self.(edge_height) = node_height) then
    let lower_bound := node_height `min` length key in
    let upper_bound := (node_height + length self.(edge_path)) `min` length key in
    Ok (bool_decide (slice lower_bound upper_bound key `prefix_of` self.(edge_path)))
  else Panic "assertion `left == right` failed".

(** [zip(..).take_while(|(a, b)| a == b).count()]. *)
Fixpoint common_len (l1 l2 : BitVec) : nat :=
  match l1, l2 with
  | a :: l1, b :: l2 => if Bool.eqb a b then S (common_len l1 l2) else 0
  | _, _ => 0
  end.

Definition EdgeNode_common_path (self : EdgeNode) (key : BitVec) : BitVec :=
  let key_path := drop self.(edge_height) key in
  let common_length := common_len key_path self.(edge_path) in
  take common_length self.(edge_path).

#[export] Instance NodeHandle_eq_dec `{EqDecision F, EqDecision K} : EqDecision NodeHandle.
Proof. solve_decision. Defined.
#[export] Instance BinaryNode_eq_dec `{EqDecision F, EqDecision K} : EqDecision BinaryNode.
Proof. solve_decision. Defined.
#[export] Instance EdgeNode_eq_dec `{EqDecision F, EqDecision K} : EqDecision EdgeNode.
Proof. solve_decision. Defined.
#[export] Instance Node_eq_dec `{EqDecision F, EqDecision K} : EqDecision Node.
Proof. solve_decision. Defined.
End Nodes.
Arguments NodeHandle : clear implicits.
Arguments BinaryNode : clear implicits.
Arguments EdgeNode : clear implicits.
Arguments Node : clear implicits.

(** ** Node hashes *)
Section Hashes.
Context {F : Type} `{StarkFelt F, StarkHash F}.

Definition hash_binary_node (left_hash right_hash : F) : F := stark_hash left_hash right_hash.

(** The path right-aligned in 256 bits and packed; [256 - path.len()] is out of
    range for a longer path. *)
Definition hash_edge_node {E} (path : BitVec) (child_hash : F) : outcome E F :=
  if decide (length path <= 256) then
    let bytes := bits_to_bytes (replicate (256 - length path) false ++ path) in
    let felt_path := Felt_from_bytes_be bytes in
    let length_bytes := replicate 31 0%Z ++ [as_u8 (Z.of_nat (length path))] in
    let length := Felt_from_bytes_be length_bytes in
    Ok (Felt_add (stark_hash child_hash felt_path) length)
  else Panic "range start index out of range".
End Hashes.

(** ** Encoding of nodes

    [Encode] and [Decode] of [Node] are derived, generated code: a parameter.
    The derived encoding visits the fields, and that of a [NodeKey] panics
    ([unreachable!], [src/src/trie/tree.rs]). *)
Class NodeCodec (F K : Type) := {
  Node_encode_fields : Node F K -> ByteVec;
  Node_decode : ByteVec -> outcome CodecError (Node F K * ByteVec);
}.

(** All the handles of a node are hashes. *)
Definition Node_handles {F K} (n : Node F K) : list (NodeHandle F K) :=
  match n with
  | Binary b => [b.(binary_left); b.(binary_right)]
  | Edge e => [e.(edge_child)]
  end.
Definition Node_hashed {F K} (n : Node F K) : bool :=
  forallb (fun h => match h with Hash _ => true | InMemory _ => false end) (Node_handles n).

Definition Node_encode_bytevec {F K E} `{NodeCodec F K} (n : Node F K) : outcome E ByteVec :=
  if Node_hashed n then Ok (Node_encode_fields n)
  else Panic "internal error: entered unreachable code: Cannot encode NodeKey".

(** What fits the fields: a [u64] height and a path of at most 255 bits. *)
Definition Node_fits {F K} (n : Node F K) : Prop :=
  match n with
  | Binary b => b.(binary_height) < 256
  | Edge e => e.(edge_height) < 256 /\ length e.(edge_path) <= 255
  end.

Class LawfulNodeCodec (F K : Type) `{NodeCodec F K} := {
  Node_decode_encode : forall n rest, Node_hashed n = true -> Node_fits n ->
    Node_decode (Node_encode_fields n ++ rest) = Ok (n, rest);
}.

(** ** Lemmas *)

Lemma common_len_le_l l1 l2 : common_len l1 l2 <= length l1.
Proof. revert l2; induction l1 as [|a l1 IH]; intros [|b l2]; simpl; try lia. destruct (Bool.eqb a b); [|lia]. specialize (IH l2). lia. Qed.

Lemma common_len_le_r l1 l2 : common_len l1 l2 <= length l2.
Proof. revert l2; induction l1 as [|a l1 IH]; intros [|b l2]; simpl; try lia. destruct (Bool.eqb a b); [|lia]. specialize (IH l2). lia. Qed.

Lemma common_len_take l1 l2 : take (common_len l1 l2) l1 = take (common_len l1 l2) l2.
Proof.
  revert l2; induction l1 as [|a l1 IH]; intros [|b l2]; simpl; try done.
  destruct (Bool.eqb_spec a b) as [->|]; simpl; [by rewrite IH|done].
Qed.

(** Where the common prefix ends, the lists end or differ. *)
Lemma common_len_maximal l1 l2 a b :
  l1 !! common_len l1 l2 = Some a -> l2 !! common_len l1 l2 = Some b -> b = negb a.
Proof.
  revert l2; induction l1 as [|a' l1 IH]; intros [|b' l2]; simpl; try done.
  destruct (Bool.eqb_spec a' b') as [->|Hne]; simpl; [apply IH|].
  intros [= ->] [= ->]. by destruct a, b.
Qed.

Lemma common_len_app l k : common_len (l ++ k) l = length l.
Proof. induction l as [|b l IH]; [by destruct k|]. simpl. by rewrite Bool.eqb_reflx, IH. Qed.

Lemma common_len_split cp b p k :
  common_len (cp ++ b :: k) (cp ++ negb b :: p) = length cp.
Proof. induction cp as [|c cp IH]; simpl; [by destruct b|]. by rewrite Bool.eqb_reflx, IH. Qed.

(** Two bit strings agree up to their common prefix: either the second is a
    prefix of the first, or they part at a bit. *)
Lemma common_len_cases k p :
  length p <= length k ->
  (exists k', k = p ++ k' /\ common_len k p = length p) \/
  (exists cp b k' p', k = cp ++ b :: k' /\ p = cp ++ negb b :: p' /\ common_len k p = length cp).
Proof.
  revert p. induction k as [|a k IH]; intros [|b p] Hlen; simpl in *; try lia.
  - left. by exists [].
  - left. by exists (a :: k).
  - destruct (Bool.eqb_spec a b) as [->|Hne].
    + destruct (IH p ltac:(lia)) as [(k' & -> & Hc)|(cp & c & k' & p' & -> & -> & Hc)].
      * left. exists k'. by rewrite Hc.
      * right. exists (b :: cp), c, k', p'. by rewrite Hc.
    + right. exists [], a, k, p. by destruct a, b.
Qed.

Lemma prefix_of_split cp b k p : (cp ++ b :: p) `prefix_of` (cp ++ negb b :: k) -> False.
Proof. intros Hp%prefix_app_inv. apply prefix_cons_inv_1 in Hp. by destruct b. Qed.
