(* ===== verification/Instances.v ===== *)
(** * Concrete instances of the external code

    Instances on which the witnesses and examples of the development evaluate:
    the field elements with their 32-byte encoding, a hash function, a slot map,
    the SCALE layout of a node, an iteration order. They discharge the laws of
    [External.v] and [MerkleNode.v]. *)
From S2P Require Import Prelude Path Id Database HashMapDb External MerkleNode.
From stdpp Require Import pretty.

(** ** Field elements *)
Definition felt_prime : Z := (2 ^ 251 + 17 * 2 ^ 192 + 1)%Z.

Record Felt252 := mkFelt252 {
  felt_val : Z;
  felt_range : Is_true (bool_decide (0 <= felt_val < felt_prime)%Z);
}.

Lemma Felt252_eq (x y : Felt252) : x.(felt_val) = y.(felt_val) -> x = y.
Proof. destruct x as [x Hx], y as [y Hy]; cbn. intros <-. f_equal. apply proof_irrel. Qed.

#[export] Instance Felt252_eq_dec : EqDecision Felt252.
Proof.
  intros x y. destruct (decide (x.(felt_val) = y.(felt_val))) as [H|H].
  - left. by apply Felt252_eq.
  - right. congruence.
Defined.

Lemma felt_mod_range z : Is_true (bool_decide (0 <= z mod felt_prime < felt_prime)%Z).
Proof. apply bool_decide_spec. apply Z.mod_pos_bound. done. Qed.

Definition felt (z : Z) : Felt252 := mkFelt252 (z mod felt_prime) (felt_mod_range z).

Lemma felt_felt_val x : felt x.(felt_val) = x.
Proof.
  apply Felt252_eq. cbn. destruct x as [x Hx]; cbn.
  apply bool_decide_spec in Hx. by apply Z.mod_small.
Qed.

#[export] Instance Felt252_countable : Countable Felt252.
Proof. apply (inj_countable' felt_val felt). apply felt_felt_val. Defined.

(** [n] big-endian bytes. *)
Fixpoint be_bytes (n : nat) (z : Z) : ByteVec :=
  match n with
  | 0 => []
  | S n => be_bytes n (z / 256) ++ [(z mod 256)%Z]
  end.

Lemma length_be_bytes n z : length (be_bytes n z) = n.
Proof. revert z; induction n as [|n IH]; intros z; [done|]. cbn. rewrite length_app, IH. cbn. lia. Qed.

Lemma from_be_bytes_app bs b : from_be_bytes (bs ++ [b]) = (from_be_bytes bs * 256 + b)%Z.
Proof. unfold from_be_bytes. by rewrite fold_left_app. Qed.

Lemma from_be_bytes_be_bytes n z : (0 <= z < 256 ^ Z.of_nat n)%Z -> from_be_bytes (be_bytes n z) = z.
Proof.
  revert z. induction n as [|n IH]; intros z Hz.
  - cbn in *. lia.
  - cbn [be_bytes]. rewrite Nat2Z.inj_succ, Z.pow_succ_r in Hz by lia.
    rewrite from_be_bytes_app, IH by (Z.to_euclidean_division_equations; nia).
    Z.to_euclidean_division_equations. nia.
Qed.

(** Splitting off a fixed number of bytes. *)
Definition take_bytes (n : nat) (input : ByteVec) : outcome CodecError (ByteVec * ByteVec) :=
  if decide (n <= length input) then Ok (take n input, drop n input)
  else Err "Not enough data to fill buffer"%string.

Lemma take_bytes_app bs rest : take_bytes (length bs) (bs ++ rest) = Ok (bs, rest).
Proof.
  unfold take_bytes. rewrite decide_True by (rewrite length_app; lia).
  by rewrite take_app_length, drop_app_length.
Qed.

Definition felt_decode (input : ByteVec) : outcome CodecError (Felt252 * ByteVec) :=
  '(bs, rest) ← take_bytes 32 input; Ok (felt (from_be_bytes bs), rest).

#[export] Instance Felt252_StarkFelt : StarkFelt Felt252 := {|
  Felt_ZERO := felt 0;
  Felt_add x y := felt (x.(felt_val) + y.(felt_val));
  Felt_from_bytes_be bs := felt (from_be_bytes bs);
  Felt_encode x := be_bytes 32 x.(felt_val);
  Felt_decode := felt_decode;
|}.

#[export] Instance Felt252_lawful : LawfulFelt Felt252.
Proof.
  split. intros x rest. cbn -[be_bytes]. unfold felt_decode.
  rewrite <- (length_be_bytes 32 x.(felt_val)) at 1. rewrite take_bytes_app.
  cbn -[be_bytes felt]. rewrite from_be_bytes_be_bytes; [by rewrite felt_felt_val|].
  destruct x as [x Hx]; cbn. apply bool_decide_spec in Hx.
  assert (felt_prime < 256 ^ 32)%Z by done. lia.
Qed.

#[export] Instance Felt252_hash : StarkHash Felt252 :=
  fun x y => felt (31 * x.(felt_val) + 17 * y.(felt_val) + 1).

(** ** Slot map *)
#[export] Instance gmap_SlotMap : SlotMap positive (gmap positive) := {|
  slot_view V m := m;
  key_debug k := "NodeKey(" +:+ pretty k +:+ "v1)";
  slot_default V := ∅;
  slot_insert V m v := let k := fresh (dom m) in (k, <[k := v]> m);
  slot_remove V m k := delete k m;
  slot_set V m k v := <[k := v]> m;
|}.

#[export] Instance gmap_SlotMap_lawful : LawfulSlotMap positive (gmap positive).
Proof. split; try done. intros V m v. apply not_elem_of_dom. apply is_fresh. Qed.

(** ** Iteration order *)
#[export] Instance map_to_list_iter : HashMapIter.
Proof. by refine {| hash_iter K V _ _ m := map_to_list m |}. Defined.

(** ** SCALE layout of a node: a variant byte, then the fields in order *)
Section Scale.
Context {F K : Type} `{StarkFelt F, !LawfulFelt F}.

Definition scale_u64 (n : nat) : ByteVec := rev (to_be_bytes (Z.of_nat n)).
Definition scale_option (o : option F) : ByteVec :=
  match o with None => [0%Z] | Some x => 1%Z :: Felt_encode x end.
Definition scale_handle (h : NodeHandle F K) : ByteVec :=
  match h with Hash x => 0%Z :: Felt_encode x | InMemory _ => [1%Z] end.

Definition scale_node (n : Node F K) : ByteVec :=
  match n with
  | Binary b => 0%Z :: scale_option b.(binary_hash) ++ scale_u64 b.(binary_height) ++
                scale_handle b.(binary_left) ++ scale_handle b.(binary_right)
  | Edge e => 1%Z :: scale_option e.(edge_hash) ++ scale_u64 e.(edge_height) ++
              Path_encode e.(edge_path) ++ scale_handle e.(edge_child)
  end.

Definition unscale_u64 (input : ByteVec) : outcome CodecError (nat * ByteVec) :=
  '(bs, rest) ← take_bytes 8 input; Ok (Z.to_nat (from_be_bytes (rev bs)), rest).
Definition unscale_option (input : ByteVec) : outcome CodecError (option F * ByteVec) :=
  '(tag, input) ← read_byte input;
  if decide (tag = 0%Z) then Ok (None, input)
  else '(x, input) ← Felt_decode input; Ok (Some x, input).
Definition unscale_handle (input : ByteVec) : outcome CodecError (NodeHandle F K * ByteVec) :=
  '(tag, input) ← read_byte input;
  if decide (tag = 0%Z) then '(x, input) ← Felt_decode input; Ok (Hash x, input)
  else Panic "internal error: entered unreachable code: Cannot decode NodeKey".

Definition unscale_node (input : ByteVec) : outcome CodecError (Node F K * ByteVec) :=
  '(tag, input) ← read_byte input;
  '(hash, input) ← unscale_option input;
  '(height, input) ← unscale_u64 input;
  if decide (tag = 0%Z) then
    '(l, input) ← unscale_handle input;
    '(r, input) ← unscale_handle input;
    Ok (Binary (mkBinaryNode hash height l r), input)
  else
    '(path, input) ← Path_decode input;
    '(c, input) ← unscale_handle input;
    Ok (Edge (mkEdgeNode hash height path c), input).

#[export] Instance scale_NodeCodec : NodeCodec F K := {|
  Node_encode_fields := scale_node;
  Node_decode := unscale_node;
|}.

Lemma unscale_u64_app n rest : n < 256 -> unscale_u64 (scale_u64 n ++ rest) = Ok (n, rest).
Proof.
  intros Hn. unfold unscale_u64. change 8 with (length (scale_u64 n)).
  rewrite take_bytes_app. cbn -[scale_u64 from_be_bytes]. unfold scale_u64.
  rewrite rev_involutive, from_be_bytes_to_be_bytes by lia. by rewrite Nat2Z.id.
Qed.

Lemma unscale_option_app o rest : unscale_option (scale_option o ++ rest) = Ok (o, rest).
Proof. destruct o; cbn; [|done]. by rewrite Felt_decode_encode. Qed.

Lemma unscale_handle_app h rest :
  (exists x, h = Hash x) -> unscale_handle (scale_handle h ++ rest) = Ok (h, rest).
Proof. intros [x ->]. cbn. by rewrite Felt_decode_encode. Qed.

#[export] Instance scale_NodeCodec_lawful : LawfulNodeCodec F K.
Proof.
  split. intros n rest Hh Hfits. unfold Node_decode, Node_encode_fields, scale_NodeCodec.
  assert (forall h, h ∈ Node_handles n -> exists x, h = Hash x) as Hhash.
  { intros h Hin%list_elem_of_In. unfold Node_hashed in Hh.
    rewrite forallb_forall in Hh. specialize (Hh h Hin). destruct h; [eauto|done]. }
  unfold unscale_node. destruct n as [[o h l r]|[o h p c]]; cbn in Hfits, Hhash; cbn [scale_node].
  all: change (?b :: ?l ++ rest) with ((b :: l) ++ rest); cbn [app read_byte mbind outcome_bind].
  all: rewrite <- !app_assoc, unscale_option_app; cbn [mbind outcome_bind].
  - rewrite unscale_u64_app by done. cbn [mbind outcome_bind decide].
    rewrite unscale_handle_app by (apply Hhash; set_solver). cbn [mbind outcome_bind].
    by rewrite unscale_handle_app by (apply Hhash; set_solver).
  - rewrite unscale_u64_app by naive_solver. cbn [mbind outcome_bind].
    rewrite Path_decode_encode_app by naive_solver. cbn [mbind outcome_bind].
    by rewrite unscale_handle_app by (apply Hhash; set_solver).
Qed.
End Scale.
