(* ===== verification/Trie.v ===== *)
(** * Specification: Patricia tries and their hash

    What the tree of [src/src/trie/tree.rs] is meant to be, as a pure data
    structure: a binary trie of fixed height in which edges are maximal. A trie
    stands for the finite map of its leaves ([trie_lookup]); a map has exactly
    one well-formed trie ([trie_ext]), hence one root hash. The files from
    [Annot.v] on prove the stateful code against these definitions. *)
From S2P Require Import Prelude Path External MerkleNode.

Section Trie.
Context {F : Type} `{StarkFelt F, !StarkHash F}.

Inductive trie : Type :=
| Leaf (v : F)
| Bin (l r : trie)
| Edg (p : BitVec) (c : trie).

Definition is_edge (t : trie) : bool := match t with Edg _ _ => true | _ => false end.
Definition is_leaf (t : trie) : bool := match t with Leaf _ => true | _ => false end.

(** [trie_wf n t]: every leaf is [n] bits below, no leaf holds zero, edges are
    non-empty and maximal. *)
Fixpoint trie_wf (n : nat) (t : trie) : Prop :=
  match t with
  | Leaf v => n = 0 /\ v <> Felt_ZERO
  | Bin l r => match n with 0 => False | S n => trie_wf n l /\ trie_wf n r end
  | Edg p c => p <> [] /\ length p <= n /\ trie_wf (n - length p) c /\ is_edge c = false
  end.

Fixpoint trie_lookup (t : trie) (k : BitVec) : option F :=
  match t with
  | Leaf v => match k with [] => Some v | _ => None end
  | Bin l r => match k with [] => None | b :: k => trie_lookup (if b then r else l) k end
  | Edg p c => if decide (p `prefix_of` k) then trie_lookup c (drop (length p) k) else None
  end.

(** An edge, elided when its path is empty. *)
Definition mk_edge (p : BitVec) (c : trie) : trie :=
  match p with [] => c | _ => Edg p c end.

(** An edge merged with its child. *)
Definition merge_edge (p : BitVec) (c : trie) : trie :=
  match c with Edg p' c' => Edg (p ++ p') c' | _ => Edg p c end.

Definition mk_bin (b : bool) (new old : trie) : trie :=
  if b then Bin old new else Bin new old.

Fixpoint trie_insert (t : trie) (k : BitVec) (v : F) : trie :=
  match t with
  | Leaf _ => Leaf v
  | Bin l r =>
      match k with
      | [] => t
      | b :: k => if b then Bin l (trie_insert r k v) else Bin (trie_insert l k v) r
      end
  | Edg p c =>
      let n := common_len k p in
      if decide (n = length p) then Edg p (trie_insert c (drop n k) v)
      else
        match drop n k with
        | [] => t
        | b :: k' => mk_edge (take n p) (mk_bin b (mk_edge k' (Leaf v)) (mk_edge (drop (n + 1) p) c))
        end
  end.

Fixpoint trie_delete (t : trie) (k : BitVec) : option trie :=
  match t with
  | Leaf _ => None
  | Bin l r =>
      match k with
      | [] => Some t
      | true :: k => Some (match trie_delete r k with Some r' => Bin l r' | None => merge_edge [false] l end)
      | false :: k => Some (match trie_delete l k with Some l' => Bin l' r | None => merge_edge [true] r end)
      end
  | Edg p c => merge_edge p <$> trie_delete c (drop (length p) k)
  end.

(** ** Hashes *)

(** [hash_edge_node] on a path that fits. *)
Definition edge_felt (p : BitVec) (child : F) : F :=
  Felt_add (stark_hash child (Felt_from_bytes_be (bits_to_bytes (replicate (256 - length p) false ++ p))))
    (Felt_from_bytes_be (replicate 31 0%Z ++ [as_u8 (Z.of_nat (length p))])).

Lemma hash_edge_node_ok {E} p h : length p <= 256 -> hash_edge_node (E := E) p h = Ok (edge_felt p h).
Proof. intros Hp. unfold hash_edge_node. by rewrite decide_True. Qed.

Fixpoint trie_hash (t : trie) : F :=
  match t with
  | Leaf v => v
  | Bin l r => hash_binary_node (trie_hash l) (trie_hash r)
  | Edg p c => edge_felt p (trie_hash c)
  end.

(** ** The tree, possibly empty *)
Definition otrie_wf (n : nat) (o : option trie) : Prop := match o with Some t => trie_wf n t | None => True end.
Definition otrie_lookup (o : option trie) (k : BitVec) : option F := o ≫= fun t => trie_lookup t k.
Definition otrie_insert (o : option trie) (k : BitVec) (v : F) : option trie :=
  Some (match o with Some t => trie_insert t k v | None => mk_edge k (Leaf v) end).
Definition otrie_delete (o : option trie) (k : BitVec) : option trie :=
  o ≫= fun t => match trie_lookup t k with Some _ => trie_delete t k | None => Some t end.
Definition otrie_hash (o : option trie) : F := match o with Some t => trie_hash t | None => Felt_ZERO end.

(** The trie of a map, and the root hash of a map. *)
Definition trie_of (m : gmap BitVec F) : option trie :=
  map_fold (fun k v o => otrie_insert o k v) None m.
Definition map_root_hash (m : gmap BitVec F) : F := otrie_hash (trie_of m).

(** The maps a tree of height [n] can hold. *)
Definition map_wf (n : nat) (m : gmap BitVec F) : Prop :=
  map_Forall (fun k v => length k = n /\ v <> Felt_ZERO) m.

(** [o] is the trie of the map [m]. *)
Definition trie_rep (n : nat) (o : option trie) (m : gmap BitVec F) : Prop :=
  otrie_wf n o /\ forall k, otrie_lookup o k = m !! k.

(** ** Lookup lemmas *)

Lemma trie_lookup_length n t k v : trie_wf n t -> trie_lookup t k = Some v -> length k = n.
Proof.
  revert n k. induction t as [w|l IHl r IHr|p c IH]; intros n k Hwf Hk; cbn in *.
  - destruct k; [naive_solver|done].
  - destruct n as [|n]; [done|]. destruct k as [|b k]; [done|]. cbn. f_equal.
    destruct b; naive_solver.
  - case_decide as Hp; [|done]. destruct Hwf as (? & ? & Hc & ?).
    specialize (IH _ _ Hc Hk). destruct Hp as [k' ->]. rewrite drop_app_length in IH.
    rewrite length_app. lia.
Qed.

Lemma trie_lookup_nonzero n t k v : trie_wf n t -> trie_lookup t k = Some v -> v <> Felt_ZERO.
Proof.
  revert n k. induction t as [w|l IHl r IHr|p c IH]; intros n k Hwf Hk; cbn in *.
  - destruct k; naive_solver.
  - destruct n as [|n]; [done|]. destruct k as [|[] k]; naive_solver.
  - case_decide; naive_solver.
Qed.

Lemma trie_lookup_edge p c k : trie_lookup (Edg p c) (p ++ k) = trie_lookup c k.
Proof. cbn. rewrite decide_True by (by exists k). by rewrite drop_app_length. Qed.

(** A well-formed trie has a leaf. *)
Lemma trie_inhabited n t : trie_wf n t -> exists k v, trie_lookup t k = Some v.
Proof.
  revert n. induction t as [w|l IHl r IHr|p c IH]; intros n Hwf; cbn in Hwf.
  - by exists [], w.
  - destruct n as [|n]; [done|]. destruct Hwf as [Hl _].
    destruct (IHl _ Hl) as (k & v & Hk). by exists (false :: k), v.
  - destruct Hwf as (_ & _ & Hc & _). destruct (IH _ Hc) as (k & v & Hk).
    exists (p ++ k), v. by rewrite trie_lookup_edge.
Qed.

(** ** Smart constructors *)

Lemma mk_edge_wf n p c :
  length p <= n -> trie_wf (n - length p) c -> is_edge c = false -> trie_wf n (mk_edge p c).
Proof. destruct p; cbn [mk_edge]; intros; [by rewrite Nat.sub_0_r in *|]. by cbn. Qed.

Lemma mk_edge_lookup p c k :
  trie_lookup (mk_edge p c) k =
  if decide (p `prefix_of` k) then trie_lookup c (drop (length p) k) else None.
Proof. destruct p as [|b p]; [|done]. rewrite decide_True by (by apply prefix_nil); done. Qed.

Lemma mk_edge_lookup_app p c k : trie_lookup (mk_edge p c) (p ++ k) = trie_lookup c k.
Proof. rewrite mk_edge_lookup, decide_True by (by exists k). by rewrite drop_app_length. Qed.

Lemma edge_lookup_app cp p c k : trie_lookup (mk_edge (cp ++ p) c) (cp ++ k) = trie_lookup (mk_edge p c) k.
Proof.
  rewrite !mk_edge_lookup. destruct (decide (p `prefix_of` k)) as [Hp|Hp].
  - rewrite decide_True by (by apply prefix_app).
    by rewrite length_app, <- drop_drop, drop_app_length.
  - by rewrite decide_False by (by intros ?%prefix_app_inv).
Qed.

Lemma edge_lookup_other cp p c k :
  ~ cp `prefix_of` k -> trie_lookup (mk_edge (cp ++ p) c) k = None.
Proof.
  intros Hcp. rewrite mk_edge_lookup, decide_False; [done|].
  intros Hp. apply Hcp. by eapply prefix_app_l.
Qed.

Lemma edge_lookup_cons b p c b' k :
  trie_lookup (mk_edge (b :: p) c) (b' :: k) = if decide (b = b') then trie_lookup (mk_edge p c) k else None.
Proof.
  case_decide as Hb; [subst; apply (edge_lookup_app [b'])|].
  rewrite mk_edge_lookup, decide_False; [done|]. by intros ?%prefix_cons_inv_1.
Qed.

(** The leaf at the end of an edge. *)
Lemma edge_leaf_lookup k v k' :
  length k = length k' -> trie_lookup (mk_edge k (Leaf v)) k' = if decide (k = k') then Some v else None.
Proof.
  intros Hlen. rewrite mk_edge_lookup. case_decide as Hp.
  - destruct Hp as [[|? ?] ->]; rewrite ?length_app in Hlen; cbn in Hlen; [|lia].
    by rewrite app_nil_r, drop_all, decide_True.
  - rewrite decide_False; [done|]. by intros ->.
Qed.

Lemma merge_edge_wf n p c :
  p <> [] -> length p <= n -> trie_wf (n - length p) c -> trie_wf n (merge_edge p c).
Proof.
  intros Hp Hlen Hc. destruct c as [v|l r|p' c]; cbn [merge_edge]; try exact (conj Hp (conj Hlen (conj Hc eq_refl))).
  destruct Hc as (Hp' & Hlen' & Hc & He). cbn. rewrite length_app.
  repeat split; [by destruct p|lia| |done]. by rewrite Nat.sub_add_distr.
Qed.

Lemma merge_edge_lookup p c k : trie_lookup (merge_edge p c) k = trie_lookup (Edg p c) k.
Proof.
  destruct c as [v|l r|p' c]; [done..|]. cbn [merge_edge].
  destruct (decide (p `prefix_of` k)) as [[k' ->]|Hp].
  - rewrite trie_lookup_edge. cbn. rewrite length_app.
    destruct (decide (p' `prefix_of` k')) as [Hp'|Hp'].
    + rewrite decide_True by (by apply prefix_app). by rewrite <- drop_drop, drop_app_length.
    + by rewrite decide_False by (by intros ?%prefix_app_inv).
  - cbn. rewrite !decide_False; [done|done|]. intros Hp'. apply Hp. by eapply prefix_app_l.
Qed.

Lemma mk_bin_lookup b new old k :
  trie_lookup (mk_bin b new old) (b :: k) = trie_lookup new k /\
  trie_lookup (mk_bin b new old) (negb b :: k) = trie_lookup old k.
Proof. by destruct b. Qed.

Lemma mk_bin_wf n b new old : trie_wf n new -> trie_wf n old -> trie_wf (S n) (mk_bin b new old).
Proof. by destruct b. Qed.

(** ** Insertion *)

Lemma trie_insert_not_edge t k v : is_edge t = false -> is_edge (trie_insert t k v) = false.
Proof. by destruct t as [| |], k as [|[]]. Qed.

(** The insertion into an edge, on the two shapes a key of the right length can have. *)
Lemma trie_insert_edge_match p c k v :
  trie_insert (Edg p c) (p ++ k) v = Edg p (trie_insert c k v).
Proof. cbn. rewrite common_len_app. rewrite decide_True by done. by rewrite drop_app_length. Qed.

Lemma trie_insert_edge_split cp b p c k v :
  trie_insert (Edg (cp ++ negb b :: p) c) (cp ++ b :: k) v =
  mk_edge cp (mk_bin b (mk_edge k (Leaf v)) (mk_edge p c)).
Proof.
  cbn. rewrite common_len_split, length_app. cbn. rewrite decide_False by lia.
  rewrite drop_app_length, take_app_length. by rewrite drop_app_ge, Nat.add_sub' by lia.
Qed.

Lemma trie_insert_wf n t k v :
  trie_wf n t -> length k = n -> v <> Felt_ZERO -> trie_wf n (trie_insert t k v).
Proof.
  revert n k. induction t as [w|l IHl r IHr|p c IH]; intros n k Hwf Hk Hv.
  - by destruct Hwf as [-> _].
  - destruct n as [|n]; [done|]. destruct k as [|b k]; [done|]. destruct Hwf as [Hl Hr].
    destruct b; cbn; naive_solver.
  - destruct Hwf as (Hp & Hlen & Hc & He).
    destruct (common_len_cases k p) as [(k' & -> & _)|(cp & b & k' & p' & -> & -> & _)]; [lia|..].
    + rewrite trie_insert_edge_match. rewrite length_app in Hk.
      cbn. repeat split; [done|done| |by apply trie_insert_not_edge].
      apply IH; [done|lia|done].
    + rewrite trie_insert_edge_split. rewrite !length_app in *. cbn in *.
      apply mk_edge_wf; [lia| |by destruct b]. replace (n - length cp) with (S (length k')) by lia.
      apply mk_bin_wf; apply mk_edge_wf; cbn; try lia; try done.
      * split; [lia|done].
      * by replace (length k' - length p') with (n - (length cp + S (length p'))) by lia.
Qed.

Lemma trie_lookup_insert n t k v k' :
  trie_wf n t -> length k = n -> length k' = n ->
  trie_lookup (trie_insert t k v) k' = if decide (k = k') then Some v else trie_lookup t k'.
Proof.
  revert n k k'. induction t as [w|l IHl r IHr|p c IH]; intros n k k' Hwf Hk Hk'.
  - destruct Hwf as [-> _]. by destruct k, k'.
  - destruct n as [|n]; [done|]. destruct k as [|b k], k' as [|b' k']; try done.
    destruct Hwf as [Hl Hr]. cbn in Hk, Hk'.
    destruct b, b'; cbn; try (by rewrite decide_False by congruence).
    + rewrite (IHr n) by (done || lia). repeat case_decide; congruence.
    + rewrite (IHl n) by (done || lia). repeat case_decide; congruence.
  - destruct Hwf as (Hp & Hlen & Hc & He).
    assert (mk_edge p c = Edg p c) as Hpc by (by destruct p).
    replace (trie_lookup (Edg p c) k') with (trie_lookup (mk_edge p c) k') by (by rewrite Hpc).
    destruct (common_len_cases k p) as [(k1 & -> & _)|(cp & b & k1 & p1 & -> & -> & _)]; [lia|..].
    + rewrite trie_insert_edge_match. rewrite length_app in Hk.
      destruct (decide (p `prefix_of` k')) as [[k1' ->]|Hp'].
      * rewrite length_app in Hk'. rewrite Hpc, !trie_lookup_edge, (IH (n - length p)) by (done || lia).
        repeat case_decide; simplify_list_eq; congruence.
      * rewrite Hpc. cbn. rewrite !(decide_False (P := p `prefix_of` k')) by done.
        rewrite decide_False; [done|]. intros <-. apply Hp'. by exists k1.
    + rewrite trie_insert_edge_split. rewrite length_app in *. cbn [length] in *.
      destruct (decide (cp `prefix_of` k')) as [[k1' ->]|Hp'].
      2:{ rewrite edge_lookup_other by done. rewrite mk_edge_lookup, decide_False by done.
          rewrite decide_False; [done|]. intros <-. apply Hp'. by exists (b :: k1). }
      rewrite mk_edge_lookup_app, edge_lookup_app. rewrite length_app in Hk'.
      destruct k1' as [|b' k2]; [cbn in *; lia|]. cbn in Hk'. rewrite edge_lookup_cons.
      destruct (Bool.eqb_spec b' b) as [->|Hb].
      * rewrite (proj1 (mk_bin_lookup _ _ _ _)), edge_leaf_lookup by lia.
        rewrite (decide_False (P := negb b = b)) by by destruct b.
        repeat case_decide; simplify_list_eq; congruence.
      * assert (b' = negb b) as -> by (by destruct b, b').
        rewrite (proj2 (mk_bin_lookup _ _ _ _)), (decide_True (P := negb b = negb b)) by done.
        rewrite decide_False; [done|]. by intros ?; simplify_list_eq.
Qed.

(** ** Deletion *)

Lemma trie_delete_wf n t k : trie_wf n t -> otrie_wf n (trie_delete t k).
Proof.
  revert n k. induction t as [w|l IHl r IHr|p c IH]; intros n k Hwf; [done|..].
  - destruct n as [|n]; [done|]. destruct k as [|b k]; [done|]. destruct Hwf as [Hl Hr].
    destruct b; cbn [trie_delete otrie_wf].
    + specialize (IHr n k Hr). destruct (trie_delete r k); [done|].
      apply merge_edge_wf; cbn; [done|lia|by rewrite Nat.sub_0_r].
    + specialize (IHl n k Hl). destruct (trie_delete l k); [done|].
      apply merge_edge_wf; cbn; [done|lia|by rewrite Nat.sub_0_r].
  - destruct Hwf as (Hp & Hlen & Hc & He). specialize (IH _ (drop (length p) k) Hc).
    cbn [trie_delete]. destruct (trie_delete c _); [|done]. by apply merge_edge_wf.
Qed.

Lemma otrie_lookup_merge p o k :
  otrie_lookup (merge_edge p <$> o) k =
  if decide (p `prefix_of` k) then otrie_lookup o (drop (length p) k) else None.
Proof. destruct o as [t|]; cbn; [by rewrite merge_edge_lookup|by case_decide]. Qed.

Lemma trie_lookup_delete n t k v k' :
  trie_wf n t -> trie_lookup t k = Some v -> length k' = n ->
  otrie_lookup (trie_delete t k) k' = if decide (k = k') then None else trie_lookup t k'.
Proof.
  intros Hwf Hk. assert (length k = n) as Hn by by eapply trie_lookup_length.
  revert n k k' Hwf Hk Hn. induction t as [w|l IHl r IHr|p c IH]; intros n k k' Hwf Hk Hn Hk'.
  - destruct Hwf as [-> _]. by destruct k, k'.
  - destruct n as [|n]; [done|]. destruct k as [|b k], k' as [|b' k']; try done.
    destruct Hwf as [Hl Hr]. cbn in Hk, Hn, Hk'.
    assert (otrie_lookup (trie_delete (Bin l r) (b :: k)) (b' :: k') =
      if decide (b = b') then otrie_lookup (trie_delete (if b then r else l) k) k'
      else trie_lookup (if b' then r else l) k') as ->.
    { assert (forall b t, trie_lookup (merge_edge [b] t) (b' :: k') =
        if decide (b = b') then trie_lookup t k' else None) as Hm.
      { intros b0 t0. rewrite merge_edge_lookup. apply (edge_lookup_cons _ []). }
      destruct b; cbn [trie_delete otrie_lookup].
      - cbn. destruct (trie_delete r k); cbn; [by destruct b'|]. rewrite Hm. by destruct b'.
      - cbn. destruct (trie_delete l k); cbn; [by destruct b'|]. rewrite Hm. by destruct b'. }
    case_decide as Hb; [subst b'|by rewrite decide_False by congruence].
    destruct b; [rewrite (IHr n) by (done || lia)|rewrite (IHl n) by (done || lia)];
      repeat case_decide; simplify_eq; done.
  - destruct Hwf as (Hp & Hlen & Hc & He). cbn in Hk. cbn [trie_delete].
    case_decide as Hpre; [|done]. destruct Hpre as [k1 ->]. rewrite length_app in Hn.
    rewrite otrie_lookup_merge. rewrite drop_app_length in *. cbn. case_decide as Hpre.
    + destruct Hpre as [k1' ->]. rewrite length_app in Hk'. rewrite drop_app_length.
      rewrite (IH (n - length p)) by (done || lia). repeat case_decide; simplify_list_eq; congruence.
    + rewrite decide_False; [done|]. intros <-. apply Hpre. by exists k1.
Qed.

(** ** Canonicity: a map has one trie *)

(** A well-formed trie that is no edge has leaves on both sides, or is a leaf:
    its keys share no first bit. *)
Lemma trie_fork n t b :
  trie_wf (S n) t -> is_edge t = false -> exists k v, trie_lookup t (b :: k) = Some v.
Proof.
  destruct t as [|l r|]; [by intros [? ?]| |done]. intros [Hl Hr] _.
  destruct b; [destruct (trie_inhabited n r Hr) as (k & v & ?)|destruct (trie_inhabited n l Hl) as (k & v & ?)];
    by exists k, v.
Qed.

(** Edges with the same keys have the same path. *)
Lemma trie_edge_prefix n (p p' : BitVec) (c c' : trie) :
  p <> [] -> length p <= n -> length p' <= n -> trie_wf (n - length p) c -> trie_wf (n - length p') c' -> is_edge c = false ->
  (forall k, trie_lookup (Edg p c) k = trie_lookup (Edg p' c') k) -> p' `prefix_of` p.
Proof.
  intros Hp Hlen Hlen' Hc Hc' He Hall. destruct (trie_inhabited _ c Hc) as (k & v & Hk).
  pose proof (Hall (p ++ k)) as Hpk. rewrite trie_lookup_edge, Hk in Hpk. cbn in Hpk. case_decide as Hpre; [|done].
  destruct (prefix_weak_total p' p (p ++ k)) as [?|[q ->]]; [done|by exists k|done|].
  destruct q as [|b q]; [by rewrite app_nil_r|]. exfalso. rewrite length_app in Hlen'. cbn in Hlen'.
  destruct (trie_fork (n - length p - 1) c (negb b)) as (k' & v' & Hk'); [|done|].
  { by replace (S (n - length p - 1)) with (n - length p) by lia. }
  pose proof (Hall (p ++ negb b :: k')) as Hq. rewrite trie_lookup_edge, Hk' in Hq. cbn in Hq.
  case_decide as Hpre'; [|done]. apply prefix_app_inv, prefix_cons_inv_1 in Hpre'. by destruct b.
Qed.

(** A branch and an edge do not have the same keys. *)
Lemma trie_fork_edge n l r p c :
  trie_wf (S n) (Bin l r) -> p <> [] -> (forall k, trie_lookup (Bin l r) k = trie_lookup (Edg p c) k) -> False.
Proof.
  intros Hwf Hp Hall. destruct p as [|b p]; [done|].
  destruct (trie_fork n (Bin l r) (negb b)) as (k & v & Hk); [done..|].
  rewrite Hall in Hk. cbn in Hk. case_decide as Hpre; [|done]. apply prefix_cons_inv_1 in Hpre. by destruct b.
Qed.

Lemma trie_ext n t t' :
  trie_wf n t -> trie_wf n t' -> (forall k, length k = n -> trie_lookup t k = trie_lookup t' k) -> t = t'.
Proof.
  intros Hwf Hwf' Heq. assert (forall k, trie_lookup t k = trie_lookup t' k) as Hall.
  { intros k. destruct (trie_lookup t k) as [v|] eqn:Hk.
    - rewrite <- Hk. apply Heq. by apply (trie_lookup_length n t k v).
    - destruct (trie_lookup t' k) as [v|] eqn:Hk'; [|done]. rewrite <- Hk, <- Hk'.
      apply Heq. by apply (trie_lookup_length n t' k v). }
  clear Heq. revert n t' Hwf Hwf' Hall.
  induction t as [w|l IHl r IHr|p c IH]; intros n t' Hwf Hwf' Hall.
  - destruct Hwf as [-> Hv]. destruct t' as [w'|l' r'|p' c']; [|done|].
    + specialize (Hall []). cbn in Hall. congruence.
    + destruct Hwf' as (? & ? & _). by destruct p'; cbn in *; [|lia].
  - destruct n as [|n]; [done|]. destruct Hwf as [Hl Hr].
    destruct t' as [w'|l' r'|p' c']; [by destruct Hwf'| |].
    + destruct Hwf' as [Hl' Hr']. f_equal.
      * apply (IHl n); [done..|]. intros k. apply (Hall (false :: k)).
      * apply (IHr n); [done..|]. intros k. apply (Hall (true :: k)).
    + destruct Hwf' as (Hp & _). by destruct (trie_fork_edge n l r p' c').
  - destruct Hwf as (Hp & Hlen & Hc & He). destruct t' as [w'|l' r'|p' c'].
    + destruct Hwf' as [-> _]. destruct p; cbn in *; [done|lia].
    + destruct n as [|n]; [done|]. by destruct (trie_fork_edge n l' r' p c).
    + destruct Hwf' as (Hp' & Hlen' & Hc' & He').
      assert (p = p') as <- by (apply (anti_symm prefix); eapply trie_edge_prefix; try done; by intros).
      f_equal. apply (IH (n - length p)); [done..|]. intros k.
      specialize (Hall (p ++ k)). by rewrite !trie_lookup_edge in Hall.
Qed.

(** ** The trie of a map *)

Lemma otrie_lookup_length n o k v : otrie_wf n o -> otrie_lookup o k = Some v -> length k = n.
Proof. destruct o as [t|]; [|done]. apply trie_lookup_length. Qed.

Lemma otrie_ext n o o' :
  otrie_wf n o -> otrie_wf n o' -> (forall k, otrie_lookup o k = otrie_lookup o' k) -> o = o'.
Proof.
  assert (forall t, trie_wf n t -> (forall k, None = trie_lookup t k) -> False) as Hne.
  { intros t Hwf Hall. destruct (trie_inhabited n t Hwf) as (k & v & Hk). by rewrite <- Hall in Hk. }
  destruct o as [t|], o' as [t'|]; cbn; intros Hwf Hwf' Hall; [|exfalso..|done].
  - f_equal. by apply (trie_ext n).
  - by eapply Hne.
  - by eapply Hne.
Qed.

Lemma otrie_insert_wf n o k v :
  otrie_wf n o -> length k = n -> v <> Felt_ZERO -> otrie_wf n (otrie_insert o k v).
Proof.
  intros Hwf Hk Hv. destruct o as [t|]; cbn; [by apply trie_insert_wf|].
  apply mk_edge_wf; [lia| |done]. cbn. split; [lia|done].
Qed.

Lemma otrie_lookup_insert n o k v k' :
  otrie_wf n o -> length k = n -> length k' = n ->
  otrie_lookup (otrie_insert o k v) k' = if decide (k = k') then Some v else otrie_lookup o k'.
Proof.
  intros Hwf Hk Hk'. destruct o as [t|]; cbn; [by apply (trie_lookup_insert n)|].
  apply edge_leaf_lookup. lia.
Qed.

Lemma otrie_delete_wf n o k : otrie_wf n o -> otrie_wf n (otrie_delete o k).
Proof. intros Hwf. destruct o as [t|]; [|done]. cbn. destruct (trie_lookup t k); [by apply trie_delete_wf|done]. Qed.

Lemma trie_rep_insert n o m k v :
  trie_rep n o m -> length k = n -> v <> Felt_ZERO -> trie_rep n (otrie_insert o k v) (<[k:=v]> m).
Proof.
  intros [Hwf Hm] Hk Hv. pose proof (otrie_insert_wf n o k v Hwf Hk Hv) as Hwf'. split; [done|].
  intros k'. rewrite lookup_insert. destruct (decide (length k' = n)) as [Hk'|Hk'].
  - rewrite (otrie_lookup_insert n) by done. by rewrite Hm.
  - rewrite decide_False by congruence. rewrite <- Hm.
    destruct (otrie_lookup (otrie_insert o k v) k') eqn:H1; [by apply (otrie_lookup_length n) in H1|].
    destruct (otrie_lookup o k') eqn:H2; [by apply (otrie_lookup_length n) in H2|done].
Qed.

Lemma trie_rep_delete n o m k :
  trie_rep n o m -> trie_rep n (otrie_delete o k) (delete k m).
Proof.
  intros [Hwf Hm]. pose proof (otrie_delete_wf n o k Hwf) as Hwf'. split; [done|].
  intros k'. rewrite lookup_delete, <- Hm. destruct o as [t|]; cbn in *; [|by case_decide].
  destruct (trie_lookup t k) as [v|] eqn:Hk.
  - destruct (decide (length k' = n)) as [Hk'|Hk']; [by eapply trie_lookup_delete|].
    rewrite decide_False by (intros <-; by apply (trie_lookup_length n) in Hk).
    destruct (otrie_lookup (trie_delete t k) k') eqn:H1; [by apply (otrie_lookup_length n) in H1|].
    destruct (trie_lookup t k') eqn:H2; [by apply (trie_lookup_length n) in H2|done].
  - cbn. case_decide; [by subst|done].
Qed.

Lemma trie_rep_unique n o o' m : trie_rep n o m -> trie_rep n o' m -> o = o'.
Proof. intros [Hwf Hm] [Hwf' Hm']. apply (otrie_ext n); [done..|]. intros k. by rewrite Hm, Hm'. Qed.

Lemma trie_rep_empty n : trie_rep n None ∅.
Proof. split; [done|]. intros k. by rewrite lookup_empty. Qed.

Lemma trie_rep_map_wf n o m : trie_rep n o m -> map_wf n m.
Proof.
  intros [Hwf Hm] k v Hk. rewrite <- Hm in Hk. destruct o as [t|]; [|done].
  split; [by eapply trie_lookup_length|by eapply trie_lookup_nonzero].
Qed.

Lemma trie_of_rep n m : map_wf n m -> trie_rep n (trie_of m) m.
Proof.
  apply (map_fold_weak_ind (fun o m => map_wf n m -> trie_rep n o m)).
  - intros _. apply trie_rep_empty.
  - intros k v m' r Hk IH [[Hlen Hv] Hwf]%map_Forall_insert; [|done].
    apply trie_rep_insert; [by apply IH|done|done].
Qed.

(** The root hash is a function of the map: whatever the operations that built
    the trie and their order. *)
Lemma trie_rep_root_hash n o m : trie_rep n o m -> otrie_hash o = map_root_hash m.
Proof.
  intros Hrep. unfold map_root_hash. f_equal.
  eapply trie_rep_unique; [done|]. by apply trie_of_rep, (trie_rep_map_wf n o).
Qed.
End Trie.
Arguments trie : clear implicits.
