(* ===== verification/Error.v ===== *)
(** * Errors

    Models [src/src/error.rs]: [BonsaiStorageError], its conversions and display (the
    message of a [String] payload is kept). *)
From S2P Require Import Prelude Path Database.
From stdpp Require Import pretty.

Inductive BonsaiStorageError (DatabaseError : Type) : Type :=
| Error_Trie (msg : string)
| Error_GoTo (msg : string)
| Error_Transaction (msg : string)
| Error_Merge (msg : string)
| Error_Database (value : DatabaseError)
| Error_NodeDecodeError (value : CodecError)
| Error_KeyLength (expected got : nat).
Arguments Error_Trie {_}.
Arguments Error_GoTo {_}.
Arguments Error_Transaction {_}.
Arguments Error_Merge {_}.
Arguments Error_Database {_}.
Arguments Error_NodeDecodeError {_}.
Arguments Error_KeyLength {_}.

(** The two [From] implementations behind [?]. *)
Definition from_DatabaseError {DE A} (m : outcome DE A) : outcome (BonsaiStorageError DE) A :=
  map_err Error_Database m.
Definition from_CodecError {DE A} (m : outcome CodecError A) : outcome (BonsaiStorageError DE) A :=
  map_err Error_NodeDecodeError m.

(** [impl Display]: the display of the two errors of other crates is given. *)
Section Display.
Context {DE : Type} (fmt_database : DE -> string) (fmt_codec : CodecError -> string).

Definition BonsaiStorageError_fmt (self : BonsaiStorageError DE) : string :=
  match self with
  | Error_Trie e => "Trie error: " +:+ e
  | Error_GoTo e => "GoTo error: " +:+ e
  | Error_Transaction e => "Transaction error: " +:+ e
  | Error_Merge e => "Merge error: " +:+ e
  | Error_Database e => "Database error: " +:+ fmt_database e
  | Error_NodeDecodeError e => "Node decode error: " +:+ fmt_codec e
  | Error_KeyLength expected got =>
      "Malformated key length: expected " +:+ pretty expected +:+ ", got " +:+ pretty got
  end.
End Display.
