(* ===== verification/Changes.v ===== *)
(** * Trie logs

    Models [src/src/changes.rs]: [Change], [ChangeBatch] (the changes of a
    commit, by key), their serialisation to trie-log entries and back, and
    [ChangeStore]. *)
From S2P Require Import Prelude Id Database External.

Record Change := mkChange {
  old_value : option ByteVec;
  new_value : option ByteVec;
}.
#[export] Instance Change_eq_dec : EqDecision Change.
Proof. solve_decision. Defined.

Definition Change_default : Change := mkChange None None.

Abbreviation ChangeBatch := (gmap TrieKey Change) (only parsing).

Definition KEY_SEPARATOR : Z := 0.
Definition NEW_VALUE : Z := 0.
Definition OLD_VALUE : Z := 1.

Definition ChangeBatch_insert_in_place (key : TrieKey) (change : Change) (self : ChangeBatch) : ChangeBatch :=
  match self !! key with
  | Some e =>
      let old := match e.(old_value) with None => change.(old_value) | Some o => Some o end in
      <[key := mkChange old change.(new_value)]> self
  | None => <[key := change]> self
  end.

Section Serialization.
Context {ID : Type} `{Id ID} `{HashMapIter}.

Definition key_old_value (id : ID) (key : TrieKey) : ByteVec :=
  to_bytes id ++ [KEY_SEPARATOR] ++ TrieKey_as_slice key ++ [TrieKey_u8 key] ++ [OLD_VALUE].

Definition key_new_value (id : ID) (key : TrieKey) : ByteVec :=
  to_bytes id ++ [KEY_SEPARATOR] ++ TrieKey_as_slice key ++ [TrieKey_u8 key] ++ [NEW_VALUE].

(** The body of [serialize]'s [flat_map]. *)
Definition Change_serialize (id : ID) (change_key : TrieKey) (change : Change) : list (ByteVec * ByteVec) :=
  match change.(old_value), change.(new_value) with
  | Some old_value, Some new_value =>
      if decide (old_value = new_value) then []
      else [(key_old_value id change_key, old_value); (key_new_value id change_key, new_value)]
  | Some old_value, None => [(key_old_value id change_key, old_value)]
  | None, Some new_value => [(key_new_value id change_key, new_value)]
  | None, None => []
  end.

Definition ChangeBatch_serialize (self : ChangeBatch) (id : ID) : list (ByteVec * ByteVec) :=
  hash_iter self ≫= fun '(change_key, change) => Change_serialize id change_key change.

(** The loop state of [deserialize]. *)
Record DeserializeState := mkDeserializeState {
  change_batch : gmap TrieKey Change;
  current_change : Change;
  last_key : option TrieKey;
}.

(** [key.pop()] twice, then [key[id.len() + 1..]]. *)
Definition split_log_key (id_len : nat) (key : ByteVec) : option (ByteVec * Z * Z) :=
  if decide (length key < id_len + 3) then None
  else
    change_type ← last key;
    let key := removelast key in
    key_type ← last key;
    let key := removelast key in
    Some (drop (id_len + 1) key, key_type, change_type).

Definition ChangeBatch_deserialize_entry {E} (id_len : nat) (st : DeserializeState)
    (entry : ByteVec * ByteVec) : outcome E DeserializeState :=
  let '(key, value) := entry in
  '(change_key_bytes, key_type, change_type) ← expect (split_log_key id_len key) "Invalid key format";
  change_key ← TrieKey_from_variant_and_bytes key_type change_key_bytes;
  let '(change_batch, current_change) :=
    match st.(last_key) with
    | Some last_key =>
        if decide (last_key = change_key) then (st.(change_batch), st.(current_change))
        else (ChangeBatch_insert_in_place last_key st.(current_change) st.(change_batch), Change_default)
    | None => (st.(change_batch), st.(current_change))
    end in
  current_change ←
    (if decide (change_type = NEW_VALUE) then Ok (mkChange current_change.(old_value) (Some value))
     else if decide (change_type = OLD_VALUE) then Ok (mkChange (Some value) current_change.(new_value))
     else Panic "Invalid change type");
  Ok (mkDeserializeState change_batch current_change (Some change_key)).

Fixpoint ChangeBatch_deserialize_loop {E} (id_len : nat) (changes : list (ByteVec * ByteVec))
    (st : DeserializeState) : outcome E DeserializeState :=
  match changes with
  | [] => Ok st
  | entry :: changes =>
      st ← ChangeBatch_deserialize_entry id_len st entry;
      ChangeBatch_deserialize_loop id_len changes st
  end.

Definition ChangeBatch_deserialize {E} (id : ID) (changes : list (ByteVec * ByteVec)) : outcome E ChangeBatch :=
  let id := to_bytes id in
  st ← ChangeBatch_deserialize_loop (length id) changes (mkDeserializeState ∅ Change_default None);
  match st.(last_key) with
  | Some last_key =>
      if bool_decide (is_Some st.(current_change).(new_value)) || bool_decide (is_Some st.(current_change).(old_value))
      then Ok (ChangeBatch_insert_in_place last_key st.(current_change) st.(change_batch))
      else Ok st.(change_batch)
  | None => Ok st.(change_batch)
  end.
End Serialization.

Record ChangeStore := mkChangeStore { current_changes : ChangeBatch }.
Definition ChangeStore_new : ChangeStore := mkChangeStore ∅.

(** ** The round trip *)
Section Roundtrip.
Context {ID : Type} `{Id ID} `{HashMapIter}.

(** What [serialize] keeps: the changes that change something. *)
Definition changing (kc : TrieKey * Change) : Prop := kc.2.(old_value) <> kc.2.(new_value).
#[export] Instance changing_dec kc : Decision (changing kc).
Proof. unfold changing. apply _. Defined.

Lemma split_log_key_eq (id : ID) key ty :
  split_log_key (length (to_bytes id)) (to_bytes id ++ [KEY_SEPARATOR] ++ TrieKey_as_slice key ++ [TrieKey_u8 key] ++ [ty]) =
  Some (TrieKey_as_slice key, TrieKey_u8 key, ty).
Proof.
  assert (forall (b : list Z) x y, split_log_key (length (to_bytes id)) (((to_bytes id ++ [KEY_SEPARATOR]) ++ b ++ [x]) ++ [y]) = Some (b, x, y)) as Hsplit.
  { intros b x y. unfold split_log_key. rewrite decide_False by (rewrite !length_app; cbn; lia).
    rewrite last_snoc, removelast_app, app_nil_r by done. cbn [mbind option_bind].
    rewrite app_assoc, last_snoc, removelast_app, app_nil_r by done. cbn [mbind option_bind].
    rewrite drop_app_ge by (rewrite length_app; cbn; lia). rewrite length_app. cbn [length].
    by rewrite Nat.sub_diag. }
  rewrite <- Hsplit. by rewrite <- !app_assoc.
Qed.

(** [insert_in_place] of what is pending. *)
Definition flush (st : DeserializeState) : gmap TrieKey Change :=
  match st.(last_key) with
  | Some k => ChangeBatch_insert_in_place k st.(current_change) st.(change_batch)
  | None => st.(change_batch)
  end.

Lemma deserialize_change {E} (id : ID) key ch st :
  changing (key, ch) -> st.(last_key) <> Some key ->
  (st.(last_key) = None -> st.(current_change) = Change_default) ->
  ChangeBatch_deserialize_loop (E := E) (length (to_bytes id)) (Change_serialize id key ch) st =
  Ok (mkDeserializeState (flush st) ch (Some key)).
Proof.
  intros Hch Hlast Hcur.
  assert (forall ty v (st : DeserializeState), st.(last_key) <> Some key ->
    (st.(last_key) = None -> st.(current_change) = Change_default) ->
    (ty = NEW_VALUE \/ ty = OLD_VALUE) ->
    ChangeBatch_deserialize_entry (E := E) (length (to_bytes id)) st
      (to_bytes id ++ [KEY_SEPARATOR] ++ TrieKey_as_slice key ++ [TrieKey_u8 key] ++ [ty], v) =
    Ok (mkDeserializeState (flush st)
      (if decide (ty = NEW_VALUE) then mkChange None (Some v) else mkChange (Some v) None) (Some key))) as Hfirst.
  { intros ty v st' Hl Hc Hty. unfold ChangeBatch_deserialize_entry. rewrite split_log_key_eq. cbn [expect mbind outcome_bind].
    rewrite TrieKey_from_variant_roundtrip. cbn [mbind outcome_bind]. unfold flush.
    destruct (last_key st') as [lk|].
    - rewrite decide_False by congruence. by destruct Hty as [-> | ->].
    - rewrite Hc by done. by destruct Hty as [-> | ->]. }
  destruct ch as [[o|] [n|]]; unfold changing in Hch; cbn in Hch; unfold Change_serialize; cbn [old_value new_value].
  - rewrite decide_False by congruence. cbn [ChangeBatch_deserialize_loop]. unfold key_old_value, key_new_value.
    rewrite (Hfirst OLD_VALUE) by auto. cbn [mbind outcome_bind].
    unfold ChangeBatch_deserialize_entry. rewrite split_log_key_eq. cbn [expect mbind outcome_bind].
    rewrite TrieKey_from_variant_roundtrip. cbn [mbind outcome_bind last_key]. by rewrite decide_True.
  - cbn [ChangeBatch_deserialize_loop]. unfold key_old_value. by rewrite (Hfirst OLD_VALUE) by auto.
  - cbn [ChangeBatch_deserialize_loop]. unfold key_new_value. by rewrite (Hfirst NEW_VALUE) by auto.
  - done.
Qed.

Lemma Change_serialize_trivial (id : ID) key ch : ~ changing (key, ch) -> Change_serialize id key ch = [].
Proof.
  intros Hch. apply dec_stable in Hch. cbn in Hch. destruct ch as [[o|] [n|]]; cbn in *; try done.
  unfold Change_serialize. cbn. rewrite decide_True; [done|]. congruence.
Qed.

Lemma deserialize_loop_app {E} n l1 l2 st :
  ChangeBatch_deserialize_loop (E := E) n (l1 ++ l2) st =
  st' ← ChangeBatch_deserialize_loop n l1 st; ChangeBatch_deserialize_loop n l2 st'.
Proof.
  revert st. induction l1 as [|e l1 IH]; intros st; [done|]. cbn.
  destruct (ChangeBatch_deserialize_entry n st e); cbn; [apply IH|done..].
Qed.

(** The pending change is one that [serialize] wrote. *)
Definition state_ok (st : DeserializeState) : Prop :=
  match st.(last_key) with
  | Some k => changing (k, st.(current_change))
  | None => st.(current_change) = Change_default /\ st.(change_batch) = ∅
  end.

Lemma insert_in_place_fresh k ch (b : gmap TrieKey Change) :
  b !! k = None -> ChangeBatch_insert_in_place k ch b = <[k := ch]> b.
Proof. intros Hk. unfold ChangeBatch_insert_in_place. by rewrite Hk. Qed.

Lemma deserialize_list {E} (id : ID) (l : list (TrieKey * Change)) st :
  NoDup l.*1 -> state_ok st ->
  (forall k, k ∈ l.*1 -> flush st !! k = None /\ st.(last_key) <> Some k) ->
  (forall k, st.(last_key) = Some k -> st.(change_batch) !! k = None) ->
  exists st', ChangeBatch_deserialize_loop (E := E) (length (to_bytes id))
      (l ≫= fun '(k, ch) => Change_serialize id k ch) st = Ok st' /\ state_ok st' /\
    flush st' = list_to_map (filter changing l) ∪ flush st.
Proof.
  revert st. induction l as [|[k ch] l IH]; intros st Hnd Hst Hfresh Hlast.
  - exists st. split; [done|]. split; [done|]. cbn. by rewrite map_empty_union.
  - cbn in Hnd. apply NoDup_cons in Hnd as [Hk Hnd]. cbn [mbind list_bind]. rewrite deserialize_loop_app.
    destruct (decide (changing (k, ch))) as [Hch|Hch].
    + rewrite deserialize_change; [|done|apply Hfresh; by left|].
      2:{ intros Hl. unfold state_ok in Hst. rewrite Hl in Hst. by destruct Hst. }
      cbn [mbind outcome_bind]. set (st1 := mkDeserializeState _ _ _).
      destruct (Hfresh k ltac:(by left)) as [Hfk _].
      assert (flush st1 = <[k := ch]> (flush st)) as Hf1 by (unfold flush at 1, st1; cbn; by apply insert_in_place_fresh).
      destruct (IH st1) as (st' & Hrun & Hst' & Hf); [done|done| | |].
      * intros k' Hk'. rewrite Hf1. destruct (Hfresh k' ltac:(by right)) as [Hfk' _].
        assert (k <> k') by (intros ->; done). split; [by rewrite lookup_insert_ne|]. cbn. congruence.
      * cbn. by intros k' [= <-].
      * exists st'. split; [exact Hrun|]. split; [done|]. rewrite Hf, Hf1, filter_cons_True by done. cbn.
        rewrite <- insert_union_l. symmetry. apply insert_union_r.
        apply not_elem_of_list_to_map_1. intros Hin. apply Hk.
        apply list_elem_of_fmap in Hin as (e & -> & He). apply list_elem_of_fmap. exists e.
        split; [done|]. by apply list_elem_of_filter in He as [_ ?].
    + rewrite Change_serialize_trivial by done. cbn [ChangeBatch_deserialize_loop mbind outcome_bind].
      rewrite filter_cons_False by done. apply IH; [done|done| |done].
      intros k' Hk'. apply Hfresh. by right.
Qed.

(** C30 Writing the changes of a commit to the trie log and reading the entries
    back in the order they were written restores the changes, less those that
    change nothing. *)
Theorem ChangeBatch_deserialize_serialize {E} (id : ID) (b : gmap TrieKey Change) :
  ChangeBatch_deserialize (E := E) id (ChangeBatch_serialize b id) = Ok (filter (fun kc => kc.2.(old_value) <> kc.2.(new_value)) b).
Proof.
  unfold ChangeBatch_deserialize, ChangeBatch_serialize.
  assert (NoDup (hash_iter b).*1) as Hnd by (rewrite hash_iter_perm; apply NoDup_fst_map_to_list).
  destruct (deserialize_list (E := E) id (hash_iter b) (mkDeserializeState ∅ Change_default None)) as (st & Hrun & Hst & Hf).
  { done. } { by split. } { intros k _. split; [apply lookup_empty|done]. } { done. }
  rewrite Hrun. cbn [mbind outcome_bind].
  assert (flush st = filter changing b) as Hflush.
  { rewrite Hf. cbn [flush last_key change_batch]. rewrite map_union_empty. apply map_eq. intros k.
    assert (NoDup (filter changing (hash_iter b)).*1) as Hndf.
    { eapply sublist_NoDup; [exact Hnd|apply fmap_sublist, sublist_filter]. }
    apply option_eq. intros ch. rewrite <- (elem_of_list_to_map _ _ _ Hndf), list_elem_of_filter, hash_iter_perm,
      elem_of_map_to_list, map_lookup_filter_Some. tauto. }
  change (filter _ b) with (filter changing b). rewrite <- Hflush. unfold state_ok, flush in *. destruct (last_key st) as [lk|].
  - destruct (current_change st) as [[o|] [n|]]; done.
  - done.
Qed.
End Roundtrip.
