(* ===== verification/Logs.v ===== *)
(** * What a trie log says

    A batch of changes [recorded] between two states of a database tells how to
    undo them ([undo]). The log it is written as says as much in whatever order
    its entries come back ([ChangeBatch_deserialize_any_order]): a database is
    free to return the entries of a prefix in any order, and reverting a change
    uses its old value alone. *)
From S2P Require Import Prelude Id Database External Changes.

Section Logs.
Context {ID : Type} `{Id ID} `{HashMapIter}.
Implicit Types (d : TrieKey -> option ByteVec) (b : gmap TrieKey Change) (st : DeserializeState).

(** ** Undoing a batch *)

Definition undo b d (key : TrieKey) : option ByteVec :=
  match b !! key with Some ch => ch.(old_value) | None => d key end.

Lemma undo_ext b d d' : (forall key, d key = d' key) -> forall key, undo b d key = undo b d' key.
Proof. intros Hd key. unfold undo. by rewrite Hd. Qed.

(** [b] holds the changes that lead from [d0] to [d]. *)
Definition recorded b d0 d : Prop :=
  forall key, match b !! key with
    | Some ch => ch.(old_value) = d0 key /\ ch.(new_value) = d key
    | None => d key = d0 key
    end.

Lemma recorded_refl d : recorded ∅ d d.
Proof. intros key. by rewrite lookup_empty. Qed.

Lemma recorded_ext b d0 d d' : (forall key, d' key = d key) -> recorded b d0 d -> recorded b d0 d'.
Proof. intros Hd Hb key. rewrite Hd. apply Hb. Qed.

(** Recording one more change, of a key that was not created in between. *)
Lemma recorded_insert b d0 d d' key old new :
  recorded b d0 d -> (d0 key = None -> d key = None) -> (d key = d0 key -> old = d0 key) ->
  (forall key', d' key' = if decide (key = key') then new else d key') ->
  recorded (ChangeBatch_insert_in_place key (mkChange old new) b) d0 d'.
Proof.
  intros Hb Hnew Hold Hd key'. rewrite Hd. specialize (Hb key') as Hk. unfold ChangeBatch_insert_in_place.
  case_decide as Heq.
  - subst key'. destruct (b !! key) as [ch|]; rewrite lookup_insert_eq; cbn.
    + destruct Hk as [-> _]. split; [|done]. destruct (d0 key); [done|]. cbn. apply Hold, Hnew. done.
    + split; [by apply Hold|done].
  - destruct (b !! key); by rewrite lookup_insert_ne.
Qed.

(** Undoing what changed something, from any state: the keys the changes lead
    to another value of get the value before. *)
Lemma recorded_undo_changed b d0 d1 d key :
  recorded b d0 d1 -> undo (filter changing b) d key = if decide (d0 key = d1 key) then d key else d0 key.
Proof.
  intros Hb. specialize (Hb key). unfold undo. destruct (b !! key) as [ch|] eqn:Hk.
  - destruct Hb as [Ho Hn]. destruct (filter changing b !! key) as [ch'|] eqn:Hf.
    + apply map_lookup_filter_Some in Hf as [Hf Hc]. unfold changing in Hc. cbn in Hc. rewrite decide_False; congruence.
    + apply map_lookup_filter_None in Hf as [Hf|Hf]; [congruence|].
      specialize (Hf ch Hk). apply dec_stable in Hf. cbn in Hf. rewrite decide_True; congruence.
  - rewrite map_lookup_filter_None_2 by (by left). by rewrite decide_True.
Qed.

Lemma recorded_undo b d0 d key : recorded b d0 d -> undo (filter changing b) d key = d0 key.
Proof. intros Hb. rewrite (recorded_undo_changed b d0 d) by done. by case_decide. Qed.

(** ** Reading a log in any order *)

(** A parsed entry: the key, the kind of value, the value. *)
Abbreviation log_item := (TrieKey * Z * ByteVec)%type.
Implicit Types (es : list log_item).

Definition log_key (id : ID) (key : TrieKey) (ty : Z) : ByteVec :=
  to_bytes id ++ [KEY_SEPARATOR] ++ TrieKey_as_slice key ++ [TrieKey_u8 key] ++ [ty].
Definition item_entry (id : ID) (e : log_item) : ByteVec * ByteVec :=
  let '(key, ty, v) := e in (log_key id key ty, v).

Definition change_items (kc : TrieKey * Change) : list log_item :=
  if decide (changing kc) then
    ((fun v => (kc.1, OLD_VALUE, v)) <$> option_list kc.2.(old_value)) ++
    ((fun v => (kc.1, NEW_VALUE, v)) <$> option_list kc.2.(new_value))
  else [].
Definition batch_items b : list log_item := hash_iter b ≫= change_items.

Lemma Change_serialize_items (id : ID) kc :
  Change_serialize id kc.1 kc.2 = item_entry id <$> change_items kc.
Proof.
  destruct kc as [key [[o|] [n|]]]; unfold Change_serialize, change_items, changing; cbn; repeat case_decide; naive_solver congruence.
Qed.

Lemma ChangeBatch_serialize_items (id : ID) b : ChangeBatch_serialize b id = item_entry id <$> batch_items b.
Proof.
  unfold ChangeBatch_serialize, batch_items. induction (hash_iter b) as [|[key ch] l IH]; [done|].
  cbn [mbind list_bind]. rewrite fmap_app. f_equal; [apply (Change_serialize_items id (key, ch))|exact IH].
Qed.

Lemma batch_items_elem b key ty v :
  (key, ty, v) ∈ batch_items b <->
  exists ch, b !! key = Some ch /\ changing (key, ch) /\
    ((ty = OLD_VALUE /\ ch.(old_value) = Some v) \/ (ty = NEW_VALUE /\ ch.(new_value) = Some v)).
Proof.
  unfold batch_items. rewrite list_elem_of_bind. split.
  - intros ([key' ch] & Hin & Hb). rewrite hash_iter_perm, elem_of_map_to_list in Hb.
    unfold change_items in Hin. case_decide as Hch; [|by apply elem_of_nil in Hin].
    apply elem_of_app in Hin as [Hin|Hin]; apply list_elem_of_fmap in Hin as (w & [= -> -> ->] & Hw);
      apply elem_of_option_list in Hw; exists ch; cbn in *; auto 6.
  - intros (ch & Hb & Hch & Hty). exists (key, ch). rewrite hash_iter_perm, elem_of_map_to_list. split; [|done].
    unfold change_items. rewrite decide_True by done. apply elem_of_app.
    destruct Hty as [[-> Hv]|[-> Hv]]; [left|right]; apply list_elem_of_fmap; exists v; cbn;
      (split; [done|]); by apply elem_of_option_list.
Qed.

(** One step of the loop, on an entry of the log. *)
Definition item_step st (e : log_item) : DeserializeState :=
  let '(key, ty, v) := e in
  let '(batch, cur) :=
    match st.(last_key) with
    | Some lk => if decide (lk = key) then (st.(change_batch), st.(current_change)) else (flush st, Change_default)
    | None => (st.(change_batch), st.(current_change))
    end in
  mkDeserializeState batch
    (if decide (ty = NEW_VALUE) then mkChange cur.(old_value) (Some v) else mkChange (Some v) cur.(new_value)) (Some key).

Definition item_ok (e : log_item) : Prop := e.1.2 = OLD_VALUE \/ e.1.2 = NEW_VALUE.

Lemma deserialize_item {E} (id : ID) st e :
  item_ok e -> ChangeBatch_deserialize_entry (E := E) (length (to_bytes id)) st (item_entry id e) = Ok (item_step st e).
Proof.
  destruct e as [[key ty] v]. unfold item_ok. cbn [fst snd]. intros Hty. unfold ChangeBatch_deserialize_entry, item_entry, log_key, item_step.
  rewrite split_log_key_eq. cbn [expect mbind outcome_bind].
  rewrite TrieKey_from_variant_roundtrip. cbn [mbind outcome_bind]. unfold flush.
  destruct (last_key st) as [lk|]; [case_decide|]; by destruct Hty as [-> | ->].
Qed.

Lemma deserialize_items {E} (id : ID) es st :
  Forall item_ok es ->
  ChangeBatch_deserialize_loop (E := E) (length (to_bytes id)) (item_entry id <$> es) st = Ok (fold_left item_step es st).
Proof.
  revert st. induction es as [|e es IH]; intros st Hes; [done|]. apply Forall_cons in Hes as [He Hes].
  cbn [fmap list_fmap ChangeBatch_deserialize_loop fold_left]. rewrite deserialize_item by done. by apply IH.
Qed.

Lemma insert_in_place_lookup key ch b key' :
  ChangeBatch_insert_in_place key ch b !! key' =
  if decide (key = key') then
    Some (mkChange (match b !! key ≫= old_value with Some o => Some o | None => ch.(old_value) end) ch.(new_value))
  else b !! key'.
Proof.
  unfold ChangeBatch_insert_in_place. case_decide as Hk.
  - subst. destruct (b !! key') as [e|]; rewrite lookup_insert_eq; [done|]. by destruct ch.
  - destruct (b !! key); by rewrite lookup_insert_ne.
Qed.

(** What the loop knows after the entries [es]. *)
Record read_inv st es : Prop := {
  ri_pending : match st.(last_key) with
    | Some _ => st.(current_change).(old_value) = None -> is_Some st.(current_change).(new_value)
    | None => st.(current_change) = Change_default
    end;
  ri_key : forall key, is_Some (flush st !! key) <-> exists ty v, (key, ty, v) ∈ es;
  ri_old : forall key v, (flush st !! key ≫= old_value) = Some v <-> (key, OLD_VALUE, v) ∈ es;
  ri_new : forall key ch, flush st !! key = Some ch -> ch.(old_value) = None -> is_Some ch.(new_value);
}.

Definition old_functional es : Prop :=
  forall key v v', (key, OLD_VALUE, v) ∈ es -> (key, OLD_VALUE, v') ∈ es -> v = v'.

Lemma flush_item_step_other st key ty v key' :
  key <> key' -> flush (item_step st (key, ty, v)) !! key' = flush st !! key'.
Proof.
  intros Hne. unfold flush, item_step. destruct (last_key st) as [lk|] eqn:Hl; [case_decide as Hlk|];
    cbn [last_key current_change change_batch]; unfold flush; rewrite ?Hl, !insert_in_place_lookup, ?Hlk;
    by rewrite ?(decide_False (P := key = key')).
Qed.

(** What an entry says of its key: an old value seen before stays. *)
Lemma flush_item_step_key st key ty v :
  item_ok (key, ty, v) -> (st.(last_key) = None -> st.(current_change) = Change_default) ->
  exists ch, flush (item_step st (key, ty, v)) !! key = Some ch /\
    (ty = NEW_VALUE -> ch.(new_value) = Some v /\ ch.(old_value) = flush st !! key ≫= old_value) /\
    (ty = OLD_VALUE -> ch.(old_value) = Some v \/ (ch.(old_value) = flush st !! key ≫= old_value /\ is_Some ch.(old_value))).
Proof.
  intros Hty Hnone.
  assert (forall bo : option ByteVec, match bo with Some o => Some o | None => Some v end = Some v \/
    (match bo with Some o => Some o | None => Some v end = bo /\ is_Some (match bo with Some o => Some o | None => Some v end))) as Hkeep
    by (intros []; eauto).
  assert (OLD_VALUE <> NEW_VALUE) by done.
  unfold flush at 1, item_step. destruct (last_key st) as [lk|] eqn:Hl; [case_decide as Hlk|];
    cbn [last_key current_change change_batch]; rewrite insert_in_place_lookup, decide_True by done; eexists; (split; [reflexivity|]);
    (split; [intros Hv; rewrite (decide_True (P := ty = NEW_VALUE)) by done|intros Hv; rewrite (decide_False (P := ty = NEW_VALUE)) by congruence]);
    cbn [old_value new_value Change_default].
  - split; [done|]. subst lk. unfold flush. by rewrite Hl, insert_in_place_lookup, decide_True by done.
  - subst lk. unfold flush. rewrite Hl, insert_in_place_lookup, decide_True by done. cbn [mbind option_bind old_value].
    destruct (change_batch st !! key) as [[[]]|]; cbn; eauto.
  - split; [done|]. by destruct (flush st !! key) as [[[]]|].
  - apply Hkeep.
  - split; [done|]. rewrite Hnone by done. unfold flush. rewrite Hl. by destruct (change_batch st !! key) as [[[]]|].
  - unfold flush. rewrite Hl. apply Hkeep.
Qed.

Lemma read_inv_step st es key ty v :
  read_inv st es -> item_ok (key, ty, v) -> old_functional (es ++ [(key, ty, v)]) ->
  read_inv (item_step st (key, ty, v)) (es ++ [(key, ty, v)]).
Proof.
  intros [Hp Hk Ho Hn] Hty Hf.
  assert (last_key st = None -> current_change st = Change_default) as Hnone by (by intros Hl; rewrite Hl in Hp).
  destruct (flush_item_step_key st key ty v Hty Hnone) as (ch & Hch & HN & HO).
  assert (forall w, ch.(old_value) = Some w <-> (key, OLD_VALUE, w) ∈ es ++ [(key, ty, v)]) as Hold.
  { intros w. rewrite elem_of_app, list_elem_of_singleton, <- Ho. destruct Hty as [Hv|Hv]; cbn in Hv; subst ty.
    - destruct (HO eq_refl) as [-> |[-> [u Hu]]].
      + split; [intros [= ->]; by right|]. intros [Hw%Ho|[= ->]]; [|done]. f_equal.
        apply (Hf key); apply elem_of_app; [right; by left|by left].
      + split; [by left|]. intros [Hw|[= ->]]; [done|]. rewrite Hu. f_equal.
        apply (Hf key); apply elem_of_app; [left; by apply Ho|right; by left].
    - destruct (HN eq_refl) as [_ ->]. split; [by left|]. by intros [?|[=]]. }
  split.
  - unfold item_step. destruct (match last_key st with Some _ => _ | None => _ end) as [b cur]. cbn [last_key current_change].
    case_decide; [by eexists|done].
  - intros key'. destruct (decide (key = key')) as [<-|Hne].
    + rewrite Hch. split; [|by eexists]. intros _. exists ty, v. apply elem_of_app. right. by left.
    + rewrite flush_item_step_other, Hk by done. setoid_rewrite elem_of_app. setoid_rewrite list_elem_of_singleton. naive_solver.
  - intros key' w. destruct (decide (key = key')) as [<-|Hne].
    + rewrite Hch. apply Hold.
    + rewrite flush_item_step_other, Ho, elem_of_app, list_elem_of_singleton by done. naive_solver.
  - intros key' ch'. destruct (decide (key = key')) as [<-|Hne].
    + rewrite Hch. intros [= <-] Hn'. destruct Hty as [Hv|Hv]; cbn in Hv; subst ty.
      * destruct (HO eq_refl) as [HS|[_ [? HS]]]; congruence.
      * destruct (HN eq_refl) as [-> _]. by eexists.
    + rewrite flush_item_step_other by done. apply Hn.
Qed.

Lemma read_inv_items es :
  Forall item_ok es -> old_functional es -> read_inv (fold_left item_step es (mkDeserializeState ∅ Change_default None)) es.
Proof.
  induction es as [|[[key ty] v] es IH] using rev_ind; intros Hes Hf.
  - split; cbn; [done|..]; setoid_rewrite lookup_empty; [..|done].
    + intros key. split; [by intros []|]. by intros (? & ? & ?%elem_of_nil).
    + intros key v. split; [done|]. by intros ?%elem_of_nil.
  - apply Forall_app in Hes as [Hes He]. rewrite fold_left_app. apply read_inv_step; [|by apply Forall_singleton|done].
    apply IH; [done|]. intros k v1 v2 Hv1 Hv2. apply (Hf k); apply elem_of_app; by left.
Qed.

Lemma batch_items_ok b : Forall item_ok (batch_items b) /\ old_functional (batch_items b).
Proof.
  split.
  - apply Forall_forall. intros [[key ty] v] (ch & _ & _ & Hty)%batch_items_elem. unfold item_ok. cbn. tauto.
  - intros key v v' (ch & Hb & _ & [[_ Hv]|[? _]])%batch_items_elem (ch' & Hb' & _ & [[_ Hv']|[? _]])%batch_items_elem; try done. congruence.
Qed.

(** Reading the entries in any order. *)
Lemma ChangeBatch_deserialize_log {E} (id : ID) b l :
  l ≡ₚ ChangeBatch_serialize b id ->
  exists b', ChangeBatch_deserialize (E := E) id l = Ok b' /\
    (forall key, old_value <$> b' !! key = old_value <$> filter changing b !! key) /\
    map_Forall (fun _ ch => ch <> Change_default) b'.
Proof.
  rewrite ChangeBatch_serialize_items. intros (es & -> & Hes)%Permutation_map_inv.
  destruct (batch_items_ok b) as [Hok Hf]. rewrite Hes in Hok.
  assert (old_functional es) as Hf' by (intros k v v'; rewrite <- Hes; apply Hf).
  pose proof (read_inv_items es Hok Hf') as [Hp Hk Ho Hn].
  set (st := fold_left item_step es _) in *. exists (flush st).
  unfold ChangeBatch_deserialize. rewrite deserialize_items by done. fold st. cbn [mbind outcome_bind]. split_and!.
  - unfold flush. destruct (last_key st) as [lk|]; [|done].
    destruct (current_change st) as [[o|] [n|]]; cbn in *; try done. by destruct Hp.
  - intros key. setoid_rewrite <- Hes in Hk. setoid_rewrite <- Hes in Ho. specialize (Hk key). specialize (Ho key).
    setoid_rewrite batch_items_elem in Hk. setoid_rewrite batch_items_elem in Ho.
    destruct (filter changing b !! key) as [ch|] eqn:Hfl.
    + apply map_lookup_filter_Some in Hfl as [Hb Hch].
      destruct (flush st !! key) as [ch'|]; cbn in *.
      * f_equal. apply option_eq. intros v. rewrite Ho. split; [|eauto 6]. intros (ch0 & Hb0 & _ & [[_ Hv]|[? _]]); [congruence|done].
      * destruct Hk as [_ Hk]. unfold changing in Hch. cbn in Hch.
        destruct ch as [[o|] [n|]]; [| | |done]; destruct Hk as [? [=]]; eauto 10.
    + destruct (flush st !! key) as [ch'|]; [|done]. destruct Hk as [(? & ? & ch & Hb & Hch & _) _]; [done|].
      apply map_lookup_filter_None in Hfl as [?|Hfl]; [congruence|]. by destruct (Hfl ch Hb).
  - intros key ch Hch ->. by destruct (Hn _ _ Hch).
Qed.

(** C31 A trie log can be undone from its entries in whatever order they come
    back: reading any permutation of the entries a batch of changes is written
    as succeeds, and the batch read back has a change, with the old value of the
    key, for exactly the keys the batch changes, and none of its changes is empty. *)
Theorem ChangeBatch_deserialize_any_order {E} (id : ID) b l :
  l ≡ₚ ChangeBatch_serialize b id ->
  exists b', ChangeBatch_deserialize (E := E) id l = Ok b' /\
    (forall key, old_value <$> b' !! key = old_value <$> filter changing b !! key) /\
    map_Forall (fun _ ch => ch <> Change_default) b'.
Proof. apply ChangeBatch_deserialize_log. Qed.
End Logs.
