(* ===== verification/KeyValueDb.v ===== *)
(** * The key-value layer

    Models [src/src/key_value_db.rs]: [KeyValueDB] wraps a [BonsaiDatabase] and
    records the changes of the current commit for the trie log. *)
From S2P Require Import Prelude Id Path Database Error External Changes.

Record KeyValueDBConfig := mkKeyValueDBConfig {
  max_saved_trie_logs : option Z;
  max_saved_snapshots : option Z;
  snapshot_interval : Z;
}.
Definition KeyValueDBConfig_default : KeyValueDBConfig := mkKeyValueDBConfig None None 5.

(** [BonsaiStorageConfig] of [lib.rs] and the conversions between the two. *)
Record BonsaiStorageConfig := mkBonsaiStorageConfig {
  cfg_max_saved_trie_logs : option Z;
  cfg_max_saved_snapshots : option Z;
  cfg_snapshot_interval : Z;
}.
Definition BonsaiStorageConfig_default : BonsaiStorageConfig :=
  mkBonsaiStorageConfig (Some 500%Z) (Some 100%Z) 5.
Definition KeyValueDBConfig_from (value : BonsaiStorageConfig) : KeyValueDBConfig :=
  mkKeyValueDBConfig value.(cfg_max_saved_trie_logs) value.(cfg_max_saved_snapshots)
    value.(cfg_snapshot_interval).
Definition BonsaiStorageConfig_from (val : KeyValueDBConfig) : BonsaiStorageConfig :=
  mkBonsaiStorageConfig val.(max_saved_trie_logs) val.(max_saved_snapshots) val.(snapshot_interval).

Record KeyValueDB (DB ID : Type) := mkKeyValueDB {
  db : DB;
  changes_store : ChangeStore;
  config : KeyValueDBConfig;
  created_at : option ID;
}.
Arguments mkKeyValueDB {DB ID}.
Arguments db {DB ID}.
Arguments changes_store {DB ID}.
Arguments config {DB ID}.
Arguments created_at {DB ID}.

Section KeyValueDB.
Context {DB ID : Type} `{BonsaiDatabase DB} `{Id ID} `{HashMapIter}.
Abbreviation KeyValueDB := (KeyValueDB DB ID).
Abbreviation error := (BonsaiStorageError (DatabaseError DB)).
Implicit Types self : KeyValueDB.

Definition set_db (db' : DB) self : KeyValueDB :=
  mkKeyValueDB db' self.(changes_store) self.(config) self.(created_at).
Definition set_changes (c : gmap TrieKey Change) self : KeyValueDB :=
  mkKeyValueDB self.(db) (mkChangeStore c) self.(config) self.(created_at).

Definition KeyValueDB_new (underline_db : DB) (config : KeyValueDBConfig) (created_at : option ID) : KeyValueDB :=
  mkKeyValueDB underline_db ChangeStore_new config created_at.

(** [get_changes], [get_at] and [get_latest_id] are [todo!()]. *)
Definition KeyValueDB_get_changes self (id : ID) : outcome error (gmap BitVec Change) :=
  Panic "not yet implemented".
Definition KeyValueDB_get_at self (key : TrieKey) (id : ID) : outcome error (option ByteVec) :=
  Panic "not yet implemented".
Definition KeyValueDB_get_latest_id self : outcome error (option ID) :=
  Panic "not yet implemented".

Definition KeyValueDB_create_batch self : Batch DB := db_create_batch self.(db).
Definition KeyValueDB_get_config self : KeyValueDBConfig := self.(config).

Definition KeyValueDB_get self (key : TrieKey) : outcome error (option ByteVec) :=
  from_DatabaseError (db_get self.(db) (DatabaseKey_from key)).

Definition KeyValueDB_contains self (key : TrieKey) : outcome error bool :=
  from_DatabaseError (db_contains self.(db) (DatabaseKey_from key)).

(** Methods given [Some(&mut batch)] mutate the batch as well. *)
Definition KeyValueDB_insert (key : TrieKey) (value : ByteVec) : action (KeyValueDB * Batch DB) error unit :=
  fun '(self, batch) =>
  let '((db', batch'), r) := db_insert self.(db) (DatabaseKey_from key) value (Some batch) in
  let batch' := default batch batch' in
  let self := set_db db' self in
  (old_value ← lift (from_DatabaseError r);
   modify (fun '(self, batch) =>
     (set_changes (ChangeBatch_insert_in_place key (mkChange old_value (Some value))
        self.(changes_store).(current_changes)) self, batch))) (self, batch').

Definition KeyValueDB_remove (key : TrieKey) : action (KeyValueDB * Batch DB) error unit :=
  fun '(self, batch) =>
  let '((db', batch'), r) := db_remove self.(db) (DatabaseKey_from key) (Some batch) in
  let batch' := default batch batch' in
  let self := set_db db' self in
  (old_value ← lift (from_DatabaseError r);
   modify (fun '(self, batch) =>
     (set_changes (ChangeBatch_insert_in_place key (mkChange old_value None)
        self.(changes_store).(current_changes)) self, batch))) (self, batch').

Definition KeyValueDB_write_batch (batch : Batch DB) : action KeyValueDB error unit :=
  fun self => let '(db', r) := db_write_batch self.(db) batch in
    (set_db db' self, from_DatabaseError r).

Definition KeyValueDB_remove_by_prefix (prefix : DatabaseKey) : action KeyValueDB error unit :=
  fun self => let '(db', r) := db_remove_by_prefix self.(db) prefix in
    (set_db db' self, from_DatabaseError r).

(** One trie-log entry written by [commit]; the old value is dropped. *)
Definition KeyValueDB_insert_log (entry : ByteVec * ByteVec) : action (KeyValueDB * Batch DB) error unit :=
  fun '(self, batch) =>
  let '((db', batch'), r) := db_insert self.(db) (DatabaseKey_TrieLog entry.1) entry.2 (Some batch) in
  ((set_db db' self, default batch batch'), from_DatabaseError (r ≫= fun _ => Ok tt)).

(** The identifier whose trie log [commit] discards. *)
Definition expired_log (self_config : KeyValueDBConfig) (id : ID) : option Z :=
  self_config.(max_saved_trie_logs) ≫= fun max_saved_trie_logs =>
    checked_sub (id_as_u64 id) (as_u64 max_saved_trie_logs).

Definition KeyValueDB_commit (id : ID) : action KeyValueDB error unit :=
  batch ← gets KeyValueDB_create_batch;
  current_changes ← gets (fun self => self.(changes_store).(current_changes));
  _ ← modify (set_changes ∅);
  cfg ← gets config;
  if decide (cfg.(max_saved_trie_logs) <> Some 0%Z) then
    batch ← (fun self =>
      let '((self, batch), r) :=
        for_each (ChangeBatch_serialize current_changes id) KeyValueDB_insert_log (self, batch) in
      (self, r ≫= fun _ => Ok batch));
    _ ← KeyValueDB_write_batch batch;
    match expired_log cfg id with
    | Some id => KeyValueDB_remove_by_prefix (DatabaseKey_TrieLog (to_bytes (from_u64 (ID := ID) id)))
    | None => mret tt
    end
  else mret tt.
End KeyValueDB.

Section Persistent.
Context {DB ID : Type} `{BonsaiDatabase DB} `{Id ID} `{HashMapIter} `{!BonsaiPersistentDatabase DB ID}.
Abbreviation error := (BonsaiStorageError (DatabaseError DB)).
Abbreviation Txn := (Transaction DB ID).
Abbreviation txn_error := (BonsaiStorageError (DatabaseError Txn)).
Implicit Types self : KeyValueDB DB ID.

(** The remainder by a zero interval panics. *)
Definition KeyValueDB_create_snapshot (id : ID) : action (KeyValueDB DB ID) error unit := fun self =>
  if decide (self.(config).(snapshot_interval) = 0%Z)
  then (self, Panic "attempt to calculate the remainder with a divisor of zero")
  else if decide (id_as_u64 id `mod` self.(config).(snapshot_interval) = 0)%Z
  then (set_db (db_snapshot self.(db) id) self, Ok tt)
  else (self, Ok tt).

(** The inverse of one change, applied to the transaction. *)
Definition revert_change (kc : TrieKey * Change) : action (Txn * Batch Txn) txn_error unit :=
  fun '(txn, batch) =>
  let key := DatabaseKey_from kc.1 in
  let run (r : (Txn * option (Batch Txn)) * outcome (DatabaseError Txn) (option ByteVec)) :=
    let '((txn', batch'), r) := r in
    ((txn', default batch batch'), from_DatabaseError (r ≫= fun _ => Ok tt)) in
  match kc.2.(old_value), kc.2.(new_value) with
  | Some old_value, Some _ => run (db_insert txn key old_value (Some batch))
  | Some old_value, None => run (db_insert txn key old_value (Some batch))
  | None, Some _ => run (db_remove txn key (Some batch))
  | None, None => ((txn, batch), Panic "internal error: entered unreachable code")
  end.

Definition revert_log self (cur_id : Z) : action (Txn * Batch Txn) txn_error unit :=
  let cur_id : ID := from_u64 cur_id in
  log ← lift (map_err (fun _ => Error_Transaction ("database is missing trie logs for " +:+ id_debug cur_id))
    (db_get_by_prefix self.(db) (DatabaseKey_TrieLog (to_bytes cur_id))));
  changes ← lift (ChangeBatch_deserialize cur_id log);
  for_each (hash_iter changes) revert_change.

Definition KeyValueDB_get_transaction self (id : ID) : outcome txn_error (option Txn) :=
  found ← no_err (db_transaction self.(db) id);
  match found with
  | None => Ok None
  | Some (snap_id, txn) =>
      let batch := db_create_batch txn in
      let ids := seqZ (id_as_u64 snap_id) (id_as_u64 id - id_as_u64 snap_id) in
      let '((txn, batch), r) := for_each ids (revert_log self) (txn, batch) in
      _ ← r;
      let '(txn, r) := db_write_batch txn batch in
      _ ← from_DatabaseError r;
      Ok (Some txn)
  end.

Definition KeyValueDB_merge (transaction : KeyValueDB Txn ID) : action (KeyValueDB DB ID) error unit :=
  panic "not yet implemented: unused yet".
End Persistent.
