(* ===== verification/Tree.v ===== *)
(** * The Merkle tree: state, node loading, hashing, commit

    Models the part of [src/src/trie/tree.rs] the iterator builds on: the
    [MerkleTree] state, loading of nodes from the database, hashing, and the
    collection of updates ([get_updates], [compute_hashes], [commit_subtree]).
    [Update.v] holds [set] and [delete_leaf]. *)
From S2P Require Import Prelude Path Id Database Error External MerkleNode Changes KeyValueDb.

(** The handles of the trie and the pending change of a leaf. *)
Inductive RootHandle (K : Type) : Type :=
| RootHandle_Empty
| RootHandle_Loaded (node_key : K).
Arguments RootHandle_Empty {K}.
Arguments RootHandle_Loaded {K}.

Inductive InsertOrRemove (T : Type) : Type :=
| Insert (value : T)
| Remove.
Arguments Insert {T}.
Arguments Remove {T}.

Inductive NodeOrFelt (F K : Type) : Type :=
| NodeOrFelt_Node (node : Node F K)
| NodeOrFelt_Felt (felt : F).
Arguments NodeOrFelt_Node {F K}.
Arguments NodeOrFelt_Felt {F K}.

(** [struct MerkleTree<H>]. [root_node = None]: not loaded yet. *)
Record MerkleTree (F K : Type) (M : Type -> Type) := mkMerkleTree {
  root_node : option (RootHandle K);
  nodes : M (Node F K);
  identifier : ByteVec;
  death_row : gset TrieKey;
  cache_leaf_modified : gmap ByteVec (InsertOrRemove F);
  max_height : nat;
}.
Arguments mkMerkleTree {F K M}.
Arguments root_node {F K M}.
Arguments nodes {F K M}.
Arguments identifier {F K M}.
Arguments death_row {F K M}.
Arguments cache_leaf_modified {F K M}.
Arguments max_height {F K M}.

Section Tree.
Context {F K : Type} {M : Type -> Type} {DB ID : Type}.
Context `{StarkFelt F, !StarkHash F, SlotMap K M, !NodeCodec F K, BonsaiDatabase DB, Id ID}.
Abbreviation MerkleTree := (MerkleTree F K M).
Abbreviation Node := (Node F K).
Abbreviation NodeHandle := (NodeHandle F K).
Abbreviation KeyValueDB := (KeyValueDB DB ID).
Abbreviation error := (BonsaiStorageError (DatabaseError DB)).
Implicit Types self : MerkleTree.

Definition set_root_node (r : option (RootHandle K)) self : MerkleTree :=
  mkMerkleTree r self.(nodes) self.(identifier) self.(death_row) self.(cache_leaf_modified) self.(max_height).
Definition set_nodes (n : M Node) self : MerkleTree :=
  mkMerkleTree self.(root_node) n self.(identifier) self.(death_row) self.(cache_leaf_modified) self.(max_height).
Definition set_death_row (d : gset TrieKey) self : MerkleTree :=
  mkMerkleTree self.(root_node) self.(nodes) self.(identifier) d self.(cache_leaf_modified) self.(max_height).
Definition set_cache_leaf_modified (c : gmap ByteVec (InsertOrRemove F)) self : MerkleTree :=
  mkMerkleTree self.(root_node) self.(nodes) self.(identifier) self.(death_row) c self.(max_height).

(** [self.nodes.insert(node)], [self.nodes.remove(k)], [self.nodes[k] = node]
    (which panics on a dangling key), [self.death_row.insert(key)] and
    [self.cache_leaf_modified.insert(key, v)]. *)
Definition nodes_insert (node : Node) : action MerkleTree error K := fun self =>
  let '(key, n) := slot_insert self.(nodes) node in (set_nodes n self, Ok key).
Definition nodes_remove (key : K) : action MerkleTree error unit :=
  modify (fun self => set_nodes (slot_remove self.(nodes) key) self).
Definition nodes_assign (key : K) (node : Node) : action MerkleTree error unit := fun self =>
  match slot_get self.(nodes) key with
  | Some _ => (set_nodes (slot_set self.(nodes) key node) self, Ok tt)
  | None => (self, Panic "invalid SlotMap key used")
  end.
Definition death_row_insert (key : TrieKey) : action MerkleTree error unit :=
  modify (fun self => set_death_row ({[key]} ∪ self.(death_row)) self).
Definition cache_insert (key : ByteVec) (v : InsertOrRemove F) : action MerkleTree error unit :=
  modify (fun self => set_cache_leaf_modified (<[key := v]> self.(cache_leaf_modified)) self).

Definition MerkleTree_new (identifier : ByteVec) (max_height : nat) : MerkleTree :=
  mkMerkleTree None slot_default identifier ∅ ∅ max_height.

(** ** Loading nodes *)

Definition MerkleTree_load_db_node (kv : KeyValueDB) (key : TrieKey) : action MerkleTree error (option K) :=
  death ← gets death_row;
  if decide (key ∈ death) then mret None
  else
    node ← lift (KeyValueDB_get kv key);
    match node with
    | None => mret None
    | Some node =>
        '(node, _) ← lift (from_CodecError (Node_decode node));
        Some <$> nodes_insert node
    end.

Definition MerkleTree_load_root_node (kv : KeyValueDB) : action MerkleTree error (option K) :=
  root ← gets root_node;
  match root with
  | Some (RootHandle_Loaded id) => mret (Some id)
  | Some RootHandle_Empty => mret None
  | None =>
      identifier ← gets identifier;
      id ← MerkleTree_load_db_node kv (TrieKey_new identifier TrieKeyType_Trie [0%Z]);
      match id with
      | Some id => _ ← modify (set_root_node (Some (RootHandle_Loaded id))); mret (Some id)
      | None => _ ← modify (set_root_node (Some RootHandle_Empty)); mret None
      end
  end.

Definition MerkleTree_get_node_mut (node_key : K) : action MerkleTree error Node := fun self =>
  (self, ok_or (slot_get self.(nodes) node_key) (Error_Trie ("Dangling in-memory node key: " +:+ key_debug node_key))).

Definition MerkleTree_load_node_handle (kv : KeyValueDB) (handle : NodeHandle) (path : BitVec)
    : action MerkleTree error K :=
  match handle with
  | Hash _ =>
      let path := Path_encode path in
      identifier ← gets identifier;
      let key := TrieKey_new identifier TrieKeyType_Trie path in
      node_key ← MerkleTree_load_db_node kv key;
      lift (ok_or node_key (Error_Trie "Could not get node from db"))
  | InMemory node_key => mret node_key
  end.

(** [get_trie_branch_in_db_from_path]; the decoding error is a [Trie] error. *)
Definition MerkleTree_get_trie_branch_in_db_from_path (death_row : gset TrieKey) (identifier : ByteVec)
    (kv : KeyValueDB) (path : BitVec) : outcome error (option Node) :=
  let path := Path_encode path in
  let key := TrieKey_new identifier TrieKeyType_Trie path in
  if decide (key ∈ death_row) then Ok None
  else
    node ← KeyValueDB_get kv key;
    match node with
    | None => Ok None
    | Some node =>
        '(node, _) ← map_err (fun err => Error_Trie ("Couldn't decode node: " +:+ err)) (Node_decode node);
        Ok (Some node)
    end.

(** ** Hashes *)

(** [binary_node.hash = Some(h)] / [edge_node.hash = Some(h)]. *)
Definition Node_set_hash (h : F) (n : Node) : Node :=
  match n with
  | Binary b => Binary (mkBinaryNode (Some h) b.(binary_height) b.(binary_left) b.(binary_right))
  | Edge e => Edge (mkEdgeNode (Some h) e.(edge_height) e.(edge_path) e.(edge_child))
  end.

Fixpoint MerkleTree_get_or_compute_node_hash (fuel : nat) (node : NodeHandle) : action MerkleTree error F :=
  match fuel with
  | 0 => lift NoFuel
  | S fuel =>
      match node with
      | Hash felt => mret felt
      | InMemory node_key =>
          n ← MerkleTree_get_node_mut node_key;
          match Node_get_hash n with
          | Some hash => mret hash
          | None =>
              computed_hash ←
                match n with
                | Binary binary_node =>
                    left_hash ← MerkleTree_get_or_compute_node_hash fuel binary_node.(binary_left);
                    right_hash ← MerkleTree_get_or_compute_node_hash fuel binary_node.(binary_right);
                    mret (hash_binary_node left_hash right_hash)
                | Edge edge_node =>
                    child_hash ← MerkleTree_get_or_compute_node_hash fuel edge_node.(edge_child);
                    lift (hash_edge_node edge_node.(edge_path) child_hash)
                end;
              n ← MerkleTree_get_node_mut node_key;
              _ ← nodes_assign node_key (Node_set_hash computed_hash n);
              mret computed_hash
          end
      end
  end.

(** Deep enough for any tree of the slot map (one level per node, a leaf). *)
Definition tree_fuel self : nat := S (size (slot_view self.(nodes))).

Definition MerkleTree_root_hash self (kv : KeyValueDB) : outcome error F :=
  match self.(root_node) with
  | Some RootHandle_Empty => Ok Felt_ZERO
  | Some (RootHandle_Loaded node_id) =>
      node ← ok_or (slot_get self.(nodes) node_id)
               (Error_Trie "Could not fetch root node from storage");
      ok_or (Node_get_hash node) (Error_Trie "The tree has uncommited changes")
  | None =>
      node ← MerkleTree_get_trie_branch_in_db_from_path self.(death_row) self.(identifier) kv [];
      match node with
      | None => Ok Felt_ZERO
      | Some node => expect (Node_get_hash node) "The fetched node has no computed hash"
      end
  end.

Definition MerkleTree_get_node_or_felt self (node_handle : NodeHandle) : outcome error (NodeOrFelt F K) :=
  match node_handle with
  | Hash hash => Ok (NodeOrFelt_Felt hash)
  | InMemory node_id =>
      node ← ok_or (slot_get self.(nodes) node_id)
               (Error_Trie "Couldn't fetch node in the temporary storage");
      Ok (NodeOrFelt_Node node)
  end.

(** The hash and the hashes pushed to [hashes] (the branch with two in-memory
    children runs the two calls with [rayon::join] and appends the second
    vector to the first: the same hashes in the same order). *)
Fixpoint MerkleTree_compute_hashes (fuel : nat) self (node : Node) (path : BitVec) : outcome error (F * list F) :=
  match fuel with
  | 0 => NoFuel
  | S fuel =>
      let child (n : NodeOrFelt F K) (path : BitVec) : outcome error (F * list F) :=
        match n with
        | NodeOrFelt_Felt felt => Ok (felt, [])
        | NodeOrFelt_Node node => MerkleTree_compute_hashes fuel self node path
        end in
      match node with
      | Binary binary =>
          let left_path := path ++ [bool_from Left] in
          node_left ← MerkleTree_get_node_or_felt self binary.(binary_left);
          let right_path := path ++ [bool_from Right] in
          node_right ← MerkleTree_get_node_or_felt self binary.(binary_right);
          '(left_hash, hashes1) ← child node_left left_path;
          '(right_hash, hashes2) ← child node_right right_path;
          let hash := hash_binary_node left_hash right_hash in
          Ok (hash, hashes1 ++ hashes2 ++ [hash])
      | Edge edge =>
          let child_path := path ++ edge.(edge_path) in
          node_child ← MerkleTree_get_node_or_felt self edge.(edge_child);
          '(child_hash, hashes) ← child node_child child_path;
          hash ← hash_edge_node edge.(edge_path) child_hash;
          Ok (hash, hashes ++ [hash])
      end
  end.

Definition MerkleTree_compute_root_hash self : outcome error (F * list F) :=
  match self.(root_node) with
  | Some (RootHandle_Loaded node_id) =>
      node ← ok_or (slot_get self.(nodes) node_id) (Error_Trie "Could not fetch root node from storage");
      MerkleTree_compute_hashes (tree_fuel self) self node []
  | Some RootHandle_Empty => Ok (Felt_ZERO, [])
  | None => Err (Error_Trie "Root node is not loaded")
  end.

(** ** Commit *)
Abbreviation updates := (gmap TrieKey (InsertOrRemove ByteVec)).

(** What [commit_subtree] mutates: the tree, [updates] and the iterator of
    precomputed hashes. *)
Record CommitState := mkCommitState {
  commit_tree : MerkleTree;
  commit_updates : updates;
  commit_hashes : list F;
}.

(** [self.nodes.remove(node_id).ok_or(..)?]. *)
Definition commit_take_node (node_id : K) : action CommitState error Node := fun st =>
  let tree := st.(commit_tree) in
  (mkCommitState (set_nodes (slot_remove tree.(nodes) node_id) tree) st.(commit_updates) st.(commit_hashes),
   ok_or (slot_get tree.(nodes) node_id) (Error_Trie "Couldn't fetch node in the temporary storage")).

(** [hashes.next().expect(..)]. *)
Definition commit_next_hash : action CommitState error F := fun st =>
  match st.(commit_hashes) with
  | [] => (st, Panic "mismatched hash state")
  | h :: hs => (mkCommitState st.(commit_tree) st.(commit_updates) hs, Ok h)
  end.

Definition commit_insert_node (path : BitVec) (node : Node) : action CommitState error unit :=
  encoded ← lift (Node_encode_bytevec node);
  modify (fun st =>
    mkCommitState st.(commit_tree)
      (<[TrieKey_new st.(commit_tree).(identifier) TrieKeyType_Trie (Path_encode path) := Insert encoded]>
        st.(commit_updates))
      st.(commit_hashes)).

Fixpoint MerkleTree_commit_subtree (fuel : nat) (node_id : K) (path : BitVec) : action CommitState error F :=
  match fuel with
  | 0 => lift NoFuel
  | S fuel =>
      let child (h : NodeHandle) (path : BitVec) : action CommitState error F :=
        match h with
        | Hash hash => mret hash
        | InMemory node_id => MerkleTree_commit_subtree fuel node_id path
        end in
      node ← commit_take_node node_id;
      match node with
      | Binary binary =>
          let left_path := path ++ [bool_from Left] in
          left_hash ← child binary.(binary_left) left_path;
          let right_path := path ++ [bool_from Right] in
          right_hash ← child binary.(binary_right) right_path;
          hash ← commit_next_hash;
          let binary := mkBinaryNode (Some hash) binary.(binary_height) (Hash left_hash) (Hash right_hash) in
          _ ← commit_insert_node path (Binary binary);
          mret hash
      | Edge edge =>
          let child_path := path ++ edge.(edge_path) in
          child_hash ← child edge.(edge_child) child_path;
          hash ← commit_next_hash;
          let edge := mkEdgeNode (Some hash) edge.(edge_height) edge.(edge_path) (Hash child_hash) in
          _ ← commit_insert_node path (Edge edge);
          mret hash
      end
  end.

(** The death row as removals. *)
Definition death_row_updates (d : gset TrieKey) : updates := gset_to_gmap Remove d.

(** The pending leaves, inserted over the updates. *)
Definition flat_updates (identifier : ByteVec) (cache : gmap ByteVec (InsertOrRemove F)) (u : updates) : updates :=
  map_fold (fun key value u =>
    <[TrieKey_new identifier TrieKeyType_Flat key :=
        match value with Insert value => Insert (Felt_encode value) | Remove => Remove end]> u) u cache.

(** [commit_subtree] of the root on fresh [updates] and [hashes]. *)
Definition MerkleTree_commit_root (node_id : K) (u : updates) (hashes : list F)
    : action MerkleTree error updates := fun self =>
  let '(st, r) := MerkleTree_commit_subtree (tree_fuel self) node_id [] (mkCommitState self u hashes) in
  (st.(commit_tree), r ≫= fun _ => Ok st.(commit_updates)).

Definition MerkleTree_get_updates : action MerkleTree error updates :=
  death ← gets death_row;
  _ ← modify (set_death_row ∅);
  let updates := death_row_updates death in
  root ← gets root_node;
  updates ←
    match root with
    | Some (RootHandle_Loaded node_id) =>
        self ← gets (fun self => self);
        '(_, hashes) ← lift (MerkleTree_compute_root_hash self);
        MerkleTree_commit_root node_id updates hashes
    | _ => mret updates
    end;
  _ ← modify (set_root_node None);
  cache ← gets cache_leaf_modified;
  _ ← modify (set_cache_leaf_modified ∅);
  identifier ← gets identifier;
  mret (flat_updates identifier cache updates).

(** ** Reading leaves *)

(** [Felt::decode(&mut bytes.as_slice()).unwrap()]. *)
Definition Felt_decode_unwrap (bytes : ByteVec) : outcome error F :=
  '(felt, _) ← unwrap (Felt_decode bytes); Ok felt.

Definition MerkleTree_get self (kv : KeyValueDB) (key : BitVec) : outcome error (option F) :=
  let key := bitslice_to_bytes key in
  match self.(cache_leaf_modified) !! key with
  | Some Remove => Ok None
  | Some (Insert value) => Ok (Some value)
  | None =>
      r ← KeyValueDB_get kv (TrieKey_new self.(identifier) TrieKeyType_Flat key);
      match r with
      | None => Ok None
      | Some opt => Some <$> Felt_decode_unwrap opt
      end
  end.

Definition MerkleTree_get_at self (kv : KeyValueDB) (key : BitVec) (id : ID) : outcome error (option F) :=
  let key := bitslice_to_bytes key in
  r ← KeyValueDB_get_at kv (TrieKey_new self.(identifier) TrieKeyType_Flat key) id;
  match r with
  | None => Ok None
  | Some opt => Some <$> Felt_decode_unwrap opt
  end.

Definition MerkleTree_contains self (kv : KeyValueDB) (key : BitVec) : outcome error bool :=
  let key := bitslice_to_bytes key in
  match self.(cache_leaf_modified) !! key with
  | Some Remove => Ok false
  | Some (Insert _) => Ok true
  | None => KeyValueDB_contains kv (TrieKey_new self.(identifier) TrieKeyType_Flat key)
  end.
End Tree.
Arguments CommitState : clear implicits.
