(* ===== verification/Iterator.v ===== *)
(** * Traversal of the tree

    Models [src/src/trie/iterator.rs]: [MerkleTreeIterator] (it borrows the
    tree mutably: visited nodes are loaded into the slot map), the
    [NodeVisitor] trait, [traverse_one], [traverse_to] and [seek_to]. *)
From S2P Require Import Prelude Path Id Database Error External MerkleNode Changes KeyValueDb Tree.

Record MerkleTreeIterator (F K : Type) (M : Type -> Type) := mkIterator {
  tree : MerkleTree F K M;
  current_path : BitVec;
  current_nodes_heights : list (K * nat);
  leaf_hash : option F;
}.
Arguments mkIterator {F K M}.
Arguments tree {F K M}.
Arguments current_path {F K M}.
Arguments current_nodes_heights {F K M}.
Arguments leaf_hash {F K M}.

(** [trait NodeVisitor<H>]: [visit_node] mutates the visitor [V] and the tree. *)
Class NodeVisitor (V F K : Type) (M : Type -> Type) (E : Type) :=
  visit_node : K -> nat -> action (V * MerkleTree F K M) E unit.

(** [struct NoopVisitor]. *)
#[export] Instance NoopVisitor {F K M E} : NodeVisitor unit F K M E :=
  fun _node_id _prev_height => mret tt.

Section Iterator.
Context {F K : Type} {M : Type -> Type} {DB ID : Type}.
Context `{StarkFelt F, !StarkHash F, SlotMap K M, !NodeCodec F K, BonsaiDatabase DB, Id ID}.
Abbreviation MerkleTree := (MerkleTree F K M).
Abbreviation Iterator := (MerkleTreeIterator F K M).
Abbreviation KeyValueDB := (KeyValueDB DB ID).
Abbreviation error := (BonsaiStorageError (DatabaseError DB)).

Definition set_tree (t : MerkleTree) (it : Iterator) : Iterator :=
  mkIterator t it.(current_path) it.(current_nodes_heights) it.(leaf_hash).
Definition set_current_path (p : BitVec) (it : Iterator) : Iterator :=
  mkIterator it.(tree) p it.(current_nodes_heights) it.(leaf_hash).
Definition set_current_nodes_heights (n : list (K * nat)) (it : Iterator) : Iterator :=
  mkIterator it.(tree) it.(current_path) n it.(leaf_hash).
Definition set_leaf_hash (h : option F) (it : Iterator) : Iterator :=
  mkIterator it.(tree) it.(current_path) it.(current_nodes_heights) h.

Definition MerkleTreeIterator_new (t : MerkleTree) : Iterator := mkIterator t [] [] None.

(** A method of the borrowed tree. *)
Definition on_tree {A} (m : action MerkleTree error A) : action Iterator error A := zoom tree set_tree m.

(** The node's handle in the direction of [key], and whether its path matches;
    the current path moves to the end of the node. *)
Definition traverse_node (node : Node F K) (height : nat) (key : BitVec)
    : action Iterator error (NodeHandle F K * bool) :=
  match node with
  | Binary binary_node =>
      path ← gets current_path;
      b ← lift (bit_index key (length path));
      let next_direction := Direction_from b in
      _ ← modify (fun it => set_current_path (it.(current_path) ++ [bool_from next_direction]) it);
      mret (BinaryNode_get_child binary_node next_direction, true)
  | Edge edge_node =>
      _ ← modify (fun it => set_current_path (it.(current_path) ++ edge_node.(edge_path)) it);
      matches ← lift (EdgeNode_path_matches edge_node key height);
      mret (edge_node.(edge_child), matches)
  end.

(** The parent's handle to the child just loaded. *)
Definition update_parent_ref (node_id child_key : K) : action Iterator error unit :=
  node ← on_tree (MerkleTree_get_node_mut node_id);
  match node with
  | Binary binary_node =>
      path ← gets current_path;
      bit ← lift (expect (last path) "current path should have a length > 0 at this point");
      on_tree (nodes_assign node_id (Binary (BinaryNode_set_child binary_node (Direction_from bit) (InMemory child_key))))
  | Edge edge_node =>
      on_tree (nodes_assign node_id
        (Edge (mkEdgeNode edge_node.(edge_hash) edge_node.(edge_height) edge_node.(edge_path) (InMemory child_key))))
  end.

Definition MerkleTreeIterator_traverse_one (kv : KeyValueDB) (node_id : K) (height : nat) (key : BitVec)
    : action Iterator error (option K) :=
  _ ← modify (fun it => set_current_nodes_heights
        (it.(current_nodes_heights) ++ [(node_id, length it.(current_path))]) it);
  node ← on_tree (MerkleTree_get_node_mut node_id);
  '(node_handle, path_matches) ← traverse_node node height key;
  path ← gets current_path;
  if negb path_matches || (length key <=? length path)%nat then
    _ ← modify (set_leaf_hash
          (if path_matches && (length path =? length key)%nat
           then NodeHandle_as_hash node_handle else None));
    mret None
  else
    child_key ← on_tree (MerkleTree_load_node_handle kv node_handle path);
    _ ← update_parent_ref node_id child_key;
    mret (Some child_key).

(** The [loop] of [traverse_to]; the visitor is part of the state. *)
Definition on_visitor {V A} (m : action (V * MerkleTree) error A) : action (V * Iterator) error A :=
  zoom (fun '(v, it) => (v, it.(tree))) (fun '(v, t) '(_, it) => (v, set_tree t it)) m.
Definition on_iter {V A} (m : action Iterator error A) : action (V * Iterator) error A :=
  zoom snd (fun it '(v, _) => (v, it)) m.

Fixpoint traverse_loop {V} `{!NodeVisitor V F K M error} (fuel : nat) (kv : KeyValueDB) (key : BitVec)
    (next_to_visit : option K) : action (V * Iterator) error unit :=
  match fuel with
  | 0 => lift NoFuel
  | S fuel =>
      match next_to_visit with
      | None => mret tt
      | Some node_id =>
          height ← gets (fun '(_, it) => length it.(current_path));
          _ ← on_visitor (visit_node node_id height);
          height ← gets (fun '(_, it) => length it.(current_path));
          next_to_visit ← on_iter (MerkleTreeIterator_traverse_one kv node_id height key);
          traverse_loop fuel kv key next_to_visit
      end
  end.

(** [slice::partition_point] of a list partitioned by the predicate: binary
    search finds the length of the longest prefix that satisfies it. *)
Fixpoint partition_point {A} (f : A -> bool) (l : list A) : nat :=
  match l with
  | [] => 0
  | a :: l => if f a then S (partition_point f l) else 0
  end.

(** Where the traversal of [key] starts: the iterator keeps the part of its
    path it shares with the key, and resumes at the last node kept. *)
Definition traverse_start (kv : KeyValueDB) (key : BitVec) : action Iterator error (option (option K)) :=
  it ← gets (fun it => it);
  let shared_prefix_len := common_len it.(current_path) key in
  let nodes_new_len :=
    if decide (shared_prefix_len = 0) then 0
    else partition_point (fun '(_, height) => (height <? shared_prefix_len)%nat) it.(current_nodes_heights) in
  let kept := take nodes_new_len it.(current_nodes_heights) in
  _ ← modify (fun it => set_current_nodes_heights kept
        (set_current_path (take (length key) it.(current_path)) it));
  match last kept with
  | Some (node_id, height) =>
      _ ← modify (fun it => set_current_nodes_heights (removelast kept)
            (set_current_path (take height it.(current_path)) it));
      Some <$> MerkleTreeIterator_traverse_one kv node_id height key
  | None =>
      _ ← modify (set_current_path []);
      root ← on_tree (MerkleTree_load_root_node kv);
      match root with
      | Some node_id => mret (Some (Some node_id))
      | None => _ ← modify (set_leaf_hash None); mret None
      end
  end.

Definition MerkleTreeIterator_traverse_to {V} `{!NodeVisitor V F K M error} (kv : KeyValueDB) (key : BitVec)
    : action (V * Iterator) error unit :=
  match key with
  | [] =>
      on_iter (modify (fun it =>
        set_current_nodes_heights [] (set_current_path [] (set_leaf_hash None it))))
  | _ =>
      start ← on_iter (traverse_start kv key);
      match start with
      | None => mret tt
      | Some next_to_visit => traverse_loop (S (S (length key))) kv key next_to_visit
      end
  end.

Definition MerkleTreeIterator_seek_to (kv : KeyValueDB) (key : BitVec) : action Iterator error unit := fun it =>
  let '((_, it), r) := MerkleTreeIterator_traverse_to (V := unit) kv key (tt, it) in (it, r).

(** [self.iter(db)] followed by [seek_to] and the nodes it has visited. *)
Definition MerkleTree_seek_nodes (kv : KeyValueDB) (key : BitVec) : action MerkleTree error (list (K * nat)) := fun self =>
  let '(it, r) := MerkleTreeIterator_seek_to kv key (MerkleTreeIterator_new self) in
  (it.(tree), r ≫= fun _ => Ok it.(current_nodes_heights)).
End Iterator.
