(* ===== verification/Update.v ===== *)
(** * Insertion and deletion of leaves

    Models [set], [delete_leaf] and [merge_edges] of [src/src/trie/tree.rs]. *)
From S2P Require Import Prelude Path Id Database Error External MerkleNode Changes KeyValueDb Tree Iterator.

Section Update.
Context {F K : Type} {M : Type -> Type} {DB ID : Type}.
Context `{StarkFelt F, !StarkHash F, SlotMap K M, !NodeCodec F K, BonsaiDatabase DB, Id ID}.
Abbreviation MerkleTree := (MerkleTree F K M).
Abbreviation Node := (Node F K).
Abbreviation NodeHandle := (NodeHandle F K).
Abbreviation KeyValueDB := (KeyValueDB DB ID).
Abbreviation error := (BonsaiStorageError (DatabaseError DB)).
Implicit Types self : MerkleTree.

(** [&bits[lo..]] and [&bits[..hi]]. *)
Definition slice_from {E} (lo : nat) (bits : BitVec) : outcome E BitVec :=
  if decide (lo <= length bits) then Ok (drop lo bits)
  else Panic "range start index out of range for slice".
Definition slice_to {E} (hi : nat) (bits : BitVec) : outcome E BitVec :=
  if decide (hi <= length bits) then Ok (take hi bits)
  else Panic "range end index out of range for slice".

(** A branch of a split edge: an edge to [child], or [child] itself when no
    bit of the path is left. *)
Definition split_branch (height : nat) (path : BitVec) (child : NodeHandle) : action MerkleTree error NodeHandle :=
  match path with
  | [] => mret child
  | _ =>
      edge_id ← nodes_insert (Edge (mkEdgeNode None height path child));
      mret (InMemory edge_id)
  end.

(** The [Edge] case of [set]: the leaf exists, or the edge is split. *)
Definition MerkleTree_set_edge (node_id : K) (edge : EdgeNode F K) (key : BitVec) (value : F)
    : action MerkleTree error unit :=
  let key_bytes := bitslice_to_bytes key in
  let common := EdgeNode_common_path edge key in
  let branch_height := edge.(edge_height) + length common in
  if decide (branch_height = length key) then
    _ ← cache_insert key_bytes (Insert value);
    nodes_assign node_id (Edge (mkEdgeNode edge.(edge_hash) edge.(edge_height) edge.(edge_path) (Hash value)))
  else
    let child_height := branch_height + 1 in
    new_path ← lift (slice_from child_height key);
    old_path ← lift (slice_from (length common + 1) edge.(edge_path));
    _ ← cache_insert key_bytes (Insert value);
    new ← split_branch child_height new_path (Hash value);
    old ← split_branch child_height old_path edge.(edge_child);
    bit ← lift (bit_index key branch_height);
    let new_direction := Direction_from bit in
    let '(left_child, right_child) := match new_direction with Left => (new, old) | Right => (old, new) end in
    let branch := Binary (mkBinaryNode None branch_height left_child right_child) in
    new_node ←
      match common with
      | [] => mret branch
      | _ =>
          branch_id ← nodes_insert branch;
          mret (Edge (mkEdgeNode None edge.(edge_height) common (InMemory branch_id)))
      end;
    prefix ← lift (slice_to edge.(edge_height) key);
    let key_bytes := bitslice_to_bytes prefix in
    _ ← death_row_insert (TrieKey_Trie key_bytes);
    nodes_assign node_id new_node.

(** The [Binary] case of [set]: the leaf is a child of the last node. *)
Definition MerkleTree_set_binary (node_id : K) (binary : BinaryNode F K) (key : BitVec) (value : F)
    : action MerkleTree error unit :=
  let key_bytes := bitslice_to_bytes key in
  let child_height := binary.(binary_height) + 1 in
  if decide (child_height = length key) then
    bit ← lift (bit_index key binary.(binary_height));
    _ ← cache_insert key_bytes (Insert value);
    nodes_assign node_id (Binary (BinaryNode_set_child binary (Direction_from bit) (Hash value)))
  else nodes_assign node_id (Binary binary).

(** The tree is empty: the root becomes an edge to the leaf. *)
Definition MerkleTree_set_empty (key : BitVec) (value : F) : action MerkleTree error unit :=
  node_id ← nodes_insert (Edge (mkEdgeNode None 0 key (Hash value)));
  _ ← modify (set_root_node (Some (RootHandle_Loaded node_id)));
  cache_insert (bitslice_to_bytes key) (Insert value).

(** ** Deletion *)

(** The child of [parent] is merged into it when it is an edge too. *)
Definition MerkleTree_merge_edges (kv : KeyValueDB) (parent : EdgeNode F K) (path : BitVec)
    : action MerkleTree error (EdgeNode F K) :=
  let merged (child_edge : EdgeNode F K) :=
    mkEdgeNode parent.(edge_hash) parent.(edge_height)
      (parent.(edge_path) ++ child_edge.(edge_path)) child_edge.(edge_child) in
  identifier ← gets identifier;
  let key := TrieKey_new identifier TrieKeyType_Trie (Path_encode path) in
  match parent.(edge_child) with
  | Hash _ =>
      death ← gets death_row;
      node ← lift (MerkleTree_get_trie_branch_in_db_from_path death identifier kv path);
      match node with
      | Some (Edge child_edge) => _ ← death_row_insert key; mret (merged child_edge)
      | _ => mret parent
      end
  | InMemory child_id =>
      node ← MerkleTree_get_node_mut child_id;
      match node with
      | Edge child_edge =>
          _ ← nodes_remove child_id;
          _ ← death_row_insert key;
          mret (merged child_edge)
      | Binary _ => mret parent
      end
  end.

(** Is the leaf in the trie, as far as the pending changes and the flat
    database say? *)
Definition tree_has_value (kv : KeyValueDB) (key_bytes : ByteVec) : action MerkleTree error bool :=
  cache ← gets cache_leaf_modified;
  match cache !! key_bytes with
  | Some Remove => mret false
  | Some (Insert _) => mret true
  | None =>
      identifier ← gets identifier;
      r ← lift (KeyValueDB_get kv (TrieKey_new identifier TrieKeyType_Flat key_bytes));
      mret (bool_decide (is_Some r))
  end.

(** The final edge, if any, is removed: what is left of [path_nodes] and the
    path of the subtree that loses its leaf. *)
Definition MerkleTree_delete_final_edge (key : BitVec) (path_nodes : list (K * nat))
    : action MerkleTree error (BitVec * list (K * nat)) :=
  match last path_nodes with
  | None => mret (key, path_nodes)
  | Some (node_key, _) =>
      node ← MerkleTree_get_node_mut node_key;
      match node with
      | Binary _ => mret (key, path_nodes)
      | Edge edge =>
          let last_binary_path := take (length key - length edge.(edge_path)) key in
          identifier ← gets identifier;
          _ ← death_row_insert (TrieKey_new identifier TrieKeyType_Trie (Path_encode last_binary_path));
          _ ← nodes_remove node_key;
          mret (last_binary_path, removelast path_nodes)
      end
  end.

(** The binary node [node_id] becomes an edge to its other child, merged with
    that child and with the parent when these are edges. *)
Definition MerkleTree_delete_branch (kv : KeyValueDB) (key : BitVec) (last_binary_path : BitVec)
    (node_id : K) (parent_branch_node : option (K * nat)) : action MerkleTree error unit :=
  node ← MerkleTree_get_node_mut node_id;
  binary ← lift (expect (Node_as_binary node)
             "The node must be a binary node due to the iteration condition");
  d ← lift (BinaryNode_direction binary key);
  let direction := Direction_invert d in
  let last_binary_path := removelast last_binary_path ++ [bool_from direction] in
  let path := [bool_from direction] in
  let edge := mkEdgeNode None binary.(binary_height) path
    (match direction with Left => binary.(binary_left) | Right => binary.(binary_right) end) in
  new_edge ← MerkleTree_merge_edges kv edge last_binary_path;
  let par_path := last_binary_path in
  match parent_branch_node with
  | Some (parent_node_id, _) =>
      parent_node ← MerkleTree_get_node_mut parent_node_id;
      match parent_node with
      | Edge parent_edge =>
          _ ← nodes_assign parent_node_id
                (Edge (mkEdgeNode parent_edge.(edge_hash) parent_edge.(edge_height)
                   (parent_edge.(edge_path) ++ new_edge.(edge_path)) new_edge.(edge_child)));
          let par_path := removelast par_path in
          identifier ← gets identifier;
          _ ← death_row_insert (TrieKey_new identifier TrieKeyType_Trie (Path_encode par_path));
          nodes_remove node_id
      | Binary _ => nodes_assign node_id (Edge new_edge)
      end
  | None => nodes_assign node_id (Edge new_edge)
  end.

(** No binary node on the path: the tree becomes empty. *)
Definition MerkleTree_delete_root : action MerkleTree error unit :=
  root ← gets root_node;
  _ ← match root with
      | Some (RootHandle_Loaded node_id) => nodes_remove node_id
      | _ => mret tt
      end;
  identifier ← gets identifier;
  _ ← death_row_insert (TrieKey_new identifier TrieKeyType_Trie [0%Z]);
  modify (set_root_node (Some RootHandle_Empty)).

Definition MerkleTree_delete_leaf (kv : KeyValueDB) (key : BitVec) : action MerkleTree error unit :=
  height ← gets max_height;
  if decide (length key <> height) then throw (Error_KeyLength height (length key))
  else
    let key_bytes := bitslice_to_bytes key in
    has_value ← tree_has_value kv key_bytes;
    if negb has_value then mret tt
    else
      _ ← cache_insert key_bytes Remove;
      path_nodes ← MerkleTree_seek_nodes kv key;
      '(last_binary_path, path_nodes) ← MerkleTree_delete_final_edge key path_nodes;
      match rev path_nodes with
      | (node_id, _) :: node_iter =>
          MerkleTree_delete_branch kv key last_binary_path node_id (head node_iter)
      | [] => MerkleTree_delete_root
      end.

(** ** Insertion *)

(** Does the flat database already bind the key to [value]? *)
Definition flat_has_value (kv : KeyValueDB) (key_bytes : ByteVec) (value : F) : action MerkleTree error bool :=
  identifier ← gets identifier;
  r ← lift (KeyValueDB_get kv (TrieKey_new identifier TrieKeyType_Flat key_bytes));
  match r with
  | Some value_db => v ← lift (Felt_decode_unwrap value_db); mret (bool_decide (value = v))
  | None => mret false
  end.

Definition MerkleTree_set (kv : KeyValueDB) (key : BitVec) (value : F) : action MerkleTree error unit :=
  if decide (value = Felt_ZERO) then MerkleTree_delete_leaf kv key
  else
    height ← gets max_height;
    if decide (length key <> height) then throw (Error_KeyLength height (length key))
    else
      let key_bytes := bitslice_to_bytes key in
      cache ← gets cache_leaf_modified;
      match cache !! key_bytes with
      | Some (Insert _) => cache_insert key_bytes (Insert value)
      | _ =>
          same ← flat_has_value kv key_bytes value;
          if (same : bool) then mret tt
          else
            path_nodes ← MerkleTree_seek_nodes kv key;
            match last path_nodes with
            | Some (node_id, _) =>
                node ← MerkleTree_get_node_mut node_id;
                match node with
                | Edge edge => MerkleTree_set_edge node_id edge key value
                | Binary binary => MerkleTree_set_binary node_id binary key value
                end
            | None => MerkleTree_set_empty key value
            end
      end.
End Update.
