(* ===== verification/Trees.v ===== *)
(** * The trees of a storage

    Models [src/src/trie/trees.rs]: [MerkleTrees], the trees by identifier over
    one key-value database, and their commit in one batch. *)
From S2P Require Import Prelude Path Id Database Error External MerkleNode Changes KeyValueDb Tree Iterator Update.

Record MerkleTrees (F K : Type) (M : Type -> Type) (DB ID : Type) := mkMerkleTrees {
  trees_db : KeyValueDB DB ID;
  trees : gmap ByteVec (MerkleTree F K M);
  trees_max_height : nat;
}.
Arguments mkMerkleTrees {F K M DB ID}.
Arguments trees_db {F K M DB ID}.
Arguments trees {F K M DB ID}.
Arguments trees_max_height {F K M DB ID}.

Section Trees.
Context {F K : Type} {M : Type -> Type} {DB ID : Type}.
Context `{StarkFelt F, !StarkHash F, SlotMap K M, !NodeCodec F K, BonsaiDatabase DB, Id ID, HashMapIter}.
Abbreviation MerkleTree := (MerkleTree F K M).
Abbreviation MerkleTrees := (MerkleTrees F K M DB ID).
Abbreviation KeyValueDB := (KeyValueDB DB ID).
Abbreviation error := (BonsaiStorageError (DatabaseError DB)).
Implicit Types self : MerkleTrees.

Definition set_trees_db (kv : KeyValueDB) self : MerkleTrees :=
  mkMerkleTrees kv self.(trees) self.(trees_max_height).
Definition set_trees (t : gmap ByteVec MerkleTree) self : MerkleTrees :=
  mkMerkleTrees self.(trees_db) t self.(trees_max_height).

Definition MerkleTrees_new (kv : KeyValueDB) (tree_height : nat) : MerkleTrees :=
  mkMerkleTrees kv ∅ tree_height.

(** [self.trees.get(identifier)], or a new tree. *)
Definition tree_or_new self (identifier : ByteVec) : MerkleTree :=
  default (MerkleTree_new identifier self.(trees_max_height)) (self.(trees) !! identifier).

(** A mutating method on [entry_ref(identifier).or_insert_with(..)]. *)
Definition on_entry {A} (identifier : ByteVec) (m : KeyValueDB -> action MerkleTree error A)
    : action MerkleTrees error A := fun self =>
  let '(t, r) := m self.(trees_db) (tree_or_new self identifier) in
  (set_trees (<[identifier := t]> self.(trees)) self, r).

Definition MerkleTrees_set (identifier : ByteVec) (key : BitVec) (value : F) : action MerkleTrees error unit :=
  on_entry identifier (fun kv => MerkleTree_set kv key value).

Definition MerkleTrees_get self (identifier : ByteVec) (key : BitVec) : outcome error (option F) :=
  MerkleTree_get (tree_or_new self identifier) self.(trees_db) key.

Definition MerkleTrees_get_at self (identifier : ByteVec) (key : BitVec) (id : ID) : outcome error (option F) :=
  MerkleTree_get_at (tree_or_new self identifier) self.(trees_db) key id.

Definition MerkleTrees_contains self (identifier : ByteVec) (key : BitVec) : outcome error bool :=
  MerkleTree_contains (tree_or_new self identifier) self.(trees_db) key.

Definition MerkleTrees_reset_to_last_commit : action MerkleTrees error unit := modify (set_trees ∅).

Definition MerkleTrees_root_hash self (identifier : ByteVec) : outcome error F :=
  MerkleTree_root_hash (tree_or_new self identifier) self.(trees_db).

(** [key[identifier.len() + 1..]], for a longer key. *)
Definition strip_identifier (identifier key : ByteVec) : option ByteVec :=
  if decide (length identifier < length key) then Some (drop (length identifier + 1) key) else None.

Definition MerkleTrees_get_keys self (identifier : ByteVec) : outcome error (list ByteVec) :=
  key_value_pairs ← from_DatabaseError (db_get_by_prefix self.(trees_db).(db) (DatabaseKey_Flat identifier));
  Ok (omap (M := list) (fun '(key, _value) => strip_identifier identifier key) key_value_pairs).

Definition MerkleTrees_get_key_value_pairs self (identifier : ByteVec) : outcome error (list (ByteVec * ByteVec)) :=
  key_value_pairs ← from_DatabaseError (db_get_by_prefix self.(trees_db).(db) (DatabaseKey_Flat identifier));
  Ok (omap (M := list) (fun '(key, value) => (fun k => (k, value)) <$> strip_identifier identifier key) key_value_pairs).

(** [get_updates] of every tree, in the order of the iteration (the calls run
    in parallel, each on its own tree). *)
Definition collect_updates (ts : list (ByteVec * MerkleTree))
    : list (ByteVec * MerkleTree) * list (outcome error (gmap TrieKey (InsertOrRemove ByteVec))) :=
  let runs := (fun '(i, t) => (i, MerkleTree_get_updates (DB := DB) t)) <$> ts in
  ((fun '(i, (t, _)) => (i, t)) <$> runs, (fun '(_, (_, r)) => r) <$> runs).

(** One change of the batch. *)
Definition apply_update (kc : TrieKey * InsertOrRemove ByteVec) : action (KeyValueDB * Batch DB) error unit :=
  match kc.2 with
  | Insert value => KeyValueDB_insert kc.1 value
  | Remove => KeyValueDB_remove kc.1
  end.

Definition apply_changes (changes : outcome error (gmap TrieKey (InsertOrRemove ByteVec)))
    : action (KeyValueDB * Batch DB) error unit :=
  c ← lift changes; for_each (hash_iter c) apply_update.

Definition MerkleTrees_commit : action MerkleTrees error unit := fun self =>
  let '(ts, db_changes) := collect_updates (hash_iter self.(trees)) in
  let self := set_trees (list_to_map ts) self in
  let batch := KeyValueDB_create_batch self.(trees_db) in
  let '((kv, batch), r) := for_each db_changes apply_changes (self.(trees_db), batch) in
  let self := set_trees_db kv self in
  (_ ← lift r; zoom trees_db set_trees_db (KeyValueDB_write_batch batch)) self.
End Trees.
