(* ===== verification/Proof.v ===== *)
(** * Multi-proofs

    Models [src/src/trie/proof.rs]: [ProofNode], [MultiProof], the proof
    generation [get_multi_proof] and the verifier [verify_proof]. *)
From S2P Require Import Prelude Path Id Database Error External MerkleNode Changes KeyValueDb Tree Iterator Update Trees.

Section ProofNode.
Context {F : Type} `{StarkFelt F, !StarkHash F}.

Inductive ProofVerificationError : Type :=
| KeyLengthMismatch (path : BitVec) (expected : nat) (got : nat)
| MissingNode (path : BitVec) (hash : F)
| Overshot (path : BitVec) (expected_max_height : nat)
| HashMismatch (path : BitVec) (expected got : F).

Inductive ProofNode : Type :=
| ProofNode_Binary (left right : F)
| ProofNode_Edge (child : F) (path : BitVec).

#[export] Instance ProofNode_eq_dec : EqDecision ProofNode.
Proof. solve_decision. Defined.

Definition ProofNode_hash {E} (self : ProofNode) : outcome E F :=
  match self with
  | ProofNode_Binary l r => Ok (hash_binary_node l r)
  | ProofNode_Edge child path => hash_edge_node path child
  end.

Abbreviation MultiProof := (gmap F ProofNode).

(** What the closure of [verify_proof] keeps from one key to the next: the
    hashes already checked. ([current_path] is cleared for every key.) *)
Abbreviation checked_cache := (gset F).

(** The hash check of a node, with the cache of checked hashes. *)
Definition check_node (node : ProofNode) (current_felt : F) (current_path : BitVec)
    : action checked_cache ProofVerificationError unit := fun cache =>
  if decide (current_felt ∈ cache) then (cache, Ok tt)
  else
    match ProofNode_hash node with
    | Ok computed_hash =>
        if decide (computed_hash = current_felt) then ({[current_felt]} ∪ cache, Ok tt)
        else (cache, Err (HashMismatch current_path current_felt computed_hash))
    | Err e => (cache, Err e)
    | Panic why => (cache, Panic why)
    | NoFuel => (cache, NoFuel)
    end.

(** [k.get(lo..lo + len)]. *)
Definition bits_get (k : BitVec) (lo len : nat) : option BitVec :=
  if decide (lo + len <= length k) then Some (take len (drop lo k)) else None.

Fixpoint verify_loop (fuel : nat) (self : MultiProof) (k : BitVec) (tree_height : nat)
    (current_path : BitVec) (current_felt : F) : action checked_cache ProofVerificationError F :=
  match fuel with
  | 0 => lift NoFuel
  | S fuel =>
      if decide (length current_path = length k) then mret current_felt
      else if decide (length k < length current_path) then
        throw (Overshot current_path tree_height)
      else
        node ← lift (ok_or (self !! current_felt) (MissingNode current_path current_felt));
        _ ← check_node node current_felt current_path;
        match node with
        | ProofNode_Binary l r =>
            bit ← lift (bit_index k (length current_path));
            let direction := Direction_from bit in
            verify_loop fuel self k tree_height (current_path ++ [bool_from direction])
              (match direction with Left => l | Right => r end)
        | ProofNode_Edge child path =>
            if decide (bits_get k (length current_path) (length path) <> Some path) then mret Felt_ZERO
            else verify_loop fuel self k tree_height (current_path ++ path) child
        end
  end.

(** One loop iteration per bit of the key and, at a given depth, one per node
    of the proof (an edge with an empty path does not move). *)
Definition verify_fuel (self : MultiProof) (k : BitVec) : nat := S (S (length k) * S (size self)).

Definition MultiProof_verify_key (self : MultiProof) (root : F) (tree_height : nat) (k : BitVec)
    : action checked_cache ProofVerificationError F :=
  if decide (length k <> tree_height) then throw (KeyLengthMismatch k tree_height (length k))
  else verify_loop (verify_fuel self k) self k tree_height [] root.

(** The items of the returned iterator, all consumed. *)
Fixpoint verify_keys (self : MultiProof) (root : F) (tree_height : nat) (keys : list BitVec)
    (cache : checked_cache) : list (outcome ProofVerificationError F) :=
  match keys with
  | [] => []
  | k :: keys =>
      let '(cache, r) := MultiProof_verify_key self root tree_height k cache in
      r :: verify_keys self root tree_height keys cache
  end.

Definition MultiProof_verify_proof (self : MultiProof) (root : F) (key_values : list BitVec) (tree_height : nat)
    : list (outcome ProofVerificationError F) := verify_keys self root tree_height key_values ∅.
End ProofNode.
Arguments ProofNode : clear implicits.
Arguments ProofVerificationError : clear implicits.

Section Generation.
Context {F K : Type} {M : Type -> Type} {DB ID : Type}.
Context `{StarkFelt F, !StarkHash F, SlotMap K M, !NodeCodec F K, BonsaiDatabase DB, Id ID, HashMapIter}.
Abbreviation MerkleTree := (MerkleTree F K M).
Abbreviation KeyValueDB := (KeyValueDB DB ID).
Abbreviation MultiProof := (gmap F (ProofNode F)).
Abbreviation error := (BonsaiStorageError (DatabaseError DB)).

(** [get_or_compute_node_hash], deep enough for the tree. *)
Definition node_hash (node : NodeHandle F K) : action MerkleTree error F := fun self =>
  MerkleTree_get_or_compute_node_hash (DB := DB) (S (tree_fuel self)) node self.

(** [struct ProofVisitor] and its [visit_node]. *)
Definition ProofVisitor_node (node_id : K) : action MerkleTree error (F * ProofNode F) :=
  node ← MerkleTree_get_node_mut node_id;
  proof_node ←
    match node with
    | Binary binary_node =>
        l ← node_hash binary_node.(binary_left);
        r ← node_hash binary_node.(binary_right);
        mret (ProofNode_Binary l r)
    | Edge edge_node =>
        child ← node_hash edge_node.(edge_child);
        mret (ProofNode_Edge child edge_node.(edge_path))
    end;
  hash ← node_hash (InMemory node_id);
  mret (hash, proof_node).

#[local] Instance ProofVisitor : NodeVisitor MultiProof F K M error :=
  fun node_id _prev_height =>
    '(hash, proof_node) ← zoom snd (fun t '(p, _) => (p, t)) (ProofVisitor_node node_id);
    modify (fun '(p, t) => (<[hash := proof_node]> p, t)).

(** The loop over the keys. *)
Definition multi_proof_key (kv : KeyValueDB) (max_height : nat) (key : BitVec)
    : action (MultiProof * MerkleTreeIterator F K M) error unit :=
  if decide (length key <> max_height) then throw (Error_KeyLength max_height (length key))
  else MerkleTreeIterator_traverse_to kv key.

Definition MerkleTree_get_multi_proof (kv : KeyValueDB) (keys : list BitVec) : action MerkleTree error MultiProof :=
  fun self =>
  let '((proof, it), r) :=
    for_each keys (multi_proof_key kv self.(max_height)) (∅, MerkleTreeIterator_new self) in
  (it.(tree), r ≫= fun _ => Ok proof).

Definition MerkleTrees_get_multi_proof (identifier : ByteVec) (keys : list BitVec)
    : action (MerkleTrees F K M DB ID) error MultiProof :=
  on_entry identifier (fun kv => MerkleTree_get_multi_proof kv keys).
End Generation.
