(* ===== verification/Storage.v ===== *)
(** * The storage

    Models [src/src/lib.rs]: [BonsaiStorage], the public interface: every
    method delegates to the trees or to the key-value database. *)
From S2P Require Import Prelude Path Id Database Error External MerkleNode Changes KeyValueDb Tree Iterator Update Trees Proof.

Record BonsaiStorage (F K : Type) (M : Type -> Type) (DB ID : Type) := mkBonsaiStorage {
  tries : MerkleTrees F K M DB ID;
}.
Arguments mkBonsaiStorage {F K M DB ID}.
Arguments tries {F K M DB ID}.

Section Storage.
Context {F K : Type} {M : Type -> Type} {DB ID : Type}.
Context `{StarkFelt F, !StarkHash F, SlotMap K M, !NodeCodec F K, BonsaiDatabase DB, Id ID, HashMapIter}.
Abbreviation BonsaiStorage := (BonsaiStorage F K M DB ID).
Abbreviation error := (BonsaiStorageError (DatabaseError DB)).
Implicit Types self : BonsaiStorage.

Definition on_tries {A} (m : action (MerkleTrees F K M DB ID) error A) : action BonsaiStorage error A :=
  zoom tries (fun t _ => mkBonsaiStorage t) m.
Definition on_db {A} (m : action (KeyValueDB DB ID) error A) : action BonsaiStorage error A :=
  on_tries (zoom trees_db set_trees_db m).

Definition BonsaiStorage_new (db : DB) (config : BonsaiStorageConfig) (max_height : nat) : BonsaiStorage :=
  let key_value_db := KeyValueDB_new db (KeyValueDBConfig_from config) None in
  mkBonsaiStorage (MerkleTrees_new key_value_db max_height).

Definition BonsaiStorage_new_from_transactional_state (db : DB) (config : BonsaiStorageConfig)
    (max_height : nat) (created_at : ID) : outcome error BonsaiStorage :=
  let key_value_db := KeyValueDB_new db (KeyValueDBConfig_from config) (Some created_at) in
  let tries := MerkleTrees_new key_value_db max_height in
  Ok (mkBonsaiStorage tries).

Definition BonsaiStorage_insert (identifier : ByteVec) (key : BitVec) (value : F) : action BonsaiStorage error unit :=
  on_tries (MerkleTrees_set identifier key value).

Definition BonsaiStorage_remove (identifier : ByteVec) (key : BitVec) : action BonsaiStorage error unit :=
  on_tries (MerkleTrees_set identifier key Felt_ZERO).

Definition BonsaiStorage_get self (identifier : ByteVec) (key : BitVec) : outcome error (option F) :=
  MerkleTrees_get self.(tries) identifier key.

Definition BonsaiStorage_get_at self (identifier : ByteVec) (key : BitVec) (id : ID) : outcome error (option F) :=
  MerkleTrees_get_at self.(tries) identifier key id.

Definition BonsaiStorage_contains self (identifier : ByteVec) (key : BitVec) : outcome error bool :=
  MerkleTrees_contains self.(tries) identifier key.

(** [revert_to] is [todo!()]. *)
Definition BonsaiStorage_revert_to (requested_id : ID) : action BonsaiStorage error unit :=
  panic "not yet implemented".

Definition BonsaiStorage_get_changes self (id : ID) : outcome error (gmap BitVec Change) :=
  KeyValueDB_get_changes self.(tries).(trees_db) id.

Definition BonsaiStorage_root_hash self (identifier : ByteVec) : outcome error F :=
  MerkleTrees_root_hash self.(tries) identifier.

Definition BonsaiStorage_transactional_commit (id : ID) : action BonsaiStorage error unit :=
  _ ← on_tries MerkleTrees_commit;
  on_db (KeyValueDB_commit id).

Definition BonsaiStorage_get_keys self (identifier : ByteVec) : outcome error (list ByteVec) :=
  MerkleTrees_get_keys self.(tries) identifier.

Definition BonsaiStorage_get_key_value_pairs self (identifier : ByteVec) : outcome error (list (ByteVec * ByteVec)) :=
  MerkleTrees_get_key_value_pairs self.(tries) identifier.

Definition BonsaiStorage_get_latest_id self : outcome error (option ID) :=
  KeyValueDB_get_latest_id self.(tries).(trees_db).

Definition BonsaiStorage_get_multi_proof (identifier : ByteVec) (keys : list BitVec)
    : action BonsaiStorage error (gmap F (ProofNode F)) :=
  on_tries (MerkleTrees_get_multi_proof identifier keys).

Definition BonsaiStorage_get_config self : BonsaiStorageConfig :=
  BonsaiStorageConfig_from (KeyValueDB_get_config self.(tries).(trees_db)).
End Storage.

Section Persistent.
Context {F K : Type} {M : Type -> Type} {DB ID : Type}.
Context `{StarkFelt F, !StarkHash F, SlotMap K M, !NodeCodec F K, BonsaiDatabase DB, Id ID, HashMapIter}.
Context `{!BonsaiPersistentDatabase DB ID}.
Abbreviation BonsaiStorage := (BonsaiStorage F K M DB ID).
Abbreviation error := (BonsaiStorageError (DatabaseError DB)).
Abbreviation Txn := (Transaction DB ID).
Abbreviation TxnStorage := (Storage.BonsaiStorage F K M Txn ID).
Abbreviation txn_error := (BonsaiStorageError (DatabaseError Txn)).
Implicit Types self : BonsaiStorage.

Definition BonsaiStorage_commit (id : ID) : action BonsaiStorage error unit :=
  _ ← on_tries MerkleTrees_commit;
  _ ← on_db (KeyValueDB_commit id);
  on_db (KeyValueDB_create_snapshot id).

Definition BonsaiStorage_get_transactional_state self (change_id : ID) (config : BonsaiStorageConfig)
    : outcome txn_error (option TxnStorage) :=
  transaction ← KeyValueDB_get_transaction self.(tries).(trees_db) change_id;
  match transaction with
  | Some transaction =>
      s ← BonsaiStorage_new_from_transactional_state transaction config
            self.(tries).(trees_max_height) change_id;
      Ok (Some s)
  | None => Ok None
  end.

(** [.map_err(|e| BonsaiStorageError::Merge(..))]; the message names the key,
    the value and the error, which are not kept. *)
Definition merge_error (msg : string) (m : action BonsaiStorage error unit) : action BonsaiStorage error unit := fun self =>
  let '(self, r) := m self in (self, map_err (fun _ => Error_Merge msg) r).

(** One pending leaf of the merged state. *)
Definition merge_leaf (identifier : ByteVec) (kop : ByteVec * InsertOrRemove F) : action BonsaiStorage error unit :=
  let '(k, op) := kop in
  key ← lift (bytes_to_bitvec k);
  match op with
  | Insert v => merge_error "While merging insert faced error" (BonsaiStorage_insert identifier key v)
  | Remove => merge_error "While merging remove faced error" (BonsaiStorage_remove identifier key)
  end.

Definition BonsaiStorage_merge (transactional_bonsai_storage : TxnStorage) : action BonsaiStorage error unit :=
  let '(mkBonsaiStorage (mkMerkleTrees db trees _)) := transactional_bonsai_storage in
  _ ← on_db (KeyValueDB_merge db);
  for_each (hash_iter trees) (fun '(identifier, tree) =>
    for_each (hash_iter tree.(cache_leaf_modified)) (merge_leaf identifier)).
End Persistent.
