(* ===== verification/Annot.v ===== *)
(** * Annotated trees

    The link between the specification ([Trie.v]) and the state of a
    [MerkleTree]: an annotated tree is a trie of which every node is either in
    the slot map, under a key and with a (possibly stale) cached hash, or stored
    in the database. [res] lists the nodes with their paths and places; a
    context [ctx] is the part of the tree around a node, as the iterator
    leaves it on its way down. *)
From S2P Require Import Prelude Path External MerkleNode Trie.

Section Annot.
Context {F K : Type} `{StarkFelt F, !StarkHash F}.
Abbreviation Node := (Node F K).
Abbreviation NodeHandle := (NodeHandle F K).

Inductive atree : Type :=
| ALeaf (v : F)
| AStored (t : trie F)
| ABin (k : K) (ho : option F) (l r : atree)
| AEdge (k : K) (ho : option F) (p : BitVec) (c : atree).

Fixpoint strip (a : atree) : trie F :=
  match a with
  | ALeaf v => Leaf v
  | AStored t => t
  | ABin _ _ l r => Bin (strip l) (strip r)
  | AEdge _ _ p c => Edg p (strip c)
  end.

(** The handle a parent holds. *)
Definition ahandle (a : atree) : NodeHandle :=
  match a with
  | ALeaf v => Hash v
  | AStored t => Hash (trie_hash t)
  | ABin k _ _ _ | AEdge k _ _ _ => InMemory k
  end.

(** Leaves are not stored nodes. *)
Fixpoint agood (a : atree) : Prop :=
  match a with
  | ALeaf _ => True
  | AStored t => is_leaf t = false
  | ABin _ _ l r => agood l /\ agood r
  | AEdge _ _ _ c => agood c
  end.

(** ** Nodes and their places *)
Inductive place : Type :=
| Mem (k : K) (n : Node)
| Db (n : Node).

Abbreviation entries := (list (BitVec * place)).

(** The node of a stored subtree, and what is below it. *)
Definition tnode (path : BitVec) (t : trie F) : Node :=
  match t with
  | Leaf v => Edge (mkEdgeNode None (length path) [] (Hash v)) (* never stored *)
  | Bin l r => Binary (mkBinaryNode (Some (trie_hash t)) (length path) (Hash (trie_hash l)) (Hash (trie_hash r)))
  | Edg p c => Edge (mkEdgeNode (Some (trie_hash t)) (length path) p (Hash (trie_hash c)))
  end.

Fixpoint tres (path : BitVec) (t : trie F) : entries :=
  match t with
  | Leaf _ => []
  | Bin l r => (path, Db (tnode path t)) :: tres (path ++ [false]) l ++ tres (path ++ [true]) r
  | Edg p c => (path, Db (tnode path t)) :: tres (path ++ p) c
  end.

Definition bin_entry (k : K) (ho : option F) (path : BitVec) (l r : NodeHandle) : BitVec * place :=
  (path, Mem k (Binary (mkBinaryNode ho (length path) l r))).
Definition edge_entry (k : K) (ho : option F) (path p : BitVec) (c : NodeHandle) : BitVec * place :=
  (path, Mem k (Edge (mkEdgeNode ho (length path) p c))).

Fixpoint res (path : BitVec) (a : atree) : entries :=
  match a with
  | ALeaf _ => []
  | AStored t => tres path t
  | ABin k ho l r =>
      bin_entry k ho path (ahandle l) (ahandle r) :: res (path ++ [false]) l ++ res (path ++ [true]) r
  | AEdge k ho p c => edge_entry k ho path p (ahandle c) :: res (path ++ p) c
  end.

(** The nodes of the slot map among the entries. *)
Definition mems (l : entries) : list (K * Node) :=
  omap (M := list) (fun '(_, pl) => match pl with Mem k n => Some (k, n) | Db _ => None end) l.

(** A stored subtree, as an annotated tree; and once its node is loaded. *)
Definition astored (t : trie F) : atree :=
  match t with Leaf v => ALeaf v | _ => AStored t end.
Definition aloaded (k : K) (t : trie F) : atree :=
  match t with
  | Leaf v => ALeaf v
  | Bin l r => ABin k (Some (trie_hash t)) (astored l) (astored r)
  | Edg p c => AEdge k (Some (trie_hash t)) p (astored c)
  end.

Lemma strip_astored t : strip (astored t) = t.
Proof. by destruct t. Qed.
Lemma ahandle_astored t : ahandle (astored t) = Hash (trie_hash t).
Proof. by destruct t. Qed.
Lemma res_astored path t : res path (astored t) = tres path t.
Proof. by destruct t. Qed.
Lemma agood_astored t : agood (astored t).
Proof. by destruct t. Qed.

Lemma strip_aloaded k t : strip (aloaded k t) = t.
Proof. destruct t; cbn; by rewrite ?strip_astored. Qed.
Lemma agood_aloaded k t : agood (aloaded k t).
Proof. destruct t; cbn; auto using agood_astored. Qed.
Lemma ahandle_aloaded k t : is_leaf t = false -> ahandle (aloaded k t) = InMemory k.
Proof. by destruct t. Qed.

(** Loading a node moves its entry to the slot map. *)
Definition tbelow (path : BitVec) (t : trie F) : entries := drop 1 (tres path t).
Lemma tres_stored path t : is_leaf t = false -> tres path t = (path, Db (tnode path t)) :: tbelow path t.
Proof. by destruct t. Qed.
Lemma res_aloaded k path t :
  is_leaf t = false -> res path (aloaded k t) = (path, Mem k (tnode path t)) :: tbelow path t.
Proof. destruct t; cbn; intros; by rewrite ?ahandle_astored, ?res_astored. Qed.

(** ** Contexts, innermost frame first *)
Inductive frame : Type :=
| FBin (k : K) (ho : option F) (b : bool) (other : atree)  (* the hole is on side [b] *)
| FEdge (k : K) (ho : option F) (p : BitVec).
Abbreviation ctx := (list frame).

Definition frame_key (f : frame) : K := match f with FBin k _ _ _ | FEdge k _ _ => k end.
Definition frame_path (f : frame) : BitVec := match f with FBin _ _ b _ => [b] | FEdge _ _ p => p end.
Definition frame_plug (f : frame) (a : atree) : atree :=
  match f with
  | FBin k ho b o => if b then ABin k ho o a else ABin k ho a o
  | FEdge k ho p => AEdge k ho p a
  end.
Definition frame_node (f : frame) (path : BitVec) (h : NodeHandle) : Node :=
  match f with
  | FBin k ho b o =>
      Binary (if b then mkBinaryNode ho (length path) (ahandle o) h else mkBinaryNode ho (length path) h (ahandle o))
  | FEdge k ho p => Edge (mkEdgeNode ho (length path) p h)
  end.
Definition frame_res (f : frame) (path : BitVec) : entries :=
  match f with FBin _ _ b o => res (path ++ [negb b]) o | FEdge _ _ _ => [] end.
Definition frame_good (f : frame) : Prop := match f with FBin _ _ _ o => agood o | FEdge _ _ _ => True end.

Fixpoint cpath (C : ctx) : BitVec := match C with [] => [] | f :: C => cpath C ++ frame_path f end.
Fixpoint plug (C : ctx) (a : atree) : atree :=
  match C with [] => a | f :: C => plug C (frame_plug f a) end.
Fixpoint cres (C : ctx) (h : NodeHandle) : entries :=
  match C with
  | [] => []
  | f :: C => (cpath C, Mem (frame_key f) (frame_node f (cpath C) h)) :: frame_res f (cpath C) ++ cres C (InMemory (frame_key f))
  end.
(** What the iterator records on its way to the hole. *)
Fixpoint cheights (C : ctx) : list (K * nat) :=
  match C with [] => [] | f :: C => cheights C ++ [(frame_key f, length (cpath C))] end.
Definition cgood (C : ctx) : Prop := Forall frame_good C.

Lemma ahandle_frame_plug f a : ahandle (frame_plug f a) = InMemory (frame_key f).
Proof. by destruct f as [? ? []|]. Qed.

Lemma res_frame_plug f path a :
  res path (frame_plug f a) ≡ₚ
  (path, Mem (frame_key f) (frame_node f path (ahandle a))) :: frame_res f path ++ res (path ++ frame_path f) a.
Proof. destruct f as [k ho [] o|k ho p]; cbn; [done| |done]. by rewrite (comm (++)). Qed.

Lemma res_plug C a : res [] (plug C a) ≡ₚ cres C (ahandle a) ++ res (cpath C) a.
Proof.
  revert a. induction C as [|f C IH]; intros a; [done|]. cbn [plug].
  rewrite IH, ahandle_frame_plug, res_frame_plug. cbn. solve_Permutation.
Qed.

Lemma agood_plug C a : agood (plug C a) <-> cgood C /\ agood a.
Proof.
  unfold cgood. revert a. induction C as [|f C IH]; intros a; cbn; [naive_solver constructor|].
  rewrite IH, Forall_cons. destruct f as [k ho [] o|]; cbn; naive_solver.
Qed.

Lemma cheights_length C : length (cheights C) = length C.
Proof. induction C; [done|]. cbn. rewrite length_app. cbn. lia. Qed.

(** ** Paths of entries *)

(** The entries below [path] in a tree of height [n]. *)
Definition within (path : BitVec) (n : nat) (q : BitVec) : Prop :=
  path `prefix_of` q /\ length q < length path + n.

Lemma within_app path p n q : length p <= n -> within (path ++ p) (n - length p) q -> within path n q.
Proof.
  intros Hp [Hpre Hlen]. rewrite length_app in Hlen. split; [by eapply prefix_app_l|lia].
Qed.

Lemma within_self path n : 0 < n -> within path n path.
Proof. split; [done|lia]. Qed.

Lemma within_bit_disjoint path n q b : within (path ++ [b]) n q -> within (path ++ [negb b]) n q -> False.
Proof.
  intros [Hp _] [Hp' _]. destruct (prefix_weak_total _ _ _ Hp Hp') as [H1|H1];
    apply prefix_app_inv, prefix_cons_inv_1 in H1; by destruct b.
Qed.

Lemma within_below path p n : p <> [] -> within (path ++ p) n path -> False.
Proof. intros Hp [Hpre%prefix_length _]. rewrite length_app in Hpre. destruct p; [done|cbn in *; lia]. Qed.

Lemma within_step path b n q : within (path ++ [b]) n q -> within path (S n) q.
Proof. intros [Hp Hl]. rewrite length_app in Hl. cbn in Hl. split; [by eapply prefix_app_l|lia]. Qed.

Lemma trie_wf_height n t : trie_wf n t -> is_leaf t = false -> 0 < n.
Proof.
  destruct t as [|l r|p c]; cbn; [done|destruct n; [done|lia]|].
  intros (Hp & Hl & _). destruct p; [done|cbn in *; lia].
Qed.

Lemma tres_within path n t : trie_wf n t -> Forall (fun e => within path n e.1) (tres path t).
Proof.
  revert path n. induction t as [v|l IHl r IHr|p c IH]; intros path n Hwf; [constructor| |].
  - destruct n as [|n]; [done|]. destruct Hwf as [Hl Hr].
    apply Forall_cons. split; [apply within_self; lia|]. apply Forall_app.
    split; (eapply Forall_impl; [eauto|]); cbn; intros e He; revert He; apply within_step.
  - pose proof Hwf as (Hp & Hlen & Hc & _). apply Forall_cons.
    split; [apply within_self; by eapply trie_wf_height|].
    eapply Forall_impl; [eauto|]. intros e He. by eapply within_app.
Qed.

Lemma res_within path n a : trie_wf n (strip a) -> Forall (fun e => within path n e.1) (res path a).
Proof.
  revert path n. induction a as [v|t|k ho l IHl r IHr|k ho p c IH]; intros path n Hwf.
  - constructor.
  - by apply tres_within.
  - destruct n as [|n]; [done|]. destruct Hwf as [Hl Hr].
    apply Forall_cons. split; [apply within_self; lia|]. apply Forall_app.
    split; (eapply Forall_impl; [eauto|]); cbn; intros e He; revert He; apply within_step.
  - pose proof Hwf as (Hp & Hlen & Hc & _). apply Forall_cons.
    split; [apply within_self; by eapply trie_wf_height|].
    eapply Forall_impl; [eauto|]. intros e He. by eapply within_app.
Qed.

(** Entries of a binary node, of an edge: distinct paths. *)
Lemma NoDup_bin {A} path n (l r : list (BitVec * A)) (x : A) :
  Forall (fun e => within (path ++ [false]) n e.1) l ->
  Forall (fun e => within (path ++ [true]) n e.1) r ->
  NoDup l.*1 -> NoDup r.*1 -> NoDup ((path, x) :: l ++ r).*1.
Proof.
  rewrite !Forall_forall. intros Hl Hr Nl Nr. cbn. apply NoDup_cons. rewrite fmap_app. split.
  - rewrite elem_of_app, !list_elem_of_fmap. intros [(e & He & Hin)|(e & He & Hin)].
    + apply Hl in Hin. rewrite <- He in Hin. by apply within_below in Hin.
    + apply Hr in Hin. rewrite <- He in Hin. by apply within_below in Hin.
  - apply NoDup_app. split; [done|split; [|done]].
    intros q (e & He & Hin)%list_elem_of_fmap (e' & He' & Hin')%list_elem_of_fmap.
    apply Hl in Hin. apply Hr in Hin'. rewrite <- He in Hin. rewrite <- He' in Hin'.
    by apply (within_bit_disjoint _ _ _ _ Hin).
Qed.

Lemma NoDup_edge {A} path p n (l : list (BitVec * A)) (x : A) :
  p <> [] -> Forall (fun e => within (path ++ p) n e.1) l -> NoDup l.*1 -> NoDup ((path, x) :: l).*1.
Proof.
  rewrite Forall_forall. intros Hp Hl Nl. cbn. apply NoDup_cons. split; [|done].
  intros (e & He & Hin)%list_elem_of_fmap. apply Hl in Hin. rewrite <- He in Hin.
  by apply within_below in Hin.
Qed.

Lemma tres_NoDup path n t : trie_wf n t -> NoDup (tres path t).*1.
Proof.
  revert path n. induction t as [v|l IHl r IHr|p c IH]; intros path n Hwf; [constructor| |].
  - destruct n as [|n]; [done|]. destruct Hwf as [Hl Hr].
    eapply (NoDup_bin path n); eauto using tres_within.
  - destruct Hwf as (Hp & _ & Hc & _). eapply NoDup_edge; eauto using tres_within.
Qed.

Lemma res_NoDup path n a : trie_wf n (strip a) -> NoDup (res path a).*1.
Proof.
  revert path n. induction a as [v|t|k ho l IHl r IHr|k ho p c IH]; intros path n Hwf.
  - constructor.
  - by eapply tres_NoDup.
  - destruct n as [|n]; [done|]. destruct Hwf as [Hl Hr].
    eapply (NoDup_bin path n); eauto using res_within.
  - destruct Hwf as (Hp & _ & Hc & _). eapply NoDup_edge; eauto using res_within.
Qed.

(** At full height there is a leaf. *)
Lemma leaf_at_height (a : atree) : trie_wf 0 (strip a) -> agood a -> exists v, a = ALeaf v.
Proof.
  destruct a as [v|t|k ho l r|k ho p c]; cbn.
  - eauto.
  - intros Hwf Hg. pose proof (trie_wf_height _ _ Hwf Hg); lia.
  - done.
  - intros (Hp & Hl & _). destruct p; [done|cbn in *; lia].
Qed.

(** ** The trie in a context *)

(** Well-formedness of the part in the hole, and of the tree around any
    replacement that keeps the edges maximal. *)
Lemma plug_wf n C a :
  trie_wf n (strip (plug C a)) ->
  length (cpath C) <= n /\ trie_wf (n - length (cpath C)) (strip a) /\
  (forall a', trie_wf (n - length (cpath C)) (strip a') ->
     (is_edge (strip a') = true -> is_edge (strip a) = true \/ (match C with FEdge _ _ _ :: _ => False | _ => True end)) ->
     trie_wf n (strip (plug C a'))).
Proof.
  revert a. induction C as [|f C IH]; intros a Hwf; cbn [plug cpath] in *.
  { cbn. rewrite Nat.sub_0_r. split; [lia|]. split; [done|]. auto. }
  destruct (IH _ Hwf) as (Hlen & Ha & Hrepl). rewrite length_app.
  destruct f as [k ho b o|k ho p]; cbn [frame_path frame_plug length] in *.
  - destruct (n - length (cpath C)) as [|n'] eqn:Hn; [by destruct b|].
    assert (n - (length (cpath C) + 1) = n') as -> by lia.
    assert (trie_wf n' (strip a) /\ trie_wf n' (strip o)) as [Ha' Ho] by (destruct b; cbn in Ha; tauto).
    split; [lia|]. split; [done|]. intros a' Hwf' _. apply Hrepl; [by destruct b|]. by destruct b.
  - destruct Ha as (Hp & Hl & Hc & He). rewrite Nat.sub_add_distr.
    split; [lia|]. split; [done|]. intros a' Hwf' Hedge. apply Hrepl.
    + cbn. repeat split; try done. destruct (is_edge (strip a')); [|done].
      destruct Hedge as [Hedge|[]]; [done|]. cbn in Hedge. congruence.
    + cbn. by left.
Qed.

Lemma trie_insert_plug C a a' k v :
  trie_insert (strip a) k v = strip a' ->
  trie_insert (strip (plug C a)) (cpath C ++ k) v = strip (plug C a').
Proof.
  revert a a' k. induction C as [|f C IH]; intros a a' k Hins; [done|].
  cbn [plug cpath]. rewrite <- app_assoc. apply IH.
  destruct f as [kf ho b o|kf ho p]; cbn [frame_path frame_plug strip].
  - destruct b; cbn; by rewrite Hins.
  - by rewrite trie_insert_edge_match, Hins.
Qed.

Lemma trie_lookup_plug C a k : trie_lookup (strip (plug C a)) (cpath C ++ k) = trie_lookup (strip a) k.
Proof.
  revert a k. induction C as [|f C IH]; intros a k; [done|].
  cbn [plug cpath]. rewrite <- app_assoc, IH.
  destruct f as [kf ho b o|kf ho p]; cbn [frame_path frame_plug strip]; [by destruct b|].
  by rewrite trie_lookup_edge.
Qed.

(** Deletion in a context that does not merge with the hole. *)
Lemma trie_delete_plug n C a a' k :
  trie_wf n (strip (plug C a)) ->
  trie_delete (strip a) k = Some (strip a') ->
  (is_edge (strip a') = true -> match C with FEdge _ _ _ :: _ => False | _ => True end) ->
  trie_delete (strip (plug C a)) (cpath C ++ k) = Some (strip (plug C a')).
Proof.
  revert a a' k. induction C as [|f C IH]; intros a a' k Hwf Hdel Hedge; [done|].
  cbn [plug cpath] in *. rewrite <- app_assoc. destruct (plug_wf _ _ _ Hwf) as (_ & Hf & _). apply IH; [done| |].
  - destruct f as [kf ho b o|kf ho p]; cbn [frame_path frame_plug strip].
    + destruct b; cbn; by rewrite Hdel.
    + cbn. rewrite drop_app_length, Hdel. cbn. f_equal.
      destruct (strip a') as [| |p' c']; [done|done|]. by destruct Hedge.
  - destruct f as [kf ho b o|kf ho p]; cbn; [by destruct b|]. intros _.
    destruct C as [|[|kf' ho' p'] C]; [done|done|]. cbn [plug frame_plug] in Hwf.
    destruct (plug_wf _ _ _ Hwf) as (_ & Hf' & _). cbn in Hf'. naive_solver.
Qed.
End Annot.
Arguments atree : clear implicits.
Arguments frame : clear implicits.
Arguments place : clear implicits.
