(* ===== verification/TreeInv.v ===== *)
(** * The invariant of a [MerkleTree]

    [tree_rep ht d self oa]: over a database with contents [d], the tree
    [self] of height [ht] holds the annotated tree [oa] ([None]: empty). The
    slot map holds the in-memory nodes of [oa] and nothing else, the database
    holds its stored nodes, and a trie key of the database belongs to the tree
    or is in the death row. *)
From S2P Require Import Prelude Path Id Database Error External MerkleNode Trie Changes KeyValueDb Tree Annot.

Definition node_key (identifier : ByteVec) (q : BitVec) : TrieKey :=
  TrieKey_new identifier TrieKeyType_Trie (Path_encode q).
Definition flat_key (identifier : ByteVec) (k : BitVec) : TrieKey :=
  TrieKey_new identifier TrieKeyType_Flat (bitslice_to_bytes k).

(** The keys a tree puts in its death row: those of its nodes, and the keys
    without identifier of the edges it splits. *)
Definition row_key (identifier : ByteVec) (ht : nat) (key : TrieKey) : Prop :=
  exists q, length q <= ht /\ (key = node_key identifier q \/ key = TrieKey_Trie (bitslice_to_bytes q)).

Lemma row_key_node identifier ht q : length q <= ht -> row_key identifier ht (node_key identifier q).
Proof. intros Hq. exists q. auto. Qed.
Lemma row_key_split identifier ht q : length q <= ht -> row_key identifier ht (TrieKey_Trie (bitslice_to_bytes q)).
Proof. intros Hq. exists q. auto. Qed.
Lemma row_key_not_flat identifier ht bytes : ~ row_key identifier ht (TrieKey_Flat bytes).
Proof. by intros (q & _ & [|]). Qed.

Lemma node_key_inj identifier p q :
  length p <= 255 -> length q <= 255 -> node_key identifier p = node_key identifier q -> p = q.
Proof. intros Hp Hq [= H%app_inv_head]. by apply Path_encode_inj. Qed.

Lemma flat_key_inj identifier p q :
  length p <= 255 -> length q <= 255 -> flat_key identifier p = flat_key identifier q -> p = q.
Proof. intros Hp Hq [= H%app_inv_head]. by apply bitslice_to_bytes_inj. Qed.

(** ** Slot maps as lists of nodes *)
Section NodesRep.
Context {K V : Type} `{Countable K}.
Implicit Types (m : gmap K V) (l : list (K * V)).

Definition nodes_rep m l : Prop := m = list_to_map l /\ NoDup l.*1.

Lemma nodes_rep_nil : nodes_rep ∅ [].
Proof. split; [done|constructor]. Qed.

Lemma nodes_rep_perm m l l' : l ≡ₚ l' -> nodes_rep m l -> nodes_rep m l'.
Proof.
  intros Hl [-> Hn]. split; [by apply list_to_map_proper|]. by rewrite <- Hl.
Qed.

Lemma nodes_rep_lookup m l k v : nodes_rep m l -> (k, v) ∈ l -> m !! k = Some v.
Proof. intros [-> Hn] Hin. by apply elem_of_list_to_map_1. Qed.

Lemma nodes_rep_insert m l k v : nodes_rep m l -> m !! k = None -> nodes_rep (<[k := v]> m) ((k, v) :: l).
Proof.
  intros [-> Hn] Hk. split; [done|]. cbn. apply NoDup_cons. split; [|done].
  by apply not_elem_of_list_to_map.
Qed.

Lemma nodes_rep_assign m l k v v' : nodes_rep m ((k, v) :: l) -> nodes_rep (<[k := v']> m) ((k, v') :: l).
Proof. intros [-> Hn]. split; [|done]. cbn. by rewrite insert_insert_eq. Qed.

Lemma nodes_rep_delete m l k v : nodes_rep m ((k, v) :: l) -> nodes_rep (delete k m) l.
Proof.
  intros [-> Hn]. cbn in Hn. apply NoDup_cons in Hn as [Hk Hn]. split; [|done].
  cbn. rewrite delete_insert_id; [done|]. by apply not_elem_of_list_to_map.
Qed.

Lemma nodes_rep_size m l : nodes_rep m l -> size m = length l.
Proof.
  intros [-> Hn]. induction l as [|[k v] l IH]; [done|]. cbn in *. apply NoDup_cons in Hn as [Hk Hn].
  rewrite map_size_insert_None by (by apply not_elem_of_list_to_map). by rewrite IH.
Qed.
End NodesRep.

Section TreeInv.
Context {F K : Type} {M : Type -> Type} {DB ID : Type}.
Context `{StarkFelt F, !StarkHash F, SlotMap K M, !LawfulSlotMap K M, !NodeCodec F K, BonsaiDatabase DB, Id ID}.
Abbreviation MerkleTree := (MerkleTree F K M).
Abbreviation Node := (Node F K).
Abbreviation KeyValueDB := (KeyValueDB DB ID).
Abbreviation error := (BonsaiStorageError (DatabaseError DB)).
Implicit Types self : MerkleTree.

(** ** The slot-map primitives *)

Lemma wp_nodes_insert n self l (Q : MerkleTree -> K -> Prop) :
  nodes_rep (slot_view self.(nodes)) l ->
  (forall k m', nodes_rep (slot_view m') ((k, n) :: l) -> Q (set_nodes m' self) k) ->
  wp (nodes_insert (DB := DB) n) self Q.
Proof.
  intros Hl HQ. pose proof (slot_insert_fresh _ self.(nodes) n) as Hfresh.
  pose proof (slot_view_insert _ self.(nodes) n) as Hview.
  unfold wp, nodes_insert. destruct (slot_insert self.(nodes) n) as [k m'] eqn:Hins.
  eexists _, k. split; [done|]. apply HQ. cbn in *. rewrite Hview. by apply nodes_rep_insert.
Qed.

Lemma wp_nodes_assign k n n0 self l (Q : MerkleTree -> unit -> Prop) :
  nodes_rep (slot_view self.(nodes)) ((k, n0) :: l) ->
  (forall m', nodes_rep (slot_view m') ((k, n) :: l) -> Q (set_nodes m' self) tt) ->
  wp (nodes_assign (DB := DB) k n) self Q.
Proof.
  intros Hl HQ. pose proof (nodes_rep_lookup _ _ k n0 Hl ltac:(by left)) as Hk.
  unfold wp, nodes_assign, slot_get. rewrite Hk. eexists _, tt. split; [done|]. apply HQ.
  rewrite slot_view_set by done. by eapply nodes_rep_assign.
Qed.

Lemma wp_nodes_remove k n self l (Q : MerkleTree -> unit -> Prop) :
  nodes_rep (slot_view self.(nodes)) ((k, n) :: l) ->
  (forall m', nodes_rep (slot_view m') l -> Q (set_nodes m' self) tt) ->
  wp (nodes_remove (DB := DB) k) self Q.
Proof.
  intros Hl HQ. apply wp_modify, HQ. rewrite slot_view_remove. by eapply nodes_rep_delete.
Qed.

Lemma wp_get_node k n self l (Q : MerkleTree -> Node -> Prop) :
  nodes_rep (slot_view self.(nodes)) l -> (k, n) ∈ l -> Q self n ->
  wp (MerkleTree_get_node_mut (DB := DB) k) self Q.
Proof.
  intros Hl Hin HQ. exists self, n. split; [|done].
  unfold MerkleTree_get_node_mut, slot_get. by rewrite (nodes_rep_lookup _ _ _ _ Hl Hin).
Qed.

(** ** The database *)
Definition kv_view (kv : KeyValueDB) (d : TrieKey -> option ByteVec) : Prop :=
  forall key, KeyValueDB_get kv key = Ok (d key).

(** ** The invariant *)
Definition ores (oa : option (atree F K)) : list (BitVec * place F K) :=
  match oa with Some a => res [] a | None => [] end.

Definition root_ok (root : option (RootHandle K)) (oa : option (atree F K)) : Prop :=
  match root, oa with
  | None, None => True
  | None, Some (AStored _) => True
  | Some RootHandle_Empty, None => True
  | Some (RootHandle_Loaded k), Some a => ahandle a = InMemory k
  | _, _ => False
  end.

Record tree_rep (ht : nat) (d : TrieKey -> option ByteVec) (self : MerkleTree) (oa : option (atree F K)) : Prop := {
  rep_height : self.(max_height) = ht;
  rep_nodes : nodes_rep (slot_view self.(nodes)) (mems (ores oa));
  rep_root : root_ok self.(root_node) oa;
  rep_db : forall q n, (q, Db n) ∈ ores oa ->
    d (node_key self.(identifier) q) = Some (Node_encode_fields n) /\
    node_key self.(identifier) q ∉ self.(death_row);
  rep_cover : forall q, length q <= ht -> is_Some (d (node_key self.(identifier) q)) ->
    q ∈ (ores oa).*1 \/ node_key self.(identifier) q ∈ self.(death_row);
  rep_row : forall key, key ∈ self.(death_row) -> row_key self.(identifier) ht key;
  rep_wf : otrie_wf ht (strip <$> oa);
  rep_good : match oa with Some a => agood a | None => True end;
}.

(** A step that keeps the identifier: what remains to be shown. *)
Lemma tree_rep_update ht d self self' oa oa' :
  tree_rep ht d self oa ->
  self'.(max_height) = self.(max_height) -> self'.(identifier) = self.(identifier) ->
  self.(death_row) ⊆ self'.(death_row) ->
  (forall key, key ∈ self'.(death_row) -> key ∈ self.(death_row) \/ row_key self.(identifier) ht key) ->
  nodes_rep (slot_view self'.(nodes)) (mems (ores oa')) ->
  root_ok self'.(root_node) oa' ->
  otrie_wf ht (strip <$> oa') ->
  match oa' with Some a => agood a | None => True end ->
  (forall q n, (q, Db n) ∈ ores oa' -> (q, Db n) ∈ ores oa /\
     (node_key self.(identifier) q ∈ self'.(death_row) -> node_key self.(identifier) q ∈ self.(death_row))) ->
  (forall q, q ∈ (ores oa).*1 -> q ∈ (ores oa').*1 \/ node_key self.(identifier) q ∈ self'.(death_row)) ->
  tree_rep ht d self' oa'.
Proof.
  intros [Hht _ _ Hdb Hcov Hrow0 _ _] Hh Hid Hd Hd' Hn Hr Hwf Hg Hdb' Hcov'. split; try done.
  - by rewrite Hh.
  - intros q n Hq. rewrite Hid. destruct (Hdb' q n Hq) as [Hold Hrow].
    destruct (Hdb q n Hold). split; [done|]. auto.
  - intros q Hlen Hq. rewrite Hid in *. destruct (Hcov q Hlen Hq) as [Hc|Hc]; [by apply Hcov'|right; set_solver].
  - intros key Hkey. rewrite Hid. destruct (Hd' key Hkey); auto.
Qed.

Lemma mems_app (l l' : list (BitVec * place F K)) : mems (l ++ l') = mems l ++ mems l'.
Proof. apply omap_app. Qed.

#[export] Instance mems_proper : Proper ((≡ₚ) ==> (≡ₚ)) (mems (F := F) (K := K)).
Proof. intros l l' Hl. by apply omap_Permutation. Qed.

Lemma mems_mem q k n (l : list (BitVec * place F K)) : mems ((q, Mem k n) :: l) = (k, n) :: mems l.
Proof. done. Qed.
Lemma mems_db q n (l : list (BitVec * place F K)) : mems ((q, Db n) :: l) = mems l.
Proof. done. Qed.

Lemma mems_tres path t : mems (tres (K := K) path t) = [].
Proof.
  revert path. induction t as [v|l IHl r IHr|p c IH]; intros path; [done| |apply IH].
  cbn [tres]. by rewrite mems_db, mems_app, IHl, IHr.
Qed.

Lemma mems_tbelow path t : mems (tbelow (K := K) path t) = [].
Proof.
  destruct t as [v|l r|p c]; [done| |apply mems_tres].
  change (mems (tres (K := K) (path ++ [false]) l ++ tres (path ++ [true]) r) = []).
  by rewrite mems_app, !mems_tres.
Qed.
End TreeInv.

(** ** The nodes in memory form a tree *)
Section Shape.
Context {F K : Type} {M : Type -> Type} `{StarkFelt F, !StarkHash F, SlotMap K M, !NodeCodec F K}.
Abbreviation MerkleTree := (MerkleTree F K M).
Abbreviation Node := (Node F K).
Implicit Types (a : atree F K) (nd : Node) (l : list (K * Node)).

Definition node_height nd : nat :=
  match nd with Binary b => b.(binary_height) | Edge e => e.(edge_height) end.

(** The children of a node, with the height they must have. *)
Definition node_children nd : list (NodeHandle F K * nat) :=
  match nd with
  | Binary b => [(b.(binary_left), S b.(binary_height)); (b.(binary_right), S b.(binary_height))]
  | Edge e => [(e.(edge_child), e.(edge_height) + length e.(edge_path))]
  end.

Definition handle_key (h : NodeHandle F K) : list K := match h with InMemory k => [k] | Hash _ => [] end.
Definition root_key (root : option (RootHandle K)) : list K :=
  match root with Some (RootHandle_Loaded k) => [k] | _ => [] end.

(** The keys a list of nodes refers to. *)
Definition node_refs l : list K := l ≫= fun kn => node_children kn.2 ≫= fun c => handle_key c.1.

(** A node of the list [l] in a tree of height [ht]: its children are one level
    (or the length of its path) below, those in memory are in the list at that
    level. *)
Definition node_typed (ht : nat) l nd : Prop :=
  node_height nd < ht /\
  Forall (fun c => node_height nd < c.2 <= ht /\
    forall k, c.1 = InMemory k -> exists nd', (k, nd') ∈ l /\ node_height nd' = c.2) (node_children nd).

Lemma node_typed_mono ht l l' nd : l ⊆ l' -> node_typed ht l nd -> node_typed ht l' nd.
Proof.
  intros Hl [Hh Hc]. split; [done|]. eapply Forall_impl; [exact Hc|]. intros c [Hlt Hk]. split; [done|].
  intros k Hck. destruct (Hk k Hck) as (nd' & Hin & ?). exists nd'. auto.
Qed.

Lemma node_refs_app l l' : node_refs (l ++ l') = node_refs l ++ node_refs l'.
Proof. apply bind_app. Qed.

(** Every node but the root is referred to once. *)
Lemma res_refs a path : handle_key (ahandle a) ++ node_refs (mems (res path a)) ≡ₚ (mems (res path a)).*1.
Proof.
  revert path. induction a as [v|t|k ho l IHl r IHr|k ho p c IH]; intros path.
  - done.
  - cbn [res]. by rewrite mems_tres.
  - cbn [res]. unfold bin_entry. rewrite mems_mem, mems_app. cbn [ahandle handle_key fmap list_fmap fst]. rewrite fmap_app, <- IHl, <- IHr.
    unfold node_refs. cbn [mbind list_bind snd node_children binary_left binary_right fst]. rewrite bind_app, app_nil_r. fold (node_refs (mems (res (path ++ [false]) l))). fold (node_refs (mems (res (path ++ [true]) r))).
    cbn [app]. f_equiv. solve_Permutation.
  - cbn [res]. unfold edge_entry. rewrite mems_mem. cbn [ahandle handle_key fmap list_fmap fst]. rewrite <- IH.
    unfold node_refs. cbn [mbind list_bind snd node_children edge_child fst]. by rewrite app_nil_r.
Qed.

Lemma res_head a path k :
  ahandle a = InMemory k -> exists nd, (k, nd) ∈ mems (res path a) /\ node_height nd = length path.
Proof.
  destruct a as [v|t|k' ho l r|k' ho p c]; intros [=]; subst; cbn [res].
  - unfold bin_entry. rewrite mems_mem. eexists. split; [by left|done].
  - unfold edge_entry. rewrite mems_mem. eexists. split; [by left|done].
Qed.

Lemma res_typed a path n :
  trie_wf n (strip a) -> Forall (fun kn => node_typed (length path + n) (mems (res path a)) kn.2) (mems (res path a)).
Proof.
  revert path n. induction a as [v|t|k ho l IHl r IHr|k ho p c IH]; intros path n Hwf; cbn [strip] in Hwf.
  - constructor.
  - cbn [res]. rewrite mems_tres. constructor.
  - destruct n as [|n]; [done|]. destruct Hwf as [Hl Hr]. cbn [res]. unfold bin_entry. rewrite mems_mem, mems_app.
    specialize (IHl (path ++ [false]) n Hl). specialize (IHr (path ++ [true]) n Hr). rewrite !length_app in IHl, IHr. cbn [length] in *.
    replace (length path + 1 + n) with (length path + S n) in IHl, IHr by lia.
    apply Forall_cons. split; [|apply Forall_app; split].
    + split; [cbn; lia|]. apply Forall_cons; split; [|apply Forall_singleton]; (split; [cbn; lia|]);
        intros k' Hk'; [destruct (res_head l (path ++ [false]) k' Hk') as (nd & Hin & Hh)|destruct (res_head r (path ++ [true]) k' Hk') as (nd & Hin & Hh)];
        exists nd; rewrite Hh, length_app; cbn [length snd binary_height]; (split; [set_solver|lia]).
    + eapply Forall_impl; [exact IHl|]. intros kn. apply node_typed_mono. set_solver.
    + eapply Forall_impl; [exact IHr|]. intros kn. apply node_typed_mono. set_solver.
  - destruct Hwf as (Hp & Hle & Hc & _). cbn [res]. unfold edge_entry. rewrite mems_mem.
    specialize (IH (path ++ p) (n - length p) Hc). rewrite length_app in IH.
    replace (length path + length p + (n - length p)) with (length path + n) in IH by lia.
    assert (0 < length p) by (destruct p; [done|cbn; lia]).
    apply Forall_cons. split.
    + split; [cbn; lia|]. apply Forall_singleton. split; [cbn; lia|]. cbn [fst snd edge_child edge_height edge_path].
      intros k' (nd & Hin & Hh)%(res_head c (path ++ p)). exists nd. rewrite Hh, length_app. split; [by right|done].
    + eapply Forall_impl; [exact IH|]. intros kn. apply node_typed_mono. set_solver.
Qed.

(** The slot map of a tree holds a tree: every node in memory is referred to
    exactly once, by its parent or as the root; the root has height 0, and every
    node fits its place. *)
Record tree_shaped (T : MerkleTree) : Prop := {
  shaped_refs : root_key T.(root_node) ++ node_refs (map_to_list (slot_view T.(nodes))) ≡ₚ (map_to_list (slot_view T.(nodes))).*1;
  shaped_root : forall k, T.(root_node) = Some (RootHandle_Loaded k) ->
    exists nd, slot_view T.(nodes) !! k = Some nd /\ node_height nd = 0;
  shaped_nodes : map_Forall (fun _ nd => node_typed T.(max_height) (map_to_list (slot_view T.(nodes))) nd) (slot_view T.(nodes));
}.

Lemma rep_shaped ht d (T : MerkleTree) oa : tree_rep ht d T oa -> tree_shaped T.
Proof.
  intros [Hh [Hn Hnd] Hroot _ _ _ Hwf _].
  assert (map_to_list (slot_view T.(nodes)) ≡ₚ mems (ores oa)) as Hperm by (rewrite Hn; by apply map_to_list_to_map).
  assert (forall k, T.(root_node) = Some (RootHandle_Loaded k) -> exists a, oa = Some a /\ ahandle a = InMemory k) as Hk.
  { intros k Hr. rewrite Hr in Hroot. destruct oa as [a|]; [by exists a|done]. }
  split.
  - unfold node_refs. rewrite Hperm. fold (node_refs (mems (ores oa))).
    destruct oa as [a|]; cbn [ores].
    + rewrite <- (res_refs a []). f_equiv. cbn in Hroot. destruct (root_node T) as [[|k]|]; [done|by rewrite Hroot|by destruct a].
    + by destruct (root_node T) as [[|k]|].
  - intros k Hr. destruct (Hk k Hr) as (a & -> & Ha). destruct (res_head a [] k Ha) as (nd & Hin & Hnh). exists nd. split; [|done].
    rewrite Hn. by apply elem_of_list_to_map_1.
  - intros k nd Hl. apply elem_of_map_to_list in Hl as Hin. rewrite Hperm in Hin. destruct oa as [a|]; [|by apply elem_of_nil in Hin].
    pose proof (res_typed a [] ht Hwf) as Ht. rewrite Forall_forall in Ht. specialize (Ht _ Hin). rewrite Hh. cbn in Ht.
    eapply node_typed_mono; [|exact Ht]. intros x. by rewrite Hperm.
Qed.
End Shape.
