(* ===== verification/SeekSpec.v ===== *)
(** * Correctness of the traversal

    Seeking a key loads the nodes on its path, changes neither the trie the
    tree stands for nor its pending changes, and stops at the node where the
    key's path ends ([MerkleTree_seek_nodes_spec]). *)
From S2P Require Import Prelude Path Id Database Error External MerkleNode Trie Changes KeyValueDb Tree Iterator Annot TreeInv.

Section Loads.
Context {F K : Type} `{StarkFelt F, !StarkHash F}.

(** [a'] is [a] once its node is in memory under the key [k]. *)
Definition loads (k : K) (a a' : atree F K) : Prop :=
  (a' = a /\ ahandle a = InMemory k) \/ (exists t, a = AStored t /\ is_leaf t = false /\ a' = aloaded k t).

Lemma loads_strip k a a' : loads k a a' -> strip a' = strip a.
Proof. intros [[-> _]|(t & -> & _ & ->)]; [done|apply strip_aloaded]. Qed.
Lemma loads_handle k a a' : loads k a a' -> ahandle a' = InMemory k.
Proof. intros [[-> ?]|(t & -> & ? & ->)]; [done|by apply ahandle_aloaded]. Qed.
Lemma loads_good k a a' : loads k a a' -> agood a -> agood a'.
Proof. intros [[-> _]|(t & -> & _ & ->)] ?; [done|apply agood_aloaded]. Qed.
Lemma loads_paths k a a' path : loads k a a' -> (res path a').*1 = (res path a).*1.
Proof.
  intros [[-> _]|(t & -> & Ht & ->)]; [done|].
  rewrite res_aloaded by done. cbn [res]. by rewrite tres_stored.
Qed.
Lemma loads_db k a a' path q n : loads k a a' -> (q, Db n) ∈ res path a' -> (q, Db n) ∈ res path a.
Proof.
  intros [[-> _]|(t & -> & Ht & ->)]; [done|].
  rewrite res_aloaded by done. cbn [res]. rewrite tres_stored by done. set_solver.
Qed.
Lemma tnode_ok path n t :
  trie_wf n t -> is_leaf t = false -> length path + n <= 255 ->
  Node_hashed (tnode (K := K) path t) = true /\ Node_fits (tnode (K := K) path t).
Proof.
  intros Hwf Hl Hn. pose proof (trie_wf_height _ _ Hwf Hl).
  destruct t as [v|l r|p c]; [done|..]; cbn in *; (split; [done|lia]).
Qed.
End Loads.

Section SeekSpec.
Context {F K : Type} {M : Type -> Type} {DB ID : Type}.
Context `{StarkFelt F, !StarkHash F, SlotMap K M, !LawfulSlotMap K M, !NodeCodec F K, !LawfulNodeCodec F K,
  BonsaiDatabase DB, Id ID}.
Context (kv : KeyValueDB DB ID) (d : TrieKey -> option ByteVec) (ht : nat).
Context (Hkv : kv_view kv d) (Hht : ht <= 255).
Abbreviation MerkleTree := (MerkleTree F K M).
Abbreviation Iterator := (MerkleTreeIterator F K M).
Abbreviation error := (BonsaiStorageError (DatabaseError DB)).
Implicit Types self : MerkleTree.

(** ** Loading *)

Lemma wp_load_db_node key n self l (Q : MerkleTree -> option K -> Prop) :
  nodes_rep (slot_view self.(nodes)) l ->
  d key = Some (Node_encode_fields n) -> key ∉ self.(death_row) ->
  Node_hashed n = true -> Node_fits n ->
  (forall k m', nodes_rep (slot_view m') ((k, n) :: l) -> Q (set_nodes m' self) (Some k)) ->
  wp (MerkleTree_load_db_node kv key) self Q.
Proof.
  intros Hl Hd Hrow Hhash Hfits HQ. unfold MerkleTree_load_db_node.
  wp_step. wp_step. rewrite decide_False by done. wp_step.
  eapply wp_lift; [apply Hkv|]. rewrite Hd. wp_step.
  eapply wp_lift.
  { unfold from_CodecError. pose proof (Node_decode_encode n [] Hhash Hfits) as Hdec.
    rewrite app_nil_r in Hdec. rewrite Hdec. reflexivity. }
  wp_step. eapply wp_nodes_insert; [done|]. intros k m' Hm. by apply HQ.
Qed.

Lemma wp_load_db_node_none key self (Q : MerkleTree -> option K -> Prop) :
  d key = None \/ key ∈ self.(death_row) -> Q self None ->
  wp (MerkleTree_load_db_node kv key) self Q.
Proof.
  intros Hd HQ. unfold MerkleTree_load_db_node. wp_step. wp_step.
  case_decide as Hrow; [by wp_step|]. destruct Hd as [Hd|]; [|done]. wp_step.
  eapply wp_lift; [apply Hkv|]. rewrite Hd. by wp_step.
Qed.

(** ** The invariant along the loads *)

Lemma tree_rep_nodes self C a :
  tree_rep ht d self (Some (plug C a)) ->
  nodes_rep (slot_view self.(nodes)) (mems (cres C (ahandle a) ++ res (cpath C) a)).
Proof. intros Hrep. eapply nodes_rep_perm; [|apply (rep_nodes _ _ _ _ Hrep)]. cbn [ores]. by rewrite res_plug. Qed.

Lemma tree_rep_wf_hole self C a :
  tree_rep ht d self (Some (plug C a)) -> length (cpath C) <= ht /\ trie_wf (ht - length (cpath C)) (strip a).
Proof. intros Hrep. pose proof (rep_wf _ _ _ _ Hrep) as Hwf. apply plug_wf in Hwf. tauto. Qed.

Lemma tree_rep_good_hole self C a : tree_rep ht d self (Some (plug C a)) -> agood a.
Proof. intros Hrep. pose proof (rep_good _ _ _ _ Hrep) as Hg. by apply agood_plug in Hg as []. Qed.

Lemma strip_plug_eq C (a a' : atree F K) : strip a' = strip a -> strip (plug C a') = strip (plug C a).
Proof.
  revert a a'. induction C as [|f C IH]; intros a a' Ha; [done|]. cbn. apply IH.
  destruct f as [k ho [] o|]; cbn; by rewrite Ha.
Qed.

Lemma ahandle_plug_eq f C (a a' : atree F K) : ahandle (plug (f :: C) a') = ahandle (plug (f :: C) a).
Proof.
  revert f a a'. induction C as [|g C IH]; intros f a a'; cbn [plug]; [by rewrite !ahandle_frame_plug|].
  apply (IH g).
Qed.

Lemma plug_in_memory f C (a : atree F K) : exists k, ahandle (plug (f :: C) a) = InMemory k.
Proof.
  revert f a. induction C as [|g C IH]; intros f a; cbn [plug]; [rewrite ahandle_frame_plug; eauto|].
  apply (IH g).
Qed.

Lemma root_ok_plug r f C (a a' : atree F K) :
  root_ok r (Some (plug (f :: C) a)) -> root_ok r (Some (plug (f :: C) a')).
Proof.
  pose proof (ahandle_plug_eq f C a a') as Heq. destruct (plug_in_memory f C a) as [k Hk].
  unfold root_ok. destruct r as [[|k']|]; [done|congruence|]. by destruct (plug (f :: C) a).
Qed.

Lemma tree_rep_loads self self' C k a a' :
  tree_rep ht d self (Some (plug C a)) -> loads k a a' ->
  self'.(max_height) = self.(max_height) -> self'.(identifier) = self.(identifier) ->
  self'.(death_row) = self.(death_row) ->
  root_ok self'.(root_node) (Some (plug C a')) ->
  nodes_rep (slot_view self'.(nodes)) (mems (cres C (InMemory k) ++ res (cpath C) a')) ->
  tree_rep ht d self' (Some (plug C a')).
Proof.
  intros Hrep Hl Hh Hi Hd Hr Hn. eapply (tree_rep_update _ _ self); try done.
  - by rewrite Hd.
  - rewrite Hd. by left.
  - cbn [ores]. eapply nodes_rep_perm; [|apply Hn]. rewrite res_plug. by rewrite (loads_handle _ _ _ Hl).
  - cbn. rewrite (strip_plug_eq _ a a') by by eapply loads_strip. apply (rep_wf _ _ _ _ Hrep).
  - apply agood_plug. pose proof (rep_good _ _ _ _ Hrep) as Hg. apply agood_plug in Hg as [? ?].
    split; [done|]. by eapply loads_good.
  - intros q n. cbn [ores]. rewrite !res_plug, !elem_of_app. rewrite Hd. intros [Hq|Hq]; (split; [|done]).
    + left. clear -Hq. revert Hq. generalize (ahandle a) (ahandle a'). intros h h'.
      destruct C as [|f C]; [done|]. cbn. set_solver.
    + right. by eapply loads_db.
  - intros q Hq. left. revert Hq. cbn [ores]. rewrite !res_plug, !fmap_app, !elem_of_app.
    rewrite (loads_paths _ _ _ _ Hl). intros [Hq|Hq]; [left|by right].
    revert Hq. destruct C as [|f C]; [done|]. cbn. set_solver.
Qed.

(** Loading the node in the hole. *)
Lemma wp_load_child self C a (Q : MerkleTree -> K -> Prop) :
  tree_rep ht d self (Some (plug C a)) -> length (cpath C) < ht ->
  (forall k a' m', loads k a a' ->
     nodes_rep (slot_view m') (mems (cres C (ahandle a) ++ res (cpath C) a')) -> Q (set_nodes m' self) k) ->
  wp (MerkleTree_load_node_handle kv (ahandle a) (cpath C)) self Q.
Proof.
  intros Hrep Hlen HQ. pose proof (tree_rep_nodes _ _ _ Hrep) as Hn.
  destruct (tree_rep_wf_hole _ _ _ Hrep) as [_ Hwf]. pose proof (tree_rep_good_hole _ _ _ Hrep) as Hg.
  assert (forall k, ahandle a = InMemory k -> Q self k) as Hmem.
  { intros k Hk. replace self with (set_nodes self.(nodes) self) by (by destruct self).
    eapply (HQ k a); [by left|done]. }
  destruct a as [v|t|k ho l r|k ho p c]; cbn [ahandle MerkleTree_load_node_handle].
  - destruct Hwf as [Hwf _]. lia.
  - wp_step. wp_step. wp_step. cbn in Hg, Hwf.
    destruct (tnode_ok (K := K) (cpath C) _ t Hwf Hg) as [Hhash Hfits]; [lia|].
    destruct (rep_db _ _ _ _ Hrep (cpath C) (tnode (cpath C) t)) as [Hd Hrow].
    { cbn [ores]. rewrite res_plug, elem_of_app. right. cbn [res]. rewrite tres_stored by done. by left. }
    eapply wp_load_db_node; [exact Hn|exact Hd|exact Hrow|done|done|].
    intros k m' Hm. wp_step. apply (HQ k (aloaded k t)); [by right; eauto|].
    eapply nodes_rep_perm; [|exact Hm]. rewrite !mems_app, res_aloaded by done.
    cbn [res]. rewrite tres_stored by done. rewrite mems_mem, mems_db, mems_tbelow. solve_Permutation.
  - wp_step. by apply Hmem.
  - wp_step. by apply Hmem.
Qed.

Definition same_pending self self' : Prop :=
  self'.(identifier) = self.(identifier) /\ self'.(max_height) = self.(max_height) /\
  self'.(death_row) = self.(death_row) /\ self'.(cache_leaf_modified) = self.(cache_leaf_modified).

Lemma same_pending_trans self1 self2 self3 :
  same_pending self1 self2 -> same_pending self2 self3 -> same_pending self1 self3.
Proof. unfold same_pending. intuition congruence. Qed.

(** The parent's handle. *)
Lemma wp_update_parent_ref it f C h k (R : list (BitVec * place F K)) (Q : Iterator -> unit -> Prop) :
  it.(current_path) = cpath (f :: C) ->
  nodes_rep (slot_view it.(tree).(nodes)) (mems (cres (f :: C) h ++ R)) ->
  (forall m', nodes_rep (slot_view m') (mems (cres (f :: C) (InMemory k) ++ R)) ->
     Q (set_tree (set_nodes m' it.(tree)) it) tt) ->
  wp (update_parent_ref (DB := DB) (frame_key f) k) it Q.
Proof.
  intros Hpath Hn HQ. cbn [cres app] in Hn. rewrite mems_mem in Hn.
  unfold update_parent_ref, on_tree. wp_step. wp_step.
  eapply wp_get_node; [exact Hn|by left|].
  replace (set_tree (tree it) it) with it by (by destruct it).
  assert (forall node', node' = frame_node f (cpath C) (InMemory k) ->
    wp (zoom tree set_tree (nodes_assign (DB := DB) (frame_key f) node')) it Q) as Hassign.
  { intros node' ->. wp_step. eapply wp_nodes_assign; [exact Hn|]. intros m' Hm. by apply HQ. }
  destruct f as [kf ho b o|kf ho p]; cbn [frame_node frame_key] in *.
  - wp_step. wp_step. wp_step. eapply wp_lift.
    { rewrite Hpath. cbn [cpath frame_path]. by rewrite last_snoc. }
    apply Hassign. by destruct b.
  - by apply Hassign.
Qed.

(** ** One step *)

(** Whether an edge matches the rest of the key. *)
Lemma EdgeNode_path_matches_spec {E} (e : EdgeNode F K) pre rest :
  e.(edge_height) = length pre -> length e.(edge_path) <= length rest ->
  EdgeNode_path_matches (E := E) e (pre ++ rest) (length pre) = Ok (bool_decide (e.(edge_path) `prefix_of` rest)).
Proof.
  intros Hh Hlen. unfold EdgeNode_path_matches. rewrite decide_True by done. f_equal.
  rewrite length_app. rewrite !Nat.min_l by lia. unfold slice. rewrite drop_app_length.
  rewrite Nat.add_sub' by lia. apply bool_decide_ext. split.
  - intros [q Hq]. pose proof (f_equal length Hq) as Hl.
    rewrite length_app, length_take in Hl. destruct q; [|cbn in *; lia].
    rewrite app_nil_r in Hq. exists (drop (length e.(edge_path)) rest).
    rewrite Hq at 1. by rewrite take_drop.
  - intros [q ->]. by rewrite take_app_length.
Qed.

(** The node in the hole against the rest of the key: it leads on through a
    frame, or it is an edge that does not match. *)
Lemma hole_cases (foc : atree F K) kf rest :
  trie_wf (length rest) (strip foc) -> ahandle foc = InMemory kf ->
  (exists f child rest', foc = frame_plug f child /\ rest = frame_path f ++ rest' /\ kf = frame_key f /\ frame_path f <> []) \/
  (exists ho p c, foc = AEdge kf ho p c /\ ~ p `prefix_of` rest).
Proof.
  destruct foc as [v|t|k ho l r|k ho p c]; cbn; try done; intros Hwf [= ->].
  - destruct rest as [|b rest]; [done|]. left.
    exists (FBin kf ho b (if b then l else r)), (if b then r else l), rest. by destruct b.
  - destruct (decide (p `prefix_of` rest)) as [[rest' ->]|Hp]; [left|right; eauto 10].
    exists (FEdge kf ho p), c, rest'. by destruct Hwf.
Qed.

Lemma wp_traverse_node_match f path rest h key it (Q : Iterator -> NodeHandle F K * bool -> Prop) :
  it.(current_path) = path -> key = path ++ frame_path f ++ rest -> frame_path f <> [] ->
  Q (set_current_path (path ++ frame_path f) it) (h, true) ->
  wp (traverse_node (DB := DB) (frame_node f path h) (length path) key) it Q.
Proof.
  intros Hpath -> Hf HQ. destruct f as [kf ho b o|kf ho p]; cbn [frame_node frame_path] in *.
  - replace (Binary (if b then _ else _)) with
      (Binary (mkBinaryNode ho (length path) (if b then ahandle o else h) (if b then h else ahandle o))) by (by destruct b).
    cbn [traverse_node]. wp_step. wp_step. wp_step. eapply wp_lift.
    { unfold bit_index. rewrite Hpath, lookup_app_r, Nat.sub_diag by lia. reflexivity. }
    cbn zeta. wp_step. wp_step. wp_step. rewrite bool_from_Direction_from, Hpath.
    by destruct b.
  - cbn [traverse_node]. wp_step. wp_step. wp_step. eapply wp_lift.
    { apply EdgeNode_path_matches_spec; cbn; [done|]. rewrite length_app. lia. }
    wp_step. rewrite bool_decide_true by (by exists rest). by rewrite Hpath.
Qed.

Lemma wp_traverse_node_mismatch k ho (p : BitVec) (c : NodeHandle F K) path rest key it
    (Q : Iterator -> NodeHandle F K * bool -> Prop) :
  it.(current_path) = path -> key = path ++ rest -> length p <= length rest -> ~ p `prefix_of` rest ->
  Q (set_current_path (path ++ p) it) (c, false) ->
  wp (traverse_node (DB := DB) (frame_node (FEdge k ho p) path c) (length path) key) it Q.
Proof.
  intros Hpath -> Hlen Hp HQ. cbn [traverse_node frame_node].
  wp_step. wp_step. wp_step. eapply wp_lift.
  { by apply EdgeNode_path_matches_spec. }
  wp_step. rewrite bool_decide_false by done. by rewrite Hpath.
Qed.

(** Where the traversal stops. *)
Definition stop_at (foc : atree F K) (rest : BitVec) : Prop :=
  match foc with
  | AEdge _ _ p _ => ~ p `prefix_of` rest \/ rest = p
  | ABin _ _ _ _ => length rest = 1
  | _ => False
  end.

(** What the node adds to the path of the iterator. *)
Definition end_path (foc : atree F K) (rest : BitVec) : BitVec :=
  match foc with AEdge _ _ p _ => p | _ => rest end.

(** The iterator at the node in the hole of [C], about to visit it. *)
Record seek_at (key : BitVec) (C : list (frame F K)) (foc : atree F K) (rest : BitVec) (kf : K) (it : Iterator) : Prop := {
  at_tree : tree_rep ht d it.(tree) (Some (plug C foc));
  at_path : it.(current_path) = cpath C;
  at_nodes : it.(current_nodes_heights) = cheights C;
  at_key : key = cpath C ++ rest;
  at_handle : ahandle foc = InMemory kf;
}.

(** The iterator once it has stopped at that node. *)
Record seek_stopped (key : BitVec) (C : list (frame F K)) (foc : atree F K) (rest : BitVec) (kf : K) (it : Iterator) : Prop := {
  stopped_tree : tree_rep ht d it.(tree) (Some (plug C foc));
  stopped_path : it.(current_path) = cpath C ++ end_path foc rest;
  stopped_nodes : it.(current_nodes_heights) = cheights C ++ [(kf, length (cpath C))];
  stopped_key : key = cpath C ++ rest;
  stopped_handle : ahandle foc = InMemory kf;
  stopped_at : stop_at foc rest;
  stopped_leaf : it.(leaf_hash) = trie_lookup (strip foc) rest;
}.

(** The handle to a leaf is its value. *)
Lemma leaf_as_hash (a : atree F K) : trie_wf 0 (strip a) -> agood a -> NodeHandle_as_hash (ahandle a) = trie_lookup (strip a) [].
Proof. intros Hwf Hg. by destruct (leaf_at_height a Hwf Hg) as [v ->]. Qed.

Lemma hole_child_leaf self C f (a : atree F K) key :
  tree_rep ht d self (Some (plug C (frame_plug f a))) -> key = cpath C ++ frame_path f -> length key = ht ->
  NodeHandle_as_hash (ahandle a) = trie_lookup (strip a) [].
Proof.
  intros Hrep Hkey Hlen. change (plug C (frame_plug f a)) with (plug (f :: C) a) in Hrep.
  apply leaf_as_hash; [|by eapply (tree_rep_good_hole _ (f :: C))].
  destruct (tree_rep_wf_hole _ _ _ Hrep) as [_ Hwf]. cbn [cpath] in Hwf. by rewrite <- Hkey, Hlen, Nat.sub_diag in Hwf.
Qed.

Lemma wp_traverse_one key C foc rest kf it (Q : Iterator -> option K -> Prop) :
  seek_at key C foc rest kf it -> length key = ht ->
  (forall it', seek_stopped key C foc rest kf it' -> same_pending it.(tree) it'.(tree) ->
     it'.(tree).(root_node) = it.(tree).(root_node) -> Q it' None) ->
  (forall it' f foc0 foc' rest' kf', foc = frame_plug f foc0 -> loads kf' foc0 foc' ->
     rest = frame_path f ++ rest' -> frame_path f <> [] -> rest' <> [] ->
     seek_at key (f :: C) foc' rest' kf' it' -> same_pending it.(tree) it'.(tree) ->
     it'.(tree).(root_node) = it.(tree).(root_node) -> Q it' (Some kf')) ->
  wp (MerkleTreeIterator_traverse_one kv kf (length (cpath C)) key) it Q.
Proof.
  intros [Hrep Hpath Hnodes Hkey Hh] Hlen Hstop Hgo. unfold MerkleTreeIterator_traverse_one.
  destruct (tree_rep_wf_hole _ _ _ Hrep) as [HlC Hwf].
  pose proof (tree_rep_nodes _ _ _ Hrep) as Hn.
  assert (ht - length (cpath C) = length rest) as Hrest.
  { rewrite <- Hlen, Hkey, length_app. lia. }
  rewrite Hrest in Hwf.
  assert (forall it, same_pending (tree it) (tree it)) as Hsame by done.
  wp_step. wp_step. unfold on_tree. wp_step. wp_step. cbn [tree set_current_nodes_heights].
  destruct (hole_cases foc kf rest Hwf Hh) as
    [(f & child & rest' & -> & -> & -> & Hf)|(ho & p & c & -> & Hp)].
  - eapply wp_get_node; [exact Hn| |].
    { rewrite mems_app, elem_of_app. right. rewrite res_frame_plug, mems_mem. by left. }
    wp_step. eapply wp_traverse_node_match; [exact Hpath|exact Hkey|done|].
    wp_step. wp_step. cbn [current_path set_current_path negb orb].
    rewrite Hkey, !length_app. destruct rest' as [|b rest'].
    + rewrite (proj2 (Nat.leb_le _ _)) by (cbn; lia). wp_step. wp_step. wp_step. apply Hstop; [|done|done].
      rewrite app_nil_r in Hkey. pose proof (hole_child_leaf _ _ _ _ _ Hrep Hkey Hlen) as Hleaf.
      split; cbn; [done| |by rewrite Hnodes, Hpath|by rewrite app_nil_r|done| |].
      * destruct f as [? ? [] ?|]; by cbn.
      * destruct f as [? ? [] ?|]; cbn; auto using app_nil_r.
      * rewrite Nat.add_0_r, Nat.eqb_refl, Hleaf. destruct f as [? ? [] ?|]; cbn; [done..|].
        by rewrite app_nil_r, decide_True, drop_all by done.
    + rewrite (proj2 (Nat.leb_gt _ _)) by (cbn; lia).
      wp_step. wp_step. cbn [tree set_current_path set_tree set_current_nodes_heights].
      change (cpath C ++ frame_path f) with (cpath (f :: C)). change (plug C (frame_plug f child)) with (plug (f :: C) child) in Hrep.
      eapply (wp_load_child _ (f :: C) child); [exact Hrep| |].
      { rewrite <- Hlen, Hkey. cbn [cpath]. rewrite !length_app. cbn. lia. }
      intros k a' m' Hl Hm. wp_step. eapply wp_update_parent_ref; [done|exact Hm|].
      intros m'' Hm''. wp_step. eapply (Hgo _ f child a' (b :: rest')); try done.
      split; cbn [tree current_path current_nodes_heights set_tree set_current_path set_current_nodes_heights].
      * eapply tree_rep_loads; [exact Hrep|exact Hl|done..| |exact Hm''].
        eapply root_ok_plug, (rep_root _ _ _ _ Hrep).
      * done.
      * cbn [cheights]. by rewrite Hnodes, Hpath.
      * cbn [cpath]. by rewrite <- app_assoc.
      * by eapply loads_handle.
  - destruct Hwf as (Hp0 & Hpl & _).
    eapply wp_get_node; [exact Hn| |].
    { rewrite mems_app, elem_of_app. right. apply list_elem_of_here. }
    wp_step. eapply (wp_traverse_node_mismatch kf ho p (ahandle c)); [exact Hpath|exact Hkey|done|done|].
    wp_step. wp_step. cbn [negb orb andb]. wp_step. wp_step. wp_step. apply Hstop; [|done|done].
    split; cbn; [done|done|by rewrite Hnodes, Hpath|done|done|by left|by rewrite decide_False].
Qed.

(** ** The loop *)

(** The traversal with a visitor: [I] holds before a node is visited, [J] once
    it is. *)
Section Visit.
Context {V : Type} `{!NodeVisitor V F K M error}.
Context (I J : list (frame F K) -> atree F K -> V -> Prop).
Context (Hvisit : forall key C foc rest kf it v (Q : V * MerkleTree -> unit -> Prop),
  seek_at key C foc rest kf it -> I C foc v ->
  (forall v', J C foc v' -> Q (v', it.(tree)) tt) ->
  wp (visit_node kf (length (cpath C))) (v, it.(tree)) Q).
Context (Hstep : forall C f foc0 foc' kf v, J C (frame_plug f foc0) v -> loads kf foc0 foc' -> I (f :: C) foc' v).

Lemma wp_traverse_visit fuel key C foc rest kf it v (Q : V * Iterator -> unit -> Prop) :
  length rest < fuel -> seek_at key C foc rest kf it -> length key = ht -> rest <> [] -> I C foc v ->
  (forall C' foc' rest' kf' it' v', seek_stopped key C' foc' rest' kf' it' -> J C' foc' v' ->
     strip (plug C' foc') = strip (plug C foc) -> same_pending it.(tree) it'.(tree) ->
     it'.(tree).(root_node) = it.(tree).(root_node) -> Q (v', it') tt) ->
  wp (traverse_loop fuel kv key (Some kf)) (v, it) Q.
Proof.
  revert C foc rest kf it v. induction fuel as [|fuel IH]; intros C foc rest kf it v Hfuel Hat Hlen Hrest HI HQ; [lia|].
  cbn [traverse_loop]. wp_step. wp_step. wp_step. unfold on_visitor. wp_step.
  rewrite (at_path _ _ _ _ _ _ Hat). eapply Hvisit; [exact Hat|exact HI|]. intros v' HJ.
  wp_step. wp_step. wp_step. unfold on_iter. wp_step. cbn [snd].
  replace (set_tree (tree it) it) with it by (by destruct it).
  rewrite (at_path _ _ _ _ _ _ Hat).
  eapply wp_traverse_one; [exact Hat|done| |].
  - intros it' Hst Hsame Hroot. destruct fuel as [|fuel]; [destruct rest; [done|cbn in *; lia]|].
    apply wp_ret. by eapply HQ.
  - intros it' f foc0 foc' rest' kf' -> Hloads -> Hf Hrest' Hat' Hsame Hroot.
    eapply IH; [|exact Hat'|done|done|by eapply Hstep|].
    + rewrite length_app in Hfuel. destruct (frame_path f); [done|cbn in *; lia].
    + intros C' foc2 rest2 kf2 it2 v2 Hst HJ2 Hs2 Hsame2 Hroot2. eapply HQ; [exact Hst|exact HJ2| | |congruence].
      * rewrite Hs2. apply (strip_plug_eq (f :: C)). by eapply loads_strip.
      * by eapply same_pending_trans.
Qed.
End Visit.

Lemma wp_traverse_loop fuel key C foc rest kf it (Q : unit * Iterator -> unit -> Prop) :
  length rest < fuel -> seek_at key C foc rest kf it -> length key = ht -> rest <> [] ->
  (forall C' foc' rest' kf' it', seek_stopped key C' foc' rest' kf' it' ->
     strip (plug C' foc') = strip (plug C foc) -> same_pending it.(tree) it'.(tree) ->
     it'.(tree).(root_node) = it.(tree).(root_node) -> Q (tt, it') tt) ->
  wp (traverse_loop (V := unit) fuel kv key (Some kf)) (tt, it) Q.
Proof.
  intros Hfuel Hat Hlen Hrest HQ.
  eapply (wp_traverse_visit (fun _ _ _ => True) (fun _ _ _ => True)); try done.
  - intros ? ? ? ? ? ? [] ? _ _ HQ'. apply wp_ret. by apply HQ'.
  - intros C' foc' rest' kf' it' [] Hst _. by apply (HQ C' foc' rest' kf' it').
Qed.

(** ** From the root *)

Lemma Path_encode_root : [0%Z] = Path_encode [].
Proof. by rewrite Path_encode_nil. Qed.

Lemma wp_load_root self oa (Q : MerkleTree -> option K -> Prop) :
  tree_rep ht d self oa -> 0 < ht ->
  (forall self', oa = None -> tree_rep ht d self' None -> self'.(root_node) = Some RootHandle_Empty ->
     same_pending self self' -> Q self' None) ->
  (forall self' a a' k, oa = Some a -> loads k a a' -> tree_rep ht d self' (Some a') ->
     ahandle a' = InMemory k -> self'.(root_node) = Some (RootHandle_Loaded k) ->
     same_pending self self' -> Q self' (Some k)) ->
  wp (MerkleTree_load_root_node kv) self Q.
Proof.
  intros Hrep Hht0 Hnone Hsome. unfold MerkleTree_load_root_node. wp_step. wp_step.
  pose proof (rep_root _ _ _ _ Hrep) as Hr.
  destruct self.(root_node) as [[|k]|] eqn:Hroot; cbn [root_ok] in Hr.
  - wp_step. destruct oa as [a|]; [done|]. by apply Hnone.
  - wp_step. destruct oa as [a|]; [|done]. eapply (Hsome _ a a); [done|by left|done..].
  - wp_step. wp_step. wp_step. rewrite Path_encode_root.
    change (TrieKey_new self.(identifier) TrieKeyType_Trie (Path_encode [])) with (node_key self.(identifier) []).
    destruct oa as [[|t| |]|]; try done.
    + pose proof (rep_wf _ _ _ _ Hrep) as Hwf. pose proof (rep_good _ _ _ _ Hrep) as Hg. cbn in Hwf, Hg.
      pose proof (rep_nodes _ _ _ _ Hrep) as Hn.
      destruct (tnode_ok (K := K) [] _ t Hwf Hg) as [Hhash Hfits]; [cbn; lia|].
      destruct (rep_db _ _ _ _ Hrep [] (tnode [] t)) as [Hd Hrow].
      { cbn [ores res]. rewrite tres_stored by done. by left. }
      eapply wp_load_db_node; [exact Hn|exact Hd|exact Hrow|done|done|].
      intros k m' Hm. wp_step. wp_step. wp_step.
      eapply (Hsome _ (AStored t) (aloaded k t)); [done|right; eauto| |by apply ahandle_aloaded|done|done].
      eapply (tree_rep_loads self _ [] k (AStored t)); [exact Hrep|right; eauto|done..| |].
      * by apply ahandle_aloaded.
      * eapply nodes_rep_perm; [|exact Hm].
        change (match t with Leaf v => ALeaf v | _ => _ end) with (aloaded k t).
        change (cres [] (InMemory k) ++ ?l) with l. change (cpath []) with (@nil bool).
        rewrite res_aloaded by done. cbn [ores res].
        by rewrite tres_stored, mems_mem, mems_db by done.
    + apply wp_load_db_node_none.
      { destruct (d (node_key (identifier self) [])) eqn:Hd; [right|by left].
        destruct (rep_cover _ _ _ _ Hrep []) as [Hin|]; [cbn; lia|by rewrite Hd| |done].
        by apply elem_of_nil in Hin. }
      wp_step. wp_step. wp_step. apply Hnone; [done| |done|done].
      eapply (tree_rep_update _ _ self); try done; [by left| |].
      * apply (rep_nodes _ _ _ _ Hrep).
      * auto.
Qed.

(** Seeking a key, from a tree over which no iterator has run yet. *)
Lemma wp_seek_nodes key self oa (Q : MerkleTree -> list (K * nat) -> Prop) :
  tree_rep ht d self oa -> length key = ht -> 0 < ht ->
  (forall self', oa = None -> tree_rep ht d self' None -> self'.(root_node) = Some RootHandle_Empty ->
     same_pending self self' -> Q self' []) ->
  (forall self' a C foc rest kf, oa = Some a -> strip (plug C foc) = strip a ->
     tree_rep ht d self' (Some (plug C foc)) -> key = cpath C ++ rest -> ahandle foc = InMemory kf ->
     stop_at foc rest -> same_pending self self' -> is_Some self'.(root_node) ->
     Q self' (cheights C ++ [(kf, length (cpath C))])) ->
  wp (MerkleTree_seek_nodes kv key) self Q.
Proof.
  intros Hrep Hlen Hht0 Hnone Hsome.
  assert (wp (MerkleTreeIterator_traverse_to (V := unit) kv key) (tt, MerkleTreeIterator_new self)
    (fun vit _ => Q vit.2.(tree) vit.2.(current_nodes_heights))) as Hwp.
  { unfold MerkleTreeIterator_traverse_to. destruct key as [|b key]; [cbn in *; lia|].
    wp_step. unfold on_iter. wp_step. cbn [snd]. unfold traverse_start. wp_step. wp_step.
    cbn [MerkleTreeIterator_new current_path common_len current_nodes_heights].
    rewrite decide_True by done. cbn zeta. cbn [take last]. wp_step. wp_step. wp_step. wp_step.
    wp_step. unfold on_tree. wp_step. cbn [tree set_current_path set_current_nodes_heights].
    eapply wp_load_root; [exact Hrep|done| |].
    - intros self' -> Hrep' Hr Hsame. wp_step. wp_step. wp_step. wp_step. cbn. by apply Hnone.
    - intros self' a a' k -> Ha Hrep' Hk Hr Hsame. wp_step.
      eapply (wp_traverse_loop _ _ [] a' (b :: key)); [lia| |done|done|].
      + by split.
      + intros C foc rest kf it' [Ht _ Hn Hkey Hkf Hst _] Hs Hsame' Hr'.
        cbn [snd]. rewrite Hn. eapply Hsome; eauto.
        * rewrite Hs. by eapply loads_strip.
        * by eapply same_pending_trans.
        * rewrite Hr'. cbn. by rewrite Hr. }
  destruct Hwp as ([[] it'] & [] & Hrun & HQ). unfold wp, MerkleTree_seek_nodes, MerkleTreeIterator_seek_to.
  rewrite Hrun. cbn. eexists _, _. split; [done|]. exact HQ.
Qed.
End SeekSpec.
