(* ===== verification/WalkSpec.v ===== *)
(** * Traversals that continue one another

    An iterator that has sought one key seeks the next from the node where the
    two keys part. [wp_walk_key]: such a step, with any visitor, ends where a
    seek from the root would end. The invariant of the visitor is a parameter:
    [I] at a node about to be visited, [J] once it is, [R] for the whole tree,
    between two keys. *)
From S2P Require Import Prelude Path Id Database Error External MerkleNode Trie Changes KeyValueDb Tree Iterator Annot TreeInv SeekSpec.

Lemma partition_point_take {A} (f : A -> bool) l : Forall (fun x => f x = true) (take (partition_point f l) l).
Proof. induction l as [|a l IH]; cbn; [constructor|]. destruct (f a) eqn:Hf; cbn; by constructor. Qed.

Section Spine.
Context {F K : Type} `{StarkFelt F, !StarkHash F}.
Implicit Types (C : list (frame F K)) (a : atree F K).

Lemma plug_app C1 C2 a : plug (C2 ++ C1) a = plug C1 (plug C2 a).
Proof. revert a. induction C2 as [|f C2 IH]; intros a; [done|]. cbn. apply IH. Qed.

Lemma cpath_app_prefix C1 C2 : cpath C1 `prefix_of` cpath (C2 ++ C1).
Proof. induction C2 as [|g C2 IH]; [done|]. cbn. by apply prefix_app_r. Qed.

(** The nodes the iterator records, down to the current one. *)
Definition spine C (kf : K) : list (K * nat) := cheights C ++ [(kf, length (cpath C))].

Lemma spine_head C kf : exists k, head (spine C kf) = Some (k, 0).
Proof.
  revert kf. induction C as [|f C IH]; intros kf; [by exists kf|]. destruct (IH (frame_key f)) as [k Hk].
  exists k. unfold spine in *. cbn [cheights]. destruct (cheights C ++ [(frame_key f, length (cpath C))]) eqn:Hs; [done|].
  exact Hk.
Qed.

(** A non-empty initial part of them ends at a node above, or the current one. *)
Lemma spine_take n C foc kf :
  0 < n -> ahandle foc = InMemory kf ->
  exists C2 C1 kf1, C = C2 ++ C1 /\ take n (spine C kf) = spine C1 kf1 /\ ahandle (plug C2 foc) = InMemory kf1.
Proof.
  revert foc kf. induction C as [|f C IH]; intros foc kf Hn Hkf.
  - exists [], [], kf. split_and!; [done| |done]. destruct n; [lia|]. unfold spine. cbn. by destruct n.
  - destruct (decide (n <= length (spine C (frame_key f)))) as [Hle|Hgt].
    + destruct (IH (frame_plug f foc) (frame_key f) Hn (ahandle_frame_plug f foc)) as (C2 & C1 & kf1 & -> & Htake & Hk).
      exists (f :: C2), C1, kf1. split_and!; [done| |done].
      rewrite <- Htake. unfold spine at 1. cbn [cheights]. by rewrite take_app_le.
    + exists [], (f :: C), kf. split_and!; [done| |done]. apply take_ge. unfold spine in *. cbn [cheights].
      rewrite length_app. cbn. lia.
Qed.
End Spine.

Section WalkSpec.
Context {F K : Type} {M : Type -> Type} {DB ID : Type}.
Context `{StarkFelt F, !StarkHash F, SlotMap K M, !LawfulSlotMap K M, !NodeCodec F K, !LawfulNodeCodec F K,
  BonsaiDatabase DB, Id ID}.
Context (kv : KeyValueDB DB ID) (d : TrieKey -> option ByteVec) (ht : nat).
Context (Hkv : kv_view kv d) (Hht : 0 < ht <= 255).
Abbreviation MerkleTree := (MerkleTree F K M).
Abbreviation Iterator := (MerkleTreeIterator F K M).
Abbreviation error := (BonsaiStorageError (DatabaseError DB)).
Implicit Types C : list (frame F K).

Context {V : Type} `{!NodeVisitor V F K M error}.
Context (I J : list (frame F K) -> atree F K -> V -> Prop) (R : atree F K -> V -> Prop).
Context (Hvisit : forall key C foc rest kf it v (Q : V * MerkleTree -> unit -> Prop),
  seek_at d ht key C foc rest kf it -> I C foc v ->
  (forall v', J C foc v' -> Q (v', it.(tree)) tt) ->
  wp (visit_node kf (length (cpath C))) (v, it.(tree)) Q).
Context (Hstep : forall C f foc0 foc' kf v, J C (frame_plug f foc0) v -> loads kf foc0 foc' -> I (f :: C) foc' v).
Context (Hroot : forall a a' k v, R a v -> loads k a a' -> I [] a' v).
Context (Hresume : forall C1 C2 foc v, J (C2 ++ C1) foc v -> J C1 (plug C2 foc) v).
Context (Hwhole : forall C foc v, J C foc v -> R (plug C foc) v).

(** Between two keys: no key has been walked to, or the walk stands at the node
    where the last one ended. *)
Inductive walk_ready (v : V) (it : Iterator) : Prop :=
| ready_root a :
    tree_rep ht d it.(tree) (Some a) -> R a v -> it.(current_path) = [] -> walk_ready v it
| ready_stopped C foc kf :
    tree_rep ht d it.(tree) (Some (plug C foc)) -> ahandle foc = InMemory kf ->
    cpath C `prefix_of` it.(current_path) -> it.(current_nodes_heights) = spine C kf -> J C foc v -> walk_ready v it.

Lemma walk_ready_whole v it : walk_ready v it -> exists a, tree_rep ht d it.(tree) (Some a) /\ R a v.
Proof. intros [a|C foc kf Hrep ? ? ? HJ]; [by exists a|]. exists (plug C foc). auto. Qed.

Lemma walk_ready_stopped v it key C foc rest kf :
  seek_stopped d ht key C foc rest kf it -> J C foc v -> walk_ready v it.
Proof.
  intros [Ht Hp Hn _ Hk _ _] HJ. eapply ready_stopped; [done..| |done|done]. rewrite Hp. by eexists.
Qed.

(** What is left of [traverse_to] once it knows where to start. *)
Definition walk_continue (key : BitVec) (start : option (option K)) : action (V * Iterator) error unit :=
  match start with
  | None => mret tt
  | Some next_to_visit => traverse_loop (DB := DB) (S (S (length key))) kv key next_to_visit
  end.

Lemma traverse_to_continue key : length key = ht ->
  MerkleTreeIterator_traverse_to kv key = (start ← on_iter (V := V) (traverse_start kv key); walk_continue key start).
Proof. intros Hlen. destruct key; [cbn in Hlen; lia|done]. Qed.

(** How a walk to [key] from [it] ends. *)
Definition walk_ends (key : BitVec) (it : Iterator) (r : V * Iterator) : Prop :=
  exists C foc rest kf, seek_stopped d ht key C foc rest kf r.2 /\ J C foc r.1 /\ same_pending it.(tree) r.2.(tree).

Lemma wp_walk_loop fuel key C foc rest kf it v :
  length rest < fuel -> seek_at d ht key C foc rest kf it -> length key = ht -> rest <> [] -> I C foc v ->
  wp (traverse_loop (DB := DB) fuel kv key (Some kf)) (v, it) (fun r _ => walk_ends key it r).
Proof.
  intros Hfuel Hat Hlen Hrest HI.
  eapply (wp_traverse_visit kv d ht Hkv ltac:(lia) I J Hvisit Hstep); [done..|].
  intros C' foc' rest' kf' it' v' Hst HJ _ Hsame _. by exists C', foc', rest', kf'.
Qed.

(** From the root. *)
Lemma wp_walk_root key it a v :
  tree_rep ht d it.(tree) (Some a) -> R a v -> length key = ht -> it.(current_nodes_heights) = [] ->
  wp (_ ← modify (set_current_path []);
      root ← on_tree (MerkleTree_load_root_node kv);
      match root with
      | Some node_id => mret (Some (Some node_id))
      | None => _ ← modify (set_leaf_hash None); mret None
      end) it (fun it' start => wp (walk_continue key start) (v, it') (fun r _ => walk_ends key it r)).
Proof.
  intros Hrep HR Hlen Hnil. wp_step. wp_step. wp_step.
  unfold on_tree. wp_step. cbn [tree set_current_path set_current_nodes_heights].
  eapply (wp_load_root kv d ht Hkv ltac:(lia)); [exact Hrep|lia|done|].
  intros self' a0 a' k [= <-] Hl Hrep' Hk Hr Hsame. wp_step. cbn [walk_continue].
  eapply wp_mono; [|eapply (wp_walk_loop _ key [] a' key k)]; try done.
  - cbn beta. intros r _ (C & foc & rest & kf & Hst & HJ & Hs). exists C, foc, rest, kf. split; [done|]. split; [done|].
    by eapply same_pending_trans.
  - lia.
  - intros ->. cbn in Hlen. lia.
  - by eapply Hroot.
Qed.

(** From the node of the walk above which the new key leaves the last. *)
Lemma wp_walk_resume key rest it C1 foc1 kf1 v :
  tree_rep ht d it.(tree) (Some (plug C1 foc1)) -> ahandle foc1 = InMemory kf1 -> J C1 foc1 v ->
  it.(current_path) = cpath C1 -> it.(current_nodes_heights) = cheights C1 -> key = cpath C1 ++ rest -> length key = ht ->
  wp (Some <$> MerkleTreeIterator_traverse_one kv kf1 (length (cpath C1)) key) it (fun it' start =>
    wp (walk_continue key start) (v, it') (fun r _ => walk_ends key it r)).
Proof.
  intros Hrep Hkf HJ Hp Hn Hkey Hlen. wp_step.
  eapply (wp_traverse_one kv d ht Hkv ltac:(lia)); [by split|done| |].
  - intros it' Hst Hsame _. cbn [walk_continue traverse_loop]. apply wp_ret. by exists C1, foc1, rest, kf1.
  - intros it' f foc0 foc' rest' kf' -> Hl -> Hf Hrest' Hat Hsame _. cbn [walk_continue].
    eapply wp_mono; [|eapply (wp_walk_loop _ key (f :: C1) foc' rest' kf')]; try done.
    + cbn beta. intros r _ (C & foc & rest & kf & Hst & HJ' & Hs). exists C, foc, rest, kf. split; [done|]. split; [done|].
      by eapply same_pending_trans.
    + rewrite Hkey, !length_app. lia.
    + by eapply Hstep.
Qed.

(** Where the new key leaves the walk. *)
Lemma walk_ready_split v it key :
  walk_ready v it -> length key = ht -> common_len it.(current_path) key <> 0 ->
  exists C1 foc1 kf1 rest,
    take (partition_point (fun '(_, height) => (height <? common_len it.(current_path) key)%nat) it.(current_nodes_heights))
      it.(current_nodes_heights) = spine C1 kf1 /\
    tree_rep ht d it.(tree) (Some (plug C1 foc1)) /\ ahandle foc1 = InMemory kf1 /\
    J C1 foc1 v /\ key = cpath C1 ++ rest /\
    take (length (cpath C1)) (take (length key) it.(current_path)) = cpath C1.
Proof.
  set (s0 := common_len it.(current_path) key). set (f := fun '(_, height) => (height <? s0)%nat).
  intros [a _ _ Hp|C foc kf Hrep Hkf Hpre Hnodes HJ] Hlen Hs0; [unfold s0 in Hs0; by rewrite Hp in Hs0|].
  rewrite Hnodes. destruct (spine_head C kf) as [k0 Hhead].
  assert (0 < partition_point f (spine C kf)) as Hpos.
  { destruct (spine C kf) as [|[k1 h1] l]; [done|]. injection Hhead as -> ->. cbn [partition_point].
    assert (f (k0, 0) = true) as -> by (apply Nat.ltb_lt; lia). lia. }
  destruct (spine_take _ C foc kf Hpos Hkf) as (C2 & C1 & kf1 & -> & Htake & Hkf1).
  pose proof (partition_point_take f (spine (C2 ++ C1) kf)) as Hall. rewrite Htake in Hall.
  unfold spine in Hall. apply Forall_app in Hall as [_ Hall]. rewrite Forall_singleton in Hall.
  cbn in Hall. apply Nat.ltb_lt in Hall.
  assert (take (length (cpath C1)) it.(current_path) = cpath C1) as Hp1.
  { destruct (transitivity (cpath_app_prefix C1 C2) Hpre) as [q ->]. apply take_app_length. }
  assert (take (length (cpath C1)) key = cpath C1) as Hk1.
  { rewrite <- Hp1 at 2. pose proof (common_len_take it.(current_path) key) as Hc. fold s0 in Hc.
    apply (f_equal (take (length (cpath C1)))) in Hc. rewrite !take_take, !Nat.min_l in Hc by lia. done. }
  exists C1, (plug C2 foc), kf1, (drop (length (cpath C1)) key). split_and!; [done| |done| | |].
  - by rewrite <- plug_app.
  - by apply Hresume.
  - rewrite <- Hk1 at 1. by rewrite take_drop.
  - rewrite take_take, Nat.min_l; [done|]. pose proof (common_len_le_r it.(current_path) key). unfold s0 in Hall. lia.
Qed.

(** Walking to one key. *)
Lemma wp_walk_key key it v :
  walk_ready v it -> length key = ht ->
  wp (MerkleTreeIterator_traverse_to kv key) (v, it) (fun r _ => walk_ends key it r).
Proof.
  intros Hready Hlen. rewrite traverse_to_continue by done.
  wp_step. unfold on_iter. wp_step. cbn [snd]. unfold traverse_start. wp_step. wp_step. wp_step. wp_step.
  case_decide as Hs0.
  - cbn [take last]. destruct (walk_ready_whole _ _ Hready) as (a & Hrep & HR).
    by eapply (wp_walk_root key (set_current_nodes_heights [] (set_current_path (take (length key) (current_path it)) it)) a v).
  - destruct (walk_ready_split _ _ _ Hready Hlen Hs0) as (C1 & foc1 & kf1 & rest & -> & Hrep & Hkf & HJ & Hkey & Hpath).
    unfold spine. rewrite last_snoc, removelast_last. wp_step. wp_step.
    set (it1 := set_current_nodes_heights (cheights C1) _). change (tree it) with (tree it1).
    by eapply (wp_walk_resume key rest it1 C1 foc1 kf1 v).
Qed.

(** On the empty tree. *)
Lemma wp_walk_empty key it v :
  tree_rep ht d it.(tree) None -> it.(current_path) = [] -> length key = ht ->
  wp (MerkleTreeIterator_traverse_to kv key) (v, it) (fun r _ =>
    r.1 = v /\ tree_rep ht d r.2.(tree) None /\ same_pending it.(tree) r.2.(tree) /\
    r.2.(current_path) = [] /\ r.2.(current_nodes_heights) = [] /\ r.2.(leaf_hash) = None).
Proof.
  intros Hrep Hp Hlen. rewrite traverse_to_continue by done.
  wp_step. unfold on_iter. wp_step. cbn [snd]. unfold traverse_start. wp_step. wp_step. wp_step. wp_step.
  rewrite Hp. cbn [common_len]. rewrite decide_True, take_0 by (by destruct key). cbn [last].
  wp_step. wp_step. wp_step. unfold on_tree. wp_step. cbn [tree set_current_path set_current_nodes_heights].
  eapply (wp_load_root kv d ht Hkv ltac:(lia)); [exact Hrep|lia| |done].
  intros self' _ Hrep' Hr Hsame. wp_step. wp_step. wp_step. cbn [walk_continue]. by wp_step.
Qed.
End WalkSpec.
