(* ===== verification/SetSpec.v ===== *)
(** * Correctness of insertion

    [MerkleTree_set] on a key with no pending change replaces the trie by
    [trie_insert] of it. The split of an edge records a key in the death row
    without the tree's identifier ([identifier_safe] rules out that this key is
    one of the tree's nodes). *)
From S2P Require Import Prelude Path Id Database Error External MerkleNode Trie Changes KeyValueDb Tree Iterator Update Annot TreeInv SeekSpec.

(** No key the split of an edge puts in the death row is the key of a node of
    the trie with this identifier. *)
Definition identifier_safe (identifier : ByteVec) (ht : nat) : Prop :=
  identifier = [] \/
  forall q p, length q <= ht -> length p <= ht -> bitslice_to_bytes q <> identifier ++ Path_encode p.

(** An identifier that starts with a byte above the tree's height is safe. *)
Lemma identifier_safe_head b bs ht : ht <= 255 -> (Z.of_nat ht < b)%Z -> identifier_safe (b :: bs) ht.
Proof.
  intros Hht Hb. right. intros q p Hq Hp Heq. destruct (decide (q = [])) as [->|Hne]; [done|].
  rewrite bitslice_to_bytes_eq, Path_encode_eq, as_u8_small in Heq by (done || lia).
  apply (f_equal head) in Heq. cbn in Heq. injection Heq as Heq. lia.
Qed.

Section Grows.
Context {F K : Type} `{StarkFelt F, !StarkHash F}.
Implicit Types l : list (BitVec * place F K).

(** No entry is lost and no stored node is new. *)
Definition grows l l' : Prop :=
  (forall q n, (q, Db n) ∈ l' -> (q, Db n) ∈ l) /\ (forall q, q ∈ l.*1 -> q ∈ l'.*1).

Lemma grows_refl l : grows l l.
Proof. by split. Qed.
Lemma grows_trans l1 l2 l3 : grows l1 l2 -> grows l2 l3 -> grows l1 l3.
Proof. intros [? ?] [? ?]. split; auto. Qed.
Lemma grows_app l1 l1' l2 l2' : grows l1 l1' -> grows l2 l2' -> grows (l1 ++ l2) (l1' ++ l2').
Proof.
  intros [Hd1 Hp1] [Hd2 Hp2]. split.
  - intros q n. rewrite !elem_of_app. naive_solver.
  - intros q. rewrite !fmap_app, !elem_of_app. naive_solver.
Qed.
Lemma grows_mem l q k n : grows l ((q, Mem k n) :: l).
Proof. split; [intros ?; set_solver|cbn; set_solver]. Qed.
Lemma grows_skip l l' q k n k' n' : grows l l' -> grows ((q, Mem k n) :: l) ((q, Mem k' n') :: l').
Proof. intros [Hd Hp]. split; [intros q' n''; specialize (Hd q' n''); set_solver|cbn; set_solver]. Qed.
#[export] Instance grows_proper : Proper ((≡ₚ) ==> (≡ₚ) ==> iff) grows.
Proof.
  intros l1 l1' H1 l2 l2' H2. unfold grows. f_equiv.
  - split; intros Hd q n; specialize (Hd q n); by rewrite H1, H2 in * || by rewrite <- H1, <- H2 in *.
  - split; intros Hp q; specialize (Hp q); by rewrite H1, H2 in * || by rewrite <- H1, <- H2 in *.
Qed.
End Grows.

Section SetSpec.
Context {F K : Type} {M : Type -> Type} {DB ID : Type}.
Context `{StarkFelt F, !StarkHash F, SlotMap K M, !LawfulSlotMap K M, !NodeCodec F K, !LawfulNodeCodec F K,
  BonsaiDatabase DB, Id ID}.
Context (kv : KeyValueDB DB ID) (d : TrieKey -> option ByteVec) (ht : nat).
Context (Hkv : kv_view kv d) (Hht0 : 0 < ht) (Hht : ht <= 255).
Abbreviation MerkleTree := (MerkleTree F K M).
Abbreviation error := (BonsaiStorageError (DatabaseError DB)).
Implicit Types self : MerkleTree.

(** The death row gains keys of no stored node. *)
Definition row_grows self self' (oa' : option (atree F K)) : Prop :=
  exists D, self'.(death_row) = D ∪ self.(death_row) /\ (forall key, key ∈ D -> row_key self.(identifier) ht key) /\
    forall q n, (q, Db n) ∈ ores oa' -> node_key self.(identifier) q ∉ D.

Lemma row_grows_refl self self' oa' : self'.(death_row) = self.(death_row) -> row_grows self self' oa'.
Proof. intros Hd. exists ∅. split; [set_solver|]. split; [set_solver|]. intros q n _. set_solver. Qed.

(** The node in the hole is replaced, in place, by a larger subtree. *)
Lemma tree_rep_replace self self' C foc foc' :
  tree_rep ht d self (Some (plug C foc)) ->
  self'.(max_height) = self.(max_height) -> self'.(identifier) = self.(identifier) ->
  self'.(root_node) = self.(root_node) ->
  row_grows self self' (Some (plug C foc')) ->
  (exists k, ahandle foc = InMemory k) -> ahandle foc' = ahandle foc ->
  nodes_rep (slot_view self'.(nodes)) (mems (cres C (ahandle foc) ++ res (cpath C) foc')) ->
  trie_wf (ht - length (cpath C)) (strip foc') ->
  (is_edge (strip foc') = true -> is_edge (strip foc) = true) -> agood foc' ->
  grows (res (cpath C) foc) (res (cpath C) foc') ->
  tree_rep ht d self' (Some (plug C foc')).
Proof.
  intros Hrep Hh Hi Hr (D & Hd & HDt & HD) [k Hk] Hk' Hn Hwf Hedge Hg [Hdb Hpaths].
  eapply (tree_rep_update _ _ self); [exact Hrep|done|done|set_solver| |..].
  - intros key. rewrite Hd, elem_of_union. intros [?|?]; [right; auto|by left].
  - cbn [ores]. eapply nodes_rep_perm; [|exact Hn]. by rewrite res_plug, Hk'.
  - rewrite Hr. pose proof (rep_root _ _ _ _ Hrep) as Hr0. destruct C as [|f C].
    + cbn [plug] in *. unfold root_ok in *. destruct self.(root_node) as [[|k']|]; [done|congruence|].
      by destruct foc.
    + by eapply root_ok_plug.
  - cbn. pose proof (rep_wf _ _ _ _ Hrep) as Hwf0. cbn in Hwf0.
    apply plug_wf in Hwf0 as (_ & _ & Hrepl). apply Hrepl; [done|]. auto.
  - pose proof (rep_good _ _ _ _ Hrep) as Hg0. apply agood_plug in Hg0 as [? _]. by apply agood_plug.
  - intros q n Hq. split.
    + revert Hq. cbn [ores]. rewrite !res_plug, !elem_of_app, Hk'. intros [?|?]; [by left|right; auto].
    + rewrite Hd, elem_of_union. intros [Hin|]; [|done]. by apply HD in Hq.
  - intros q Hq. left. revert Hq. cbn [ores]. rewrite !res_plug, !fmap_app, !elem_of_app, Hk'.
    intros [?|?]; [by left|right; auto].
Qed.

(** The pending changes after a successful insertion. *)
Definition set_pending self self' (key : BitVec) (value : F) : Prop :=
  self'.(identifier) = self.(identifier) /\
  self'.(cache_leaf_modified) = <[bitslice_to_bytes key := Insert value]> self.(cache_leaf_modified).

(** ** The cases of [set] *)

Lemma wp_cache_insert key v self (Q : MerkleTree -> unit -> Prop) :
  Q (set_cache_leaf_modified (<[key := v]> self.(cache_leaf_modified)) self) tt ->
  wp (cache_insert (DB := DB) key v) self Q.
Proof. intros HQ. eexists _, tt. split; [reflexivity|exact HQ]. Qed.

Lemma wp_death_row_insert key self (Q : MerkleTree -> unit -> Prop) :
  Q (set_death_row ({[key]} ∪ self.(death_row)) self) tt -> wp (death_row_insert (DB := DB) key) self Q.
Proof. intros HQ. eexists _, tt. split; [reflexivity|exact HQ]. Qed.

Lemma wp_set_empty key value self :
  tree_rep ht d self None -> self.(root_node) = Some RootHandle_Empty -> length key = ht -> value <> Felt_ZERO ->
  wp (MerkleTree_set_empty (DB := DB) key value) self (fun self' _ =>
    exists a', tree_rep ht d self' (Some a') /\ strip a' = mk_edge key (Leaf value) /\ set_pending self self' key value).
Proof.
  intros Hrep Hroot Hlen Hv. pose proof (rep_nodes _ _ _ _ Hrep) as Hn. unfold MerkleTree_set_empty.
  wp_step. eapply wp_nodes_insert; [exact Hn|]. intros k m' Hm. wp_step. wp_step.
  apply wp_cache_insert. exists (AEdge k None key (ALeaf value)).
  assert (key <> []) as Hkey by (intros ->; cbn in *; lia).
  split; [|split; [by destruct key|done]].
  eapply (tree_rep_update _ _ self); [exact Hrep|done|done|done|by left|exact Hm|done| |done|..].
  - cbn. rewrite Hlen, Nat.sub_diag. done.
  - cbn. set_solver.
  - cbn. set_solver.
Qed.

(** The last bit is decided by a binary node. *)
Lemma wp_set_binary C kf ho l r b value self key :
  tree_rep ht d self (Some (plug C (ABin kf ho l r))) -> key = cpath C ++ [b] -> length key = ht ->
  value <> Felt_ZERO ->
  wp (MerkleTree_set_binary (DB := DB) kf (mkBinaryNode ho (length (cpath C)) (ahandle l) (ahandle r)) key value) self
    (fun self' _ => exists foc', tree_rep ht d self' (Some (plug C foc')) /\
       strip foc' = trie_insert (Bin (strip l) (strip r)) [b] value /\ set_pending self self' key value).
Proof.
  intros Hrep -> Hlen Hv. rewrite length_app in Hlen. cbn in Hlen.
  destruct (tree_rep_wf_hole d ht _ _ _ Hrep) as [_ Hwf]. pose proof (tree_rep_good_hole d ht _ _ _ Hrep) as [Hgl Hgr].
  replace (ht - length (cpath C)) with 1 in Hwf by lia. destruct Hwf as [Hl Hr].
  destruct (leaf_at_height _ Hl Hgl) as [vl ->]. destruct (leaf_at_height _ Hr Hgr) as [vr ->].
  pose proof (tree_rep_nodes d ht _ _ _ Hrep) as Hn.
  unfold MerkleTree_set_binary. cbn [binary_height]. rewrite length_app. cbn [length].
  rewrite decide_True by done. wp_step. eapply wp_lift.
  { unfold bit_index. rewrite lookup_app_r, Nat.sub_diag by lia. reflexivity. }
  wp_step. apply wp_cache_insert.
  set (foc' := if b then ABin kf ho (ALeaf vl) (ALeaf value) else ABin kf ho (ALeaf value) (ALeaf vr)).
  eapply wp_nodes_assign.
  { eapply nodes_rep_perm; [|exact Hn]. rewrite mems_app, (comm (++)).
    cbn [res app]. unfold bin_entry. rewrite mems_mem. cbn [app]. reflexivity. }
  intros m' Hm. exists foc'. split; [|split; [by destruct b|done]].
  eapply (tree_rep_replace self _ C (ABin kf ho (ALeaf vl) (ALeaf vr))); [exact Hrep|done|done|done| | | | | | | |].
  - by apply row_grows_refl.
  - by exists kf.
  - by destruct b.
  - eapply nodes_rep_perm; [|exact Hm]. rewrite mems_app, (comm (++) (mems (cres _ _))). by destruct b.
  - replace (ht - length (cpath C)) with 1 by lia. cbn in Hl, Hr. destruct b; cbn; intuition.
  - by destruct b.
  - by destruct b.
  - destruct b; apply grows_skip, grows_refl.
Qed.

(** A branch of the split: the child below what is left of the path. *)
Definition branch_of (path : BitVec) (c a : atree F K) : Prop :=
  (path = [] /\ a = c) \/ (path <> [] /\ exists k, a = AEdge k None path c).

Lemma branch_strip path c a : branch_of path c a -> strip a = mk_edge path (strip c).
Proof. intros [[-> ->]|[? [k ->]]]; [done|by destruct path]. Qed.
Lemma branch_good path c a : branch_of path c a -> agood c -> agood a.
Proof. by intros [[-> ->]|[? [k ->]]]. Qed.
Lemma branch_grows pos path c a : branch_of path c a -> grows (res (pos ++ path) c) (res pos a).
Proof. intros [[-> ->]|[? [k ->]]]; [rewrite app_nil_r; apply grows_refl|apply grows_mem]. Qed.

Lemma wp_split_branch pos path c self l (Q : MerkleTree -> NodeHandle F K -> Prop) :
  nodes_rep (slot_view self.(nodes)) (mems (res (pos ++ path) c) ++ l) ->
  (forall a m', branch_of path c a -> nodes_rep (slot_view m') (mems (res pos a) ++ l) ->
     Q (set_nodes m' self) (ahandle a)) ->
  wp (split_branch (DB := DB) (length pos) path (ahandle c)) self Q.
Proof.
  intros Hn HQ. unfold split_branch. destruct path as [|b path].
  - wp_step. rewrite app_nil_r in Hn. replace self with (set_nodes self.(nodes) self) by (by destruct self).
    apply HQ; [by left|done].
  - wp_step. eapply wp_nodes_insert; [exact Hn|]. intros k m' Hm. wp_step.
    apply (HQ (AEdge k None (b :: path) c)); [by right; eauto|exact Hm].
Qed.

(** The binary node of the split, with the new leaf on side [b]. *)
Definition split_bin (k : K) (b : bool) (new old : atree F K) : atree F K :=
  if b then ABin k None old new else ABin k None new old.

Lemma res_split_bin k b new old path :
  exists l, res path (split_bin k b new old) =
    (path, Mem k (Binary (mkBinaryNode None (length path) (if b then ahandle old else ahandle new) (if b then ahandle new else ahandle old)))) :: l /\
    l ≡ₚ res (path ++ [negb b]) old ++ res (path ++ [b]) new.
Proof. destruct b; eexists; (split; [reflexivity|]); cbn; solve_Permutation. Qed.

(** The node that takes the place of the split edge. *)
Definition split_node (kf : K) (b : bool) (cp : BitVec) (new old foc' : atree F K) : Prop :=
  (cp = [] /\ foc' = split_bin kf b new old) \/
  (cp <> [] /\ exists k, foc' = AEdge kf None cp (split_bin k b new old)).

Lemma split_node_strip kf b cp new old foc' :
  split_node kf b cp new old foc' -> strip foc' = mk_edge cp (mk_bin b (strip new) (strip old)).
Proof. intros [[-> ->]|[? [k ->]]]; [by destruct b|]. by destruct cp, b. Qed.
Lemma split_node_good kf b cp new old foc' :
  split_node kf b cp new old foc' -> agood new -> agood old -> agood foc'.
Proof. intros [[-> ->]|[? [k ->]]]; by destruct b. Qed.
Lemma split_node_handle kf b cp new old foc' : split_node kf b cp new old foc' -> ahandle foc' = InMemory kf.
Proof. intros [[-> ->]|[? [k ->]]]; by destruct b. Qed.
Lemma split_node_res kf b cp new old foc' path :
  split_node kf b cp new old foc' ->
  exists l, res path foc' ≡ₚ l ++ res (path ++ cp ++ [b]) new ++ res (path ++ cp ++ [negb b]) old /\
    path ∈ l.*1 /\ Forall (fun e => exists k n, e.2 = Mem k n) l.
Proof.
  intros [[-> ->]|[? [k ->]]]; cbn [app].
  - exists [bin_entry kf None path (if b then ahandle old else ahandle new) (if b then ahandle new else ahandle old)].
    split; [destruct b; cbn; solve_Permutation|]. split; [by left|].
    repeat constructor. unfold bin_entry. eauto.
  - exists [edge_entry kf None path cp (InMemory k);
      bin_entry k None (path ++ cp) (if b then ahandle old else ahandle new) (if b then ahandle new else ahandle old)].
    rewrite !app_assoc. split; [destruct b; cbn; solve_Permutation|]. split; [by left|].
    repeat constructor; unfold bin_entry, edge_entry; eauto.
Qed.

Lemma wp_split_new_node kf (pos cp : BitVec) (b : bool) (new old : atree F K) self l (Q : MerkleTree -> Node F K -> Prop) :
  let branch := Binary (mkBinaryNode None (length (pos ++ cp))
    (if b then ahandle old else ahandle new) (if b then ahandle new else ahandle old)) in
  nodes_rep (slot_view self.(nodes))
    (mems (res ((pos ++ cp) ++ [negb b]) old) ++ mems (res ((pos ++ cp) ++ [b]) new) ++ l) ->
  (forall m' foc' ll node, split_node kf b cp new old foc' -> res pos foc' = (pos, Mem kf node) :: ll ->
     nodes_rep (slot_view m') (mems ll ++ l) -> Q (set_nodes m' self) node) ->
  wp (match cp return action MerkleTree error (Node F K) with
      | [] => mret branch
      | _ => branch_id ← nodes_insert (DB := DB) branch;
             mret (Edge (mkEdgeNode None (length pos) cp (InMemory branch_id)))
      end) self Q.
Proof.
  intros branch Hn HQ. destruct cp as [|x cp].
  - wp_step. unfold branch in *. rewrite app_nil_r in *. replace self with (set_nodes self.(nodes) self) by (by destruct self).
    destruct (res_split_bin kf b new old pos) as (ll & Hres & Hll).
    eapply HQ; [by left|exact Hres|]. eapply nodes_rep_perm; [|exact Hn]. rewrite Hll, mems_app. solve_Permutation.
  - wp_step. eapply wp_nodes_insert; [exact Hn|]. intros k m' Hm. wp_step.
    destruct (res_split_bin k b new old (pos ++ x :: cp)) as (ll & Hres & Hll).
    eapply (HQ m' (AEdge kf None (x :: cp) (split_bin k b new old))); [right; eauto| |].
    + cbn [res]. rewrite Hres. unfold edge_entry.
      replace (ahandle (split_bin k b new old)) with (InMemory (F := F) k) by (by destruct b). reflexivity.
    + rewrite mems_mem. eapply nodes_rep_perm; [|exact Hm]. rewrite Hll, mems_app. solve_Permutation.
Qed.

(** The key that the split of the edge at path [q] puts in the death row is
    not the key of a stored node. *)
Lemma NoDup_fst_unique {A B} (l : list (A * B)) x y1 y2 :
  NoDup l.*1 -> (x, y1) ∈ l -> (x, y2) ∈ l -> y1 = y2.
Proof.
  intros Hn [i Hi]%list_elem_of_lookup [j Hj]%list_elem_of_lookup.
  assert (i = j) as ->; [|congruence].
  eapply NoDup_lookup; [exact Hn|..]; rewrite list_lookup_fmap; [by rewrite Hi|by rewrite Hj].
Qed.

Lemma split_row_safe identifier (a : atree F K) q k n p n' :
  identifier_safe identifier ht -> trie_wf ht (strip a) ->
  (q, Mem k n) ∈ res [] a -> (p, Db n') ∈ res [] a ->
  node_key identifier p <> TrieKey_Trie (bitslice_to_bytes q).
Proof.
  intros Hsafe Hwf Hq Hp [= Heq].
  pose proof (res_within [] ht a Hwf) as Hwithin. rewrite Forall_forall in Hwithin.
  destruct (Hwithin _ Hq) as [_ Hlq]. destruct (Hwithin _ Hp) as [_ Hlp]. cbn in Hlq, Hlp.
  destruct Hsafe as [->|Hsafe]; [|apply (Hsafe q p); [lia|lia|done]].
  cbn in Heq. destruct (decide (q = [])) as [->|Hne].
  - by rewrite Path_encode_eq in Heq.
  - rewrite bitslice_to_bytes_eq in Heq by done. apply Path_encode_inj in Heq as ->; [|lia|lia].
    by pose proof (NoDup_fst_unique _ _ _ _ (res_NoDup [] ht a Hwf) Hq Hp).
Qed.

(** The invariant after a split. *)
Lemma tree_rep_split self self' C kf ho cp b k' p' c value new old foc' :
  let foc := AEdge kf ho (cp ++ negb b :: p') c in
  tree_rep ht d self (Some (plug C foc)) -> identifier_safe self.(identifier) ht ->
  length (cpath C ++ cp ++ b :: k') = ht -> value <> Felt_ZERO ->
  branch_of k' (ALeaf value) new -> branch_of p' c old -> split_node kf b cp new old foc' ->
  self'.(max_height) = self.(max_height) -> self'.(identifier) = self.(identifier) ->
  self'.(root_node) = self.(root_node) ->
  self'.(death_row) = {[TrieKey_Trie (bitslice_to_bytes (cpath C))]} ∪ self.(death_row) ->
  nodes_rep (slot_view self'.(nodes)) (mems (cres C (InMemory kf) ++ res (cpath C) foc')) ->
  tree_rep ht d self' (Some (plug C foc')).
Proof.
  intros foc Hrep Hsafe Hlen Hv Hnew Hold Hsplit Hh Hi Hr Hrow Hn.
  destruct (tree_rep_wf_hole d ht _ _ _ Hrep) as [HlC Hwf]. pose proof (tree_rep_good_hole d ht _ _ _ Hrep) as Hg.
  assert (strip foc' = trie_insert (strip foc) (cp ++ b :: k') value) as Hstrip.
  { rewrite (split_node_strip _ _ _ _ _ _ Hsplit), (branch_strip _ _ _ Hnew), (branch_strip _ _ _ Hold).
    unfold foc. cbn [strip]. by rewrite trie_insert_edge_split. }
  assert (trie_wf (ht - length (cpath C)) (strip foc')) as Hwf'.
  { rewrite Hstrip. apply trie_insert_wf; [done| |done]. rewrite length_app in Hlen. lia. }
  destruct (split_node_res _ _ _ _ _ _ (cpath C) Hsplit) as (l & Hres & Hin & Hl).
  eapply tree_rep_replace; [exact Hrep|done|done|done| |by exists kf| |exact Hn|done|done| |].
  - exists {[TrieKey_Trie (bitslice_to_bytes (cpath C))]}. split; [done|].
    split; [intros key ->%elem_of_singleton; by apply row_key_split|].
    intros q n Hq. rewrite elem_of_singleton. cbn [ores] in Hq.
    apply list_elem_of_fmap in Hin as ([q' pl] & Hq' & Hin). cbn in Hq'. subst q'.
    rewrite Forall_forall in Hl. destruct (Hl _ Hin) as (k & n' & Hpl). cbn in Hpl. subst pl.
    eapply split_row_safe; [done| |rewrite res_plug, Hres, !elem_of_app; eauto|exact Hq].
    pose proof (rep_wf _ _ _ _ Hrep) as Hwf0. cbn in Hwf0. apply plug_wf in Hwf0 as (_ & _ & Hrepl).
    apply Hrepl; [done|]. by left.
  - by eapply split_node_handle.
  - eapply split_node_good; [done|by eapply branch_good|by eapply branch_good].
  - rewrite Hres. apply (grows_trans _ (l ++ res (cpath C ++ cp ++ [b]) new ++ res (cpath C ++ cp ++ [negb b]) old)); [|apply grows_refl].
    pose proof (branch_grows (cpath C ++ cp ++ [negb b]) _ _ _ Hold) as [Hd Hp].
    replace ((cpath C ++ cp ++ [negb b]) ++ p') with (cpath C ++ cp ++ negb b :: p') in * by (by rewrite <- !app_assoc).
    pose proof (branch_grows (cpath C ++ cp ++ [b]) _ _ _ Hnew) as [Hdn _]. split.
    + intros q n. rewrite !elem_of_app. unfold foc. cbn [res]. rewrite elem_of_cons.
      rewrite Forall_forall in Hl. intros [Hq|[Hq|Hq]]; [|by apply Hdn, elem_of_nil in Hq|auto].
      by destruct (Hl _ Hq) as (k & n' & ?).
    + intros q. rewrite !fmap_app, !elem_of_app. unfold foc. cbn [res fmap list_fmap]. rewrite elem_of_cons.
      intros [->|Hq]; [by left|auto].
Qed.

(** The slices of the key and of the edge around the split. *)
Lemma split_slices {E} (path cp p' k' : BitVec) b :
  let key := path ++ cp ++ b :: k' in
  let at_split := length path + length cp in
  slice_from (E := E) (at_split + 1) key = Ok k' /\
  slice_from (E := E) (length cp + 1) (cp ++ negb b :: p') = Ok p' /\
  bit_index (E := E) key at_split = Ok b /\
  slice_to (E := E) (length path) key = Ok path.
Proof.
  cbn zeta. unfold slice_from, slice_to, bit_index. rewrite app_assoc, <- length_app. split_and!.
  - rewrite decide_True by (rewrite !length_app; cbn; lia). by rewrite drop_app_ge, Nat.add_sub' by lia.
  - rewrite decide_True by (rewrite length_app; cbn; lia). by rewrite drop_app_ge, Nat.add_sub' by lia.
  - by rewrite lookup_app_r, Nat.sub_diag by lia.
  - rewrite decide_True by (rewrite !length_app; lia). by rewrite <- app_assoc, take_app_length.
Qed.

(** The key does not follow the edge to its end: the edge is split. *)
Lemma wp_set_edge_split C kf ho cp b k' p' c value self key :
  tree_rep ht d self (Some (plug C (AEdge kf ho (cp ++ negb b :: p') c))) ->
  identifier_safe self.(identifier) ht ->
  key = cpath C ++ cp ++ b :: k' -> length key = ht -> value <> Felt_ZERO ->
  wp (MerkleTree_set_edge (DB := DB) kf (mkEdgeNode ho (length (cpath C)) (cp ++ negb b :: p') (ahandle c)) key value) self
    (fun self' _ => exists foc', tree_rep ht d self' (Some (plug C foc')) /\
       strip foc' = trie_insert (Edg (cp ++ negb b :: p') (strip c)) (cp ++ b :: k') value /\
       set_pending self self' key value).
Proof.
  intros Hrep Hsafe Hkey Hlen Hv.
  destruct (tree_rep_wf_hole d ht _ _ _ Hrep) as [HlC Hwf]. pose proof (tree_rep_good_hole d ht _ _ _ Hrep) as Hgc.
  pose proof (tree_rep_nodes d ht _ _ _ Hrep) as Hn.
  unfold MerkleTree_set_edge, EdgeNode_common_path. cbn [edge_height edge_path edge_child].
  assert (drop (length (cpath C)) key = cp ++ b :: k') as -> by (by rewrite Hkey, drop_app_length).
  rewrite common_len_split, take_app_length. cbn zeta.
  assert (length key = length (cpath C) + length cp + 1 + length k') as Hklen.
  { rewrite Hkey, !length_app. cbn. lia. }
  destruct (split_slices (E := error) (cpath C) cp p' k' b) as (Hs1 & Hs2 & Hs3 & Hs4). rewrite <- Hkey in Hs1, Hs3, Hs4.
  rewrite decide_False by lia. wp_step. eapply wp_lift; [exact Hs1|]. wp_step. eapply wp_lift; [exact Hs2|].
  wp_step. apply wp_cache_insert.
  set (mid := cpath C ++ cp).
  assert (length (cpath C) + length cp + 1 = length (mid ++ [b])) as Hmidb by (unfold mid; rewrite !length_app; cbn; lia).
  assert (length (cpath C) + length cp + 1 = length (mid ++ [negb b])) as Hmidn by (unfold mid; rewrite !length_app; cbn; lia).
  set (n0 := Edge (mkEdgeNode ho (length (cpath C)) (cp ++ negb b :: p') (ahandle c))).
  set (l := mems (cres C (InMemory kf))).
  wp_step. rewrite Hmidb at 1. eapply (wp_split_branch _ _ (ALeaf value) _ (mems (res ((mid ++ [negb b]) ++ p') c) ++ (kf, n0) :: l)).
  { eapply nodes_rep_perm; [|exact Hn]. rewrite mems_app. cbn [res]. unfold edge_entry. rewrite mems_mem.
    unfold mid. rewrite <- !app_assoc. cbn [app ahandle]. unfold l, n0. solve_Permutation. }
  intros new m1 Hnew Hm1. wp_step. rewrite Hmidn at 1.
  eapply (wp_split_branch _ _ c _ (mems (res (mid ++ [b]) new) ++ (kf, n0) :: l)).
  { eapply nodes_rep_perm; [|exact Hm1]. solve_Permutation. }
  intros old m2 Hold Hm2. wp_step. eapply wp_lift; [exact Hs3|]. cbn zeta. rewrite (surjective_pairing (match Direction_from b with Left => _ | Right => _ end)).
  set (self2 := set_nodes m2 _). cbn beta iota.
  match goal with |- context [Binary ?br] => replace br with
    (mkBinaryNode None (length mid) (if b then ahandle old else ahandle new) (if b then ahandle new else ahandle old))
    by (unfold mid; rewrite length_app; by destruct b) end.
  wp_step. eapply (wp_split_new_node kf (cpath C) cp); [exact Hm2|].
  intros m3 foc' ll new_node Hsplit Hres Hm3. wp_step. eapply wp_lift; [exact Hs4|]. wp_step. apply wp_death_row_insert. eapply wp_nodes_assign.
  { eapply nodes_rep_perm; [|exact Hm3]. rewrite (Permutation_app_comm (mems ll)). cbn [app]. reflexivity. }
  intros m4 Hm4. exists foc'.
  assert (strip foc' = trie_insert (strip (AEdge kf ho (cp ++ negb b :: p') c)) (cp ++ b :: k') value) as Hstrip.
  { rewrite (split_node_strip _ _ _ _ _ _ Hsplit), (branch_strip _ _ _ Hnew), (branch_strip _ _ _ Hold).
    cbn [strip]. by rewrite trie_insert_edge_split. }
  split; [|split; [exact Hstrip|done]].
  eapply (tree_rep_split self _ C kf ho cp b k' p' c value new old foc'); try done; [by rewrite <- Hkey|].
  eapply nodes_rep_perm; [|exact Hm4]. rewrite mems_app, Hres, mems_mem. unfold l. solve_Permutation.
Qed.

(** The key follows the edge to its leaf. *)
Lemma wp_set_edge_match C kf ho p c value self key :
  tree_rep ht d self (Some (plug C (AEdge kf ho p c))) ->
  key = cpath C ++ p -> length key = ht -> value <> Felt_ZERO ->
  wp (MerkleTree_set_edge (DB := DB) kf (mkEdgeNode ho (length (cpath C)) p (ahandle c)) key value) self
    (fun self' _ => exists foc', tree_rep ht d self' (Some (plug C foc')) /\
       strip foc' = trie_insert (Edg p (strip c)) p value /\ set_pending self self' key value).
Proof.
  intros Hrep -> Hlen Hv. rewrite length_app in Hlen.
  destruct (tree_rep_wf_hole d ht _ _ _ Hrep) as [_ Hwf]. pose proof (tree_rep_good_hole d ht _ _ _ Hrep) as Hg.
  replace (ht - length (cpath C)) with (length p) in Hwf by lia. cbn in Hwf.
  destruct Hwf as (Hp & _ & Hc & _). rewrite Nat.sub_diag in Hc.
  destruct (leaf_at_height _ Hc Hg) as [w ->].
  pose proof (tree_rep_nodes d ht _ _ _ Hrep) as Hn.
  unfold MerkleTree_set_edge, EdgeNode_common_path. cbn [edge_height edge_path edge_child edge_hash].
  rewrite drop_app_length. pose proof (common_len_app p []) as Hcl. rewrite app_nil_r in Hcl.
  rewrite Hcl, take_ge by lia. rewrite length_app, decide_True by done.
  wp_step. apply wp_cache_insert. eapply wp_nodes_assign.
  { eapply nodes_rep_perm; [|exact Hn]. rewrite mems_app, (comm (++)).
    cbn [res app]. unfold edge_entry. rewrite mems_mem. cbn [app]. reflexivity. }
  intros m' Hm. exists (AEdge kf ho p (ALeaf value)). split; [|split; [|done]].
  2:{ pose proof (trie_insert_edge_match p (Leaf w) [] value) as Hi. rewrite app_nil_r in Hi. by cbn [strip]; rewrite Hi. }
  eapply (tree_rep_replace self _ C (AEdge kf ho p (ALeaf w))); [exact Hrep|done|done|done| | | | | | | |].
  - by apply row_grows_refl.
  - by exists kf.
  - done.
  - eapply nodes_rep_perm; [|exact Hm]. by rewrite mems_app, (comm (++) (mems (cres _ _))).
  - replace (ht - length (cpath C)) with (length p) by lia. cbn. rewrite Nat.sub_diag. done.
  - done.
  - done.
  - apply grows_skip, grows_refl.
Qed.

(** ** [set] *)

(** Once the pending changes and the flat database do not decide, the leaf is
    inserted. *)
Definition set_node (key : BitVec) (value : F) : action MerkleTree error unit :=
  path_nodes ← MerkleTree_seek_nodes kv key;
  match last path_nodes with
  | Some (node_id, _) =>
      node ← MerkleTree_get_node_mut node_id;
      match node with
      | Edge edge => MerkleTree_set_edge node_id edge key value
      | Binary binary => MerkleTree_set_binary node_id binary key value
      end
  | None => MerkleTree_set_empty key value
  end.

Lemma wp_set_node key value self oa :
  tree_rep ht d self oa -> identifier_safe self.(identifier) ht -> length key = ht -> value <> Felt_ZERO ->
  wp (set_node key value) self (fun self' _ => exists a',
    tree_rep ht d self' (Some a') /\ Some (strip a') = otrie_insert (strip <$> oa) key value /\
    set_pending self self' key value).
Proof.
  intros Hrep Hsafe Hlen Hv. unfold set_node. wp_step.
  eapply (wp_seek_nodes kv d ht); [done..|exact Hrep|done|done| |].
  - intros self' -> Hrep' Hroot (Hi & Hh & _ & Hc). cbn [last].
    eapply wp_mono; [|by apply wp_set_empty]. cbn. intros self2 _ (a' & Ha & Hs & Hi2 & Hc2).
    exists a'. split; [done|]. split; [by rewrite Hs|]. split; congruence.
  - intros self' a C foc rest kf -> Hstrip Hrep' -> Hk Hstop (Hi & Hh & Hd & Hc) Hroot.
    rewrite last_snoc. cbn beta iota. pose proof (tree_rep_nodes d ht _ _ _ Hrep') as Hn.
    assert (forall foc' self2, strip foc' = trie_insert (strip foc) rest value ->
      tree_rep ht d self2 (Some (plug C foc')) -> set_pending self' self2 (cpath C ++ rest) value ->
      exists a', tree_rep ht d self2 (Some a') /\
        Some (strip a') = otrie_insert (strip <$> Some a) (cpath C ++ rest) value /\
        set_pending self self2 (cpath C ++ rest) value) as Hdone.
    { intros foc' self2 Hs Hr [Hi2 Hc2]. exists (plug C foc'). split; [done|]. split; [|split; congruence].
      
      change (Some (strip (plug C foc')) = Some (trie_insert (strip a) (cpath C ++ rest) value)).
      by rewrite <- Hstrip, (trie_insert_plug C foc foc'). }
    rewrite <- Hi in Hsafe. destruct foc as [v|t|k ho l r|k ho p c]; [done..| |]; injection Hk as ->.
    + wp_step. eapply wp_get_node; [exact Hn|rewrite mems_app, elem_of_app; right; apply list_elem_of_here|].
      cbn beta iota. destruct rest as [|b [|? ?]]; [done| |done].
      eapply wp_mono; [|by apply (wp_set_binary C kf ho l r b value self')]. cbn.
      intros self2 _ (foc' & Hr & Hs & Hp). by apply (Hdone foc').
    + wp_step. eapply wp_get_node; [exact Hn|rewrite mems_app, elem_of_app; right; apply list_elem_of_here|].
      cbn beta iota. destruct Hstop as [Hp| ->].
      * destruct (tree_rep_wf_hole d ht _ _ _ Hrep') as [_ Hwf]. cbn in Hwf. rewrite length_app in Hlen.
        destruct (common_len_cases rest p) as [(k' & -> & _)|(cp & b & k' & p' & -> & -> & _)]; [lia|..].
        { exfalso. apply Hp. by exists k'. }
        eapply wp_mono; [|eapply (wp_set_edge_split C kf ho cp b k' p' c value self'); try done].
        2:{ by rewrite length_app. }
        cbn. intros self2 _ (foc' & Hr & Hs & Hpd). by apply (Hdone foc').
      * eapply wp_mono; [|by apply (wp_set_edge_match C kf ho p c value self')]. cbn.
        intros self2 _ (foc' & Hr & Hs & Hpd). by apply (Hdone foc').
Qed.
End SetSpec.
