(* ===== verification/DeleteSpec.v ===== *)
(** * Correctness of deletion

    Deleting a leaf of the trie replaces the trie by [trie_delete] of it: the
    branch that loses the leaf collapses into an edge, which merges with the
    edges around it; the database keys of the nodes that disappear, and no
    others, enter the death row. *)
From S2P Require Import Prelude Path Id Database Error External MerkleNode Trie Changes KeyValueDb Tree Iterator Update Annot TreeInv SeekSpec SetSpec.

Section Shrinks.
Context {F K : Type} `{StarkFelt F, !StarkHash F}.
Implicit Types l : list (BitVec * place F K).

(** The paths [R] disappear, and no stored node is new. *)
Definition shrinks l l' (R : list BitVec) : Prop :=
  l.*1 ≡ₚ l'.*1 ++ R /\ forall q n, (q, Db n) ∈ l' -> (q, Db n) ∈ l.

Lemma shrinks_refl l : shrinks l l [].
Proof. split; [by rewrite app_nil_r|done]. Qed.
Lemma shrinks_app l1 l1' l2 l2' R1 R2 :
  shrinks l1 l1' R1 -> shrinks l2 l2' R2 -> shrinks (l1 ++ l2) (l1' ++ l2') (R1 ++ R2).
Proof.
  intros [Hp1 Hd1] [Hp2 Hd2]. split.
  - rewrite !fmap_app, Hp1, Hp2. solve_Permutation.
  - intros q n. rewrite !elem_of_app. naive_solver.
Qed.
Lemma shrinks_trans l1 l2 l3 R R' : shrinks l1 l2 R -> shrinks l2 l3 R' -> shrinks l1 l3 (R' ++ R).
Proof. intros [Hp Hd] [Hp' Hd']. split; [by rewrite Hp, Hp', app_assoc|auto]. Qed.
Lemma shrinks_drop q pl l : shrinks ((q, pl) :: l) l [q].
Proof. split; [cbn; solve_Permutation|set_solver]. Qed.
Lemma shrinks_skip q pl k n l l' R : shrinks l l' R -> shrinks ((q, pl) :: l) ((q, Mem k n) :: l') R.
Proof. intros [Hp Hd]. split; [cbn; by rewrite Hp|intros q' n'; specialize (Hd q' n'); set_solver]. Qed.
Lemma shrinks_perm l1 l1' l2 l2' R R' :
  l1 ≡ₚ l1' -> l2 ≡ₚ l2' -> R ≡ₚ R' -> shrinks l1 l2 R -> shrinks l1' l2' R'.
Proof.
  intros H1 H2 H3 [Hp Hd]. split; [by rewrite <- H1, <- H2, <- H3|].
  intros q n. rewrite <- H1, <- H2. auto.
Qed.
End Shrinks.

Section DeleteSpec.
Context {F K : Type} {M : Type -> Type} {DB ID : Type}.
Context `{StarkFelt F, !StarkHash F, SlotMap K M, !LawfulSlotMap K M, !NodeCodec F K, !LawfulNodeCodec F K,
  BonsaiDatabase DB, Id ID}.
Context (kv : KeyValueDB DB ID) (d : TrieKey -> option ByteVec) (ht : nat).
Context (Hkv : kv_view kv d) (Hht0 : 0 < ht) (Hht : ht <= 255).
Abbreviation MerkleTree := (MerkleTree F K M).
Abbreviation error := (BonsaiStorageError (DatabaseError DB)).
Implicit Types self : MerkleTree.

(** The death row gains the keys of the paths [R]. *)
Definition row_plus self self' (R : list BitVec) : Prop :=
  forall x, x ∈ self'.(death_row) <-> x ∈ self.(death_row) \/ x ∈ node_key self.(identifier) <$> R.

(** The part of the invariant that speaks of the entries only: it holds in
    the middle of a deletion, when they are no tree's. *)
Record ent_rep self (l : list (BitVec * place F K)) : Prop := {
  ent_nodes : nodes_rep (slot_view self.(nodes)) (mems l);
  ent_db : forall q n, (q, Db n) ∈ l ->
    d (node_key self.(identifier) q) = Some (Node_encode_fields n) /\
    node_key self.(identifier) q ∉ self.(death_row);
  ent_cover : forall q, length q <= ht -> is_Some (d (node_key self.(identifier) q)) ->
    q ∈ l.*1 \/ node_key self.(identifier) q ∈ self.(death_row);
  ent_row : forall key, key ∈ self.(death_row) -> row_key self.(identifier) ht key;
  ent_NoDup : NoDup l.*1;
  ent_length : forall q, q ∈ l.*1 -> length q < ht;
}.

Lemma ent_rep_perm self l l' : l ≡ₚ l' -> ent_rep self l -> ent_rep self l'.
Proof.
  intros Hl [Hn Hdb Hcov Hrow Hnd Hlen]. split; try done.
  - eapply nodes_rep_perm; [|exact Hn]. by rewrite Hl.
  - intros q n. rewrite <- Hl. apply Hdb.
  - intros q. rewrite <- Hl. apply Hcov.
  - by rewrite <- Hl.
  - intros q. rewrite <- Hl. apply Hlen.
Qed.

Lemma tree_rep_ent self a : tree_rep ht d self (Some a) -> ent_rep self (res [] a).
Proof.
  intros [_ Hn _ Hdb Hcov Hrow Hwf _]. cbn in Hwf. split; try done; [by eapply res_NoDup|].
  pose proof (res_within [] ht a Hwf) as Hw. rewrite Forall_forall in Hw.
  intros q (e & -> & He)%list_elem_of_fmap. by destruct (Hw e He) as [_ ?].
Qed.

Lemma ent_rep_shrink self self' l l' R :
  ent_rep self l -> self'.(identifier) = self.(identifier) -> row_plus self self' R ->
  nodes_rep (slot_view self'.(nodes)) (mems l') -> shrinks l l' R -> ent_rep self' l'.
Proof.
  intros [_ Hdb Hcov Hrow0 Hnd Hlen] Hi Hrow Hn [Hp Hd].
  rewrite Hp in Hnd. apply NoDup_app in Hnd as (Hnd & Hdisj & _).
  assert (forall q, q ∈ l'.*1 -> q ∈ l.*1) as Hsub by (intros q; rewrite Hp; set_solver).
  split; [done|..|done|auto].
  - intros q n Hq. rewrite Hi. destruct (Hdb q n (Hd _ _ Hq)) as [Henc Hnrow]. split; [done|].
    intros [|(r & Heq & Hr')%list_elem_of_fmap]%Hrow; [done|].
    assert (q ∈ l'.*1) as Hq'. { apply list_elem_of_fmap. by exists (q, Db n). }
    assert (length q < ht) by auto. assert (length r < ht) by (apply Hlen; rewrite Hp; set_solver).
    apply node_key_inj in Heq as ->; [by apply Hdisj in Hr'|lia|lia].
  - intros q Hq Hs. rewrite Hi in *. destruct (Hcov q Hq Hs) as [Hin|Hin].
    + rewrite Hp, elem_of_app in Hin. destruct Hin as [|Hin]; [by left|right].
      apply Hrow. right. by apply list_elem_of_fmap_2.
    + right. apply Hrow. by left.
  - intros key Hkey. rewrite Hi. apply Hrow in Hkey as [|(q & -> & Hq)%list_elem_of_fmap]; [auto|].
    apply row_key_node. enough (length q < ht) by lia. apply Hlen. rewrite Hp. set_solver.
Qed.

Lemma ent_rep_tree self oa :
  ent_rep self (ores oa) -> self.(max_height) = ht -> root_ok self.(root_node) oa ->
  otrie_wf ht (strip <$> oa) -> match oa with Some a => agood a | None => True end ->
  tree_rep ht d self oa.
Proof. intros [] ? ? ? ?. by split. Qed.

(** ** Merging an edge with its child *)

(** What the database says of a subtree. *)
Definition sub_ok self (q : BitVec) (o : atree F K) : Prop :=
  (forall p n, (p, Db n) ∈ res q o -> d (node_key self.(identifier) p) = Some (Node_encode_fields n) /\
     node_key self.(identifier) p ∉ self.(death_row)) /\
  (forall v, o = ALeaf v -> is_Some (d (node_key self.(identifier) q)) -> node_key self.(identifier) q ∈ self.(death_row)).

Definition only_row_nodes self self' : Prop :=
  self'.(root_node) = self.(root_node) /\ self'.(identifier) = self.(identifier) /\
  self'.(cache_leaf_modified) = self.(cache_leaf_modified) /\ self'.(max_height) = self.(max_height).

Lemma row_plus_nil self self' : self'.(death_row) = self.(death_row) -> row_plus self self' [].
Proof. intros Hd x. rewrite Hd. cbn. set_solver. Qed.

Lemma get_branch_stored self q t n :
  d (node_key self.(identifier) q) = Some (Node_encode_fields (tnode (K := K) q t)) ->
  node_key self.(identifier) q ∉ self.(death_row) ->
  trie_wf n t -> is_leaf t = false -> length q + n <= 255 ->
  MerkleTree_get_trie_branch_in_db_from_path self.(death_row) self.(identifier) kv q = Ok (Some (tnode (K := K) q t)).
Proof.
  intros Hd Hrow Hwf Hl Hn. unfold MerkleTree_get_trie_branch_in_db_from_path.
  cbn zeta. fold (node_key self.(identifier) q). rewrite decide_False by done. rewrite Hkv, Hd. cbn [mbind outcome_bind].
  destruct (tnode_ok (K := K) q n t Hwf Hl Hn) as [Hhash Hfits].
  pose proof (Node_decode_encode _ [] Hhash Hfits) as Hdec. rewrite app_nil_r in Hdec. by rewrite Hdec.
Qed.

Lemma get_branch_none self q :
  (is_Some (d (node_key self.(identifier) q)) -> node_key self.(identifier) q ∈ self.(death_row)) ->
  MerkleTree_get_trie_branch_in_db_from_path (F := F) (K := K) self.(death_row) self.(identifier) kv q = Ok None.
Proof.
  intros Hd. unfold MerkleTree_get_trie_branch_in_db_from_path.
  cbn zeta. fold (node_key self.(identifier) q). case_decide as Hrow; [done|]. rewrite Hkv. cbn [mbind outcome_bind].
  destruct (d (node_key (identifier self) q)); [|done]. exfalso. by apply Hrow, Hd.
Qed.

(** The edge [parent] of path [pp] at [pos], over the child [o]. *)
Definition merge_result self self' pos pp o hash height (e : EdgeNode F K) l (R : list BitVec) (c : atree F K) : Prop :=
  merge_edge pp (strip o) = Edg e.(edge_path) (strip c) /\
  e = mkEdgeNode hash height e.(edge_path) (ahandle c) /\ agood c /\ only_row_nodes self self' /\
  nodes_rep (slot_view self'.(nodes)) (mems (res (pos ++ e.(edge_path)) c) ++ l) /\
  shrinks (res (pos ++ pp) o) (res (pos ++ e.(edge_path)) c) R /\ row_plus self self' R.

Lemma wp_merge_edges self hash height pos pp o n l :
  nodes_rep (slot_view self.(nodes)) (mems (res (pos ++ pp) o) ++ l) ->
  sub_ok self (pos ++ pp) o -> trie_wf n (strip o) -> length (pos ++ pp) + n <= 255 -> agood o ->
  wp (MerkleTree_merge_edges kv (mkEdgeNode hash height pp (ahandle o)) (pos ++ pp)) self
    (fun self' e => exists R c, merge_result self self' pos pp o hash height e l R c).
Proof.
  intros Hn [Hdb Hleaf] Hwf Hlen Hg. unfold MerkleTree_merge_edges. cbn [edge_child].
  wp_step. wp_step. cbn zeta. fold (node_key self.(identifier) (pos ++ pp)).
  assert (is_edge (strip o) = false -> merge_result self self pos pp o hash height (mkEdgeNode hash height pp (ahandle o)) l [] o) as Hsame.
  { intros He. unfold merge_result. cbn [edge_path].
    split; [by destruct (strip o)|]. split; [done|]. split; [done|]. split; [done|]. split; [done|].
    split; [apply shrinks_refl|by apply row_plus_nil]. }
  destruct o as [v|t|k ho lo ro|k ho p c]; cbn [ahandle edge_hash edge_height edge_path edge_child].
  - wp_step. wp_step. wp_step. eapply wp_lift; [apply get_branch_none; by eapply Hleaf|]. wp_step.
    exists [], (ALeaf v). by apply Hsame.
  - wp_step. wp_step. wp_step. cbn in Hwf, Hg.
    destruct (Hdb (pos ++ pp) (tnode (pos ++ pp) t)) as [Hd Hrow].
    { cbn [res]. rewrite tres_stored by done. by left. }
    eapply wp_lift; [by eapply get_branch_stored|].
    destruct t as [v|tl tr|p c]; [done| |]; cbn [tnode].
    + wp_step. exists [], (AStored (Bin tl tr)). by apply Hsame.
    + wp_step. apply wp_death_row_insert. wp_step. exists [pos ++ pp], (astored c).
      unfold merge_result. cbn [edge_path edge_child strip merge_edge]. rewrite strip_astored, ahandle_astored, res_astored.
      split; [done|]. split; [done|]. split; [apply agood_astored|]. split; [done|].
      rewrite app_assoc. cbn [res tres] in Hn. rewrite mems_db in Hn. split; [done|].
      split; [apply shrinks_drop|]. intros x. cbn. set_solver.
  - wp_step. eapply wp_get_node; [exact Hn|rewrite elem_of_app; left; apply list_elem_of_here|].
    wp_step. exists [], (ABin k ho lo ro). by apply Hsame.
  - wp_step. eapply wp_get_node; [exact Hn|rewrite elem_of_app; left; apply list_elem_of_here|].
    wp_step. eapply wp_nodes_remove; [exact Hn|]. intros m' Hm. wp_step. apply wp_death_row_insert. wp_step.
    exists [pos ++ pp], c. unfold merge_result. cbn [edge_path edge_child strip merge_edge].
    rewrite app_assoc. split; [done|]. split; [done|]. split; [done|]. split; [done|]. split; [exact Hm|].
    split; [apply shrinks_drop|]. intros x. cbn. set_solver.
Qed.

Lemma ent_rep_sub_ok self (q : BitVec) (o : atree F K) l :
  ent_rep self (res q o ++ l) -> length q + (if is_leaf (strip o) then 0 else 1) <= ht ->
  (is_leaf (strip o) = true -> length q = ht) -> sub_ok self q o.
Proof.
  intros [_ Hdb Hcov _ _ Hlen] Hq Hleaf. split.
  - intros p n Hp. apply Hdb. set_solver.
  - intros v -> Hs. cbn in *. destruct (Hcov q) as [Hin|]; [lia|done| |done].
    apply Hlen in Hin. by rewrite Hleaf in Hin by done; lia.
Qed.

(** ** The branch that loses its leaf *)

(** The two nodes recorded last, the branch and its parent. *)
Lemma rev_cheights (f : frame F K) C :
  rev (cheights (f :: C)) = (frame_key f, length (cpath C)) :: rev (cheights C).
Proof. cbn [cheights]. by rewrite rev_app_distr. Qed.

(** The tree where the branch becomes the edge of path [pe] to [c]: in place,
    or, below an edge, as a longer edge. *)
Definition collapse (C : list (frame F K)) (kb : K) (pe : BitVec) (c : atree F K) : atree F K :=
  match C with
  | FEdge kp hp pp :: C => plug C (AEdge kp hp (pp ++ pe) c)
  | _ => plug C (AEdge kb None pe c)
  end.

Lemma collapse_delete kb hb b o C hole rest pe (c : atree F K) :
  trie_wf ht (strip (plug (FBin kb hb b o :: C) hole)) ->
  trie_delete (strip hole) rest = None -> merge_edge [negb b] (strip o) = Edg pe (strip c) ->
  trie_delete (strip (plug (FBin kb hb b o :: C) hole)) (cpath C ++ b :: rest) = Some (strip (collapse C kb pe c)).
Proof.
  intros Hwf Hhole Hmerge. cbn [plug] in *.
  assert (trie_delete (strip (frame_plug (FBin kb hb b o) hole)) (b :: rest) = Some (Edg pe (strip c))) as Hdel.
  { destruct b; cbn in *; by rewrite Hhole, Hmerge. }
  destruct C as [|[kf ho bf of'|kp hp pp] C]; cbn [collapse].
  - exact Hdel.
  - by apply (trie_delete_plug ht (FBin kf ho bf of' :: C) _ (AEdge kb None pe c)).
  - cbn [plug cpath frame_path]. rewrite <- app_assoc.
    apply (trie_delete_plug ht C (AEdge kp hp pp _) (AEdge kp hp (pp ++ pe) c)); [done| |].
    + change (merge_edge pp <$> trie_delete (strip (frame_plug (FBin kb hb b o) hole))
        (drop (length pp) (pp ++ b :: rest)) = Some (Edg (pp ++ pe) (strip c))).
      by rewrite drop_app_length, Hdel.
    + intros _. destruct C as [|[|kq hq pq] C]; [done|done|]. cbn [plug frame_plug] in Hwf.
      destruct (plug_wf _ C _ Hwf) as (_ & Hf & _). cbn in Hf. naive_solver.
Qed.

Lemma root_ok_handle r (a a' : atree F K) k :
  ahandle a = InMemory k -> ahandle a' = InMemory k -> root_ok r (Some a) -> root_ok r (Some a').
Proof.
  intros Ha Ha'. unfold root_ok. destruct r as [[|k']|]; [done|congruence|]. by destruct a.
Qed.

Lemma collapse_root r kb hb b o C hole pe (c : atree F K) :
  root_ok r (Some (plug (FBin kb hb b o :: C) hole)) -> root_ok r (Some (collapse C kb pe c)).
Proof.
  destruct C as [|[kf ho bf of'|kp hp pp] C]; cbn [collapse].
  - by apply (root_ok_handle _ _ _ kb); [apply ahandle_frame_plug|].
  - apply (root_ok_plug r _ C (frame_plug (FBin kb hb b o) hole)).
  - destruct C as [|g C]; [by apply (root_ok_handle _ _ _ kp)|].
    apply (root_ok_plug r g C (frame_plug (FEdge kp hp pp) (frame_plug (FBin kb hb b o) hole))).
Qed.

Lemma collapse_good kb hb b o C hole pe (c : atree F K) :
  agood (plug (FBin kb hb b o :: C) hole) -> agood c -> agood (collapse C kb pe c).
Proof.
  intros [Hg _]%agood_plug Hc. apply Forall_cons in Hg as [_ Hg].
  destruct C as [|[kf ho bf of'|kp hp pp] C]; cbn [collapse]; [done|by apply agood_plug|].
  apply Forall_cons in Hg as [_ Hg]. by apply agood_plug.
Qed.

(** The entries of the collapsed tree. *)
Lemma collapse_res C kb pe (c : atree F K) :
  res [] (collapse C kb pe c) ≡ₚ
  match C with
  | FEdge kp hp pp :: C => edge_entry kp hp (cpath C) (pp ++ pe) (ahandle c) :: res ((cpath C ++ pp) ++ pe) c ++ cres C (InMemory kp)
  | _ => edge_entry kb None (cpath C) pe (ahandle c) :: res (cpath C ++ pe) c ++ cres C (InMemory kb)
  end.
Proof.
  destruct C as [|[kf ho bf of'|kp hp pp] C]; cbn [collapse].
  - cbn [plug res cpath app cres]. by rewrite app_nil_r.
  - rewrite res_plug. cbn [res ahandle]. solve_Permutation.
  - rewrite res_plug. cbn [res ahandle]. rewrite app_assoc. solve_Permutation.
Qed.

(** [delete_branch] after the merge with the child: the entries are those of
    the tree around the branch, with the branch's node still binary. *)
Lemma wp_collapse C kb n0 c e self (Q : MerkleTree -> unit -> Prop) :
  e = mkEdgeNode None (length (cpath C)) e.(edge_path) (ahandle c) ->
  ent_rep self ((cpath C, Mem kb n0) :: res (cpath C ++ e.(edge_path)) c ++ cres C (InMemory kb)) ->
  (forall self', ent_rep self' (res [] (collapse C kb e.(edge_path) c)) -> only_row_nodes self self' -> Q self' tt) ->
  wp (match head (rev (cheights C)) with
      | Some (parent_node_id, _) =>
          parent_node ← MerkleTree_get_node_mut parent_node_id;
          match parent_node with
          | Edge parent_edge =>
              _ ← nodes_assign parent_node_id
                    (Edge (mkEdgeNode parent_edge.(edge_hash) parent_edge.(edge_height)
                       (parent_edge.(edge_path) ++ e.(edge_path)) e.(edge_child)));
              let par_path := cpath C in
              identifier ← gets identifier;
              _ ← death_row_insert (TrieKey_new identifier TrieKeyType_Trie (Path_encode par_path));
              nodes_remove kb
          | Binary _ => nodes_assign kb (Edge e)
          end
      | None => nodes_assign (DB := DB) kb (Edge e)
      end) self Q.
Proof.
  intros He Hent HQ.
  assert (match C with FEdge _ _ _ :: _ => False | _ => True end ->
    wp (nodes_assign (DB := DB) kb (Edge e)) self Q) as Hassign.
  { intros HC. pose proof (ent_nodes _ _ Hent) as Hn. rewrite mems_mem in Hn.
    eapply wp_nodes_assign; [exact Hn|]. intros m' Hm. apply HQ; [|done].
    eapply ent_rep_perm; [symmetry; apply collapse_res|].
    apply (ent_rep_shrink self _ ((cpath C, Mem kb n0) :: res (cpath C ++ edge_path e) c ++ cres C (InMemory kb)) _ []); [done|done|by apply row_plus_nil| |].
    - rewrite He in Hm. destruct C as [|[]]; [exact Hm|exact Hm|done].
    - destruct C as [|[]]; [apply shrinks_skip, shrinks_refl|apply shrinks_skip, shrinks_refl|done]. }
  destruct C as [|f C]; [by apply Hassign|]. rewrite rev_cheights. cbn [head].
  pose proof (ent_nodes _ _ Hent) as Hn. wp_step. eapply wp_get_node.
  { exact Hn. }
  { cbn [cres]. rewrite mems_mem, mems_app, mems_mem, elem_of_cons, elem_of_app. right; right. apply list_elem_of_here. }
  destruct f as [kf ho bf of'|kp hp pp]; cbn [frame_node frame_key].
  { cbn beta iota. by apply Hassign. }
  wp_step. set (N := Edge _).
  assert (nodes_rep (slot_view (nodes self)) ((kp, Edge (mkEdgeNode hp (length (cpath C)) pp (InMemory kb))) ::
    (kb, n0) :: mems (res (cpath (FEdge kp hp pp :: C) ++ edge_path e) c ++ cres C (InMemory kp)))) as Hn'.
  { eapply nodes_rep_perm; [|exact Hn]. cbn [cres frame_res app frame_node frame_key].
    rewrite mems_mem, !mems_app, mems_mem. solve_Permutation. }
  eapply wp_nodes_assign; [exact Hn'|]. intros m1 Hm1. wp_step. wp_step. wp_step. apply wp_death_row_insert.
  eapply wp_nodes_remove.
  { eapply nodes_rep_perm; [|exact Hm1]. apply perm_swap. }
  intros m2 Hm2. apply HQ; [|done]. eapply ent_rep_perm; [symmetry; apply collapse_res|].
  eapply (ent_rep_shrink self _ _ _ [cpath (FEdge kp hp pp :: C)]); [exact Hent|done| | |].
  - intros x. cbn. set_solver.
  - unfold edge_entry. rewrite mems_mem. unfold N in Hm2. rewrite He in Hm2. exact Hm2.
  - cbn [cres frame_res app frame_node frame_key cpath frame_path].
    eapply (shrinks_trans _ _ _ _ []); [apply shrinks_drop|].
    eapply shrinks_perm; [apply Permutation_middle|reflexivity|reflexivity|]. apply shrinks_skip, shrinks_refl.
Qed.

(** What deletion leaves unchanged. *)
Definition delete_pending self self' : Prop :=
  self'.(identifier) = self.(identifier) /\ self'.(cache_leaf_modified) = self.(cache_leaf_modified).

Lemma removelast_snoc {A} (l : list A) x : removelast (l ++ [x]) = l.
Proof. by rewrite removelast_app, app_nil_r by done. Qed.

(** The branch [FBin kb hb b o] loses the side [b], whose entries are gone. *)
Lemma wp_delete_branch C kb hb b o hole rest h self :
  let a := plug (FBin kb hb b o :: C) hole in
  ent_rep self (cres (FBin kb hb b o :: C) h) -> self.(max_height) = ht ->
  root_ok self.(root_node) (Some a) -> trie_wf ht (strip a) -> agood a ->
  length (cpath C ++ b :: rest) = ht -> trie_delete (strip hole) rest = None ->
  wp (MerkleTree_delete_branch kv (cpath C ++ b :: rest) (cpath C ++ [b]) kb (head (rev (cheights C)))) self
    (fun self' _ => exists a', tree_rep ht d self' (Some a') /\
       trie_delete (strip a) (cpath C ++ b :: rest) = Some (strip a') /\ delete_pending self self').
Proof.
  intros a Hent Hht' Hroot Hwf Hg Hlen Hdel. rewrite length_app in Hlen. cbn in Hlen.
  destruct (plug_wf ht C (frame_plug (FBin kb hb b o) hole) Hwf) as (_ & Hbin & _).
  pose proof Hg as [Hgf _]%agood_plug. apply Forall_cons in Hgf as [Hgo _]. cbn in Hgo.
  assert (trie_wf (ht - length (cpath C) - 1) (strip o)) as Hwfo.
  { destruct (ht - length (cpath C)) as [|n]; [by destruct b|]. replace (S n - 1) with n by lia.
    destruct b; cbn in Hbin; tauto. }
  unfold MerkleTree_delete_branch. wp_step. pose proof (ent_nodes _ _ Hent) as Hn. eapply wp_get_node.
  { exact Hn. }
  { cbn [cres]. rewrite mems_mem. by left. }
  replace (frame_node (FBin kb hb b o) (cpath C) h) with
    (Binary (mkBinaryNode hb (length (cpath C)) (if b then ahandle o else h) (if b then h else ahandle o))) by (by destruct b).
  wp_step. wp_step. wp_step. eapply wp_lift.
  { unfold BinaryNode_direction, bit_index. cbn [binary_height].
    rewrite lookup_app_r, Nat.sub_diag by lia. reflexivity. }
  cbn zeta. rewrite !removelast_snoc, bool_from_invert, bool_from_Direction_from. cbn [binary_height binary_left binary_right].
  replace (match Direction_invert (Direction_from b) with Left => _ | Right => _ end) with (ahandle o) by (by destruct b).
  wp_step. eapply wp_mono; [|eapply (wp_merge_edges self None _ (cpath C) [negb b] o (ht - length (cpath C) - 1)
    (mems ((cpath C, Mem kb (frame_node (FBin kb hb b o) (cpath C) h)) :: cres C (InMemory kb))))].
  2:{ eapply nodes_rep_perm; [|exact Hn]. cbn [cres frame_res frame_key]. rewrite <- mems_app. apply mems_proper. solve_Permutation. }
  2:{ eapply ent_rep_sub_ok.
      - eapply ent_rep_perm; [|exact Hent]. cbn [cres frame_res]. rewrite Permutation_middle. reflexivity.
      - rewrite length_app. cbn. destruct (is_leaf (strip o)) eqn:Hl; [lia|].
        pose proof (trie_wf_height _ _ Hwfo Hl). lia.
      - intros Hl. destruct (strip o); [destruct Hwfo|done..]. rewrite length_app. cbn. lia. }
  2:{ exact Hwfo. } 2:{ rewrite length_app. cbn. lia. } 2:{ exact Hgo. }
  intros self1 e (R & c & Hmerge & He & Hgc & (Hr1 & Hi1 & Hc1 & Hh1) & Hn1 & Hsh & Hrow).
  eapply (wp_collapse C kb (frame_node (FBin kb hb b o) (cpath C) h) c e); [exact He| |].
  { eapply (ent_rep_shrink self self1 _ _ R); [exact Hent|done|done| |].
    - eapply nodes_rep_perm; [|exact Hn1]. rewrite <- mems_app. apply mems_proper. solve_Permutation.
    - cbn [cres frame_res frame_key]. apply shrinks_skip.
      rewrite <- (app_nil_r R). apply shrinks_app; [exact Hsh|apply shrinks_refl]. }
  intros self2 Hent2 (Hr2 & Hi2 & Hc2 & Hh2). exists (collapse C kb e.(edge_path) c).
  pose proof (collapse_delete kb hb b o C hole rest e.(edge_path) c Hwf Hdel Hmerge) as Hdeleted.
  split; [|split; [done|split; congruence]].
  apply ent_rep_tree; [done|congruence| | |].
  - rewrite Hr2, Hr1. by eapply collapse_root.
  - pose proof (trie_delete_wf ht _ (cpath C ++ b :: rest) Hwf) as Hwf'. unfold a in Hwf'. by rewrite Hdeleted in Hwf'.
  - by eapply collapse_good.
Qed.

(** ** The last edge and the root *)

(** [delete_leaf] once the leaf is known to be in the trie. *)
Definition delete_node (key : BitVec) : action MerkleTree error unit :=
  path_nodes ← MerkleTree_seek_nodes kv key;
  '(last_binary_path, path_nodes) ← MerkleTree_delete_final_edge key path_nodes;
  match rev path_nodes with
  | (node_id, _) :: node_iter =>
      MerkleTree_delete_branch kv key last_binary_path node_id (head node_iter)
  | [] => MerkleTree_delete_root
  end.

Abbreviation deleted self a key self' := (exists oa', tree_rep ht d self' oa' /\
  strip <$> oa' = trie_delete (strip a) key /\ delete_pending self self').

(** The last node is a binary node, over the leaf. *)
Lemma wp_delete_at_binary C kf ho l r b self :
  let a := plug C (ABin kf ho l r) in
  tree_rep ht d self (Some a) -> length (cpath C ++ [b]) = ht ->
  wp ('(last_binary_path, path_nodes) ← MerkleTree_delete_final_edge (DB := DB) (cpath C ++ [b]) (cheights C ++ [(kf, length (cpath C))]);
      match rev path_nodes with
      | (node_id, _) :: node_iter => MerkleTree_delete_branch kv (cpath C ++ [b]) last_binary_path node_id (head node_iter)
      | [] => MerkleTree_delete_root
      end) self (fun self' _ => deleted self a (cpath C ++ [b]) self').
Proof.
  intros a Hrep Hlen. pose proof (tree_rep_nodes d ht _ _ _ Hrep) as Hn.
  unfold MerkleTree_delete_final_edge. rewrite last_snoc. wp_step. wp_step.
  eapply wp_get_node; [exact Hn|rewrite mems_app, elem_of_app; right; apply list_elem_of_here|].
  wp_step. cbn beta iota. rewrite rev_app_distr. cbn [rev app].
  set (hole := if b then r else l). set (o := if b then l else r).
  assert (a = plug (FBin kf ho b o :: C) hole) as Ha by (by destruct b).
  pose proof (rep_good _ _ _ _ Hrep) as Hg. cbn in Hg. pose proof (rep_wf _ _ _ _ Hrep) as Hwf. cbn in Hwf.
  pose proof (rep_root _ _ _ _ Hrep) as Hroot. pose proof (tree_rep_ent _ _ Hrep) as Hent.
  rewrite Ha in Hg, Hwf, Hroot, Hent |- *.
  assert (exists v, hole = ALeaf v) as [v Hv].
  { apply leaf_at_height; [|by apply agood_plug in Hg as []].
    destruct (plug_wf _ _ _ Hwf) as (_ & Hh & _). cbn [cpath frame_path] in Hh. by rewrite Hlen, Nat.sub_diag in Hh. }
  eapply wp_mono; [|eapply (wp_delete_branch C kf ho b o hole [] (ahandle hole) self)]; [|..|done|done|done|done|].
  - cbn. intros self' _ (a' & Hr & Hs & Hp). exists (Some a'). by rewrite Hs.
  - eapply ent_rep_perm; [|exact Hent]. rewrite res_plug, Hv. cbn [res]. by rewrite app_nil_r.
  - apply (rep_height _ _ _ _ Hrep).
  - by rewrite Hv.
Qed.

(** The last node is an edge to the leaf: it is removed, with its parent
    branch, or the tree becomes empty. *)
Lemma wp_delete_final_edge C kf ho p w self (Q : MerkleTree -> BitVec * list (K * nat) -> Prop) :
  tree_rep ht d self (Some (plug C (AEdge kf ho p (ALeaf w)))) ->
  (forall self', ent_rep self' (cres C (InMemory kf)) -> only_row_nodes self self' -> Q self' (cpath C, cheights C)) ->
  wp (MerkleTree_delete_final_edge (DB := DB) (cpath C ++ p) (cheights C ++ [(kf, length (cpath C))])) self Q.
Proof.
  intros Hrep HQ. pose proof (tree_rep_nodes d ht _ _ _ Hrep) as Hn.
  unfold MerkleTree_delete_final_edge. rewrite last_snoc. wp_step.
  eapply wp_get_node; [exact Hn|rewrite mems_app, elem_of_app; right; apply list_elem_of_here|].
  cbn beta iota zeta. cbn [edge_path]. rewrite length_app, Nat.add_sub, take_app_length, removelast_snoc.
  wp_step. wp_step. wp_step. apply wp_death_row_insert. wp_step. eapply wp_nodes_remove.
  { eapply nodes_rep_perm; [|exact Hn]. rewrite mems_app, (comm (++)).
    cbn [res app]. unfold edge_entry. rewrite mems_mem. cbn [app]. reflexivity. }
  intros m' Hm. wp_step. apply HQ; [|done].
  eapply (ent_rep_shrink self _ _ _ [cpath C]); [by apply tree_rep_ent|done| |exact Hm|].
  - intros x. cbn. set_solver.
  - eapply shrinks_perm; [|reflexivity|reflexivity|apply shrinks_drop]. rewrite res_plug. cbn [res ahandle].
    rewrite (comm (++)). unfold edge_entry. cbn [app]. reflexivity.
Qed.

Lemma wp_delete_root k self :
  ent_rep self [] -> self.(root_node) = Some (RootHandle_Loaded k) -> self.(max_height) = ht ->
  wp (MerkleTree_delete_root (DB := DB)) self (fun self' _ => tree_rep ht d self' None /\ delete_pending self self').
Proof.
  intros Hent Hroot Hh. unfold MerkleTree_delete_root. wp_step. wp_step. rewrite Hroot. wp_step.
  unfold nodes_remove. wp_step. wp_step. wp_step. wp_step. apply wp_death_row_insert. wp_step.
  split; [|done]. apply ent_rep_tree; [|done..].
  destruct Hent as [[Hv _] Hdb Hcov Hrow Hnd Hlen]. split.
  - cbn. rewrite slot_view_remove, Hv. cbn. rewrite delete_empty. apply nodes_rep_nil.
  - cbn. by intros q n ?%elem_of_nil.
  - intros q Hq Hs. destruct (Hcov q Hq Hs) as [?|?]; [by left|right]. cbn. set_solver.
  - cbn. intros key. rewrite elem_of_union, elem_of_singleton. intros [->|?]; [|auto].
    rewrite Path_encode_root. apply row_key_node. cbn. lia.
  - constructor.
  - cbn. by intros q ?%elem_of_nil.
Qed.

Lemma wp_delete_at_edge C kf ho p w self :
  let a := plug C (AEdge kf ho p (ALeaf w)) in
  tree_rep ht d self (Some a) -> length (cpath C ++ p) = ht -> is_Some self.(root_node) ->
  wp ('(last_binary_path, path_nodes) ← MerkleTree_delete_final_edge (DB := DB) (cpath C ++ p) (cheights C ++ [(kf, length (cpath C))]);
      match rev path_nodes with
      | (node_id, _) :: node_iter => MerkleTree_delete_branch kv (cpath C ++ p) last_binary_path node_id (head node_iter)
      | [] => MerkleTree_delete_root
      end) self (fun self' _ => deleted self a (cpath C ++ p) self').
Proof.
  intros a Hrep Hlen [r Hr]. wp_step. apply (wp_delete_final_edge C kf ho p w); [exact Hrep|].
  intros self1 Hent (Hr1 & Hi1 & Hc1 & Hh1). cbn beta iota.
  pose proof (rep_root _ _ _ _ Hrep) as Hroot. pose proof (rep_height _ _ _ _ Hrep) as Hh.
  pose proof (rep_wf _ _ _ _ Hrep) as Hwf. cbn in Hwf. pose proof (rep_good _ _ _ _ Hrep) as Hg. cbn in Hg.
  destruct C as [|[kb hb b o|kb hb pb] C].
  - cbn [cheights rev]. assert (r = RootHandle_Loaded kf) as ->.
    { rewrite Hr in Hroot. destruct r as [|k]; [done|]. cbn in Hroot. congruence. }
    eapply wp_mono; [|apply (wp_delete_root kf); [done|congruence|congruence]].
    cbn. intros self2 _ [Hrep2 [Hi2 Hc2]]. exists None. split; [done|]. split; [done|split; congruence].
  - rewrite rev_cheights. cbn [frame_key]. cbn [cpath frame_path] in *.
    replace ((cpath C ++ [b]) ++ p) with (cpath C ++ b :: p) in * by (by rewrite <- app_assoc).
    eapply wp_mono; [|eapply (wp_delete_branch C kb hb b o (AEdge kf ho p (ALeaf w)) p (InMemory kf) self1)].
    + cbn. intros self2 _ (a' & Hrep2 & Hs & [Hi2 Hc2]). exists (Some a').
      split; [done|]. split; [by rewrite Hs|split; congruence].
    + done.
    + congruence.
    + by rewrite Hr1.
    + done.
    + done.
    + done.
    + done.
  - exfalso. cbn [a plug frame_plug] in Hwf. destruct (plug_wf _ _ _ Hwf) as (_ & Hf & _). cbn in Hf. naive_solver.
Qed.

Lemma wp_delete_node key v self oa :
  tree_rep ht d self oa -> length key = ht -> otrie_lookup (strip <$> oa) key = Some v ->
  wp (delete_node key) self (fun self' _ => exists oa',
    tree_rep ht d self' oa' /\ strip <$> oa' = otrie_delete (strip <$> oa) key /\ delete_pending self self').
Proof.
  intros Hrep Hlen Hv. unfold delete_node. wp_step.
  eapply (wp_seek_nodes kv d ht); [done..|exact Hrep|done|done| |].
  { intros self' ->. done. }
  intros self' a C foc rest kf -> Hstrip Hrep' -> Hk Hstop (Hi & Hh & Hd & Hc) Hroot.
  assert (otrie_delete (strip <$> Some a) (cpath C ++ rest) = trie_delete (strip (plug C foc)) (cpath C ++ rest)) as ->.
  { rewrite Hstrip. cbn in *. by rewrite Hv. }
  cbn in Hv. rewrite <- Hstrip, trie_lookup_plug in Hv.
  assert (forall self2, deleted self' (plug C foc) (cpath C ++ rest) self2 -> deleted self (plug C foc) (cpath C ++ rest) self2) as Hdone.
  { intros self2 (oa' & ? & ? & [Hi2 Hc2]). exists oa'. split; [done|]. split; [done|split; congruence]. }
  destruct (tree_rep_wf_hole d ht _ _ _ Hrep') as [_ Hwf]. pose proof (tree_rep_good_hole d ht _ _ _ Hrep') as Hg.
  destruct foc as [x|t|k ho l r|k ho p c]; [done..| |]; injection Hk as ->.
  - destruct rest as [|b [|? ?]]; [done| |done]. cbn beta iota.
    eapply wp_mono; [|by apply (wp_delete_at_binary C kf ho l r b self')]. cbn. intros ? _. apply Hdone.
  - destruct Hstop as [Hp| ->].
    + cbn in Hv. by rewrite decide_False in Hv.
    + rewrite length_app in Hlen. replace (ht - length (cpath C)) with (length p) in Hwf by lia.
      cbn in Hwf. destruct Hwf as (_ & _ & Hcw & _). rewrite Nat.sub_diag in Hcw.
      destruct (leaf_at_height c Hcw Hg) as [w ->].
      eapply wp_mono; [|apply (wp_delete_at_edge C kf ho p w self'); [done|by rewrite length_app|done]].
      cbn. intros ? _. apply Hdone.
Qed.
End DeleteSpec.
