(* ===== verification/CommitSpec.v ===== *)
(** * Correctness of the commit of a tree

    [get_updates] empties the tree: it returns the changes that make the
    database hold exactly the nodes of the trie, with their hashes, and the
    pending leaves. *)
From S2P Require Import Prelude Path Id Database Error External MerkleNode Trie Changes KeyValueDb Tree Annot TreeInv.

Section NewNodes.
Context {F K : Type} `{StarkFelt F, !StarkHash F, !NodeCodec F K}.
Implicit Types a : atree F K.

(** The in-memory nodes of a tree as [commit_subtree] stores them, last written
    first, and the nodes that are stored already. *)
Fixpoint newnodes (path : BitVec) (a : atree F K) : list (BitVec * Node F K) :=
  match a with
  | ALeaf _ | AStored _ => []
  | ABin _ _ l r => (path, tnode path (strip a)) :: newnodes (path ++ [true]) r ++ newnodes (path ++ [false]) l
  | AEdge _ _ p c => (path, tnode path (strip a)) :: newnodes (path ++ p) c
  end.

Fixpoint olds (path : BitVec) (a : atree F K) : list (BitVec * place F K) :=
  match a with
  | ALeaf _ => []
  | AStored t => tres path t
  | ABin _ _ l r => olds (path ++ [false]) l ++ olds (path ++ [true]) r
  | AEdge _ _ p c => olds (path ++ p) c
  end.

Abbreviation as_db := (prod_map (A' := BitVec) id (@Db F K)).

(** The nodes of the trie: the new ones and the old ones. *)
Lemma tres_split path a : tres path (strip a) ≡ₚ (as_db <$> newnodes path a) ++ olds path a.
Proof.
  revert path. induction a as [v|t|k ho l IHl r IHr|k ho p c IH]; intros path; cbn; try done.
  - rewrite IHl, IHr, fmap_app. unfold prod_map at 1. cbn. solve_Permutation.
  - by rewrite IH.
Qed.

Lemma res_split path a :
  (res path a).*1 ≡ₚ (newnodes path a).*1 ++ (olds path a).*1 /\
  forall q n, (q, Db n) ∈ res path a <-> (q, Db n) ∈ olds path a.
Proof.
  revert path. induction a as [v|t|k ho l IHl r IHr|k ho p c IH]; intros path; cbn; try done.
  - destruct (IHl (path ++ [false])) as [Hpl Hdl]. destruct (IHr (path ++ [true])) as [Hpr Hdr].
    split; [rewrite !fmap_app, Hpl, Hpr; solve_Permutation|].
    intros q n. rewrite elem_of_cons, !elem_of_app, Hdl, Hdr. unfold bin_entry. naive_solver.
  - destruct (IH (path ++ p)) as [Hp Hd]. split; [by rewrite Hp|].
    intros q n. rewrite elem_of_cons, Hd. unfold edge_entry. naive_solver.
Qed.

Lemma newnodes_tres path a q n : (q, n) ∈ newnodes path a -> (q, Db n) ∈ tres path (strip a).
Proof.
  intros Hq. rewrite tres_split, elem_of_app. left. apply list_elem_of_fmap. by exists (q, n).
Qed.

Lemma tres_new_or_old path a q n :
  (q, Db n) ∈ tres path (strip a) -> (q, n) ∈ newnodes path a \/ (q, Db n) ∈ res path a.
Proof.
  rewrite tres_split, elem_of_app, list_elem_of_fmap.
  intros [([q' n'] & [= -> ->] & Hin)|Hin]; [by left|right]. by apply (proj2 (res_split path a)).
Qed.

Lemma tres_paths path a : (tres (K := K) path (strip a)).*1 ≡ₚ (res path a).*1.
Proof.
  rewrite tres_split, fmap_app, (proj1 (res_split path a)). f_equiv. rewrite <- list_fmap_compose. done.
Qed.

Lemma new_old_disjoint ht a q n n' :
  trie_wf ht (strip a) -> (q, n) ∈ newnodes [] a -> (q, Db n') ∈ res [] a -> False.
Proof.
  intros Hwf Hn Hr. pose proof (tres_NoDup (K := K) [] ht _ Hwf) as Hnd.
  rewrite tres_split, fmap_app, <- list_fmap_compose in Hnd. apply NoDup_app in Hnd as (_ & Hdisj & _).
  apply (Hdisj q); apply list_elem_of_fmap; [by exists (q, n)|].
  exists (q, Db n'). split; [done|]. by apply (proj2 (res_split [] a)).
Qed.

Lemma newnodes_NoDup ht a : trie_wf ht (strip a) -> NoDup (newnodes [] a).*1.
Proof.
  intros Hwf. pose proof (tres_NoDup (K := K) [] ht _ Hwf) as Hnd.
  rewrite tres_split, fmap_app, <- list_fmap_compose in Hnd. by apply NoDup_app in Hnd as (? & _).
Qed.

(** The hashes of the in-memory nodes, children first. *)
Fixpoint ahashes (a : atree F K) : list F :=
  match a with
  | ALeaf _ | AStored _ => []
  | ABin _ _ l r => ahashes l ++ ahashes r ++ [trie_hash (strip a)]
  | AEdge _ _ _ c => ahashes c ++ [trie_hash (strip a)]
  end.
End NewNodes.

Section CommitSpec.
Context {F K : Type} {M : Type -> Type} {DB ID : Type}.
Context `{StarkFelt F, !StarkHash F, SlotMap K M, !LawfulSlotMap K M, !NodeCodec F K, !LawfulNodeCodec F K,
  BonsaiDatabase DB, Id ID}.
Abbreviation MerkleTree := (MerkleTree F K M).
Abbreviation error := (BonsaiStorageError (DatabaseError DB)).
Abbreviation CommitState := (CommitState F K M).
Implicit Types self : MerkleTree.

(** ** Hashing *)

(** [get_node_or_felt] of a subtree's handle, then the hashes of what it
    returns. *)
Definition hash_child (fuel : nat) self (h : NodeHandle F K) (path : BitVec) : outcome error (F * list F) :=
  n ← MerkleTree_get_node_or_felt self h;
  match n with
  | NodeOrFelt_Felt felt => Ok (felt, [])
  | NodeOrFelt_Node node => MerkleTree_compute_hashes fuel self node path
  end.

Lemma compute_hashes_child self path a n fuel :
  (forall k nd, (k, nd) ∈ mems (res path a) -> slot_get self.(nodes) k = Some nd) ->
  trie_wf n (strip a) -> n <= 256 -> length (mems (res path a)) <= fuel ->
  hash_child fuel self (ahandle a) path = Ok (trie_hash (strip a), ahashes a).
Proof.
  revert path n fuel. induction a as [v|t|k ho l IHl r IHr|k ho p c IH]; intros path n fuel Hslot Hwf Hn Hfuel; [done..| |].
  - cbn [res] in Hslot, Hfuel. unfold bin_entry in *. rewrite mems_mem in *. cbn in Hfuel. rewrite mems_app, length_app in Hfuel.
    destruct fuel as [|fuel]; [lia|]. destruct n as [|n]; [done|]. destruct Hwf as [Hwl Hwr].
    unfold hash_child, ahandle at 1. cbn [MerkleTree_get_node_or_felt].
    rewrite (Hslot k _ ltac:(by left)). cbn [ok_or mbind outcome_bind MerkleTree_compute_hashes binary_left binary_right].
    pose proof (IHl (path ++ [false]) n fuel) as Hl. pose proof (IHr (path ++ [true]) n fuel) as Hr.
    unfold hash_child in Hl, Hr. cbn [bool_from].
    destruct (MerkleTree_get_node_or_felt self (ahandle l)) as [nl| | |]; cbn [mbind outcome_bind] in *;
      try (discriminate Hl; [|done|lia|lia]; intros; apply Hslot; rewrite mems_app; set_solver).
    destruct (MerkleTree_get_node_or_felt self (ahandle r)) as [nr| | |]; cbn [mbind outcome_bind] in *;
      try (discriminate Hr; [|done|lia|lia]; intros; apply Hslot; rewrite mems_app; set_solver).
    rewrite Hl; [|intros; apply Hslot; rewrite mems_app; set_solver|done|lia|lia]. cbn [mbind outcome_bind].
    rewrite Hr; [|intros; apply Hslot; rewrite mems_app; set_solver|done|lia|lia]. done.
  - cbn [res] in Hslot, Hfuel. unfold edge_entry in *. rewrite mems_mem in *. cbn in Hfuel.
    destruct fuel as [|fuel]; [lia|]. destruct Hwf as (Hp & Hpl & Hc & _).
    unfold hash_child, ahandle at 1. cbn [MerkleTree_get_node_or_felt].
    rewrite (Hslot k _ ltac:(by left)). cbn [ok_or mbind outcome_bind MerkleTree_compute_hashes edge_path edge_child].
    pose proof (IH (path ++ p) _ fuel ltac:(intros; apply Hslot; set_solver) Hc ltac:(lia) ltac:(lia)) as Hh.
    unfold hash_child in Hh. destruct (MerkleTree_get_node_or_felt self (ahandle c)) as [nc| | |]; [|done..].
    cbn [mbind outcome_bind] in *. rewrite Hh. cbn [mbind outcome_bind]. rewrite hash_edge_node_ok by lia. done.
Qed.

Lemma compute_root_hash_spec ht self a k :
  nodes_rep (slot_view self.(nodes)) (mems (res [] a)) -> ahandle a = InMemory k ->
  trie_wf ht (strip a) -> ht <= 255 -> self.(root_node) = Some (RootHandle_Loaded k) ->
  MerkleTree_compute_root_hash (DB := DB) self = Ok (trie_hash (strip a), ahashes a).
Proof.
  intros Hn Hr Hwf Hht Hroot.
  unfold MerkleTree_compute_root_hash. rewrite Hroot.
  assert (hash_child (tree_fuel self) self (ahandle a) [] = Ok (trie_hash (strip a), ahashes a)) as Hc.
  { eapply compute_hashes_child; [|exact Hwf|lia|].
    - intros k' nd Hin. by apply (nodes_rep_lookup _ _ _ _ Hn).
    - unfold tree_fuel. rewrite (nodes_rep_size _ _ Hn). lia. }
  unfold hash_child in Hc. rewrite Hr in Hc. cbn [MerkleTree_get_node_or_felt] in Hc.
  destruct (slot_get (nodes self) k); [exact Hc|done].
Qed.

(** ** Storing the nodes *)

(** The updates that store nodes. *)
Definition store (identifier : ByteVec) (l : list (BitVec * Node F K)) : list (TrieKey * InsertOrRemove ByteVec) :=
  (fun '(q, n) => (node_key identifier q, Insert (Node_encode_fields n))) <$> l.

(** What a run of [commit_subtree] on [a] leaves: the nodes of [a] are out of
    the slot map and stored, its hashes are consumed. *)
Definition committed (st st' : CommitState) (path : BitVec) (a : atree F K) l hs : Prop :=
  nodes_rep (slot_view st'.(commit_tree).(nodes)) l /\ st'.(commit_hashes) = hs /\
  st'.(commit_updates) = list_to_map (store st.(commit_tree).(identifier) (newnodes path a)) ∪ st.(commit_updates) /\
  exists m', st'.(commit_tree) = set_nodes m' st.(commit_tree).

Definition commit_child (fuel : nat) (h : NodeHandle F K) (path : BitVec) : action CommitState error F :=
  match h with
  | Hash hash => mret hash
  | InMemory node_id => MerkleTree_commit_subtree fuel node_id path
  end.

Lemma wp_commit_take_node k n l st (Q : CommitState -> Node F K -> Prop) :
  nodes_rep (slot_view st.(commit_tree).(nodes)) ((k, n) :: l) ->
  (forall m', nodes_rep (slot_view m') l ->
     Q (mkCommitState (set_nodes m' st.(commit_tree)) st.(commit_updates) st.(commit_hashes)) n) ->
  wp (commit_take_node (DB := DB) k) st Q.
Proof.
  intros Hn HQ. unfold wp, commit_take_node, slot_get.
  rewrite (nodes_rep_lookup _ _ k n Hn) by (by left). eexists _, n. split; [done|]. apply HQ.
  rewrite slot_view_remove. by eapply nodes_rep_delete.
Qed.

Lemma wp_commit_next_hash h hs st (Q : CommitState -> F -> Prop) :
  st.(commit_hashes) = h :: hs -> Q (mkCommitState st.(commit_tree) st.(commit_updates) hs) h ->
  wp (commit_next_hash (DB := DB)) st Q.
Proof. intros Hh HQ. unfold wp, commit_next_hash. rewrite Hh. eauto. Qed.

Lemma wp_commit_insert_node path n st (Q : CommitState -> unit -> Prop) :
  Node_hashed n = true ->
  Q (mkCommitState st.(commit_tree)
       (<[node_key st.(commit_tree).(identifier) path := Insert (Node_encode_fields n)]> st.(commit_updates))
       st.(commit_hashes)) tt ->
  wp (commit_insert_node (DB := DB) path n) st Q.
Proof.
  intros Hn HQ. unfold commit_insert_node. wp_step. eapply wp_lift.
  { unfold Node_encode_bytevec. rewrite Hn. reflexivity. }
  by apply wp_modify.
Qed.

Lemma wp_commit_child path a fuel st l hs :
  nodes_rep (slot_view st.(commit_tree).(nodes)) (mems (res path a) ++ l) ->
  st.(commit_hashes) = ahashes a ++ hs -> length (mems (res path a)) <= fuel ->
  wp (commit_child fuel (ahandle a) path) st (fun st' h => h = trie_hash (strip a) /\ committed st st' path a l hs).
Proof.
  revert path fuel st l hs. induction a as [v|t|k ho la IHl ra IHr|k ho p c IH]; intros path fuel st l hs Hn Hh Hfuel.
  1,2: apply wp_ret; split; [done|]; cbn [res] in Hn; rewrite ?mems_tres in Hn; split; [exact Hn|split; [exact Hh|]];
    cbn; rewrite map_empty_union; split; [done|]; exists st.(commit_tree).(nodes); by destruct st as [[]].
  - cbn [res] in Hn, Hfuel. unfold bin_entry in *. rewrite mems_mem, mems_app in *. cbn in Hfuel.
    cbn [app] in Hn. rewrite <- app_assoc in Hn. rewrite length_app in Hfuel. destruct fuel as [|fuel]; [lia|].
    cbn [commit_child ahandle MerkleTree_commit_subtree]. wp_step.
    eapply wp_commit_take_node; [exact Hn|]. intros m1 Hm1. wp_step. fold (commit_child fuel).
    cbn [binary_left binary_right binary_height bool_from] in *. cbn [ahashes] in Hh. rewrite <- !app_assoc in Hh.
    eapply wp_mono; [|apply (IHl (path ++ [false]) fuel); [exact Hm1|exact Hh|lia]].
    intros st2 hl [-> (Hn2 & Hh2 & Hu2 & m2 & Ht2)]. wp_step.
    eapply wp_mono; [|apply (IHr (path ++ [true]) fuel); [exact Hn2|exact Hh2|lia]].
    intros st3 hr [-> (Hn3 & Hh3 & Hu3 & m3 & Ht3)]. wp_step.
    eapply wp_commit_next_hash; [exact Hh3|]. wp_step. apply wp_commit_insert_node; [done|]. wp_step.
    split; [done|]. split; [exact Hn3|]. split; [done|]. cbn [commit_updates commit_tree newnodes].
    rewrite Hu3, Hu2, Ht3, Ht2. cbn. split; [|by exists m3].
    unfold store. rewrite fmap_app. fold (store (identifier (commit_tree st)) (newnodes (path ++ [true]) ra)).
    rewrite list_to_map_app, <- insert_union_l, <- assoc_L by apply _. done.
  - cbn [res] in Hn, Hfuel. unfold edge_entry in *. rewrite mems_mem in *. cbn in Hfuel. cbn [app] in Hn.
    destruct fuel as [|fuel]; [lia|].
    cbn [commit_child ahandle MerkleTree_commit_subtree]. wp_step.
    eapply wp_commit_take_node; [exact Hn|]. intros m1 Hm1. wp_step. fold (commit_child fuel).
    cbn [edge_path edge_child edge_height]. cbn [ahashes] in Hh. rewrite <- !app_assoc in Hh.
    eapply wp_mono; [|apply (IH (path ++ p) fuel); [exact Hm1|exact Hh|lia]].
    intros st2 hc [-> (Hn2 & Hh2 & Hu2 & m2 & Ht2)]. wp_step.
    eapply wp_commit_next_hash; [exact Hh2|]. wp_step. apply wp_commit_insert_node; [done|]. wp_step.
    split; [done|]. split; [exact Hn2|]. split; [done|]. cbn [commit_updates commit_tree newnodes].
    rewrite Hu2, Ht2. cbn. split; [|by exists m2]. by rewrite <- insert_union_l.
Qed.

(** ** The updates *)

(** A database after a batch of updates. *)
Definition apply_updates (u : gmap TrieKey (InsertOrRemove ByteVec)) (d : TrieKey -> option ByteVec)
    (key : TrieKey) : option ByteVec :=
  match u !! key with Some (Insert v) => Some v | Some Remove => None | None => d key end.

Definition flat_change (c : InsertOrRemove F) : InsertOrRemove ByteVec :=
  match c with Insert value => Insert (Felt_encode value) | Remove => Remove end.

Lemma flat_updates_trie (id : ByteVec) (cache : gmap ByteVec (InsertOrRemove F)) (u : gmap TrieKey (InsertOrRemove ByteVec)) bytes :
  flat_updates id cache u !! TrieKey_Trie bytes = u !! TrieKey_Trie bytes.
Proof.
  unfold flat_updates. apply (map_fold_weak_ind (fun r _ => r !! TrieKey_Trie bytes = u !! TrieKey_Trie bytes)); [done|].
  intros k c m r _ IH. by rewrite lookup_insert_ne.
Qed.

Lemma flat_updates_flat (id : ByteVec) (cache : gmap ByteVec (InsertOrRemove F)) (u : gmap TrieKey (InsertOrRemove ByteVec)) k :
  flat_updates id cache u !! TrieKey_new id TrieKeyType_Flat k =
  match cache !! k with Some c => Some (flat_change c) | None => u !! TrieKey_new id TrieKeyType_Flat k end.
Proof.
  unfold flat_updates. apply (map_fold_weak_ind (fun r m => r !! TrieKey_new id TrieKeyType_Flat k =
    match m !! k with Some c => Some (flat_change c) | None => u !! TrieKey_new id TrieKeyType_Flat k end)).
  - by rewrite lookup_empty.
  - intros k' c m r _ IH. destruct (decide (k' = k)) as [->|Hk].
    + by rewrite !lookup_insert_eq.
    + rewrite !lookup_insert_ne; [done|done|]. cbn. intros [= Heq%app_inv_head]. done.
Qed.

Lemma flat_updates_other (id : ByteVec) (cache : gmap ByteVec (InsertOrRemove F)) (u : gmap TrieKey (InsertOrRemove ByteVec)) bytes :
  (forall b, bytes <> id ++ b) -> flat_updates id cache u !! TrieKey_Flat bytes = u !! TrieKey_Flat bytes.
Proof.
  intros Hb. unfold flat_updates.
  apply (map_fold_weak_ind (fun r _ => r !! TrieKey_Flat bytes = u !! TrieKey_Flat bytes)); [done|].
  intros k c m r _ IH. rewrite lookup_insert_ne; [done|]. cbn. intros [= Heq]. by apply (Hb k).
Qed.

Lemma store_lookup ht id (a : atree F K) q n :
  trie_wf ht (strip a) -> ht <= 255 -> (q, n) ∈ newnodes [] a ->
  (list_to_map (store id (newnodes [] a)) : gmap _ _) !! node_key id q = Some (Insert (Node_encode_fields n)).
Proof.
  intros Hwf Hht Hin. apply elem_of_list_to_map_1.
  - unfold store. rewrite <- list_fmap_compose.
    assert (forall e, e ∈ newnodes [] a -> length e.1 <= 255) as Hlen.
    { intros [q' n'] Hq%newnodes_tres. pose proof (tres_within (K := K) [] ht _ Hwf) as Hw.
      rewrite Forall_forall in Hw. destruct (Hw _ Hq) as [_ ?]. cbn in *. lia. }
    pose proof (newnodes_NoDup ht a Hwf) as Hnd. revert Hnd Hlen.
    generalize (newnodes [] a). intros l. induction l as [|[q' n'] l IH]; cbn; [constructor|].
    intros [Hq' Hnd]%NoDup_cons Hlen. apply NoDup_cons. split; [|apply IH; [done|]; intros; apply Hlen; by right].
    intros ([q2 n2] & Heq & Hin2)%list_elem_of_fmap. cbn in Heq. apply Hq'.
    pose proof (Hlen (q', n') ltac:(by left)). pose proof (Hlen (q2, n2) ltac:(by right)). cbn in *.
    assert (q' = q2) as ->. { apply (node_key_inj id); [done|done|]. unfold node_key, TrieKey_new. by rewrite Heq. }
    apply list_elem_of_fmap. by exists (q2, n2).
  - apply list_elem_of_fmap. by exists (q, n).
Qed.

Lemma store_lookup_inv id (l : list (BitVec * Node F K)) key c :
  (list_to_map (store id l) : gmap _ _) !! key = Some c ->
  exists q n, (q, n) ∈ l /\ key = node_key id q /\ c = Insert (Node_encode_fields n).
Proof.
  intros Hc%elem_of_list_to_map_2. apply list_elem_of_fmap in Hc as ([q n] & [= -> ->] & Hin). eauto 10.
Qed.

(** The database after the commit, at the keys of the tree. *)
Definition committed_tree (oa : option (atree F K)) : option (atree F K) := AStored <$> (strip <$> oa).

Lemma death_row_lookup (row : gset TrieKey) key :
  death_row_updates row !! key = if decide (key ∈ row) then Some Remove else None.
Proof.
  unfold death_row_updates. case_decide as Hk; [by apply lookup_gset_to_gmap_Some|by apply lookup_gset_to_gmap_None].
Qed.

Definition commit_updates_of self (oa : option (atree F K)) : gmap TrieKey (InsertOrRemove ByteVec) :=
  flat_updates self.(identifier) self.(cache_leaf_modified)
    (list_to_map (store self.(identifier) (match oa with Some a => newnodes [] a | None => [] end)) ∪
     death_row_updates self.(death_row)).

Lemma tree_rep_committed ht d self self' oa :
  tree_rep ht d self oa -> 0 < ht <= 255 ->
  self'.(max_height) = self.(max_height) -> self'.(identifier) = self.(identifier) ->
  self'.(root_node) = None -> self'.(death_row) = ∅ -> nodes_rep (slot_view self'.(nodes)) [] ->
  tree_rep ht (apply_updates (commit_updates_of self oa) d) self' (committed_tree oa).
Proof.
  intros [Hh _ _ Hdb Hcov _ Hwf Hg] Hht Hh' Hi Hr Hrow Hn.
  assert (forall q, apply_updates (commit_updates_of self oa) d (node_key self.(identifier) q) =
    match (list_to_map (store self.(identifier) (match oa with Some a => newnodes [] a | None => [] end)) : gmap _ _) !! node_key self.(identifier) q with
    | Some (Insert v) => Some v
    | Some Remove => None
    | None => if decide (node_key self.(identifier) q ∈ self.(death_row)) then None else d (node_key self.(identifier) q)
    end) as Hd.
  { intros q. unfold apply_updates, commit_updates_of, node_key, TrieKey_new.
    rewrite flat_updates_trie, lookup_union, death_row_lookup.
    destruct (list_to_map _ !! _); case_decide; done. }
  split.
  - congruence.
  - destruct oa as [a|]; [|done]. cbn [ores committed_tree fmap option_fmap option_map res]. by rewrite mems_tres.
  - rewrite Hr. by destruct oa.
  - intros q n Hq. rewrite Hi, Hrow, Hd. split; [|set_solver]. destruct oa as [a|]; [|by apply elem_of_nil in Hq].
    cbn in Hq, Hwf. destruct (tres_new_or_old _ _ _ _ Hq) as [Hnew|Hold].
    + by rewrite (store_lookup ht _ _ _ n) by (done || lia).
    + destruct (Hdb q n Hold) as [Henc Hnrow]. rewrite decide_False by done.
      destruct (list_to_map _ !! _) as [c|] eqn:Hc; [|done]. exfalso.
      apply store_lookup_inv in Hc as (q' & n' & Hin & Heq & _).
      assert (length q' < ht /\ length q < ht) as [Hq1 Hq2].
      { pose proof (tres_within (K := K) [] ht _ Hwf) as Hw. rewrite Forall_forall in Hw.
        destruct (Hw _ Hq). apply newnodes_tres in Hin. destruct (Hw _ Hin). cbn in *. lia. }
      apply node_key_inj in Heq as ->; [|lia|lia]. by eapply new_old_disjoint.
  - intros q Hq. rewrite Hi, Hrow, Hd. intros Hs. left.
    assert (q ∈ (ores oa).*1) as Hin.
    { destruct (list_to_map _ !! _) as [c|] eqn:Hc.
      - apply store_lookup_inv in Hc as (q' & n' & Hin & Heq & _). destruct oa as [a|]; [|by apply elem_of_nil in Hin].
        cbn in Hwf. assert (length q' < ht) as Hq1.
        { pose proof (tres_within (K := K) [] ht _ Hwf) as Hw. rewrite Forall_forall in Hw.
          apply newnodes_tres in Hin. destruct (Hw _ Hin). cbn in *. lia. }
        apply node_key_inj in Heq as ->; [|lia|lia]. cbn [ores]. rewrite <- tres_paths.
        apply list_elem_of_fmap. exists (q', Db n'). split; [done|]. by apply newnodes_tres.
      - case_decide as Hrow'; [by destruct Hs|]. by destruct (Hcov q Hq Hs). }
    destruct oa as [a|]; [|done]. cbn [ores committed_tree fmap option_fmap option_map res]. by rewrite tres_paths.
  - intros key. rewrite Hrow. set_solver.
  - destruct oa; [exact Hwf|done].
  - destruct oa as [a|]; [|done]. cbn in *. destruct (strip a); [|done..]. destruct Hwf. lia.
Qed.

(** ** [get_updates] *)

Lemma wp_commit_root self a k u :
  nodes_rep (slot_view self.(nodes)) (mems (res [] a)) -> ahandle a = InMemory k ->
  wp (MerkleTree_commit_root (DB := DB) k u (ahashes a)) self (fun self' u' =>
    nodes_rep (slot_view self'.(nodes)) [] /\ (exists m', self' = set_nodes m' self) /\
    u' = list_to_map (store self.(identifier) (newnodes [] a)) ∪ u).
Proof.
  intros Hn Hk. unfold MerkleTree_commit_root.
  assert (wp (commit_child (tree_fuel self) (ahandle a) []) (mkCommitState self u (ahashes a))
    (fun st' h => h = trie_hash (strip a) /\ committed (mkCommitState self u (ahashes a)) st' [] a [] [])) as Hwp.
  { apply wp_commit_child; [cbn; by rewrite app_nil_r|cbn; by rewrite app_nil_r|].
    unfold tree_fuel. rewrite (nodes_rep_size _ _ Hn). apply Nat.le_succ_diag_r. }
  rewrite Hk in Hwp. cbn [commit_child] in Hwp. destruct Hwp as (st & h & Hrun & _ & Hn' & _ & Hu & Hm).
  unfold wp. rewrite Hrun. exists (commit_tree st), (commit_updates st).
  split; [done|]. split; [exact Hn'|]. split; [exact Hm|exact Hu].
Qed.

Lemma wp_get_updates ht d self oa (Q : MerkleTree -> gmap TrieKey (InsertOrRemove ByteVec) -> Prop) :
  tree_rep ht d self oa -> 0 < ht <= 255 ->
  (forall self', tree_rep ht (apply_updates (commit_updates_of self oa) d) self' (committed_tree oa) ->
     self'.(root_node) = None -> self'.(death_row) = ∅ -> self'.(cache_leaf_modified) = ∅ ->
     self'.(identifier) = self.(identifier) -> slot_view self'.(nodes) = ∅ ->
     Q self' (commit_updates_of self oa)) ->
  wp (MerkleTree_get_updates (DB := DB)) self Q.
Proof.
  intros Hrep Hht HQ. pose proof (rep_root _ _ _ _ Hrep) as Hr. pose proof (rep_nodes _ _ _ _ Hrep) as Hn.
  unfold MerkleTree_get_updates. wp_step. wp_step. wp_step. wp_step. wp_step. wp_step.
  cbn [root_node set_death_row]. wp_step.
  apply (wp_mono _ _ (fun self1 u => nodes_rep (slot_view self1.(nodes)) [] /\
     (exists m', self1 = set_nodes m' (set_death_row ∅ self)) /\
     flat_updates self.(identifier) self.(cache_leaf_modified) u = commit_updates_of self oa)).
  - intros self1 u (Hn1 & (m' & ->) & Hu).
    wp_step. wp_step. wp_step. wp_step. wp_step. wp_step. wp_step. wp_step. wp_step.
    cbn [identifier cache_leaf_modified set_nodes set_death_row set_root_node set_cache_leaf_modified].
    rewrite Hu. apply HQ; try done; [|by destruct Hn1].
    apply (tree_rep_committed ht d self); try done.
  - assert (forall m', m' = self.(nodes) -> mems (ores oa) = [] ->
      match oa with Some a => newnodes [] a | None => [] end = [] ->
      wp (mret (death_row_updates self.(death_row)) : action MerkleTree error _) (set_death_row ∅ self)
       (fun self1 u => nodes_rep (slot_view self1.(nodes)) [] /\
         (exists m', self1 = set_nodes m' (set_death_row ∅ self)) /\
         flat_updates self.(identifier) self.(cache_leaf_modified) u = commit_updates_of self oa)) as Hnone.
    { intros m' -> Hmems Hnew. wp_step. rewrite Hmems in Hn. split; [exact Hn|].
      split; [by exists self.(nodes)|]. unfold commit_updates_of. rewrite Hnew. cbn. by rewrite map_empty_union. }
    destruct self.(root_node) as [[|k]|] eqn:Hroot; cbn [root_ok] in Hr.
    + destruct oa; [done|]. by apply (Hnone _ eq_refl).
    + destruct oa as [a|]; [|done]. wp_step. wp_step. wp_step. eapply wp_lift.
      { apply (compute_root_hash_spec ht _ a k); [exact Hn|exact Hr|exact (rep_wf _ _ _ _ Hrep)|lia|done]. }
      cbn beta iota. eapply wp_mono; [|apply wp_commit_root; [exact Hn|exact Hr]].
      cbn. intros self1 u (Hn1 & Hm & ->). done.
    + apply (Hnone _ eq_refl); destruct oa as [[]|]; try done. cbn [ores res]. by rewrite mems_tres.
Qed.
End CommitSpec.
