(* ===== verification/TreeSpec.v ===== *)
(** * The tree as a map

    The contract of a [MerkleTree]: it implements a finite map from keys of
    [ht] bits to non-zero values. [tree_models ht d self f m]: over a database
    with contents [d], which holds the committed map [f], the tree holds the
    map [m]. The operations refine those of the map, and the root hash read
    after a commit is that of the map. *)
From S2P Require Import Prelude Path Id Database Error External MerkleNode Trie Changes KeyValueDb Tree Iterator Update Annot TreeInv SeekSpec SetSpec DeleteSpec CommitSpec.

Section TreeSpec.
Context {F K : Type} {M : Type -> Type} {DB ID : Type}.
Context `{StarkFelt F, !LawfulFelt F, !StarkHash F, SlotMap K M, !LawfulSlotMap K M,
  !NodeCodec F K, !LawfulNodeCodec F K, BonsaiDatabase DB, Id ID}.
Context (ht : nat) (Hht : 0 < ht <= 255).
Abbreviation MerkleTree := (MerkleTree F K M).
Abbreviation KeyValueDB := (KeyValueDB DB ID).
Abbreviation error := (BonsaiStorageError (DatabaseError DB)).
Abbreviation map := (gmap BitVec F) (only parsing).
Implicit Types (self : MerkleTree) (kv : KeyValueDB) (d : TrieKey -> option ByteVec) (f m : gmap BitVec F).

(** The flat database holds the map [f]. *)
Definition flat_rep (identifier : ByteVec) d f : Prop :=
  forall k, length k = ht -> d (flat_key identifier k) = Felt_encode <$> f !! k.

(** The committed map under the pending changes. *)
Definition pending_view (cache : gmap ByteVec (InsertOrRemove F)) f (k : BitVec) : option F :=
  match cache !! bitslice_to_bytes k with
  | Some (Insert v) => Some v
  | Some Remove => None
  | None => f !! k
  end.

Record tree_models d self f m : Prop := {
  models_tree : exists oa, tree_rep ht d self oa /\ trie_rep ht (strip <$> oa) m;
  models_flat : flat_rep self.(identifier) d f;
  models_view : forall k, length k = ht -> m !! k = pending_view self.(cache_leaf_modified) f k;
  models_cache : forall b, is_Some (self.(cache_leaf_modified) !! b) ->
    exists k, length k = ht /\ b = bitslice_to_bytes k;
  models_safe : identifier_safe self.(identifier) ht;
  models_fresh : forall k v, length k = ht -> self.(cache_leaf_modified) !! bitslice_to_bytes k = Some (Insert v) -> f !! k <> Some v;
}.

Lemma cache_keys_insert (cache : gmap ByteVec (InsertOrRemove F)) k c :
  (forall b, is_Some (cache !! b) -> exists k, length k = ht /\ b = bitslice_to_bytes k) ->
  length k = ht ->
  forall b, is_Some (<[bitslice_to_bytes k := c]> cache !! b) -> exists k, length k = ht /\ b = bitslice_to_bytes k.
Proof. intros Hc Hk b [<-|[_ Hb]]%lookup_insert_is_Some; [by exists k|auto]. Qed.

(** Only the tree's own keys of the database matter. *)
Lemma models_ext d d' self f m :
  tree_models d self f m ->
  (forall q, length q <= ht -> d' (node_key self.(identifier) q) = d (node_key self.(identifier) q)) ->
  (forall k, length k = ht -> d' (flat_key self.(identifier) k) = d (flat_key self.(identifier) k)) ->
  tree_models d' self f m.
Proof.
  intros [(oa & Hrep & Htrie) Hflat Hview Hcache Hsafe Hnew] Hn Hf. split; [|..|done|done|done|done].
  - exists oa. split; [|done]. destruct Hrep as [Hh Hnodes Hr Hdb Hcov Hrow Hwf Hg]. split; try done.
    + intros q n Hq. rewrite Hn; [by apply Hdb|]. destruct oa as [a|]; [|by apply elem_of_nil in Hq].
      pose proof (res_within [] ht a Hwf) as Hw. rewrite Forall_forall in Hw.
      destruct (Hw _ Hq) as [_ ?]. cbn in *. lia.
    + intros q Hq. rewrite Hn by done. by apply Hcov.
  - intros k Hk. rewrite Hf by done. by apply Hflat.
Qed.

(** ** Reading *)

Lemma Felt_decode_unwrap_encode v : Felt_decode_unwrap (DB := DB) (Felt_encode v) = Ok v.
Proof.
  unfold Felt_decode_unwrap. pose proof (Felt_decode_encode v []) as Hdec.
  rewrite app_nil_r in Hdec. by rewrite Hdec.
Qed.

Lemma flat_get kv d f self k :
  kv_view kv d -> flat_rep self.(identifier) d f -> length k = ht ->
  KeyValueDB_get kv (TrieKey_new self.(identifier) TrieKeyType_Flat (bitslice_to_bytes k)) = Ok (Felt_encode <$> f !! k).
Proof. intros Hkv Hflat Hk. rewrite Hkv. f_equal. by apply Hflat. Qed.

Lemma MerkleTree_get_models kv d self f m k :
  kv_view kv d -> tree_models d self f m -> length k = ht -> MerkleTree_get self kv k = Ok (m !! k).
Proof.
  intros Hkv [_ Hflat Hview _ _ _] Hk. unfold MerkleTree_get. rewrite Hview by done. unfold pending_view.
  destruct (cache_leaf_modified self !! bitslice_to_bytes k) as [[v|]|]; [done..|].
  rewrite (flat_get kv d f) by done. cbn [mbind outcome_bind].
  destruct (f !! k) as [v|]; [|done]. cbn. by rewrite Felt_decode_unwrap_encode.
Qed.

Lemma bytes_inj (k k' : BitVec) :
  length k = ht -> length k' = ht -> bitslice_to_bytes k = bitslice_to_bytes k' -> k = k'.
Proof. intros Hk Hk'. apply bitslice_to_bytes_inj; lia. Qed.

Lemma pending_view_insert cache f k c k' :
  length k = ht -> length k' = ht ->
  pending_view (<[bitslice_to_bytes k := c]> cache) f k' =
  if decide (k = k') then match c with Insert v => Some v | Remove => None end else pending_view cache f k'.
Proof.
  intros Hk Hk'. unfold pending_view. case_decide as Heq.
  - subst. by rewrite lookup_insert_eq.
  - rewrite lookup_insert_ne; [done|]. intros Hb. by apply Heq, bytes_inj.
Qed.

(** ** Writing *)

(** What an update leaves alone: the pending changes of the other keys. *)
Definition others_kept self self' (k : BitVec) : Prop :=
  self'.(identifier) = self.(identifier) /\
  forall b, b <> bitslice_to_bytes k -> self'.(cache_leaf_modified) !! b = self.(cache_leaf_modified) !! b.

(** A write the trie follows. [set] does not touch the trie when an insertion of
    the key is pending, nor when the database binds the key to the new value, so
    it must not replace a pending value by another one, nor restore the committed
    value of a key removed since. *)
Definition write_ok f m (w : BitVec * F) : Prop :=
  w.2 = Felt_ZERO \/ m !! w.1 = Some w.2 \/ m !! w.1 = f !! w.1 \/ (m !! w.1 = None /\ f !! w.1 <> Some w.2).

#[export] Instance write_ok_dec f m w : Decision (write_ok f m w).
Proof. unfold write_ok. apply _. Defined.

Lemma wp_flat_has_value kv d self f k v (Q : MerkleTree -> bool -> Prop) :
  kv_view kv d -> flat_rep self.(identifier) d f -> length k = ht ->
  Q self (bool_decide (f !! k = Some v)) ->
  wp (flat_has_value kv (bitslice_to_bytes k) v) self Q.
Proof.
  intros Hkv Hflat Hk HQ. unfold flat_has_value. wp_step. wp_step. wp_step.
  eapply wp_lift; [by apply (flat_get kv d f)|]. destruct (f !! k) as [w|]; cbn [fmap option_fmap option_map].
  - wp_step. eapply wp_lift; [apply Felt_decode_unwrap_encode|]. wp_step.
    replace (bool_decide (v = w)) with (bool_decide (Some w = Some v)); [done|].
    apply bool_decide_ext. naive_solver.
  - by wp_step.
Qed.

(** The pending change of a key, by the maps. *)
Lemma pending_insert d self f m k w :
  tree_models d self f m -> length k = ht -> self.(cache_leaf_modified) !! bitslice_to_bytes k = Some (Insert w) ->
  m !! k = Some w /\ f !! k <> Some w.
Proof.
  intros Hm Hk Hc. split; [|by apply (models_fresh _ _ _ _ Hm)].
  rewrite (models_view _ _ _ _ Hm) by done. unfold pending_view. by rewrite Hc.
Qed.

(** [set] when no insertion of the key is pending. *)
Lemma wp_set_fresh kv d self f m k v :
  kv_view kv d -> tree_models d self f m -> length k = ht -> v <> Felt_ZERO ->
  (self.(cache_leaf_modified) !! bitslice_to_bytes k = None \/
   self.(cache_leaf_modified) !! bitslice_to_bytes k = Some Remove /\ f !! k <> Some v) ->
  wp (same ← flat_has_value kv (bitslice_to_bytes k) v;
      if same : bool then mret tt else set_node kv k v) self
    (fun self' _ => tree_models d self' f (<[k := v]> m) /\ others_kept self self' k).
Proof.
  intros Hkv [(oa & Hrep & Htrie) Hflat Hview Hcache Hsafe Hnew] Hk Hv Hallowed.
  wp_step. apply (wp_flat_has_value kv d _ f); [done..|]. case_bool_decide as Hf.
  - wp_step. assert (m !! k = Some v) as Hm.
    { rewrite Hview by done. unfold pending_view. by destruct Hallowed as [->|[_ ?]]. }
    rewrite insert_id by done. split; [|done]. split; [by exists oa|done..].
  - eapply wp_mono; [|apply (wp_set_node kv d ht Hkv); [lia|lia|exact Hrep|done|done|done]].
    cbn. intros self' _ (a' & Hrep' & Hs & [Hi Hc]). split; [split|].
    + exists (Some a'). split; [done|]. cbn [fmap option_fmap option_map]. rewrite Hs. by apply trie_rep_insert.
    + by rewrite Hi.
    + intros k' Hk'. rewrite Hc, lookup_insert, pending_view_insert by done. case_decide; [done|auto].
    + rewrite Hc. by apply cache_keys_insert.
    + by rewrite Hi.
    + rewrite Hc. intros k' w Hk'. destruct (decide (k' = k)) as [->|Hne].
      * rewrite lookup_insert_eq. by intros [= <-].
      * rewrite lookup_insert_ne; [by apply Hnew|]. intros Hb. by apply Hne, bytes_inj.
    + split; [done|]. intros b Hb. by rewrite Hc, lookup_insert_ne.
Qed.

Lemma wp_set kv d self f m k v :
  kv_view kv d -> tree_models d self f m -> length k = ht -> v <> Felt_ZERO -> write_ok f m (k, v) ->
  wp (MerkleTree_set kv k v) self (fun self' _ => tree_models d self' f (<[k := v]> m) /\ others_kept self self' k).
Proof.
  intros Hkv Hm Hk Hv Hok. unfold MerkleTree_set.
  destruct (models_tree _ _ _ _ Hm) as (oa & Hrep & _).
  rewrite decide_False by done. wp_step. wp_step. rewrite (rep_height _ _ _ _ Hrep).
  rewrite decide_False by lia. wp_step. wp_step. pose proof (models_view _ _ _ _ Hm k Hk) as Hview.
  unfold pending_view in Hview. unfold write_ok in Hok. cbn [fst snd] in Hok.
  destruct (cache_leaf_modified self !! bitslice_to_bytes k) as [[w|]|] eqn:Hc.
  - destruct (pending_insert _ _ _ _ _ _ Hm Hk Hc) as [Hmk Hf]. assert (w = v) as -> by (destruct Hok as [|[|[|[]]]]; congruence).
    apply wp_cache_insert. rewrite !insert_id by done. by destruct self.
  - apply wp_set_fresh; [done..|]. right. split; [done|]. destruct Hok as [|[|[|[]]]]; congruence.
  - apply wp_set_fresh; [done..|]. by left.
Qed.

Lemma wp_tree_has_value kv d self f k (Q : MerkleTree -> bool -> Prop) :
  kv_view kv d -> flat_rep self.(identifier) d f -> length k = ht ->
  Q self (bool_decide (is_Some (pending_view self.(cache_leaf_modified) f k))) ->
  wp (tree_has_value kv (bitslice_to_bytes k)) self Q.
Proof.
  intros Hkv Hflat Hk HQ. unfold tree_has_value, pending_view in *. wp_step. wp_step.
  destruct (cache_leaf_modified self !! bitslice_to_bytes k) as [[w|]|]; [by wp_step..|].
  wp_step. wp_step. wp_step. eapply wp_lift; [by apply (flat_get kv d f)|]. wp_step.
  replace (bool_decide (is_Some (Felt_encode <$> f !! k))) with (bool_decide (is_Some (f !! k))); [done|].
  apply bool_decide_ext. by rewrite fmap_is_Some.
Qed.

Lemma wp_delete_leaf kv d self f m k :
  kv_view kv d -> tree_models d self f m -> length k = ht ->
  wp (MerkleTree_delete_leaf kv k) self (fun self' _ => tree_models d self' f (delete k m) /\ others_kept self self' k).
Proof.
  intros Hkv [(oa & Hrep & Htrie) Hflat Hview Hcache Hsafe Hnew] Hk. unfold MerkleTree_delete_leaf.
  wp_step. wp_step. rewrite (rep_height _ _ _ _ Hrep). rewrite decide_False by lia. wp_step.
  apply (wp_tree_has_value kv d _ f); [done..|]. rewrite <- Hview by done.
  destruct (m !! k) as [v|] eqn:Hm; cbn [negb].
  2:{ rewrite bool_decide_false by (by intros []). cbn [negb]. wp_step. rewrite delete_id by done.
      split; [|done]. split; [by exists oa|done..]. }
  rewrite bool_decide_true by eauto. cbn [negb]. wp_step. apply wp_cache_insert.
  set (self1 := set_cache_leaf_modified _ self).
  assert (tree_rep ht d self1 oa) as Hrep1 by (by destruct Hrep; split).
  change (wp (delete_node kv k) self1 (fun self' _ => tree_models d self' f (delete k m) /\ others_kept self self' k)).
  eapply wp_mono; [|eapply (wp_delete_node kv d ht Hkv); [lia|lia|exact Hrep1|exact Hk|]].
  2:{ destruct Htrie as [_ Hl]. rewrite Hl. exact Hm. }
  cbn. intros self' _ (oa' & Hrep' & Hs & [Hi Hc]). split; [split|].
  - exists oa'. split; [done|]. rewrite Hs. by apply trie_rep_delete.
  - by rewrite Hi.
  - intros k' Hk'. rewrite Hc. unfold self1. cbn. rewrite lookup_delete, pending_view_insert by done.
    case_decide; [done|auto].
  - rewrite Hc. by apply cache_keys_insert.
  - by rewrite Hi.
  - rewrite Hc. unfold self1. cbn. intros k' w Hk'. destruct (decide (k' = k)) as [->|Hne]; [by rewrite lookup_insert_eq|].
    rewrite lookup_insert_ne; [by apply Hnew|]. intros Hb. by apply Hne, bytes_inj.
  - split; [done|]. intros b Hb. rewrite Hc. unfold self1. cbn. by rewrite lookup_insert_ne.
Qed.

(** A write, zero meaning removal, on the map and on the tree. *)
Definition write_map m (kv : BitVec * F) : gmap BitVec F :=
  if decide (kv.2 = Felt_ZERO) then delete kv.1 m else <[kv.1 := kv.2]> m.

Lemma wp_write kv d self f m k v :
  kv_view kv d -> tree_models d self f m -> length k = ht -> write_ok f m (k, v) ->
  wp (MerkleTree_set kv k v) self (fun self' _ => tree_models d self' f (write_map m (k, v)) /\ others_kept self self' k).
Proof.
  intros Hkv Hm Hk Hok. unfold write_map. cbn [fst snd]. case_decide as Hv.
  - unfold MerkleTree_set. rewrite decide_True by done. by apply wp_delete_leaf.
  - by apply (wp_set kv d).
Qed.

(** ** Commit *)

(** The tree as after a commit: nothing in memory, nothing pending. *)
Definition clean self : Prop :=
  self.(root_node) = None /\ self.(death_row) = ∅ /\ self.(cache_leaf_modified) = ∅ /\
  slot_view self.(nodes) = ∅.

Lemma commit_flat self f m oa d :
  (forall key, key ∈ self.(death_row) -> row_key self.(identifier) ht key) ->
  flat_rep self.(identifier) d f ->
  (forall k, length k = ht -> m !! k = pending_view self.(cache_leaf_modified) f k) ->
  flat_rep self.(identifier) (apply_updates (commit_updates_of self oa) d) m.
Proof.
  intros Hrow Hflat Hview k Hk. rewrite Hview by done. unfold apply_updates, commit_updates_of, flat_key, pending_view.
  rewrite flat_updates_flat. destruct (cache_leaf_modified self !! bitslice_to_bytes k) as [[v|]|]; [done..|].
  rewrite lookup_union, death_row_lookup.
  destruct (list_to_map _ !! _) as [c|] eqn:Hc.
  { by apply store_lookup_inv in Hc as (q & n & _ & Heq & _). }
  rewrite decide_False by (by intros ?%Hrow%row_key_not_flat). cbn. by apply Hflat.
Qed.

(** The keys a commit touches. *)
Definition update_key (identifier : ByteVec) (key : TrieKey) : Prop :=
  row_key identifier ht key \/ exists k, length k = ht /\ key = flat_key identifier k.

Lemma commit_updates_keys d self f m oa key :
  tree_models d self f m -> tree_rep ht d self oa -> is_Some (commit_updates_of self oa !! key) ->
  update_key self.(identifier) key.
Proof.
  intros [_ _ _ Hcache _ _] Hrep Hs. unfold commit_updates_of in Hs.
  assert (forall key, is_Some ((list_to_map (store self.(identifier) (match oa with Some a => newnodes [] a | None => [] end)) ∪
     death_row_updates self.(death_row) : gmap TrieKey (InsertOrRemove ByteVec)) !! key) -> row_key self.(identifier) ht key) as Hrow.
  { intros x [c [Hc|[_ Hc]]%lookup_union_Some_raw].
    - apply store_lookup_inv in Hc as (q & n & Hin & -> & _). destruct oa as [a|]; [|by apply elem_of_nil in Hin].
      pose proof (rep_wf _ _ _ _ Hrep) as Hwf. cbn in Hwf. apply newnodes_tres in Hin.
      pose proof (tres_within (K := K) [] ht _ Hwf) as Hw. rewrite Forall_forall in Hw.
      destruct (Hw _ Hin) as [_ ?]. cbn in *. apply row_key_node. lia.
    - rewrite death_row_lookup in Hc. case_decide; [|done]. by apply (rep_row _ _ _ _ Hrep). }
  destruct key as [bytes|bytes]; [rewrite flat_updates_trie in Hs; left; auto|].
  destruct (decide (self.(identifier) `prefix_of` bytes)) as [[b ->]|Hpre].
  - change (TrieKey_Flat (self.(identifier) ++ b)) with (TrieKey_new self.(identifier) TrieKeyType_Flat b) in *.
    rewrite flat_updates_flat in Hs. destruct (cache_leaf_modified self !! b) as [c|] eqn:Hb.
    + destruct (Hcache b) as (k & Hk & ->); [by rewrite Hb|]. right. by exists k.
    + by apply Hrow, row_key_not_flat in Hs.
  - rewrite flat_updates_other in Hs by (intros b ->; apply Hpre; by exists b).
    by apply Hrow, row_key_not_flat in Hs.
Qed.

(** A key a commit writes belongs to the tree. *)
Definition insert_key (identifier : ByteVec) (key : TrieKey) : Prop :=
  (exists q, length q <= ht /\ key = node_key identifier q) \/ exists k, length k = ht /\ key = flat_key identifier k.

Lemma commit_updates_inserts d self f m oa key v :
  tree_models d self f m -> tree_rep ht d self oa -> commit_updates_of self oa !! key = Some (Insert v) ->
  insert_key self.(identifier) key.
Proof.
  intros [_ _ _ Hcache _ _] Hrep Hs. unfold commit_updates_of in Hs.
  assert (forall key v, (list_to_map (store self.(identifier) (match oa with Some a => newnodes [] a | None => [] end)) ∪
     death_row_updates self.(death_row) : gmap TrieKey (InsertOrRemove ByteVec)) !! key = Some (Insert v) ->
    exists q, length q <= ht /\ key = node_key self.(identifier) q) as Hrow.
  { intros x w [Hc|[_ Hc]]%lookup_union_Some_raw.
    - apply store_lookup_inv in Hc as (q & n & Hin & -> & _). destruct oa as [a|]; [|by apply elem_of_nil in Hin].
      pose proof (rep_wf _ _ _ _ Hrep) as Hwf. cbn in Hwf. apply newnodes_tres in Hin.
      pose proof (tres_within (K := K) [] ht _ Hwf) as Hw. rewrite Forall_forall in Hw.
      destruct (Hw _ Hin) as [_ ?]. cbn in *. exists q. split; [lia|done].
    - rewrite death_row_lookup in Hc. by case_decide. }
  destruct key as [bytes|bytes]; [rewrite flat_updates_trie in Hs; left; eauto|].
  destruct (decide (self.(identifier) `prefix_of` bytes)) as [[b ->]|Hpre].
  - change (TrieKey_Flat (self.(identifier) ++ b)) with (TrieKey_new self.(identifier) TrieKeyType_Flat b) in *.
    rewrite flat_updates_flat in Hs. destruct (cache_leaf_modified self !! b) as [c|] eqn:Hb.
    + destruct (Hcache b) as (k & Hk & ->); [by rewrite Hb|]. right. by exists k.
    + by apply Hrow in Hs as (q & _ & ?).
  - rewrite flat_updates_other in Hs by (intros b ->; apply Hpre; by exists b).
    by apply Hrow in Hs as (q & _ & ?).
Qed.

Lemma wp_commit d self f m :
  tree_models d self f m ->
  wp (MerkleTree_get_updates (DB := DB)) self (fun self' u =>
    tree_models (apply_updates u d) self' m m /\ clean self' /\ self'.(identifier) = self.(identifier) /\
    (forall key, is_Some (u !! key) -> update_key self.(identifier) key) /\
    forall key v, u !! key = Some (Insert v) -> insert_key self.(identifier) key).
Proof.
  intros Hm. pose proof Hm as [(oa & Hrep & Htrie) Hflat Hview Hcache Hsafe Hnew].
  apply (wp_get_updates ht d self oa); [done..|].
  intros self' Hrep' Hr Hrow Hc Hi Hn. split; [split|].
  - exists (committed_tree oa). split; [done|]. by destruct oa.
  - rewrite Hi. eapply commit_flat; [apply (rep_row _ _ _ _ Hrep)|done|done].
  - intros k Hk. unfold pending_view. by rewrite Hc, lookup_empty.
  - rewrite Hc. intros b [c Hb]. by rewrite lookup_empty in Hb.
  - by rewrite Hi.
  - rewrite Hc. intros k w _. by rewrite lookup_empty.
  - split; [done|]. split; [done|]. split; intros key; [by eapply commit_updates_keys|intros v; by eapply commit_updates_inserts].
Qed.

(** Clean trees of an identifier hold the same. *)
Lemma models_clean d self self' f m :
  tree_models d self f m -> clean self -> clean self' -> self'.(identifier) = self.(identifier) -> self'.(max_height) = ht ->
  tree_models d self' f m.
Proof.
  intros [(oa & Hrep & Htrie) Hflat Hview Hcache Hsafe Hnew] (Hr & Hrow & Hc & Hn) (Hr' & Hrow' & Hc' & Hn') Hid Hh'.
  split; rewrite ?Hid; try done.
  - exists oa. split; [|done]. destruct Hrep as [Hh [Hnd1 Hnd] Hroot Hdb Hcov Hrw Hwf Hg]. split; rewrite ?Hid; try done.
    + rewrite Hn'. by rewrite Hn in Hnd1.
    + rewrite Hr'. by rewrite Hr in Hroot.
    + intros q n Hq. destruct (Hdb q n Hq). by rewrite Hrow, Hrow' in *.
    + intros q Hq Hs. rewrite Hrow in Hcov. rewrite Hrow'. by apply Hcov.
    + intros key. by rewrite Hrow'.
  - intros k Hk. rewrite Hview by done. by rewrite Hc, Hc'.
  - intros b [c Hb]. by rewrite Hc', lookup_empty in Hb.
  - intros k v _. by rewrite Hc', lookup_empty.
Qed.

(** A tree not loaded yet, over the database of a clean one. *)
Lemma clean_new identifier : clean (MerkleTree_new identifier ht).
Proof. repeat split. apply slot_view_default. Qed.

Lemma models_reload d self f m :
  tree_models d self f m -> clean self -> tree_models d (MerkleTree_new self.(identifier) ht) f m.
Proof. intros Hm Hc. eapply models_clean; [exact Hm|exact Hc|apply clean_new|done|done]. Qed.

(** The tree of an identifier the database does not know. *)
Lemma models_new identifier d :
  (forall bytes, d (TrieKey_new identifier TrieKeyType_Trie bytes) = None) ->
  (forall bytes, d (TrieKey_new identifier TrieKeyType_Flat bytes) = None) ->
  identifier_safe identifier ht -> tree_models d (MerkleTree_new identifier ht) ∅ ∅.
Proof.
  intros Ht Hf Hsafe. split; [|..|done|].
  - exists None. split; [|apply trie_rep_empty]. split; try done; cbn.
    + rewrite slot_view_default. apply nodes_rep_nil.
    + by intros q n ?%elem_of_nil.
    + intros q _ Hs. pose proof (Ht (Path_encode q)) as Hq. cbn in Hq, Hs. rewrite Hq in Hs. by destruct Hs.
  - intros k _. unfold flat_key. by rewrite Hf, lookup_empty.
  - intros k _. by rewrite lookup_empty.
  - cbn. intros b [c Hb]. by rewrite lookup_empty in Hb.
  - cbn. intros k v _ Hk. by rewrite lookup_empty in Hk.
Qed.

(** The trie of the map a tree holds. *)
Lemma models_trie d T f m : tree_models d T f m -> trie_rep ht (trie_of m) m.
Proof. intros [(oa & _ & Hrep) _ _ _ _ _]. by eapply trie_of_rep, trie_rep_map_wf. Qed.

(** Loading nodes keeps the map. *)
Lemma models_same d T T' f m oa :
  tree_models d T f m -> tree_rep ht d T' oa -> strip <$> oa = trie_of m -> same_pending T T' ->
  tree_models d T' f m.
Proof.
  intros Hm Hrep Htrie (Hi & _ & _ & Hc). pose proof (models_trie _ _ _ _ Hm) as Ht.
  destruct Hm as [_ Hf Hv Hca Hs Hn]. split; rewrite ?Hi, ?Hc; try done. exists oa. by rewrite Htrie.
Qed.

(** ** The root hash *)

Lemma root_hash_clean kv d self f m :
  kv_view kv d -> tree_models d self f m -> self.(root_node) = None ->
  MerkleTree_root_hash self kv = Ok (map_root_hash m).
Proof.
  intros Hkv [(oa & Hrep & Htrie) _ _ _ _ _] Hroot. rewrite <- (trie_rep_root_hash _ _ _ Htrie).
  unfold MerkleTree_root_hash. rewrite Hroot. pose proof (rep_root _ _ _ _ Hrep) as Hr. rewrite Hroot in Hr.
  destruct oa as [[v|t| |]|]; [done| |done|done|].
  - pose proof (rep_wf _ _ _ _ Hrep) as Hwf. pose proof (rep_good _ _ _ _ Hrep) as Hg. cbn in Hwf, Hg.
    destruct (rep_db _ _ _ _ Hrep [] (tnode [] t)) as [Hd Hrow].
    { cbn [ores res]. rewrite tres_stored by done. by left. }
    rewrite (get_branch_stored kv d Hkv self [] t ht) by (done || cbn; lia). by destruct t.
  - rewrite (get_branch_none kv d Hkv self []); [done|]. intros Hs.
    destruct (rep_cover _ _ _ _ Hrep []) as [Hin|]; [cbn; lia|done| |done]. by apply elem_of_nil in Hin.
Qed.
End TreeSpec.
