(* ===== verification/TreeCorrect.v ===== *)
(** * Correctness of a tree

    The operations of [src/src/trie/tree.rs] against the contract of
    [TreeSpec.v]: lookups, insertions and deletions are those of a map, the
    traversal reaches the node where a key leaves the trie, hashing gives the
    root hash of the map, and after a commit the database holds exactly the
    nodes of the map's trie. *)
From S2P Require Import Prelude Path Id Database Error External MerkleNode Trie Changes KeyValueDb Tree Iterator Update Annot TreeInv SeekSpec SetSpec DeleteSpec CommitSpec TreeSpec.

Section TreeCorrect.
Context {F K : Type} {M : Type -> Type} {DB ID : Type}.
Context `{StarkFelt F, !LawfulFelt F, !StarkHash F, SlotMap K M, !LawfulSlotMap K M,
  !NodeCodec F K, !LawfulNodeCodec F K, BonsaiDatabase DB, Id ID}.
Context (ht : nat) (Hht : 0 < ht <= 255).
Abbreviation MerkleTree := (MerkleTree F K M).
Abbreviation KeyValueDB := (KeyValueDB DB ID).
Implicit Types (self : MerkleTree) (kv : KeyValueDB) (d : TrieKey -> option ByteVec) (f m : gmap BitVec F).

(** The nodes a trie stores, with their paths. *)
Fixpoint trie_nodes (path : BitVec) (t : trie F) : list (BitVec * Node F K) :=
  match t with
  | Leaf _ => []
  | Bin l r => (path, tnode path t) :: trie_nodes (path ++ [false]) l ++ trie_nodes (path ++ [true]) r
  | Edg p c => (path, tnode path t) :: trie_nodes (path ++ p) c
  end.
Definition stored_nodes (o : option (trie F)) : gmap BitVec (Node F K) :=
  list_to_map (match o with Some t => trie_nodes [] t | None => [] end).

Lemma tres_nodes path t : tres path t = (fun e => (e.1, Db e.2)) <$> trie_nodes path t.
Proof.
  revert path. induction t as [v|l IHl r IHr|p c IH]; intros path; cbn; [done| |by rewrite IH].
  by rewrite fmap_app, <- IHl, <- IHr.
Qed.

Lemma trie_nodes_NoDup t : trie_wf ht t -> NoDup (trie_nodes [] t).*1.
Proof.
  intros Hwf. apply (tres_NoDup (K := K) []) in Hwf. rewrite tres_nodes, <- list_fmap_compose in Hwf. exact Hwf.
Qed.

(** The database of a committed tree, on the keys of nodes. *)
Lemma committed_nodes d self oa m q :
  tree_rep ht d self oa -> trie_rep ht (strip <$> oa) m -> self.(root_node) = None -> self.(death_row) = ∅ -> length q <= ht ->
  d (node_key self.(identifier) q) = Node_encode_fields <$> stored_nodes (trie_of m) !! q.
Proof.
  intros Hrep Htrie Hroot Hrow Hq.
  assert (trie_of m = strip <$> oa) as ->.
  { eapply (trie_rep_unique ht); [|exact Htrie]. by eapply trie_of_rep, trie_rep_map_wf. }
  assert (exists o, oa = AStored <$> o) as [o ->].
  { pose proof (rep_root _ _ _ _ Hrep) as Hr. rewrite Hroot in Hr.
    destruct oa as [[v|t| |]|]; try done; [by exists (Some t)|by exists None]. }
  assert (forall n, stored_nodes (strip <$> (AStored (K := K) <$> o)) !! q = Some n <->
    (q, Db n) ∈ ores (AStored <$> o)) as Hin.
  { intros n. pose proof (rep_wf _ _ _ _ Hrep) as Hwf. destruct o as [t|]; cbn; [|by rewrite lookup_empty, elem_of_nil].
    unfold stored_nodes. cbn in *. rewrite <- elem_of_list_to_map by (by apply trie_nodes_NoDup).
    rewrite tres_nodes, list_elem_of_fmap. split; [intros Hl; by exists (q, n)|].
    intros ([q' n'] & [= -> ->] & Hl). done. }
  destruct (stored_nodes _ !! q) as [n|] eqn:Hs; cbn.
  - apply (rep_db _ _ _ _ Hrep q n). by apply Hin.
  - destruct (d (node_key (identifier self) q)) as [v|] eqn:Hd; [|done]. exfalso.
    destruct (rep_cover _ _ _ _ Hrep q Hq) as [Hc|Hc]; [by rewrite Hd| |by rewrite Hrow in Hc].
    apply list_elem_of_fmap in Hc as ([q' pl] & -> & Hc). cbn [fst] in *.
    destruct o as [t|]; [|by apply elem_of_nil in Hc]. cbn in Hc. pose proof Hc as Hc'.
    rewrite tres_nodes in Hc. apply list_elem_of_fmap in Hc as ([q n] & [= -> ->] & _).
    by apply Hin in Hc'.
Qed.

(** The database after a commit, for a tree whose trie is that of [m] and whose
    pending changes make [m'] of the committed map. *)
Lemma wp_updates_rep d self oa f m m' :
  tree_rep ht d self oa -> trie_rep ht (strip <$> oa) m -> flat_rep ht self.(identifier) d f ->
  (forall k, length k = ht -> m' !! k = pending_view self.(cache_leaf_modified) f k) ->
  wp (MerkleTree_get_updates (DB := DB)) self (fun self' u =>
    let d' := apply_updates u d in
    (forall q, length q <= ht ->
      d' (node_key self.(identifier) q) = Node_encode_fields <$> stored_nodes (trie_of m) !! q) /\
    (forall k, length k = ht -> d' (flat_key self.(identifier) k) = Felt_encode <$> m' !! k)).
Proof.
  intros Hrep Htrie Hflat Hview. apply (wp_get_updates ht d self oa); [done..|].
  intros self' Hrep' Hr Hrow Hc Hi _. cbn. split.
  - intros q Hq. rewrite <- Hi. eapply committed_nodes; [done| |done..]. by destruct oa.
  - eapply (commit_flat ht); [apply (rep_row _ _ _ _ Hrep)|done|done].
Qed.

(** Where the trie leaves the key: the visited nodes [ns], the last of them an
    edge or the parent of the leaf. *)
Definition seek_ends self (key : BitVec) (ns : list (K * nat)) : Prop :=
  match last ns with
  | None => True
  | Some (k, h) =>
      match slot_get self.(nodes) k with
      | Some (Edge e) => e.(edge_height) = h /\ (~ e.(edge_path) `prefix_of` drop h key \/ drop h key = e.(edge_path))
      | Some (Binary b) => b.(binary_height) = h /\ S h = ht
      | None => False
      end
  end.

(** ** Properties *)

(** C14 [set] of a non-zero value succeeds and binds the key in the map; other
    keys, and their pending changes, are not affected. The key may have been set
    or removed before in the window, except that a pending value is not replaced
    by another one, nor the committed value of a removed key restored. *)
Theorem MerkleTree_set_correct kv d self f m k v :
  kv_view kv d -> tree_models ht d self f m -> length k = ht -> v <> Felt_ZERO -> write_ok f m (k, v) ->
  wp (MerkleTree_set kv k v) self (fun self' _ =>
    tree_models ht d self' f (<[k := v]> m) /\ others_kept self self' k).
Proof. by apply (wp_set ht Hht). Qed.

(** C15 [delete_leaf] succeeds and unbinds the key in the map, whatever was
    pending for it; other keys, and their pending changes, are not affected. So
    does [set] of zero. *)
Theorem MerkleTree_delete_leaf_correct kv d self f m k :
  kv_view kv d -> tree_models ht d self f m -> length k = ht ->
  wp (MerkleTree_delete_leaf kv k) self (fun self' _ =>
    tree_models ht d self' f (delete k m) /\ others_kept self self' k) /\
  MerkleTree_set kv k Felt_ZERO self = MerkleTree_delete_leaf kv k self.
Proof.
  intros Hkv Hm Hk. split; [by apply (wp_delete_leaf ht Hht)|]. unfold MerkleTree_set. by rewrite decide_True by done.
Qed.

(** What the code does with the other writes, against the documentation of
    [insert] (the findings [set_twice_root] and [remove_reinsert_lost] are runs): [set] succeeds but does not touch the trie.
    A pending value is replaced in the pending changes only, and a key removed
    in the window whose committed value is set again stays removed. The commit
    then writes the nodes of the old map's trie, whatever the values written
    next to it are. *)
Theorem MerkleTree_set_irregular kv d self f m k v :
  kv_view kv d -> tree_models ht d self f m -> length k = ht -> ~ write_ok f m (k, v) ->
  let m' := match m !! k with Some _ => <[k := v]> m | None => m end in
  wp (MerkleTree_set kv k v) self (fun self1 _ =>
    (self1 = match m !! k with
             | Some _ => set_cache_leaf_modified (<[bitslice_to_bytes k := Insert v]> self.(cache_leaf_modified)) self
             | None => self
             end) /\
    wp (MerkleTree_get_updates (DB := DB)) self1 (fun self2 u =>
      let d' := apply_updates u d in
      (forall q, length q <= ht ->
        d' (node_key self.(identifier) q) = Node_encode_fields <$> stored_nodes (trie_of m) !! q) /\
      (forall k', length k' = ht -> d' (flat_key self.(identifier) k') = Felt_encode <$> m' !! k'))).
Proof.
  intros Hkv Hm Hk Hno m'. pose proof Hm as [(oa & Hrep & Htrie) Hflat Hview _ _ _].
  pose proof (Hview k Hk) as Hmk. unfold pending_view in Hmk. unfold write_ok in Hno. cbn [fst snd] in Hno.
  unfold MerkleTree_set. rewrite decide_False by auto. wp_step. wp_step. rewrite (rep_height _ _ _ _ Hrep).
  rewrite decide_False by lia. wp_step. wp_step.
  destruct (cache_leaf_modified self !! bitslice_to_bytes k) as [[w|]|] eqn:Hc; [| |by destruct Hno; auto].
  - apply wp_cache_insert. unfold m'. rewrite Hmk. split; [done|].
    apply (wp_updates_rep d (set_cache_leaf_modified (<[bitslice_to_bytes k := Insert v]> self.(cache_leaf_modified)) self) oa f m);
      [by destruct Hrep; split|done..|].
    intros k' Hk'. cbn. rewrite lookup_insert, (pending_view_insert ht Hht) by done. case_decide; [done|auto].
  - wp_step. apply (wp_flat_has_value ht Hht kv d _ f); [done..|]. rewrite bool_decide_true.
    2:{ apply dec_stable. intros Hf. destruct Hno. auto. }
    wp_step. unfold m'. rewrite Hmk. split; [done|]. by apply (wp_updates_rep d self oa f m).
Qed.

(** C11 [get_updates] succeeds; once its updates are applied to the database,
    the tree is committed: nothing is pending or in memory, and the database
    holds, under the keys of nodes, exactly the encodings of the nodes of the
    map's trie, with their hashes, and, under the keys of leaves, the map. *)
Theorem MerkleTree_get_updates_correct d self f m :
  tree_models ht d self f m ->
  wp (MerkleTree_get_updates (DB := DB)) self (fun self' u =>
    let d' := apply_updates u d in
    tree_models ht d' self' m m /\ clean self' /\
    (forall q, length q <= ht ->
      d' (node_key self.(identifier) q) = Node_encode_fields <$> stored_nodes (trie_of m) !! q) /\
    (forall k, length k = ht -> d' (flat_key self.(identifier) k) = Felt_encode <$> m !! k)).
Proof.
  intros Hm. eapply wp_mono; [|exact (wp_commit ht Hht _ _ _ _ Hm)]. cbn. intros self' u (Hm' & Hclean & Hid & _).
  split; [done|]. split; [done|]. rewrite <- Hid. split.
  - intros q Hq. destruct Hclean as (Hr & Hrow & _), (models_tree _ _ _ _ _ Hm') as (oa & Hrep & Htrie). by eapply committed_nodes.
  - intros k Hk. exact (models_flat _ _ _ _ _ Hm' k Hk).
Qed.

(** C17 Hashing the tree in memory, the parallel pass that precedes a commit,
    gives the root hash of the map, from a loaded root. *)
Theorem MerkleTree_compute_root_hash_correct d self f m :
  tree_models ht d self f m -> is_Some self.(root_node) ->
  exists hashes, MerkleTree_compute_root_hash (DB := DB) self = Ok (map_root_hash m, hashes).
Proof.
  intros [(oa & Hrep & Htrie) _ _ _ _ _] [r Hroot]. pose proof (rep_root _ _ _ _ Hrep) as Hr.
  rewrite <- (trie_rep_root_hash _ _ _ Htrie). rewrite Hroot in Hr. destruct r as [|k], oa as [a|]; try done.
  - exists []. unfold MerkleTree_compute_root_hash. by rewrite Hroot.
  - exists (ahashes a). apply (compute_root_hash_spec ht _ a k); try done.
    + apply (rep_nodes _ _ _ _ Hrep).
    + apply (rep_wf _ _ _ _ Hrep).
    + lia.
Qed.

(** Seeking a key succeeds without changing the map or what is pending. It
    visits no node exactly when the map is empty; else the last visited node is
    where the key leaves the trie: an edge that does not match the key, or the
    node above its leaf. *)
Theorem MerkleTree_seek_nodes_correct kv d self f m key :
  kv_view kv d -> tree_models ht d self f m -> length key = ht ->
  wp (MerkleTree_seek_nodes kv key) self (fun self' ns =>
    tree_models ht d self' f m /\ self'.(cache_leaf_modified) = self.(cache_leaf_modified) /\
    (ns = [] <-> m = ∅) /\ seek_ends self' key ns).
Proof.
  intros Hkv [(oa & Hrep & Htrie) Hflat Hview Hcache Hsafe Hnew] Hkey.
  eapply (wp_seek_nodes kv d ht Hkv ltac:(lia) key self oa); [done|done|lia| |].
  - intros self' -> Hrep' Hroot (Hi & _ & _ & Hc). split.
    { split; rewrite ?Hi, ?Hc; try done. by exists None. }
    split; [done|]. split; [|done]. split; [|done]. intros _. apply map_eq. intros k.
    destruct Htrie as [_ Hl]. by rewrite <- Hl, lookup_empty.
  - intros self' a C foc rest kf -> Hstrip Hrep' Hk Hh Hstop (Hi & _ & _ & Hc) Hroot. split.
    { split; rewrite ?Hi, ?Hc; try done. exists (Some (plug C foc)). split; [done|]. cbn in *. by rewrite Hstrip. }
    split; [done|]. split.
    { split; [intros Hnil; by apply app_nil in Hnil as [_ ?]|]. intros ->. destruct Htrie as [Hwf Hl]. cbn in Hwf.
      destruct (trie_inhabited ht _ Hwf) as (k & v & Hv). specialize (Hl k). cbn in Hl. rewrite Hv in Hl. by rewrite lookup_empty in Hl. }
    unfold seek_ends. rewrite last_snoc.
    assert (forall n, (kf, n) ∈ mems (res (cpath C) foc) -> slot_get (nodes self') kf = Some n) as Hslot.
    { intros n Hn. apply (nodes_rep_lookup _ _ _ _ (rep_nodes _ _ _ _ Hrep')). cbn [ores]. rewrite res_plug, mems_app. set_solver. }
    subst key. rewrite length_app in Hkey. destruct foc as [| |k' ho l r|k' ho p c]; try done; injection Hh as ->.
    + erewrite Hslot by (cbn [res]; unfold bin_entry; rewrite mems_mem; by left). cbn in Hstop |- *. split; [done|lia].
    + erewrite Hslot by (cbn [res]; unfold edge_entry; rewrite mems_mem; by left). cbn in Hstop |- *.
      split; [done|]. by rewrite drop_app_length.
Qed.
End TreeCorrect.
