(* ===== verification/IterCorrect.v ===== *)
(** * Correctness of the iterator

    A [MerkleTreeIterator] that has sought any keys before stands, after
    [seek_to] of a key, where a new iterator would: its leaf is the value of the
    key, its path and the heights of its nodes are those of the walk of the key
    through the trie of the map ([walk]), and its nodes are in memory. *)
From S2P Require Import Prelude Path Id Database Error External MerkleNode Trie Changes KeyValueDb Tree Iterator Update Annot TreeInv SeekSpec WalkSpec SetSpec DeleteSpec CommitSpec TreeSpec.

Section Walk.
Context {F K : Type} `{StarkFelt F, !LawfulFelt F, !StarkHash F}.

(** The walk of a key through a trie: the heights of the nodes it visits, and
    the path it follows, which leaves the key within the last edge if at all. *)
Fixpoint walk (h : nat) (t : trie F) (key : BitVec) : list nat * BitVec :=
  match t with
  | Leaf _ => ([], [])
  | Bin l r =>
      match key with
      | [] => ([h], [])
      | b :: key => let '(hs, p) := walk (h + 1) (if b then r else l) key in (h :: hs, b :: p)
      end
  | Edg p c =>
      if decide (p `prefix_of` key)
      then let '(hs, q) := walk (h + length p) c (drop (length p) key) in (h :: hs, p ++ q)
      else ([h], p)
  end.

Lemma walk_frame h f (a : atree F K) rest :
  walk h (strip (frame_plug f a)) (frame_path f ++ rest) =
  let '(hs, p) := walk (h + length (frame_path f)) (strip a) rest in (h :: hs, frame_path f ++ p).
Proof.
  destruct f as [k ho [] o|k ho p]; cbn [frame_plug frame_path strip walk app length]; [done..|].
  by rewrite decide_True, drop_app_length by (by exists rest).
Qed.

Lemma walk_plug C (a : atree F K) rest :
  walk 0 (strip (plug C a)) (cpath C ++ rest) =
  let '(hs, p) := walk (length (cpath C)) (strip a) rest in ((cheights C).*2 ++ hs, cpath C ++ p).
Proof.
  revert a rest. induction C as [|f C IH]; intros a rest; [cbn; by destruct (walk 0 _ _)|].
  cbn [plug cpath cheights]. rewrite <- app_assoc, IH, walk_frame, length_app.
  destruct (walk _ (strip a) rest) as [hs p]. rewrite fmap_app, <- !app_assoc. done.
Qed.

Lemma walk_leaf h (t : trie F) : trie_wf 0 t -> walk h t [] = ([], []).
Proof.
  destruct t as [v|l r|p c]; [done..|]. intros (Hp & Hl & _). destruct p; [done|cbn in *; lia].
Qed.

(** The walk ends where the traversal stops. *)
Lemma walk_stop h (foc : atree F K) rest :
  stop_at foc rest -> trie_wf (length rest) (strip foc) -> walk h (strip foc) rest = ([h], end_path foc rest).
Proof.
  destruct foc as [v|t|k ho l r|k ho p c]; cbn [stop_at strip end_path]; try done.
  - destruct rest as [|b [|]]; try done. intros _ [Hl Hr]. cbn [walk]. by rewrite walk_leaf by (by destruct b).
  - intros Hstop (_ & _ & Hc & _). cbn [walk]. case_decide as Hp; [|done]. destruct Hstop as [| ->]; [done|].
    rewrite drop_all. rewrite Nat.sub_diag in Hc. by rewrite walk_leaf, app_nil_r.
Qed.
End Walk.

Section IterCorrect.
Context {F K : Type} {M : Type -> Type} {DB ID : Type}.
Context `{StarkFelt F, !LawfulFelt F, !StarkHash F, SlotMap K M, !LawfulSlotMap K M,
  !NodeCodec F K, !LawfulNodeCodec F K, BonsaiDatabase DB, Id ID}.
Context (ht : nat) (Hht : 0 < ht <= 255).
Abbreviation Iterator := (MerkleTreeIterator F K M).
Implicit Types (self : MerkleTree F K M) (kv : KeyValueDB DB ID) (it : Iterator) (m : gmap BitVec F).

(** Where an iterator stands on a tree with the map [m] after seeking [key]. *)
Record stands it m (key : BitVec) : Prop := {
  stands_leaf : it.(leaf_hash) = m !! key;
  stands_walk : (it.(current_nodes_heights).*2, it.(current_path)) =
    match trie_of m with Some t => walk 0 t key | None => ([], []) end;
  stands_nodes : Forall (fun kh => exists nd, slot_get it.(tree).(nodes) kh.1 = Some nd /\ node_height nd = kh.2)
    it.(current_nodes_heights);
}.

(** The nodes recorded on the way to the hole of a context. *)
Lemma spine_nodes d self C (foc : atree F K) kf :
  tree_rep ht d self (Some (plug C foc)) -> ahandle foc = InMemory kf ->
  Forall (fun kh => exists nd, slot_get self.(nodes) kh.1 = Some nd /\ node_height nd = kh.2) (spine C kf).
Proof.
  intros Hrep. pose proof (rep_nodes _ _ _ _ Hrep) as Hn. cbn [ores] in Hn. clear Hrep.
  revert foc kf Hn. induction C as [|f C IH]; intros foc kf Hn Hk.
  - unfold spine. cbn. apply Forall_singleton. cbn. destruct (res_head foc [] kf Hk) as (nd & Hin & Hh).
    exists nd. split; [by apply (nodes_rep_lookup _ _ _ _ Hn)|done].
  - unfold spine. cbn [cheights]. apply Forall_app. split; [apply (IH (frame_plug f foc)); [done|apply ahandle_frame_plug]|].
    apply Forall_singleton. cbn [fst snd]. destruct (res_head foc (cpath (f :: C)) kf Hk) as (nd & Hin & Hh).
    exists nd. split; [|done]. apply (nodes_rep_lookup _ _ _ _ Hn). rewrite res_plug, mems_app. set_solver.
Qed.

Lemma stopped_stands d it C foc rest kf m key :
  seek_stopped d ht key C foc rest kf it -> length key = ht -> trie_rep ht (Some (strip (plug C foc))) m -> stands it m key.
Proof.
  intros [Hrep Hp Hn Hkey Hkf Hst Hleaf] Hlen Htrie.
  destruct (tree_rep_wf_hole _ _ _ _ _ Hrep) as [HlC Hwf].
  assert (ht - length (cpath C) = length rest) as Hrest by (rewrite <- Hlen, Hkey, length_app; lia).
  rewrite Hrest in Hwf. split.
  - destruct Htrie as [_ Hl]. rewrite <- Hl. cbn. by rewrite Hkey, trie_lookup_plug.
  - assert (trie_of m = Some (strip (plug C foc))) as ->.
    { eapply (trie_rep_unique ht); [|exact Htrie]. by eapply trie_of_rep, trie_rep_map_wf. }
    rewrite Hkey, walk_plug, walk_stop by done. by rewrite Hp, Hn, fmap_app.
  - rewrite Hn. by apply (spine_nodes d _ _ foc).
Qed.

(** Between two seeks, on a tree that holds the trie [t]. *)
Definition iter_ready d (t : trie F) it : Prop :=
  walk_ready d ht (fun C foc (_ : unit) => strip (plug C foc) = t) (fun a _ => strip a = t) tt it.

Lemma wp_seek_to_run kv key it (Q : Iterator -> unit -> Prop) :
  wp (MerkleTreeIterator_traverse_to kv key) (tt, it) (fun r _ => Q r.2 tt) -> wp (MerkleTreeIterator_seek_to kv key) it Q.
Proof.
  intros ([[] it'] & [] & Hrun & HQ). unfold wp, MerkleTreeIterator_seek_to. rewrite Hrun. by eexists _, tt.
Qed.

Lemma wp_seek_to kv d t key it :
  kv_view kv d -> iter_ready d t it -> length key = ht ->
  wp (MerkleTreeIterator_seek_to kv key) it (fun it' _ =>
    iter_ready d t it' /\ same_pending it.(tree) it'.(tree) /\
    forall m, trie_rep ht (Some t) m -> stands it' m key).
Proof.
  intros Hkv Hready Hlen. apply wp_seek_to_run.
  eapply wp_mono; [|eapply (wp_walk_key kv d ht Hkv Hht (fun C foc (_ : unit) => strip (plug C foc) = t)
    (fun C foc _ => strip (plug C foc) = t) (fun a _ => strip a = t))]; try done.
  - cbn beta. intros r _ (C & foc & rest & kf & Hst & HJ & Hsame). split; [|split; [done|]].
    + destruct r as [[] it']. by eapply (walk_ready_stopped d ht _ _ _ _ key C foc rest kf).
    + intros m Htrie. eapply (stopped_stands d); [exact Hst|done|]. by rewrite HJ.
  - intros ? ? ? ? ? ? [] Q _ HI HQ. apply wp_ret. by apply HQ.
  - intros C f foc0 foc' kf _ <- Hl. apply (strip_plug_eq (f :: C)). by eapply loads_strip.
  - intros a a' k _ <- Hl. by eapply loads_strip.
  - intros C1 C2 foc _. by rewrite plug_app.
Qed.

Lemma wp_seeks kv d t keys it :
  kv_view kv d -> iter_ready d t it -> Forall (fun k => length k = ht) keys ->
  wp (for_each keys (MerkleTreeIterator_seek_to kv)) it (fun it' _ =>
    iter_ready d t it' /\ same_pending it.(tree) it'.(tree) /\
    forall m key, trie_rep ht (Some t) m -> last keys = Some key -> stands it' m key).
Proof.
  intros Hkv. revert it. induction keys as [|key keys IH]; intros it Hready Hlen; cbn [for_each]; [by wp_step|].
  apply Forall_cons in Hlen as [Hk Hlen]. wp_step. wp_apply wp_seek_to. intros it1 _ (Hr1 & Hs1 & Hst1).
  destruct keys as [|key' keys].
  - cbn [for_each]. wp_step. split; [done|]. split; [done|]. intros m k Hm [= <-]. by apply Hst1.
  - wp_apply IH. intros it2 _ (Hr2 & Hs2 & Hst2). split; [done|]. split; [by eapply same_pending_trans|done].
Qed.

(** On the empty tree. *)
Lemma wp_seeks_empty kv d keys it :
  kv_view kv d -> tree_rep ht d it.(tree) None -> it.(current_path) = [] -> it.(current_nodes_heights) = [] -> it.(leaf_hash) = None ->
  Forall (fun k => length k = ht) keys ->
  wp (for_each keys (MerkleTreeIterator_seek_to kv)) it (fun it' _ =>
    tree_rep ht d it'.(tree) None /\ same_pending it.(tree) it'.(tree) /\
    it'.(current_path) = [] /\ it'.(current_nodes_heights) = [] /\ it'.(leaf_hash) = None).
Proof.
  intros Hkv. revert it. induction keys as [|key keys IH]; intros it Hrep Hp Hn Hl Hlen; cbn [for_each]; [by wp_step|].
  apply Forall_cons in Hlen as [Hk Hlen]. wp_step. apply wp_seek_to_run.
  eapply wp_mono; [|by apply (wp_walk_empty kv d ht Hkv Hht)].
  cbn beta. intros [[] it1] _ (_ & Hrep1 & Hs1 & Hp1 & Hn1 & Hl1). cbn [fst snd] in *.
  wp_apply IH. intros it2 _ (? & Hs2 & ?). split; [done|]. split; [by eapply same_pending_trans|done].
Qed.

(** ** Properties *)

(** C16 However many keys an iterator has sought, in any order, [seek_to] of the
    next succeeds, keeps the map and the pending changes of the tree, and leaves
    the iterator where a new one would stand: its leaf is the value of the key
    in the map, none if the key is not bound; its path and the heights of its
    nodes are those of the walk of the key through the map's trie; and each of
    its nodes is in memory at its height. *)
Theorem MerkleTreeIterator_seeks_correct kv d self f m keys key :
  kv_view kv d -> tree_models ht d self f m -> Forall (fun k => length k = ht) (keys ++ [key]) ->
  wp (for_each (keys ++ [key]) (MerkleTreeIterator_seek_to kv)) (MerkleTreeIterator_new self) (fun it _ =>
    tree_models ht d it.(tree) f m /\ it.(tree).(cache_leaf_modified) = self.(cache_leaf_modified) /\ stands it m key).
Proof.
  intros Hkv Hm Hlen. pose proof (models_trie ht d self f m Hm) as Hof.
  destruct (models_tree _ _ _ _ _ Hm) as (oa & Hrep & Htrie).
  pose proof (trie_rep_unique ht _ _ _ Hof Htrie) as Heq. destruct oa as [a|].
  - cbn in Htrie. eapply wp_mono; [|apply (wp_seeks kv d (strip a)); [done| |done]].
    2:{ eapply (ready_root _ _ _ _ _ _ a); [exact Hrep|done|done]. }
    cbn beta. intros it _ (Hr & Hs & Hst).
    destruct (walk_ready_whole d ht (fun C foc (_ : unit) => strip (plug C foc) = strip a) (fun a' _ => strip a' = strip a) ltac:(done) _ _ Hr) as (a' & Hrep' & Ha').
    split; [|split; [apply Hs|apply Hst; [done|by rewrite last_snoc]]].
    eapply (models_same ht d self _ f m (Some a')); [done..| |done]. rewrite Heq. cbn. by rewrite Ha'.
  - eapply wp_mono; [|by apply (wp_seeks_empty kv d)]. cbn beta. intros it _ (Hrep' & Hs & Hp & Hn & Hl).
    split; [eapply (models_same ht d self _ f m None); done|]. split; [apply Hs|]. split.
    + rewrite Hl. destruct Htrie as [_ Hlook]. by rewrite <- Hlook.
    + by rewrite Hp, Hn, Heq.
    + by rewrite Hn.
Qed.
End IterCorrect.
