(* ===== verification/TreesSpec.v ===== *)
(** * The trees of a storage as maps

    The contract of [MerkleTrees]: one map per identifier. A commit writes the
    updates of every tree through the key-value layer in one batch; afterwards
    the database holds the new maps, and the root hash of each identifier is
    that of its map. The identifiers in use must be [separated]: no tree's keys
    are keys of another's. *)
From S2P Require Import Prelude Path Id Database Error External MerkleNode Trie Changes Logs KeyValueDb Tree Iterator Update Trees Annot TreeInv SeekSpec SetSpec DeleteSpec CommitSpec TreeSpec.

(** No node or leaf of one identifier has the key of a node or leaf of
    another, nor one that the split of another's edge puts in the death row. *)
Definition separated (ht : nat) (ids : gset ByteVec) : Prop :=
  forall i j, i ∈ ids -> j ∈ ids -> i <> j -> forall q p, length q <= ht -> length p <= ht ->
    node_key i q <> node_key j p /\ flat_key i q <> flat_key j p /\
    node_key i q <> TrieKey_Trie (bitslice_to_bytes p).

(** Identifiers of one length that start with a byte above the height are
    separated. *)
Lemma separated_heads ht ids n :
  ht <= 255 ->
  (forall i, i ∈ ids -> length i = n /\ exists b bs, i = b :: bs /\ (Z.of_nat ht < b)%Z) -> separated ht ids.
Proof.
  intros Hht Hids i j Hi Hj Hne q p Hq Hp.
  destruct (Hids i Hi) as (Hli & b & bs & Hib & Hb), (Hids j Hj) as (Hlj & _). split_and!.
  - intros [= Heq]. by apply app_inj_1 in Heq as [? _]; [|congruence].
  - intros [= Heq]. by apply app_inj_1 in Heq as [? _]; [|congruence].
  - intros Heq. assert (i ++ Path_encode q = bitslice_to_bytes p) as Hb' by (unfold node_key, TrieKey_new in Heq; congruence).
    destruct (decide (p = [])) as [->|Hpne]; [by rewrite Hib in Hb'|].
    rewrite bitslice_to_bytes_eq, (Path_encode_eq p), as_u8_small, Hib in Hb' by (done || lia).
    apply (f_equal head) in Hb'. cbn in Hb'. assert (b = Z.of_nat (length p)) by congruence. lia.
Qed.

Section CommitRun.
Context {F K : Type} {M : Type -> Type} {DB ID : Type}.
Context `{StarkFelt F, !StarkHash F, SlotMap K M, !NodeCodec F K, BonsaiDatabase DB, Id ID, HashMapIter}.

(** The writer's result decides what [commit] returns. *)
Lemma trees_commit_run (self : MerkleTrees F K M DB ID) ts rs kv b :
  collect_updates (DB := DB) (hash_iter self.(trees)) = (ts, rs) ->
  for_each rs apply_changes (self.(trees_db), KeyValueDB_create_batch self.(trees_db)) = ((kv, b), Ok tt) ->
  MerkleTrees_commit self = let '(db', r) := db_write_batch kv.(db) b in
    (set_trees_db (set_db db' kv) (set_trees (list_to_map ts) self), from_DatabaseError r).
Proof.
  intros Hrs Hrun. unfold MerkleTrees_commit. rewrite Hrs. cbn beta iota. cbn [trees_db set_trees]. rewrite Hrun.
  unfold mbind, action_bind, lift, zoom, KeyValueDB_write_batch. cbn [trees_db set_trees_db set_trees].
  by destruct (db_write_batch kv.(db) b).
Qed.

End CommitRun.

Section TreesSpec.
Context {F K : Type} {M : Type -> Type} {DB ID : Type}.
Context `{StarkFelt F, !LawfulFelt F, !StarkHash F, SlotMap K M, !LawfulSlotMap K M,
  !NodeCodec F K, !LawfulNodeCodec F K, BonsaiDatabase DB, !LawfulDatabase DB, Id ID, HashMapIter}.
Context (ht : nat) (Hht : 0 < ht <= 255).
Abbreviation MerkleTree := (MerkleTree F K M).
Abbreviation MerkleTrees := (MerkleTrees F K M DB ID).
Abbreviation KeyValueDB := (KeyValueDB DB ID).
Abbreviation error := (BonsaiStorageError (DatabaseError DB)).
Abbreviation updates := (gmap TrieKey (InsertOrRemove ByteVec)).
Implicit Types (self : MerkleTrees) (c : gmap DatabaseKey ByteVec).

(** ** The key-value layer over a database *)

(** The trie keys of a database. *)
Definition view_of c (key : TrieKey) : option ByteVec := c !! DatabaseKey_from key.

Lemma kv_view_of (kv : KeyValueDB) c : db_holds kv.(db) c -> kv_view kv (view_of c).
Proof. intros Hc key. unfold KeyValueDB_get, from_DatabaseError. by rewrite (db_get_spec _ _ _ Hc). Qed.

Lemma MerkleTree_contains_view (kv : KeyValueDB) d (t : MerkleTree) f m k :
  (forall key, KeyValueDB_contains kv key = Ok (bool_decide (is_Some (d key)))) -> tree_models ht d t f m -> length k = ht ->
  MerkleTree_contains t kv k = Ok (bool_decide (is_Some (m !! k))).
Proof.
  intros Hc [_ Hflat Hview _ _] Hk. unfold MerkleTree_contains. rewrite Hview by done. unfold pending_view.
  destruct (cache_leaf_modified t !! bitslice_to_bytes k) as [[v|]|]; [done..|].
  rewrite Hc. f_equal. apply bool_decide_ext. pose proof (Hflat k Hk) as Hf.
  rewrite <- (fmap_is_Some Felt_encode), <- Hf. done.
Qed.

Lemma MerkleTree_contains_models (kv : KeyValueDB) c (t : MerkleTree) f m k :
  db_holds kv.(db) c -> tree_models ht (view_of c) t f m -> length k = ht ->
  MerkleTree_contains t kv k = Ok (bool_decide (is_Some (m !! k))).
Proof.
  intros Hc. apply MerkleTree_contains_view. intros key. unfold KeyValueDB_contains, from_DatabaseError.
  by rewrite (db_contains_spec _ _ _ Hc).
Qed.

(** A batch of updates on the contents of the database. *)
Definition update_contents c (kc : TrieKey * InsertOrRemove ByteVec) : gmap DatabaseKey ByteVec :=
  match kc.2 with
  | Insert v => <[DatabaseKey_from kc.1 := v]> c
  | Remove => delete (DatabaseKey_from kc.1) c
  end.

Lemma update_contents_view c key ch key' :
  view_of (update_contents c (key, ch)) key' =
  if decide (key = key') then match ch with Insert v => Some v | Remove => None end else view_of c key'.
Proof.
  unfold view_of, update_contents. cbn [fst snd]. case_decide as Hk.
  - subst. destruct ch; [by rewrite lookup_insert_eq|by rewrite lookup_delete_eq].
  - assert (DatabaseKey_from key <> DatabaseKey_from key') by (by intros ?%(inj _)).
    destruct ch; [by rewrite lookup_insert_ne|by rewrite lookup_delete_ne].
Qed.

Lemma update_list_view c l key :
  NoDup l.*1 ->
  view_of (fold_left update_contents l c) key = apply_updates (list_to_map l) (view_of c) key.
Proof.
  revert c. induction l as [|[k ch] l IH]; intros c Hnd; [done|]. cbn in Hnd. apply NoDup_cons in Hnd as [Hk Hnd].
  cbn [fold_left]. rewrite IH by done. unfold apply_updates. cbn [list_to_map fst snd foldr].
  rewrite lookup_insert, update_contents_view. case_decide as Heq.
  - subst. rewrite not_elem_of_list_to_map_1 by done. by destruct ch.
  - done.
Qed.

Lemma update_contents_log c kc k : update_contents c kc !! DatabaseKey_TrieLog k = c !! DatabaseKey_TrieLog k.
Proof. by destruct kc as [[] [v|]]; unfold update_contents; cbn; rewrite ?lookup_insert_ne, ?lookup_delete_ne. Qed.

(** [apply_changes] on an open batch: [c0] are the contents before the batch,
    [c] those it leads to. The change store records the difference ([E]: it was
    empty), and the trie logs are left alone. *)
Abbreviation kvb := (KeyValueDB * Batch DB)%type.
Record kvb_pending (E : Prop) (cfg : KeyValueDBConfig) (s : kvb) c0 c : Prop := {
  kp_db : db_pending s.1.(db) s.2 c0 c;
  kp_config : s.1.(config) = cfg;
  kp_changes : E -> recorded s.1.(changes_store).(current_changes) (view_of c0) (view_of c);
  kp_logs : forall k, c !! DatabaseKey_TrieLog k = c0 !! DatabaseKey_TrieLog k;
}.

(** The key was not created by the batch. *)
Definition not_created c0 c (key : TrieKey) : Prop := view_of c0 key = None -> view_of c key = None.

Lemma not_created_other c0 c kc key : kc.1 <> key -> not_created c0 c key -> not_created c0 (update_contents c kc) key.
Proof. destruct kc as [k ch]. intros Hne. unfold not_created. by rewrite update_contents_view, decide_False. Qed.

Lemma wp_apply_update E cfg (s : kvb) c0 c kc :
  kvb_pending E cfg s c0 c -> not_created c0 c kc.1 ->
  wp (apply_update kc) s (fun s' _ => kvb_pending E cfg s' c0 (update_contents c kc)).
Proof.
  destruct s as [kv b], kc as [key ch]. intros [Hp Hcfg Hrec Hlog] Hnew. cbn [fst snd] in *.
  assert (forall k, update_contents c (key, ch) !! DatabaseKey_TrieLog k = c0 !! DatabaseKey_TrieLog k) as Hlog'
    by (intros k; by rewrite update_contents_log).
  unfold apply_update. cbn [fst snd]. destruct ch as [v|].
  - destruct (db_insert_batch_spec _ _ _ _ (DatabaseKey_from key) v Hp) as (db' & b' & old & Hrun & Hold & Hp').
    unfold wp, KeyValueDB_insert. rewrite Hrun. eexists _, tt. split; [reflexivity|].
    split; [done|done| |exact Hlog']. intros HE. eapply recorded_insert; [by apply Hrec|done|exact Hold|].
    intros key'. by rewrite update_contents_view.
  - destruct (db_remove_batch_spec _ _ _ _ (DatabaseKey_from key) Hp) as (db' & b' & old & Hrun & Hold & Hp').
    unfold wp, KeyValueDB_remove. rewrite Hrun. eexists _, tt. split; [reflexivity|].
    split; [done|done| |exact Hlog']. intros HE. eapply recorded_insert; [by apply Hrec|done|exact Hold|].
    intros key'. by rewrite update_contents_view.
Qed.

Lemma wp_apply_list E cfg (s : kvb) c0 c l :
  kvb_pending E cfg s c0 c -> NoDup l.*1 -> (forall key, key ∈ l.*1 -> not_created c0 c key) ->
  wp (for_each l apply_update) s (fun s' _ => kvb_pending E cfg s' c0 (fold_left update_contents l c)).
Proof.
  revert s c. induction l as [|kc l IH]; intros s c Hp Hnd Hnew; cbn [for_each fold_left]; [by wp_step|].
  cbn in Hnd. apply NoDup_cons in Hnd as [Hk Hnd].
  wp_step. eapply wp_mono; [|apply wp_apply_update; [exact Hp|apply Hnew; by left]]. cbn beta. intros s' _ Hp'. apply IH; [done|done|].
  intros key Hkey. apply not_created_other; [intros <-; done|]. apply Hnew. by right.
Qed.

Lemma wp_apply_changes E cfg (s : kvb) c0 c (u : updates) :
  kvb_pending E cfg s c0 c -> (forall key, is_Some (u !! key) -> not_created c0 c key) ->
  wp (apply_changes (Ok u)) s (fun s' _ => exists c', kvb_pending E cfg s' c0 c' /\
    forall key, view_of c' key = apply_updates u (view_of c) key).
Proof.
  intros Hp Hnew. unfold apply_changes. wp_step. wp_step.
  assert (NoDup (hash_iter u).*1) as Hnd by (rewrite hash_iter_perm; apply NoDup_fst_map_to_list).
  eapply wp_mono; [|apply wp_apply_list; [exact Hp|done|]].
  2:{ intros key ([key' x] & -> & Hin)%list_elem_of_fmap. rewrite hash_iter_perm, elem_of_map_to_list in Hin. apply Hnew. by eexists. }
  cbn. intros s' _ Hp'. eexists. split; [exact Hp'|]. intros key.
  rewrite update_list_view by done. f_equal.
  rewrite <- (list_to_map_to_list u) at 2. symmetry. apply list_to_map_proper; [|symmetry; apply hash_iter_perm].
  apply NoDup_fst_map_to_list.
Qed.

(** The updates of several trees, in order. *)
Definition apply_all (us : list updates) (d : TrieKey -> option ByteVec) : TrieKey -> option ByteVec :=
  fold_left (fun d u => apply_updates u d) us d.

Lemma apply_updates_ext u (d d' : TrieKey -> option ByteVec) key :
  d key = d' key -> apply_updates u d key = apply_updates u d' key.
Proof. intros Hd. unfold apply_updates. by rewrite Hd. Qed.

Lemma apply_all_ext us d d' : (forall key, d key = d' key) -> forall key, apply_all us d key = apply_all us d' key.
Proof.
  revert d d'. induction us as [|u us IH]; intros d d' Hd key; [apply Hd|].
  apply IH. intros key'. by apply apply_updates_ext.
Qed.

(** No batch of updates touches a key an earlier one writes. *)
Definition written_once (us : list updates) : Prop :=
  ForallOrdPairs (fun u u' => forall key v, u !! key = Some (Insert v) -> u' !! key = None) us.

Lemma wp_apply_all E cfg (s : kvb) c0 c (us : list updates) :
  kvb_pending E cfg s c0 c -> written_once us -> Forall (fun u => forall key, is_Some (u !! key) -> not_created c0 c key) us ->
  wp (for_each (Ok <$> us) apply_changes) s (fun s' _ => exists c', kvb_pending E cfg s' c0 c' /\
    forall key, view_of c' key = apply_all us (view_of c) key).
Proof.
  revert s c. induction us as [|u us IH]; intros s c Hp Honce Hnew; cbn [fmap list_fmap for_each].
  - wp_step. by exists c.
  - inversion_clear Honce as [|? ? Hu Honce']. apply Forall_cons in Hnew as [Hnu Hnew].
    wp_step. wp_apply wp_apply_changes. intros s1 _ (c1 & Hp1 & Hv1).
    eapply wp_mono; [|apply IH; [exact Hp1|done|]].
    2:{ rewrite Forall_forall in Hnew, Hu |- *. intros u' Hin key Hs Hc0. rewrite Hv1. unfold apply_updates.
        destruct (u !! key) as [[v|]|] eqn:Huk; [|done|by eapply Hnew].
        destruct Hs as [x Hx]. by rewrite (Hu u' Hin key v Huk) in Hx. }
    cbn. intros s2 _ (c2 & Hp2 & Hv2). exists c2. split; [done|].
    intros key. rewrite Hv2. by apply apply_all_ext.
Qed.

(** Updates that do not touch a key. *)
Lemma apply_all_untouched us d key : Forall (fun u : updates => u !! key = None) us -> apply_all us d key = d key.
Proof.
  revert d. induction us as [|u us IH]; intros d Hu; [done|]. apply Forall_cons in Hu as [Hk Hu].
  cbn. unfold apply_all in IH. rewrite IH by done. unfold apply_updates. by rewrite Hk.
Qed.

Lemma apply_all_some us d key v :
  apply_all us d key = Some v -> d key = Some v \/ exists u, u ∈ us /\ u !! key = Some (Insert v).
Proof.
  revert d. induction us as [|u us IH]; intros d Hv; [by left|].
  destruct (IH _ Hv) as [Hd|(u' & Hin & Hu)]; [|right; exists u'; split; [by right|done]].
  unfold apply_updates in Hd. destruct (u !! key) as [[w|]|] eqn:Hu; [|done|by left].
  right. exists u. split; [by left|]. by injection Hd as ->.
Qed.

Lemma apply_all_one us1 u us2 d key :
  Forall (fun u : updates => u !! key = None) us1 -> Forall (fun u : updates => u !! key = None) us2 ->
  apply_all (us1 ++ u :: us2) d key = apply_updates u d key.
Proof.
  intros H1' H2'. unfold apply_all. rewrite fold_left_app. cbn [fold_left].
  fold (apply_all us1 d). fold (apply_all us2 (apply_updates u (apply_all us1 d))).
  rewrite apply_all_untouched by done. apply apply_updates_ext. by apply apply_all_untouched.
Qed.

(** ** The trees *)

Record trees_model self c (fs ms : ByteVec -> gmap BitVec F) (ids : gset ByteVec) : Prop := {
  tm_db : db_holds self.(trees_db).(db) c;
  tm_trees : forall i, i ∈ ids -> tree_models ht (view_of c) (tree_or_new self i) (fs i) (ms i);
  tm_ids : forall i t, self.(trees) !! i = Some t -> i ∈ ids /\ t.(identifier) = i;
  tm_base : forall i, i ∈ ids -> tree_models ht (view_of c) (MerkleTree_new i ht) (fs i) (fs i);
  tm_height : self.(trees_max_height) = ht;
  tm_separated : separated ht ids;
}.

Lemma tree_or_new_identifier self c fs ms ids i :
  trees_model self c fs ms ids -> (tree_or_new self i).(identifier) = i.
Proof.
  intros Htm. unfold tree_or_new. destruct (self.(trees) !! i) as [t|] eqn:Ht; [|done].
  by apply (tm_ids _ _ _ _ _ Htm) in Ht as [_ ?].
Qed.

(** Another tree for one identifier. *)
Lemma tree_or_new_entry self i t' j :
  tree_or_new (set_trees (<[i:=t']> self.(trees)) self) j = if decide (i = j) then t' else tree_or_new self j.
Proof. unfold tree_or_new. cbn. rewrite lookup_insert. by case_decide. Qed.

Lemma trees_model_entry self c fs ms ms' ids i t' :
  trees_model self c fs ms ids -> i ∈ ids -> tree_models ht (view_of c) t' (fs i) (ms' i) -> t'.(identifier) = i ->
  (forall j, j <> i -> ms' j = ms j) -> trees_model (set_trees (<[i:=t']> self.(trees)) self) c fs ms' ids.
Proof.
  intros [Hdb Ht Hids Hbase Hh Hsep] Hi Ht' Hid Hother. split; try done.
  - intros j Hj. rewrite tree_or_new_entry. case_decide as Heq; [by subst|]. rewrite Hother by congruence. auto.
  - cbn. intros j t. rewrite lookup_insert. case_decide; [intros [= <-]; by subst|apply Hids].
Qed.

(** A method on one tree. *)
Lemma wp_on_entry {A} self c fs ms ids i (act : KeyValueDB -> action MerkleTree error A) m' (P : MerkleTree -> A -> Prop) :
  trees_model self c fs ms ids -> i ∈ ids ->
  wp (act self.(trees_db)) (tree_or_new self i) (fun t' a =>
    tree_models ht (view_of c) t' (fs i) m' /\ t'.(identifier) = i /\ P t' a) ->
  wp (on_entry i act) self (fun self' a =>
    trees_model self' c fs (fun j => if decide (i = j) then m' else ms j) ids /\
    P (tree_or_new self' i) a /\ (forall j, j <> i -> tree_or_new self' j = tree_or_new self j) /\
    self'.(trees_db) = self.(trees_db)).
Proof.
  intros Htm Hi (t' & a & Hrun & Ht' & Hid & HP). unfold wp, on_entry. rewrite Hrun.
  eexists _, a. split; [reflexivity|].
  split; [|split; [by rewrite tree_or_new_entry, decide_True|split; [|done]]].
  - eapply trees_model_entry; [exact Htm|exact Hi|by rewrite decide_True|exact Hid|].
    intros j Hj. by rewrite decide_False by congruence.
  - intros j Hj. rewrite tree_or_new_entry. by rewrite decide_False by congruence.
Qed.

Lemma wp_trees_set self c fs ms ids i k v :
  trees_model self c fs ms ids -> i ∈ ids -> length k = ht -> write_ok (fs i) (ms i) (k, v) ->
  wp (MerkleTrees_set i k v) self (fun self' _ =>
    trees_model self' c fs (fun j => if decide (i = j) then write_map (ms i) (k, v) else ms j) ids /\
    others_kept (tree_or_new self i) (tree_or_new self' i) k /\
    (forall j, j <> i -> tree_or_new self' j = tree_or_new self j) /\ self'.(trees_db) = self.(trees_db)).
Proof.
  intros Htm Hi Hk Hc.
  eapply (wp_on_entry _ _ _ _ _ _ _ _ (fun t' _ => others_kept (tree_or_new self i) t' k)); [done|done|].
  eapply wp_mono; [|eapply (wp_write ht Hht _ (view_of c)); [by apply kv_view_of, tm_db with (1 := Htm)|by apply Htm|done|done]].
  cbn beta. intros t' _ [Ht' Hkept]. split; [done|]. split; [|done]. destruct Hkept as [Hid _].
  rewrite Hid. by eapply tree_or_new_identifier.
Qed.

(** ** Commit *)

(** What [get_updates] leaves of a tree. *)
Definition run_ok c (ms : ByteVec -> gmap BitVec F) (it : ByteVec * MerkleTree) (r : ByteVec * MerkleTree * updates) : Prop :=
  let '(i, t', u) := r in
  it.1 = i /\ tree_models ht (apply_updates u (view_of c)) t' (ms i) (ms i) /\ clean t' /\ t'.(identifier) = i /\
  (forall key, is_Some (u !! key) -> update_key ht i key) /\
  forall key v, u !! key = Some (Insert v) -> insert_key ht i key.

Lemma collect_updates_ok c fs ms (l : list (ByteVec * MerkleTree)) :
  (forall i t, (i, t) ∈ l -> tree_models ht (view_of c) t (fs i) (ms i) /\ t.(identifier) = i) ->
  exists rs, collect_updates (DB := DB) l = ((fun r : ByteVec * MerkleTree * updates => r.1) <$> rs, (fun r => Ok r.2) <$> rs) /\
    Forall2 (run_ok c ms) l rs.
Proof.
  induction l as [|[i t] l IH]; intros Hl; [by exists []|].
  destruct IH as (rs & Hrs & Hok); [intros; apply Hl; by right|].
  destruct (Hl i t ltac:(by left)) as [Ht Hid].
  destruct (wp_commit (DB := DB) ht Hht _ _ _ _ Ht) as (t' & u & Hrun & Hm & Hclean & Hid' & Hkeys).
  exists ((i, t', u) :: rs). unfold collect_updates in *. cbn [fmap list_fmap]. rewrite Hrun.
  cbn [fmap list_fmap]. injection Hrs as Hr1 Hr2. split; [by rewrite Hr1, Hr2|].
  constructor; [|done]. cbn. rewrite Hid' in *. rewrite Hid in *. done.
Qed.

(** The updates of the other trees do not touch a tree's keys. *)
Lemma update_key_node ids i j q :
  separated ht ids -> i ∈ ids -> j ∈ ids -> i <> j -> length q <= ht -> ~ update_key ht j (node_key i q).
Proof.
  intros Hsep Hi Hj Hne Hq [(p & Hp & [Heq|Heq])|(k & _ & Heq)]; [..|done];
    destruct (Hsep i j Hi Hj Hne q p Hq Hp) as (? & _ & ?); congruence.
Qed.

Lemma update_key_flat ids i j k :
  separated ht ids -> i ∈ ids -> j ∈ ids -> i <> j -> length k <= ht -> ~ update_key ht j (flat_key i k).
Proof.
  intros Hsep Hi Hj Hne Hk [?%row_key_not_flat|(k' & Hk' & Heq)]; [done|].
  destruct (Hsep i j Hi Hj Hne k k') as (_ & ? & _); [done|lia|congruence].
Qed.

(** A tree without pending changes holds the committed map. *)
Lemma models_committed d (t : MerkleTree) f m :
  tree_models ht d t f m -> t.(cache_leaf_modified) = ∅ -> tree_models ht d t m m.
Proof.
  intros [Ht Hf Hv Hc Hs _] Hcache.
  assert (forall k, length k = ht -> m !! k = f !! k) as Hmf.
  { intros k Hk. rewrite Hv by done. unfold pending_view. by rewrite Hcache, lookup_empty. }
  split; try done.
  - intros k Hk. by rewrite Hf, Hmf.
  - intros k Hk. unfold pending_view. by rewrite Hcache, lookup_empty.
  - intros k v _ Hk. by rewrite Hcache, lookup_empty in Hk.
Qed.

(** The database after the updates of all trees, on the keys of tree [i]. *)
Lemma runs_view ids c ms l rs i t' u key :
  separated ht ids -> Forall2 (run_ok c ms) l rs -> NoDup l.*1 -> (forall j, j ∈ l.*1 -> j ∈ ids) ->
  (i, t', u) ∈ rs -> (forall j, j ∈ ids -> j <> i -> ~ update_key ht j key) ->
  apply_all (snd <$> rs) (view_of c) key = apply_updates u (view_of c) key.
Proof.
  intros Hsep Hok Hnd Hids Hin Hother.
  assert (l.*1 = (fun r : ByteVec * MerkleTree * updates => r.1.1) <$> rs) as Hfst.
  { clear -Hok. induction Hok as [|[] [[] ?] l rs [? _] _ IH]; [done|]. cbn in *. by f_equal. }
  apply list_elem_of_split in Hin as (rs1 & rs2 & ->).
  rewrite Hfst in Hnd, Hids. rewrite fmap_app in Hnd. cbn in Hnd. apply NoDup_app in Hnd as (_ & Hd1 & Hnd2).
  apply NoDup_cons in Hnd2 as [Hd2 _].
  assert (forall r, r ∈ rs1 \/ r ∈ rs2 -> r.2 !! key = None) as Hnone.
  { intros [[j t] w] Hr. cbn. destruct (w !! key) as [x|] eqn:Hw; [|done]. exfalso.
    assert ((j, t, w) ∈ rs1 ++ (i, t', u) :: rs2) as Hr' by set_solver.
    apply list_elem_of_lookup in Hr' as [n Hn]. destruct (Forall2_lookup_r _ _ _ _ _ Hok Hn) as (it & _ & _ & _ & _ & _ & Hkeys).
    apply (Hother j); [|intros ->|apply Hkeys; by rewrite Hw].
    - apply Hids, list_elem_of_fmap. exists (j, t, w). split; [done|]. by apply list_elem_of_lookup_2 with n.
    - destruct Hr as [Hr|Hr].
      + apply (Hd1 i); [apply list_elem_of_fmap; by exists (i, t, w)|by left].
      + apply Hd2, list_elem_of_fmap. by exists (i, t, w). }
  rewrite fmap_app. cbn [fmap list_fmap snd]. apply apply_all_one; apply Forall_fmap, Forall_forall; intros r Hr; apply Hnone; auto.
Qed.

(** No tree updates a key that another one writes. *)
Lemma insert_key_other ids i j key :
  separated ht ids -> i ∈ ids -> j ∈ ids -> i <> j -> insert_key ht i key -> ~ update_key ht j key.
Proof.
  intros Hsep Hi Hj Hne [(q & Hq & ->)|(k & Hk & ->)]; [by apply (update_key_node ids)|apply (update_key_flat ids); [done..|lia]].
Qed.

Lemma runs_written_once ids c ms l rs :
  separated ht ids -> Forall2 (run_ok c ms) l rs -> NoDup l.*1 -> (forall j, j ∈ l.*1 -> j ∈ ids) ->
  written_once (snd <$> rs).
Proof.
  intros Hsep Hok. induction Hok as [|[i t] [[i' t'] u] l rs Hr Hok IH]; intros Hnd Hids; [constructor|].
  cbn in Hnd, Hr. apply NoDup_cons in Hnd as [Hi Hnd]. destruct Hr as (-> & _ & _ & _ & _ & Hins). cbn [fst] in *.
  constructor; [|apply IH; [done|intros j Hj; apply Hids; by right]].
  apply Forall_fmap, Forall_forall. intros [[j w] u'] Hin key v Hv. cbn. destruct (u' !! key) as [x|] eqn:Hx; [|done]. exfalso.
  apply list_elem_of_lookup in Hin as [n Hn]. destruct (Forall2_lookup_r _ _ _ _ _ Hok Hn) as ([j' t0] & Hl0 & <- & _ & _ & _ & Hkeys & _).
  apply list_elem_of_lookup_2, (list_elem_of_fmap_2 fst) in Hl0. cbn [fst] in *.
  eapply (insert_key_other ids i' j'); [done|apply Hids; by left|apply Hids; by right|by intros ->|by eapply Hins|by apply Hkeys; rewrite Hx].
Qed.

(** Each tree after the commit; [self'] is the storage whose trees and database
    the commit has replaced. *)
Lemma committed_trees self self' c c' fs ms ids l rs i :
  trees_model self c fs ms ids -> Forall2 (run_ok c ms) l rs -> NoDup l.*1 ->
  (forall i t, (i, t) ∈ l <-> self.(trees) !! i = Some t) ->
  (forall key, view_of c' key = apply_all (snd <$> rs) (view_of c) key) ->
  self'.(trees) = list_to_map ((fun r => r.1) <$> rs) -> self'.(trees_max_height) = ht -> i ∈ ids ->
  tree_models ht (view_of c') (tree_or_new self' i) (ms i) (ms i) /\ clean (tree_or_new self' i).
Proof.
  intros [_ Htrees Hids Hbase Hh Hsep] Hok Hnd Hl Hview Hts Hh' Hi.
  assert (l.*1 = ((fun r : ByteVec * MerkleTree * updates => r.1) <$> rs).*1) as Hfst.
  { clear -Hok. induction Hok as [|[] [[] ?] l rs [? _] _ IH]; [done|]. cbn in *. by f_equal. }
  assert (forall j, j ∈ l.*1 -> j ∈ ids) as Hlids.
  { intros j ((i0 & t0) & -> & Hin)%list_elem_of_fmap. by apply Hl, Hids in Hin as [? _]. }
  pose proof (Htrees i Hi) as Ht0. unfold tree_or_new in *. rewrite Hts, Hh'.
  destruct (self.(trees) !! i) as [t|] eqn:Ht.
  - apply Hl in Ht as Hin. apply list_elem_of_lookup in Hin as [n Hn].
    destruct (Forall2_lookup_l _ _ _ _ _ Hok Hn) as ([[i' t'] u] & Hr & <- & Hm & Hclean & Hid & Hkeys). cbn [fst] in *.
    apply list_elem_of_lookup_2 in Hr. erewrite elem_of_list_to_map_1; [|by rewrite <- Hfst|].
    2:{ apply list_elem_of_fmap. exists (i, t', u). split; [reflexivity|exact Hr]. }
    change (default ?x (Some ?y)) with y. split; [|done]. eapply (models_ext ht Hht); [exact Hm|..]; rewrite Hid; intros q Hq; rewrite Hview.
    + eapply (runs_view ids); [done|exact Hok|done|done|exact Hr|].
      intros j Hj Hne. eapply update_key_node; eauto.
    + eapply (runs_view ids); [done|exact Hok|done|done|exact Hr|].
      intros j Hj Hne. eapply update_key_flat; eauto. lia.
  - rewrite not_elem_of_list_to_map_1.
    2:{ rewrite <- Hfst. intros ([i0 t0] & -> & Hin%Hl)%list_elem_of_fmap. cbn in Ht. congruence. }
    cbn [default] in *. rewrite Hh in Ht0. split; [|repeat split; apply slot_view_default].
    apply models_committed in Ht0; [|done].
    assert (forall key, (forall j, j ∈ ids -> j <> i -> ~ update_key ht j key) -> view_of c' key = view_of c key) as Hun.
    { intros key Hkey. rewrite Hview. apply apply_all_untouched, Forall_fmap, Forall_forall.
      intros [[j t'] u] Hr. cbn. destruct (u !! key) eqn:Hu; [|done]. exfalso.
      apply list_elem_of_lookup in Hr as [n Hn]. destruct (Forall2_lookup_r _ _ _ _ _ Hok Hn) as ([j' t0] & Hl0 & <- & _ & _ & _ & Hkeys).
      apply list_elem_of_lookup_2 in Hl0. apply (Hkey j'); [| |apply Hkeys; by rewrite Hu].
      - apply Hlids, list_elem_of_fmap. by exists (j', t0).
      - intros ->. apply Hl in Hl0. congruence. }
    eapply (models_ext ht Hht); [exact Ht0|..]; cbn [identifier MerkleTree_new]; intros q Hq; apply Hun; intros j Hj Hne.
    + eapply update_key_node; eauto.
    + eapply update_key_flat; eauto. lia.
Qed.

(** The trees [ts] and the batch [commit] makes of their updates, before it is
    written; [c'] are the contents once it is. *)
Record commit_batch self c (ms : ByteVec -> gmap BitVec F) (ids : gset ByteVec) (ts : list (ByteVec * MerkleTree)) (kv : KeyValueDB) (b : Batch DB) c' : Prop := {
  cb_pending : db_pending kv.(db) b c c';
  cb_config : kv.(config) = self.(trees_db).(config);
  cb_recorded : self.(trees_db).(changes_store) = ChangeStore_new ->
    recorded kv.(changes_store).(current_changes) (view_of c) (view_of c');
  cb_log : forall k, c' !! DatabaseKey_TrieLog k = c !! DatabaseKey_TrieLog k;
  cb_inserts : forall key v, view_of c' key = Some v -> view_of c key = Some v \/ exists i, i ∈ ids /\ insert_key ht i key;
  cb_ids : forall i t, (list_to_map ts : gmap ByteVec MerkleTree) !! i = Some t -> i ∈ ids /\ t.(identifier) = i;
  cb_trees : forall i, i ∈ ids -> let t := tree_or_new (set_trees (list_to_map ts) self) i in
    tree_models ht (view_of c') t (ms i) (ms i) /\ clean t;
}.

Lemma trees_commit_batch self c fs ms ids :
  trees_model self c fs ms ids ->
  exists ts rs kv b c', collect_updates (DB := DB) (hash_iter self.(trees)) = (ts, rs) /\
    for_each rs apply_changes (self.(trees_db), KeyValueDB_create_batch self.(trees_db)) = ((kv, b), Ok tt) /\
    commit_batch self c ms ids ts kv b c'.
Proof.
  intros Htm. pose proof Htm as [Hdb Htrees Hids Hbase Hh Hsep].
  set (l := hash_iter self.(trees)).
  assert (NoDup l.*1) as Hnd by (unfold l; rewrite hash_iter_perm; apply NoDup_fst_map_to_list).
  assert (forall i t, (i, t) ∈ l <-> self.(trees) !! i = Some t) as Hl.
  { intros i t. unfold l. by rewrite hash_iter_perm, elem_of_map_to_list. }
  destruct (collect_updates_ok c fs ms l) as (rs & Hrs & Hok).
  { intros i t Hin%Hl. destruct (Hids _ _ Hin). split; [|done].
    pose proof (Htrees i ltac:(done)) as Ht. unfold tree_or_new in Ht. by rewrite Hin in Ht. }
  assert (forall j, j ∈ l.*1 -> j ∈ ids) as Hlids.
  { intros j ((i0 & t0) & -> & Hin)%list_elem_of_fmap. by apply Hl, Hids in Hin as [? _]. }
  destruct (wp_apply_all (self.(trees_db).(changes_store) = ChangeStore_new) self.(trees_db).(config)
    (self.(trees_db), KeyValueDB_create_batch self.(trees_db)) c c (snd <$> rs))
    as ([kv b] & [] & Hrun & c' & [Hp Hcfg Hrec Hlog] & Hview).
  { split; [by apply db_create_batch_spec|done| |done]. cbn. intros ->. apply recorded_refl. }
  { by eapply runs_written_once. }
  { apply Forall_true. by intros u key Hs Hn. }
  rewrite <- list_fmap_compose in Hrun.
  eexists _, _, kv, b, c'. split; [exact Hrs|]. split; [exact Hrun|]. split; [done..| | |].
  - intros key v. rewrite Hview. intros [Hd|(u & Hin & Hu)]%apply_all_some; [by left|right].
    apply list_elem_of_fmap in Hin as ([[i t'] u'] & -> & [n Hn]%list_elem_of_lookup).
    destruct (Forall2_lookup_r _ _ _ _ _ Hok Hn) as ([j t0] & Hl0 & <- & _ & _ & _ & _ & Hins). cbn in *.
    exists j. split; [apply Hlids, list_elem_of_fmap; exists (j, t0); split; [done|by eapply list_elem_of_lookup_2]|by eapply Hins].
  - intros i t Hin%elem_of_list_to_map_2. apply list_elem_of_fmap in Hin as ([[i' t'] u] & [= <- <-] & Hr).
    apply list_elem_of_lookup in Hr as [n Hn]. destruct (Forall2_lookup_r _ _ _ _ _ Hok Hn) as ([j t0] & Hl0 & Hji & _ & _ & Hid & _).
    apply list_elem_of_lookup_2, Hl, Hids in Hl0 as [? _]. cbn in Hji. by subst.
  - intros i Hi. by eapply (committed_trees self (set_trees _ self) c c' fs ms ids l rs).
Qed.

(** The trees of the commit are clean, over the contents [c'] and over a new
    tree for each. *)
Lemma commit_batch_base self c ms ids ts kv b c' i :
  self.(trees_max_height) = ht -> commit_batch self c ms ids ts kv b c' -> i ∈ ids -> tree_models ht (view_of c') (MerkleTree_new i ht) (ms i) (ms i).
Proof.
  intros Hh Hb Hi. destruct (cb_trees _ _ _ _ _ _ _ _ Hb i Hi) as [Hm Hclean]. apply (models_reload ht) in Hm; [|done].
  set (t := tree_or_new (set_trees (list_to_map ts) self) i) in *.
  assert (t.(identifier) = i) as Hid; [|by rewrite Hid in Hm].
  unfold t, tree_or_new. cbn [trees set_trees]. destruct (list_to_map ts !! i) as [t'|] eqn:Ht; [|done].
  by apply (cb_ids _ _ _ _ _ _ _ _ Hb) in Ht as [_ ?].
Qed.

Lemma wp_trees_commit self c fs ms ids :
  trees_model self c fs ms ids ->
  wp (MerkleTrees_commit) self (fun self' _ => exists c', trees_model self' c' ms ms ids /\
    (forall i, i ∈ ids -> clean (tree_or_new self' i)) /\
    self'.(trees_db).(config) = self.(trees_db).(config) /\
    (self.(trees_db).(changes_store) = ChangeStore_new ->
      recorded self'.(trees_db).(changes_store).(current_changes) (view_of c) (view_of c')) /\
    (forall k, c' !! DatabaseKey_TrieLog k = c !! DatabaseKey_TrieLog k) /\
    forall key v, view_of c' key = Some v -> view_of c key = Some v \/ exists i, i ∈ ids /\ insert_key ht i key).
Proof.
  intros Htm. destruct (trees_commit_batch self c fs ms ids Htm) as (ts & rs & kv & b & c' & Hrs & Hrun & Hb).
  destruct Htm as [_ _ _ _ Hh Hsep]. pose proof (commit_batch_base self c ms ids ts kv b c') as Hbase.
  destruct Hb as [Hp Hcfg Hrec Hlog Hins Hids Htrees].
  destruct (db_write_batch_spec _ _ _ _ Hp) as (db' & Hwrite & Hdb').
  unfold wp. rewrite (trees_commit_run self ts rs kv b Hrs Hrun), Hwrite. eexists _, tt. split; [reflexivity|]. exists c'.
  split; [split; [done|intros i Hi; by apply Htrees|done|intros i Hi; by apply Hbase|done|done]|].
  split_and!; [intros i Hi; by apply Htrees|done..].
Qed.

(** Dropping the trees in memory brings the last commit back. *)
Lemma wp_trees_reset self c fs ms ids :
  trees_model self c fs ms ids ->
  wp (MerkleTrees_reset_to_last_commit (DB := DB)) self (fun self' _ => trees_model self' c fs fs ids /\
    forall i, i ∈ ids -> clean (tree_or_new self' i)).
Proof.
  intros [Hdb Ht Hids Hbase Hh Hsep]. unfold MerkleTrees_reset_to_last_commit. eexists _, tt. split; [reflexivity|].
  assert (forall i, tree_or_new (set_trees ∅ self) i = MerkleTree_new i ht) as Hnew.
  { intros i. unfold tree_or_new. cbn. by rewrite Hh. }
  split; [split; try done|].
  - intros i Hi. rewrite Hnew. by apply Hbase.
  - intros i Hi. rewrite Hnew. repeat split. apply slot_view_default.
Qed.
End TreesSpec.
