(* ===== verification/StorageSpec.v ===== *)
(** * The storage as maps

    The contract of [BonsaiStorage]: it refines a family of maps, one per
    identifier. [storage_model s c fs ms ids]: over a database with contents
    [c], the storage holds the maps [ms] over the committed maps [fs]. *)
From S2P Require Import Prelude Path Id Database Error External MerkleNode Trie Changes Logs KeyValueDb Tree Iterator Update Trees Proof Storage Annot TreeInv SeekSpec SetSpec DeleteSpec CommitSpec TreeSpec TreesSpec.

(** ** The trie log *)
Section KeyValueSpec.
Context {DB ID : Type} `{BonsaiDatabase DB, !LawfulDatabase DB, Id ID, HashMapIter}.
Abbreviation KeyValueDB := (KeyValueDB DB ID).
Implicit Types (kv : KeyValueDB) (c : gmap DatabaseKey ByteVec).

(** The contents once a trie log is written, and once the expired log is gone. *)
Definition log_contents c (entries : list (ByteVec * ByteVec)) : gmap DatabaseKey ByteVec :=
  fold_left (fun c e => <[DatabaseKey_TrieLog e.1 := e.2]> c) entries c.
Definition expire_contents (o : option Z) c : gmap DatabaseKey ByteVec :=
  match o with
  | Some e => filter (fun b => ~ DatabaseKey_has_prefix (DatabaseKey_TrieLog (to_bytes (from_u64 (ID := ID) e))) b.1) c
  | None => c
  end.

(** The contents after [commit] of the changes [b]. *)
Definition committed_contents (cfg : KeyValueDBConfig) (b : gmap TrieKey Change) (id : ID) c : gmap DatabaseKey ByteVec :=
  if decide (cfg.(max_saved_trie_logs) <> Some 0%Z) then
    expire_contents (expired_log cfg id) (log_contents c (ChangeBatch_serialize b id))
  else c.

Lemma wp_insert_logs l (s : KeyValueDB * Batch DB) c0 c :
  db_pending s.1.(db) s.2 c0 c ->
  wp (for_each l KeyValueDB_insert_log) s (fun s' _ => db_pending s'.1.(db) s'.2 c0 (log_contents c l) /\
    s'.1 = set_db s'.1.(db) s.1).
Proof.
  revert s c. induction l as [|e l IH]; intros [kv b] c Hp; cbn [for_each].
  - wp_step. split; [done|]. by destruct kv.
  - wp_step. destruct (db_insert_batch_spec _ _ _ _ (DatabaseKey_TrieLog e.1) e.2 Hp) as (db' & b' & old & Hrun & _ & Hp').
    cbn [fst snd] in Hrun.
    assert (KeyValueDB_insert_log e (kv, b) = ((set_db db' kv, b'), Ok tt)) as Hlog.
    { unfold KeyValueDB_insert_log. by rewrite Hrun. }
    eexists _, tt. split; [exact Hlog|]. eapply wp_mono; [|by apply IH]. cbn.
    intros s' _ [Hp2 Heq]. split; [done|]. rewrite Heq. done.
Qed.

Lemma wp_kv_commit kv c id :
  db_holds kv.(db) c ->
  wp (KeyValueDB_commit id) kv (fun kv' _ => db_holds kv'.(db) (committed_contents kv.(config) kv.(changes_store).(current_changes) id c) /\
    kv'.(changes_store) = ChangeStore_new /\ kv'.(config) = kv.(config) /\ kv'.(created_at) = kv.(created_at)).
Proof.
  intros Hc. unfold KeyValueDB_commit, committed_contents. do 8 wp_step. cbn [config set_changes].
  case_decide as Hmax; [|by wp_step].
  wp_step. set (kv1 := set_changes ∅ kv).
  destruct (wp_insert_logs (ChangeBatch_serialize kv.(changes_store).(current_changes) id) (kv1, KeyValueDB_create_batch kv) c c)
    as ([kv2 b2] & [] & Hrun & Hp & Heq).
  { cbn. by apply db_create_batch_spec. }
  cbn [fst snd] in Hp, Heq. unfold wp at 1. rewrite Hrun. eexists _, _. split; [reflexivity|].
  wp_step. destruct (db_write_batch_spec _ _ _ _ Hp) as (db3 & Hwrite & Hdb3).
  unfold wp at 1, KeyValueDB_write_batch. rewrite Hwrite. eexists _, tt. split; [reflexivity|].
  change (config kv2) with (config kv2). rewrite Heq. cbn [config set_db set_changes kv1].
  unfold expire_contents. destruct (expired_log kv.(config) id) as [e|].
  - destruct (db_remove_by_prefix_spec _ _ (DatabaseKey_TrieLog (to_bytes (from_u64 (ID := ID) e))) Hdb3) as (db4 & Hrm & Hdb4).
    unfold wp, KeyValueDB_remove_by_prefix. cbn [db set_db]. rewrite Hrm. eexists _, tt. split; [reflexivity|]. done.
  - by wp_step.
Qed.

(** The trie and flat columns are untouched. *)
Lemma committed_contents_view cfg b id c key : view_of (committed_contents cfg b id c) key = view_of c key.
Proof.
  assert (forall l c, view_of (log_contents c l) key = view_of c key) as Hlog.
  { intros l. induction l as [|e l IH]; intros c'; [done|]. unfold log_contents in *. cbn [fold_left].
    rewrite IH. unfold view_of. rewrite lookup_insert_ne; [done|]. by destruct key. }
  unfold committed_contents. case_decide; [|done]. unfold expire_contents. destruct (expired_log _ _) as [e|]; [|apply Hlog].
  rewrite <- (Hlog (ChangeBatch_serialize b id) c). unfold view_of.
  destruct (log_contents c _ !! DatabaseKey_from key) as [v|] eqn:Hv.
  - apply map_lookup_filter_Some. split; [done|]. by destruct key; intros [].
  - apply map_lookup_filter_None. by left.
Qed.
End KeyValueSpec.

Section StorageSpec.
Context {F K : Type} {M : Type -> Type} {DB ID : Type}.
Context `{StarkFelt F, !LawfulFelt F, !StarkHash F, SlotMap K M, !LawfulSlotMap K M,
  !NodeCodec F K, !LawfulNodeCodec F K, BonsaiDatabase DB, !LawfulDatabase DB, Id ID, HashMapIter}.
Context (ht : nat) (Hht : 0 < ht <= 255).
Abbreviation BonsaiStorage := (BonsaiStorage F K M DB ID).
Abbreviation error := (BonsaiStorageError (DatabaseError DB)).
Implicit Types (self : BonsaiStorage) (c : gmap DatabaseKey ByteVec) (fs ms : ByteVec -> gmap BitVec F).

Definition storage_model self c fs ms ids : Prop := trees_model ht self.(tries) c fs ms ids.

(** The parts of the contract. *)
Lemma storage_db self c fs ms ids : storage_model self c fs ms ids -> db_holds self.(tries).(trees_db).(db) c.
Proof. apply tm_db. Qed.
Lemma storage_view self c fs ms ids : storage_model self c fs ms ids -> kv_view self.(tries).(trees_db) (view_of c).
Proof. intros Hm. by eapply kv_view_of, storage_db. Qed.
Lemma storage_tree self c fs ms ids i :
  storage_model self c fs ms ids -> i ∈ ids -> tree_models ht (view_of c) (tree_or_new self.(tries) i) (fs i) (ms i).
Proof. intros Hm. apply (tm_trees _ _ _ _ _ _ Hm). Qed.
Lemma storage_base self c fs ms ids i :
  storage_model self c fs ms ids -> i ∈ ids -> tree_models ht (view_of c) (MerkleTree_new i ht) (fs i) (fs i).
Proof. intros Hm. apply (tm_base _ _ _ _ _ _ Hm). Qed.
Hint Resolve storage_db storage_view storage_tree storage_base : bonsai.

(** The maps of a storage have keys of its height and no zero values. *)
Lemma storage_map_wf self c ms ids i : storage_model self c ms ms ids -> i ∈ ids -> map_wf ht (ms i).
Proof. intros Hm Hi. destruct (storage_base _ _ _ _ _ _ Hm Hi) as [(oa & _ & Hrep) _ _ _ _ _]. by eapply trie_rep_map_wf. Qed.

(** No tree has anything in memory or pending. *)
Definition storage_clean self (ids : gset ByteVec) : Prop :=
  forall i, i ∈ ids -> clean (tree_or_new self.(tries) i).

(** A write [(identifier, (key, value))]; zero removes. *)
Definition write_maps ms (w : ByteVec * (BitVec * F)) : ByteVec -> gmap BitVec F :=
  fun j => if decide (w.1 = j) then write_map (ms w.1) w.2 else ms j.

Definition storage_write (w : ByteVec * (BitVec * F)) : action BonsaiStorage error unit :=
  let '(i, (k, v)) := w in
  if decide (v = Felt_ZERO) then BonsaiStorage_remove i k else BonsaiStorage_insert i k v.

(** The writes of a window that the tries follow ([write_ok]), from the maps
    [ms] over the committed maps [fs]; a window starts after a commit. *)
Fixpoint window_from (ids : gset ByteVec) fs ms (ws : list (ByteVec * (BitVec * F))) : Prop :=
  match ws with
  | [] => True
  | w :: ws =>
      (w.1 ∈ ids /\ length w.2.1 = ht) /\ write_ok (fs w.1) (ms w.1) w.2 /\ window_from ids fs (write_maps ms w) ws
  end.
Definition window ids ms ws : Prop := window_from ids ms ms ws.

#[export] Instance window_from_dec ids fs ms ws : Decision (window_from ids fs ms ws).
Proof. revert ms. induction ws; intros ms; cbn; apply _. Defined.
#[export] Instance window_dec ids ms ws : Decision (window ids ms ws).
Proof. apply window_from_dec. Defined.

Lemma window_from_app ids fs ms ws ws' :
  window_from ids fs ms (ws ++ ws') <-> window_from ids fs ms ws /\ window_from ids fs (fold_left write_maps ws ms) ws'.
Proof.
  revert ms. induction ws as [|w ws IH]; intros ms; cbn [app fold_left window_from]; [tauto|]. rewrite IH. tauto.
Qed.

(** Windows that write each key at most once are such. *)
Lemma window_once ids ms ws :
  NoDup ((fun w : ByteVec * (BitVec * F) => (w.1, w.2.1)) <$> ws) -> Forall (fun w => w.1 ∈ ids /\ length w.2.1 = ht) ws ->
  window ids ms ws.
Proof.
  unfold window. intros Hnd Hin.
  assert (forall fs, (forall w, w ∈ ws -> ms w.1 !! w.2.1 = fs w.1 !! w.2.1) -> window_from ids fs ms ws) as Hw; [|by apply Hw].
  intros fs. revert ms Hnd Hin. induction ws as [|w ws IH]; intros ms Hnd Hin Hfs; [done|].
  cbn in Hnd. apply NoDup_cons in Hnd as [Hw Hnd]. apply Forall_cons in Hin as [Hi Hin]. cbn. split_and!; [apply Hi..| |].
  - right; right; left. apply Hfs. by left.
  - apply IH; [done..|]. intros w' Hw'. rewrite <- Hfs by (by right). unfold write_maps, write_map.
    case_decide as Heq; [|done]. assert (w.2.1 <> w'.2.1).
    { intros Hk. apply Hw, list_elem_of_fmap. exists w'. by rewrite Heq, Hk. }
    rewrite <- Heq. case_decide; [by rewrite lookup_delete_ne|by rewrite lookup_insert_ne].
Qed.

Lemma wp_storage_write self c fs ms ids w :
  storage_model self c fs ms ids -> w.1 ∈ ids -> length w.2.1 = ht -> write_ok (fs w.1) (ms w.1) w.2 ->
  wp (storage_write w) self (fun self' _ => storage_model self' c fs (write_maps ms w) ids /\
    self'.(tries).(trees_db) = self.(tries).(trees_db)).
Proof.
  destruct w as [i [k v]]. cbn [fst snd]. intros Hm Hi Hk Hok.
  replace (storage_write (i, (k, v))) with (on_tries (F := F) (K := K) (M := M) (DB := DB) (ID := ID) (MerkleTrees_set i k v)).
  2:{ unfold storage_write. case_decide; [by subst|done]. }
  unfold on_tries. wp_step. eapply wp_mono; [|by apply (wp_trees_set ht Hht _ c fs ms ids i k v)].
  cbn. by intros T _ (HT & _ & _ & Hdb).
Qed.

Lemma wp_storage_writes self c fs ms ids ws :
  storage_model self c fs ms ids -> window_from ids fs ms ws ->
  wp (for_each ws storage_write) self (fun self' _ =>
    storage_model self' c fs (fold_left write_maps ws ms) ids /\
    self'.(tries).(trees_db) = self.(tries).(trees_db)).
Proof.
  revert self ms. induction ws as [|w ws IH]; intros self ms Hm Hw; cbn [for_each fold_left]; [by wp_step|].
  destruct Hw as ([Hi Hk] & Hok & Hw). wp_step. wp_apply wp_storage_write. intros self1 _ (Hm1 & Hcfg).
  eapply wp_mono; [|by apply IH]. cbn beta. intros self2 _ [? ?]. split; [done|congruence].
Qed.

(** The key-value layer's commit, on a storage. *)
Lemma wp_storage_kv_commit self c fs ms ids id :
  storage_model self c fs ms ids ->
  wp (on_db (KeyValueDB_commit id)) self (fun self' _ =>
    storage_model self' (committed_contents self.(tries).(trees_db).(config)
      self.(tries).(trees_db).(changes_store).(current_changes) id c) fs ms ids /\
    self'.(tries).(trees) = self.(tries).(trees) /\ self'.(tries).(trees_max_height) = self.(tries).(trees_max_height) /\
    self'.(tries).(trees_db).(config) = self.(tries).(trees_db).(config) /\
    self'.(tries).(trees_db).(changes_store) = ChangeStore_new).
Proof.
  intros [Hdb Ht Hids Hbase Hh Hsep]. unfold on_db, on_tries. wp_step. wp_step.
  wp_apply wp_kv_commit. intros kv' _ (Hdb' & Hch & Hcfg & _).
  split; [|by split_and!]. split; [exact Hdb'| |exact Hids| |exact Hh|exact Hsep].
  - intros i Hi. eapply (models_ext ht Hht); [by apply Ht|..]; intros q Hq; by apply committed_contents_view.
  - intros i Hi. eapply (models_ext ht Hht); [by apply Hbase|..]; intros q Hq; by apply committed_contents_view.
Qed.

Lemma tree_or_new_same (T T' : MerkleTrees F K M DB ID) i :
  T'.(trees) = T.(trees) -> T'.(trees_max_height) = T.(trees_max_height) -> tree_or_new T' i = tree_or_new T i.
Proof. intros Ht Hh. unfold tree_or_new. by rewrite Ht, Hh. Qed.

(** [c1] are the contents once the trees are written, [b] the changes this
    makes, written to the trie log of [id]. *)
Lemma wp_transactional_commit_log self c fs ms ids id :
  storage_model self c fs ms ids ->
  wp (BonsaiStorage_transactional_commit id) self (fun self' _ => exists c1 b,
    storage_model self' (committed_contents self.(tries).(trees_db).(config) b id c1) ms ms ids /\
    storage_clean self' ids /\
    self'.(tries).(trees_db).(config) = self.(tries).(trees_db).(config) /\
    self'.(tries).(trees_db).(changes_store) = ChangeStore_new /\
    (self.(tries).(trees_db).(changes_store) = ChangeStore_new -> recorded b (view_of c) (view_of c1)) /\
    (forall k, c1 !! DatabaseKey_TrieLog k = c !! DatabaseKey_TrieLog k) /\
    forall key v, view_of c1 key = Some v -> view_of c key = Some v \/ exists i, i ∈ ids /\ insert_key ht i key).
Proof.
  intros Hm. unfold BonsaiStorage_transactional_commit. wp_step. unfold on_tries at 1. wp_step.
  wp_apply (wp_trees_commit ht Hht _ c fs ms ids).
  intros T _ (c1 & HT & Hclean & Hcfg & Hrec & Hlog & Hins).
  eapply wp_mono; [|by apply (wp_storage_kv_commit (mkBonsaiStorage T) c1 ms ms ids)].
  cbn. intros self' _ (Hm2 & Ht & Hh & Hcfg2 & Hch). rewrite Hcfg in Hm2.
  exists c1, T.(trees_db).(changes_store).(current_changes). split_and!; [done| |congruence|done..].
  intros i Hi. rewrite (tree_or_new_same _ _ i Ht Hh). by apply Hclean.
Qed.

Lemma wp_transactional_commit self c fs ms ids id :
  storage_model self c fs ms ids ->
  wp (BonsaiStorage_transactional_commit id) self (fun self' _ =>
    (exists c', storage_model self' c' ms ms ids) /\ storage_clean self' ids /\
    self'.(tries).(trees_db).(config) = self.(tries).(trees_db).(config)).
Proof.
  intros Hm. wp_apply wp_transactional_commit_log. intros self' _ (c1 & b & Hm' & Hc & Hcfg & _).
  split; [by eexists|done].
Qed.

(** ** Reading a committed storage *)

Lemma storage_root_hash_clean self c fs ms ids i :
  storage_model self c fs ms ids -> storage_clean self ids -> i ∈ ids ->
  BonsaiStorage_root_hash self i = Ok (map_root_hash (ms i)).
Proof.
  intros Hm Hclean Hi. eapply (root_hash_clean ht Hht); [by eauto with bonsai..|].
  by destruct (Hclean i Hi).
Qed.

Lemma storage_get_model self c fs ms ids i k :
  storage_model self c fs ms ids -> i ∈ ids -> length k = ht ->
  BonsaiStorage_get self i k = Ok (ms i !! k).
Proof.
  intros Hm Hi Hk. eapply (MerkleTree_get_models ht); [by eauto with bonsai..|done].
Qed.

(** A new storage over a database without keys of the identifiers. *)
Lemma storage_model_new c db cfg ids :
  db_holds db c -> (forall i, i ∈ ids -> identifier_safe i ht) -> separated ht ids ->
  (forall i b, i ∈ ids -> c !! DatabaseKey_Trie (i ++ b) = None) ->
  (forall i b, i ∈ ids -> c !! DatabaseKey_Flat (i ++ b) = None) ->
  storage_model (BonsaiStorage_new db cfg ht) c (fun _ => ∅) (fun _ => ∅) ids /\
  storage_clean (BonsaiStorage_new db cfg ht) ids.
Proof.
  intros Hdb Hsafe Hsep Ht Hf. split; [split|].
  - exact Hdb.
  - intros i Hi. apply (models_new ht); [intros b; by apply Ht|intros b; by apply Hf|by apply Hsafe].
  - cbn. intros i t Hlook. by rewrite lookup_empty in Hlook.
  - intros i Hi. apply (models_new ht); [intros b; by apply Ht|intros b; by apply Hf|by apply Hsafe].
  - done.
  - done.
  - intros i Hi. repeat split. apply slot_view_default.
Qed.
End StorageSpec.

#[export] Hint Resolve storage_db storage_view storage_tree storage_base : bonsai.
