(* ===== verification/LogSpec.v ===== *)
(** * Undoing commits from their trie logs

    [commit] writes the changes it makes to the trie log of its identifier
    ([log_of], [holds_log]); [get_transaction] opens the oldest snapshot before an
    identifier and reverts, in order, the logs from there on
    ([get_transaction_undoes]). *)
From S2P Require Import Prelude Path Id Database Snapshots Error External Changes Logs KeyValueDb Tree CommitSpec TreesSpec StorageSpec.

(** ** The log of an identifier *)
Section LogContents.
Context {ID : Type} `{LawfulId ID, HashMapIter}.
Implicit Types (c : gmap DatabaseKey ByteVec) (id : ID) (b : gmap TrieKey Change) (cfg : KeyValueDBConfig).

Definition log_of c id : gmap DatabaseKey ByteVec :=
  filter (fun kv => DatabaseKey_has_prefix (DatabaseKey_TrieLog (to_bytes id)) kv.1) c.

(** The log of [id] is the one of the changes [b]. *)
Definition holds_log c id b : Prop :=
  prod_map DatabaseKey_as_slice (fun v => v) <$> map_to_list (log_of c id) ≡ₚ ChangeBatch_serialize b id.

(** The configuration keeps the log of the current commit. *)
Definition keeps_logs cfg : Prop :=
  match cfg.(max_saved_trie_logs) with Some m => as_u64 m <> 0%Z | None => True end.

Lemma keeps_logs_some cfg : keeps_logs cfg -> cfg.(max_saved_trie_logs) <> Some 0%Z.
Proof. unfold keeps_logs. intros Hk Hm. by rewrite Hm in Hk. Qed.

Lemma log_of_ext c c' id :
  (forall k, c' !! DatabaseKey_TrieLog k = c !! DatabaseKey_TrieLog k) -> log_of c' id = log_of c id.
Proof.
  intros Hc. apply map_eq. intros k. apply option_eq. intros v. unfold log_of. rewrite !map_lookup_filter_Some.
  destruct k as [k|k|k]; [cbn; tauto..|]. by rewrite Hc.
Qed.

(** Logs of different identifiers are apart. *)
Lemma to_bytes_prefix id id' k :
  id_wf id -> id_wf id' -> to_bytes id `prefix_of` k -> to_bytes id' `prefix_of` k -> id = id'.
Proof.
  intros Hw Hw' [x ->] [y Hy]. apply app_inj_1 in Hy as [Hy _]; [by apply to_bytes_inj|by apply to_bytes_length].
Qed.

Lemma expired_log_range cfg id e : id_wf id -> expired_log cfg id = Some e -> (0 <= e <= id_as_u64 id)%Z /\ (e < 2 ^ 64)%Z.
Proof.
  intros Hw He. pose proof (id_as_u64_range id Hw). unfold expired_log in He.
  destruct (max_saved_trie_logs cfg) as [m|]; [|done]. cbn [mbind option_bind] in He. unfold checked_sub in He.
  assert (0 <= as_u64 m)%Z by (apply Z.mod_pos_bound; lia).
  destruct (_ <? _)%Z eqn:Hlt; [done|]. injection He as <-. lia.
Qed.

Lemma expired_log_other cfg id e : keeps_logs cfg -> expired_log cfg id = Some e -> e <> id_as_u64 id.
Proof.
  unfold keeps_logs, expired_log. destruct (max_saved_trie_logs cfg) as [m|]; [|done]. cbn. unfold checked_sub.
  intros Hm. destruct (_ <? _)%Z; [done|]. intros [= <-]. lia.
Qed.

Lemma log_contents_lookup c es s :
  NoDup es.*1 -> log_contents c es !! DatabaseKey_TrieLog s =
  match (list_to_map es : gmap ByteVec ByteVec) !! s with Some v => Some v | None => c !! DatabaseKey_TrieLog s end.
Proof.
  revert c. induction es as [|[k v] es IH]; intros c Hnd; [done|].
  cbn in Hnd. apply NoDup_cons in Hnd as [Hk Hnd]. unfold log_contents in *. cbn [fold_left]. rewrite IH by done.
  cbn [list_to_map foldr fst snd]. destruct (decide (k = s)) as [->|Hne].
  - rewrite not_elem_of_list_to_map_1 by done. by rewrite !lookup_insert_eq.
  - by rewrite !lookup_insert_ne by congruence.
Qed.

Lemma expire_contents_lookup e c k :
  expire_contents (ID := ID) (Some e) c !! k =
  if decide (DatabaseKey_has_prefix (DatabaseKey_TrieLog (to_bytes (from_u64 (ID := ID) e))) k) then None else c !! k.
Proof.
  cbn. case_decide as Hp.
  - apply map_lookup_filter_None. right. by intros x _ [].
  - destruct (c !! k) as [v|] eqn:Hk; [by apply map_lookup_filter_Some|]. apply map_lookup_filter_None. by left.
Qed.

(** The expired log is not that of another identifier. *)
Lemma expire_other o c id k :
  id_wf id -> (forall e, o = Some e -> (0 <= e < 2 ^ 64)%Z /\ e <> id_as_u64 id) -> to_bytes id `prefix_of` k ->
  expire_contents (ID := ID) o c !! DatabaseKey_TrieLog k = c !! DatabaseKey_TrieLog k.
Proof.
  intros Hw Ho Hk. destruct o as [e|]; [|done]. rewrite expire_contents_lookup. case_decide as Hp; [|done]. exfalso.
  destruct (Ho e eq_refl) as [He Hne]. apply Hne. rewrite <- (id_as_u64_from_u64 e He). f_equal.
  apply (to_bytes_prefix _ _ k); [by apply from_u64_wf|done..].
Qed.

Lemma serialize_prefix b id s v : (s, v) ∈ ChangeBatch_serialize b id -> to_bytes id `prefix_of` s.
Proof.
  rewrite ChangeBatch_serialize_items. intros ([[key ty] w] & [= -> ->] & _)%list_elem_of_fmap. by eexists.
Qed.

Lemma log_key_inj id key ty key' ty' : log_key id key ty = log_key id key' ty' -> key = key' /\ ty = ty'.
Proof.
  intros Heq. apply (f_equal (split_log_key (length (to_bytes id)))) in Heq. unfold log_key in Heq.
  rewrite !split_log_key_eq in Heq. destruct key, key'; cbn in Heq; naive_solver.
Qed.

Lemma serialize_NoDup b id : NoDup (ChangeBatch_serialize b id).*1.
Proof.
  rewrite ChangeBatch_serialize_items, <- list_fmap_compose.
  assert (NoDup (fst <$> batch_items b)) as Hnd.
  { unfold batch_items. assert (NoDup (hash_iter b).*1) as Hl by (rewrite hash_iter_perm; apply NoDup_fst_map_to_list).
    induction (hash_iter b) as [|[k ch] l IH]; [constructor|]. cbn in Hl. apply NoDup_cons in Hl as [Hk Hl].
    cbn [mbind list_bind]. rewrite fmap_app. apply NoDup_app. split_and!; [| |by apply IH].
    - unfold change_items. case_decide; [|constructor]. cbn. destruct ch as [[o|] [n|]]; cbn; repeat constructor; set_solver.
    - intros x ([[k' ty] v] & -> & Hin)%list_elem_of_fmap ([[k2 ty2] v2] & Heq & Hin2)%list_elem_of_fmap. cbn in Heq. injection Heq as <- <-.
      apply Hk. apply list_elem_of_bind in Hin2 as ([k3 ch3] & Hin3 & Hl3).
      assert (forall k ch k' ty v, (k', ty, v) ∈ change_items (k, ch) -> k' = k) as Hkey.
      { intros ????? Hi. unfold change_items in Hi. case_decide; [|by apply elem_of_nil in Hi].
        apply elem_of_app in Hi as [Hi|Hi]; apply list_elem_of_fmap in Hi as (? & Heqi & _); cbn in Heqi; congruence. }
      apply Hkey in Hin as ->. apply Hkey in Hin3 as ->. apply list_elem_of_fmap. by exists (k3, ch3). }
  rewrite (list_fmap_ext _ ((fun kt : TrieKey * Z => log_key id kt.1 kt.2) ∘ fst)) by (by intros i [[k ty] v] _).
  rewrite list_fmap_compose. apply NoDup_fmap; [|done]. intros [k ty] [k' ty'] Heq. cbn in Heq. by apply log_key_inj in Heq as [-> ->].
Qed.

(** The log [commit] writes. *)
Lemma committed_log cfg b id c :
  keeps_logs cfg -> id_wf id -> log_of c id = ∅ -> holds_log (committed_contents cfg b id c) id b.
Proof.
  intros Hkeep Hw Hempty. unfold holds_log, log_of. symmetry.
  assert (forall k, to_bytes id `prefix_of` k -> c !! DatabaseKey_TrieLog k = None) as Hno.
  { intros k Hk. destruct (c !! DatabaseKey_TrieLog k) as [v|] eqn:Hv; [|done]. exfalso.
    assert (log_of c id !! DatabaseKey_TrieLog k = Some v) as Hl by (by apply map_lookup_filter_Some). by rewrite Hempty in Hl. }
  apply (prefix_entries_perm (DatabaseKey_TrieLog (to_bytes id))).
  { eapply NoDup_fmap_1, serialize_NoDup. }
  intros s v. cbn [DatabaseKey_as_slice DatabaseKey_with].
  assert (to_bytes id `prefix_of` s -> committed_contents cfg b id c !! DatabaseKey_TrieLog s =
    (list_to_map (ChangeBatch_serialize b id) : gmap ByteVec ByteVec) !! s) as Hlook.
  { intros Hs. unfold committed_contents. rewrite decide_True by (by apply keeps_logs_some).
    rewrite (expire_other _ _ id) by (done || (intros e He; pose proof (expired_log_range _ _ _ Hw He);
      split; [lia|by eapply expired_log_other])).
    rewrite log_contents_lookup, Hno by (done || apply serialize_NoDup). by destruct (list_to_map _ !! s). }
  rewrite (elem_of_list_to_map _ _ _ (serialize_NoDup b id)). split.
  - intros Hin. apply elem_of_list_to_map_2 in Hin as Hin'. apply serialize_prefix in Hin'. split; [done|]. by rewrite Hlook.
  - intros [Hs Hv]. by rewrite Hlook in Hv.
Qed.

(** The log of an earlier commit stays until it expires. *)
Lemma committed_log_other cfg b id' c id :
  id_wf id -> id_wf id' -> id <> id' -> expired_log cfg id' <> Some (id_as_u64 id) ->
  log_of (committed_contents cfg b id' c) id = log_of c id.
Proof.
  intros Hw Hw' Hne He. unfold committed_contents. case_decide; [|done].
  apply map_eq. intros k. apply option_eq. intros v. unfold log_of. rewrite !map_lookup_filter_Some.
  destruct k as [k|k|k]; [cbn; tauto..|]. cbn [fst DatabaseKey_has_prefix].
  enough (to_bytes id `prefix_of` k -> expire_contents (ID := ID) (expired_log cfg id') (log_contents c (ChangeBatch_serialize b id'))
    !! DatabaseKey_TrieLog k = c !! DatabaseKey_TrieLog k) as Hsame by (split; intros [Hv Hk]; (split; [|done]); by rewrite Hsame in *).
  intros Hk. rewrite (expire_other _ _ id); [|done| |done].
  - rewrite log_contents_lookup by apply serialize_NoDup. rewrite not_elem_of_list_to_map_1; [done|].
    intros ([s w] & -> & Hin)%list_elem_of_fmap. apply Hne, (to_bytes_prefix _ _ s); [done..|by eapply serialize_prefix].
  - intros e Hex. pose proof (expired_log_range _ _ _ Hw' Hex). split; [lia|congruence].
Qed.
End LogContents.

(** ** Before the last change

    [before_last_change f x xs]: of the states [x :: xs], the one before the last
    step that changes [f]; the first one when no step does. *)
Section BeforeLast.
Context {A B : Type} `{EqDecision B}.
Implicit Types (f : A -> B) (r x y : A) (xs : list A).

Fixpoint before_last f r x xs : A :=
  match xs with
  | [] => r
  | y :: ys => before_last f (if decide (f x = f y) then r else x) y ys
  end.
Definition before_last_change f x xs : A := before_last f x x xs.

Lemma before_last_change_one f x y : before_last_change f x [y] = x.
Proof. unfold before_last_change. cbn. by case_decide. Qed.

Lemma before_last_snoc f r x xs y z :
  last (x :: xs) = Some z -> before_last f r x (xs ++ [y]) = if decide (f z = f y) then before_last f r x xs else z.
Proof.
  revert r x. induction xs as [|x' xs IH]; intros r x Hz; cbn [app before_last]; [by injection Hz as ->|].
  by apply IH.
Qed.

(** No step changes [f], or the state is the one before a step that does, after
    which no step does. *)
Lemma before_last_change_cases f x xs :
  (Forall (fun y => f y = f x) xs /\ before_last_change f x xs = x) \/
  exists pre z y post, x :: xs = pre ++ z :: y :: post /\ f z <> f y /\ Forall (fun y' => f y' = f y) post /\
    before_last_change f x xs = z.
Proof.
  unfold before_last_change. induction xs as [|y xs IH] using rev_ind; [by left|].
  destruct (last (x :: xs)) as [z|] eqn:Hz; [|by destruct xs using rev_ind; rewrite ?app_comm_cons, ?last_snoc in Hz].
  rewrite (before_last_snoc f x x xs y z Hz). apply last_Some in Hz as [l Hl]. case_decide as Hzy.
  - destruct IH as [[Hall Heq]|(pre & z' & y' & post & Hsplit & Hne & Hall & Heq)].
    + left. split; [|done]. apply Forall_app. split; [done|]. constructor; [|done]. rewrite <- Hzy.
      assert (z ∈ x :: xs) as [->|Hin]%elem_of_cons by (rewrite Hl; set_solver); [done|].
      rewrite Forall_forall in Hall. by apply Hall.
    + right. exists pre, z', y', (post ++ [y]). split_and!; [|done| |done].
      * rewrite app_comm_cons, Hsplit. by rewrite <- app_assoc.
      * apply Forall_app. split; [done|]. constructor; [|done]. rewrite <- Hzy.
        destruct post as [|y2 post _] using rev_ind; [|rewrite Forall_app in Hall; destruct Hall as [_ Hy2]; rewrite Forall_singleton in Hy2].
        -- rewrite Hsplit in Hl. change (pre ++ [z'; y']) with (pre ++ [z'] ++ [y']) in Hl. rewrite app_assoc in Hl.
           by apply app_inj_tail in Hl as [_ ->].
        -- rewrite Hsplit in Hl. rewrite !app_comm_cons, app_assoc in Hl. by apply app_inj_tail in Hl as [_ ->].
  - right. exists l, z, y, []. by rewrite app_comm_cons, Hl, <- app_assoc.
Qed.
End BeforeLast.

(** Only the values of [f] and which of them are equal matter. *)
Lemma before_last_change_same {A B} `{EqDecision B} (f : A -> B) x xs :
  Forall (fun y => f y = f x) xs -> before_last_change f x xs = x.
Proof.
  intros Hxs. destruct (before_last_change_cases f x xs) as [[_ ?]|(pre & z & y & post & Hl & Hne & _)]; [done|]. exfalso. apply Hne.
  assert (forall y', y' ∈ x :: xs -> f y' = f x) as Hall by (intros y' [->|Hy]%elem_of_cons; [done|by rewrite Forall_forall in Hxs; apply Hxs]).
  transitivity (f x); [|symmetry]; apply Hall; rewrite Hl; set_solver.
Qed.

Lemma before_last_fmap {A B C} `{EqDecision B, EqDecision C} (f : A -> B) (g : A -> C) (h : B -> C) r x xs :
  Inj (=) (=) h -> (forall y, y ∈ x :: xs -> g y = h (f y)) ->
  before_last g r x xs = before_last f r x xs.
Proof.
  intros Hinj. revert r x. induction xs as [|y xs IH]; intros r x Hg; [done|]. cbn [before_last].
  rewrite (Hg x), (Hg y) by set_solver. rewrite (decide_ext (h (f x) = h (f y)) (f x = f y)) by (split; [apply Hinj|congruence]).
  apply IH. intros y' Hy'. apply Hg. by apply elem_of_cons; right.
Qed.

Lemma before_last_Forall2 {A A' B} `{EqDecision B} (R : A -> A' -> Prop) (f : A -> B) (f' : A' -> B) r r' x x' xs xs' :
  (forall y y', R y y' -> f y = f' y') -> R r r' -> R x x' -> Forall2 R xs xs' ->
  R (before_last f r x xs) (before_last f' r' x' xs').
Proof.
  intros Hf Hr Hx Hxs. revert r r' x x' Hr Hx. induction Hxs as [|y y' xs xs' Hy Hxs IH]; intros r r' x x' Hr Hx; [done|].
  cbn [before_last]. apply IH; [|done]. rewrite (Hf _ _ Hx), (Hf _ _ Hy). by case_decide.
Qed.

(** ** Reverting a log *)
Section Revert.
Context {DB ID : Type}.
Context `{BonsaiDatabase DB, !LawfulDatabase DB, Id ID, !LawfulId ID, HashMapIter, !BonsaiPersistentDatabase DB ID}.
Context `{!PointDatabase (Transaction DB ID)}.
Abbreviation Txn := (Transaction DB ID).
Implicit Types (kv : KeyValueDB DB ID) (c t : gmap DatabaseKey ByteVec) (b : gmap TrieKey Change) (s : Txn * Batch Txn).

(** What [revert_change] writes. *)
Definition revert_update (ch : Change) : InsertOrRemove ByteVec :=
  match ch.(old_value) with Some v => Insert v | None => Remove end.

Lemma wp_revert_change s t kc :
  point_pending s.1 s.2 t -> kc.2 <> Change_default ->
  wp (revert_change (ID := ID) kc) s (fun s' _ => point_pending s'.1 s'.2 (update_contents t (kc.1, revert_update kc.2))).
Proof.
  destruct s as [txn batch], kc as [key [[o|] n]]; cbn [fst snd]; intros Hp Hne; unfold revert_change, revert_update, update_contents; cbn [old_value new_value fst snd].
  - destruct (point_insert_spec _ _ _ (DatabaseKey_from key) o Hp) as (txn' & batch' & old & Hrun & Hp').
    unfold wp. destruct n; rewrite Hrun; by eexists _, tt.
  - destruct n as [n|]; [|done].
    destruct (point_remove_spec _ _ _ (DatabaseKey_from key) Hp) as (txn' & batch' & old & Hrun & Hp').
    unfold wp. rewrite Hrun. by eexists _, tt.
Qed.

Lemma wp_revert_changes s t (l : list (TrieKey * Change)) :
  point_pending s.1 s.2 t -> Forall (fun kc => kc.2 <> Change_default) l ->
  wp (for_each l (revert_change (ID := ID))) s (fun s' _ =>
    point_pending s'.1 s'.2 (fold_left update_contents (prod_map (fun key => key) revert_update <$> l) t)).
Proof.
  revert s t. induction l as [|kc l IH]; intros s t Hp Hl; cbn [for_each fmap list_fmap fold_left]; [by wp_step|].
  apply Forall_cons in Hl as [Hkc Hl]. wp_step. wp_apply wp_revert_change. intros s' _ Hp'. by apply IH.
Qed.

Lemma revert_updates_view b t key :
  view_of (fold_left update_contents (prod_map (fun key => key) revert_update <$> hash_iter b) t) key = undo b (view_of t) key.
Proof.
  assert (NoDup (hash_iter b).*1) as Hnd by (rewrite hash_iter_perm; apply NoDup_fst_map_to_list).
  assert (((prod_map (fun key => key) revert_update : TrieKey * Change -> TrieKey * InsertOrRemove ByteVec) <$> hash_iter b).*1 = (hash_iter b).*1) as Hfst.
  { rewrite <- list_fmap_compose. by apply list_fmap_ext; intros i []. }
  rewrite update_list_view by by rewrite Hfst. unfold apply_updates, undo.
  replace (list_to_map (prod_map (fun key => key) revert_update <$> hash_iter b) : gmap TrieKey (InsertOrRemove ByteVec))
    with (revert_update <$> b).
  - rewrite lookup_fmap. destruct (b !! key) as [[[o|] n]|]; done.
  - apply map_eq. intros k. apply option_eq. intros x. rewrite lookup_fmap_Some, <- elem_of_list_to_map by by rewrite Hfst.
    rewrite list_elem_of_fmap. split.
    + intros (ch & <- & Hb). exists (k, ch). split; [done|]. by rewrite hash_iter_perm, elem_of_map_to_list.
    + intros ([k' ch] & [= -> ->] & Hin). rewrite hash_iter_perm, elem_of_map_to_list in Hin. eauto.
Qed.

Lemma wp_revert_log kv c n b s t :
  db_holds kv.(db) c -> holds_log c (from_u64 (ID := ID) n) b -> point_pending s.1 s.2 t ->
  wp (revert_log kv n) s (fun s' _ => exists t', point_pending s'.1 s'.2 t' /\
    forall key, view_of t' key = undo (filter changing b) (view_of t) key).
Proof.
  intros Hdb Hlog Hp. unfold revert_log.
  destruct (db_get_by_prefix_spec _ _ (DatabaseKey_TrieLog (to_bytes (from_u64 (ID := ID) n))) Hdb) as (l & Hget & Hl).
  destruct (ChangeBatch_deserialize_log (E := BonsaiStorageError (DatabaseError Txn)) (from_u64 (ID := ID) n) b l) as (b' & Hd & Hold & Hne).
  { rewrite Hl. exact Hlog. }
  wp_step. eapply wp_lift; [by rewrite Hget|]. wp_step. eapply wp_lift; [exact Hd|].
  eapply wp_mono; [|apply wp_revert_changes; [exact Hp|]].
  2:{ apply Forall_forall. intros [key ch] Hin. rewrite hash_iter_perm, elem_of_map_to_list in Hin. by apply (Hne key ch). }
  cbn beta. intros s' _ Hp'. eexists. split; [exact Hp'|]. intros key. rewrite revert_updates_view.
  unfold undo. specialize (Hold key).
  destruct (b' !! key) as [ch|], (filter changing b !! key) as [ch'|]; cbn in Hold; congruence.
Qed.

(** The logs of consecutive commits, oldest first. *)
Definition undo_all (bs : list (gmap TrieKey Change)) (d : TrieKey -> option ByteVec) : TrieKey -> option ByteVec :=
  fold_left (fun d b => undo (filter changing b) d) bs d.

Lemma undo_all_ext bs (d d' : TrieKey -> option ByteVec) :
  (forall key, d key = d' key) -> forall key, undo_all bs d key = undo_all bs d' key.
Proof.
  revert d d'. induction bs as [|b bs IH]; intros d d' Hd; [done|]. apply IH. by apply undo_ext.
Qed.

Lemma undo_all_snoc bs b d key : undo_all (bs ++ [b]) d key = undo (filter changing b) (undo_all bs d) key.
Proof. unfold undo_all. by rewrite fold_left_app. Qed.

Lemma wp_revert_logs kv c ns bs s t :
  db_holds kv.(db) c -> Forall2 (fun n b => holds_log c (from_u64 (ID := ID) n) b) ns bs -> point_pending s.1 s.2 t ->
  wp (for_each ns (revert_log kv)) s (fun s' _ => exists t', point_pending s'.1 s'.2 t' /\
    forall key, view_of t' key = undo_all bs (view_of t) key).
Proof.
  intros Hdb Hlogs. revert s t. induction Hlogs as [|n b ns bs Hnb Hlogs IH]; intros s t Hp; cbn [for_each].
  - wp_step. by exists t.
  - wp_step. wp_apply wp_revert_log. intros s1 _ (t1 & Hp1 & Hv1).
    wp_apply IH. intros s2 _ (t2 & Hp2 & Hv2). exists t2. split; [done|].
    intros key. rewrite Hv2. exact (undo_all_ext bs _ _ Hv1 key).
Qed.

(** [get_transaction]: the snapshot the database opens, with the logs from its
    identifier up to the requested one reverted in that order. *)
Lemma get_transaction_undoes kv c id snap txn t bs :
  db_holds kv.(db) c -> db_transaction kv.(db) id = Ok (Some (snap, txn)) -> point_holds txn t ->
  Forall2 (fun n b => holds_log c (from_u64 (ID := ID) n) b) (seqZ (id_as_u64 snap) (id_as_u64 id - id_as_u64 snap)) bs ->
  exists txn' t', KeyValueDB_get_transaction kv id = Ok (Some txn') /\ point_holds txn' t' /\
    forall key, view_of t' key = undo_all bs (view_of t) key.
Proof.
  intros Hdb Htx Ht Hlogs. unfold KeyValueDB_get_transaction. rewrite Htx. cbn [no_err map_err mbind outcome_bind].
  destruct (wp_revert_logs kv c _ bs (txn, db_create_batch txn) t Hdb Hlogs) as ([txn1 batch1] & [] & Hrun & t' & Hp & Hv).
  { by apply point_create_batch_spec. }
  rewrite Hrun. cbn [mbind outcome_bind]. destruct (point_write_batch_spec _ _ _ Hp) as (txn2 & Hwrite & Hdb2).
  cbn [fst snd] in Hwrite. rewrite Hwrite. cbn. by exists txn2, t'.
Qed.
End Revert.
