(* ===== verification/StorageCorrect.v ===== *)
(** * Correctness of the storage

    What [BonsaiStorage] promises to its users, over the contract of
    [StorageSpec.v]: any history of commits gives the maps it should, the root
    hash of an identifier depends on its map alone and commits to it, a window
    of writes that is dropped leaves the last commit, a storage reopened on the
    same database continues where the other stopped. *)
From S2P Require Import Prelude Path Id Database Error External MerkleNode Trie Changes KeyValueDb Tree Iterator Update Trees Proof Storage Annot TreeInv SeekSpec SetSpec DeleteSpec CommitSpec TreeSpec TreesSpec StorageSpec.

Section StorageCorrect.
Context {F K : Type} {M : Type -> Type} {DB ID : Type}.
Context `{StarkFelt F, !LawfulFelt F, !StarkHash F, SlotMap K M, !LawfulSlotMap K M,
  !NodeCodec F K, !LawfulNodeCodec F K, BonsaiDatabase DB, !LawfulDatabase DB, Id ID, HashMapIter}.
Context (ht : nat).
Abbreviation BonsaiStorage := (BonsaiStorage F K M DB ID).
Abbreviation error := (BonsaiStorageError (DatabaseError DB)).
Abbreviation writes := (list (ByteVec * (BitVec * F))).
Implicit Types (self : BonsaiStorage) (c : gmap DatabaseKey ByteVec) (fs ms tgt : ByteVec -> gmap BitVec F).

(** The writes of a window, then a commit. *)
Definition commit_window (w : ID * writes) : action BonsaiStorage error unit :=
  _ ← for_each w.2 storage_write;
  BonsaiStorage_transactional_commit w.1.

(** A history of commits, and the maps it leads to. *)
Definition run_history (hist : list (ID * writes)) : action BonsaiStorage error unit :=
  for_each hist commit_window.
Definition window_maps ms (ws : writes) : ByteVec -> gmap BitVec F := fold_left write_maps ws ms.
Definition history_maps (hist : list (ID * writes)) ms : ByteVec -> gmap BitVec F :=
  fold_left window_maps hist.*2 ms.

(** The histories whose windows the tries follow. *)
Fixpoint history_ok (ids : gset ByteVec) ms (hist : list (ID * writes)) : Prop :=
  match hist with
  | [] => True
  | w :: hist => window ht ids ms w.2 /\ history_ok ids (window_maps ms w.2) hist
  end.
#[export] Instance history_ok_dec ids ms hist : Decision (history_ok ids ms hist).
Proof. revert ms. induction hist; intros ms; cbn; apply _. Defined.

Lemma history_maps_app ms h1 h2 : history_maps (h1 ++ h2) ms = history_maps h2 (history_maps h1 ms).
Proof. unfold history_maps. by rewrite fmap_app, fold_left_app. Qed.

Lemma history_ok_app ids ms h1 h2 : history_ok ids ms (h1 ++ h2) <-> history_ok ids ms h1 /\ history_ok ids (history_maps h1 ms) h2.
Proof. revert ms. induction h1 as [|w h1 IH]; intros ms; [by cbn; tauto|]. cbn. rewrite IH. unfold history_maps. cbn. tauto. Qed.

(** Windows that write each key at most once make such a history. *)
Lemma history_once ids ms hist :
  Forall (fun ws => NoDup ((fun w : ByteVec * (BitVec * F) => (w.1, w.2.1)) <$> ws) /\
    Forall (fun w => w.1 ∈ ids /\ length w.2.1 = ht) ws) hist.*2 -> history_ok ids ms hist.
Proof.
  revert ms. induction hist as [|w hist IH]; intros ms Hw; [done|]. apply Forall_cons in Hw as [[Hnd Hin] Hw].
  split; [by apply window_once|by apply IH].
Qed.

(** The database binds no key that starts with one of the identifiers. *)
Definition unused c (ids : gset ByteVec) : Prop :=
  forall i b, i ∈ ids -> c !! DatabaseKey_Trie (i ++ b) = None /\ c !! DatabaseKey_Flat (i ++ b) = None.

(** A storage committed with the maps [ms]. *)
Definition storage_at self ms (ids : gset ByteVec) : Prop :=
  (exists c, storage_model ht self c ms ms ids) /\ storage_clean self ids.

(** What the reading methods answer on such a storage. *)
Definition answers self ms (ids : gset ByteVec) : Prop :=
  forall i, i ∈ ids ->
    BonsaiStorage_root_hash self i = Ok (map_root_hash (ms i)) /\
    forall k, length k = ht ->
      BonsaiStorage_get self i k = Ok (ms i !! k) /\
      BonsaiStorage_contains self i k = Ok (bool_decide (is_Some (ms i !! k))).

Context (Hht : 0 < ht <= 255).

Lemma wp_commit_window self ms ids w :
  storage_at self ms ids -> window ht ids ms w.2 ->
  wp (commit_window w) self (fun self' _ => storage_at self' (window_maps ms w.2) ids).
Proof.
  intros [[c Hm] Hclean] Hw. unfold commit_window. wp_step.
  eapply wp_mono; [|by apply (wp_storage_writes ht Hht self c ms ms ids)].
  cbn beta. intros self1 _ [Hm1 _].
  wp_apply (wp_transactional_commit ht Hht). intros self2 _ (Hm2 & Hc2 & _). by split.
Qed.

Lemma wp_run_history self ms ids hist :
  storage_at self ms ids -> history_ok ids ms hist ->
  wp (run_history hist) self (fun self' _ => storage_at self' (history_maps hist ms) ids).
Proof.
  revert self ms. induction hist as [|w hist IH]; intros self ms Hat Hw; [by apply wp_ret|].
  destruct Hw as [Hw0 Hw]. unfold run_history. cbn [for_each]. wp_step.
  wp_apply wp_commit_window. intros self1 _ Hat1. by apply IH.
Qed.

Lemma storage_contains_model self c fs ms ids i k :
  storage_model ht self c fs ms ids -> i ∈ ids -> length k = ht ->
  BonsaiStorage_contains self i k = Ok (bool_decide (is_Some (ms i !! k))).
Proof.
  intros Hm Hi Hk. eapply (MerkleTree_contains_models ht);
    [by eauto with bonsai..|done].
Qed.

Lemma storage_at_answers self ms ids : storage_at self ms ids -> answers self ms ids.
Proof.
  intros [[c Hm] Hc] i Hi. split; [by eapply (storage_root_hash_clean ht Hht)|].
  intros k Hk. split; [by eapply (storage_get_model ht)|by eapply storage_contains_model].
Qed.

Lemma storage_at_new db c cfg ids :
  db_holds db c -> unused c ids -> (forall i, i ∈ ids -> identifier_safe i ht) -> separated ht ids ->
  storage_at (BonsaiStorage_new db cfg ht) (fun _ => ∅) ids.
Proof.
  intros Hdb Hc Hsafe Hsep.
  destruct (storage_model_new (F := F) (K := K) (M := M) (ID := ID) ht c db cfg ids) as [Hm Hclean];
    [done..|by intros i b Hi; apply Hc|by intros i b Hi; apply Hc|]. split; [by exists c|done].
Qed.

(** The trie behind a committed identifier. *)
Lemma storage_at_trie self ms ids i : storage_at self ms ids -> i ∈ ids -> trie_rep ht (trie_of (ms i)) (ms i).
Proof.
  intros [[c Hm] _] Hi. by eapply trie_of_rep, storage_map_wf.
Qed.

(** The root hash after a history. *)
Lemma run_history_root db c cfg hist ids i s :
  db_holds db c -> unused c ids -> (forall i, i ∈ ids -> identifier_safe i ht) -> separated ht ids ->
  history_ok ids (fun _ => ∅) hist -> i ∈ ids ->
  run_history hist (BonsaiStorage_new db cfg ht) = (s, Ok tt) ->
  BonsaiStorage_root_hash s i = Ok (map_root_hash (history_maps hist (fun _ => ∅) i)).
Proof.
  intros Hdb Hu Hsafe Hsep Hw Hi Hr.
  destruct (wp_run_history _ _ ids hist (storage_at_new db c cfg ids Hdb Hu Hsafe Hsep) Hw) as (s' & [] & Hr' & Hat).
  rewrite Hr in Hr'. injection Hr' as <-. by apply (storage_at_answers _ _ _ Hat i Hi).
Qed.

(** ** Windows that lead from one family of maps to another *)

Lemma window_maps_other ms ws j k :
  (j, k) ∉ (fun w : ByteVec * (BitVec * F) => (w.1, w.2.1)) <$> ws -> window_maps ms ws j !! k = ms j !! k.
Proof.
  revert ms. induction ws as [|[i [k' v]] ws IH]; intros ms Hno; [done|]. cbn in Hno. apply not_elem_of_cons in Hno as [Hne Hno].
  unfold window_maps in *. cbn [fold_left]. rewrite IH by done. unfold write_maps, write_map. cbn [fst snd].
  case_decide as Hi; [|done]. subst j. assert (k' <> k) by congruence. case_decide; [by rewrite lookup_delete_ne|by rewrite lookup_insert_ne].
Qed.

Lemma window_maps_in ms ws j k v :
  NoDup ((fun w : ByteVec * (BitVec * F) => (w.1, w.2.1)) <$> ws) -> (j, (k, v)) ∈ ws ->
  window_maps ms ws j !! k = if decide (v = Felt_ZERO) then None else Some v.
Proof.
  revert ms. induction ws as [|w ws IH]; intros ms Hnd Hin; [by apply elem_of_nil in Hin|].
  cbn in Hnd. apply NoDup_cons in Hnd as [Hw Hnd]. apply elem_of_cons in Hin as [<-|Hin]; [|by apply IH].
  cbn [fst snd] in Hw. change (window_maps ms ((j, (k, v)) :: ws)) with (window_maps (write_maps ms (j, (k, v))) ws).
  rewrite window_maps_other by done. unfold write_maps, write_map. cbn [fst snd].
  rewrite decide_True by done. case_decide; [by rewrite lookup_delete_eq|by rewrite lookup_insert_eq].
Qed.

(** Every key bound before or after is written, with zero when it is to go. *)
Definition target_writes ms tgt (i : ByteVec) : writes :=
  (fun k => (i, (k, default Felt_ZERO (tgt i !! k)))) <$> elements (dom (ms i : gmap BitVec F) ∪ dom (tgt i : gmap BitVec F)).
Definition target_window ms tgt (ids : gset ByteVec) : writes := elements ids ≫= target_writes ms tgt.

Lemma target_window_elem ms tgt (ids : gset ByteVec) i k v :
  (i, (k, v)) ∈ target_window ms tgt ids <->
  i ∈ ids /\ (is_Some (ms i !! k) \/ is_Some (tgt i !! k)) /\ v = default Felt_ZERO (tgt i !! k).
Proof.
  unfold target_window, target_writes. rewrite list_elem_of_bind. split.
  - intros (j & (k' & [= -> -> ->] & Hk)%list_elem_of_fmap & Hj). rewrite elem_of_elements in Hk. rewrite elem_of_elements in Hj.
    apply elem_of_union in Hk. rewrite !elem_of_dom in Hk. done.
  - intros (Hi & Hk & ->). exists i. rewrite list_elem_of_fmap, elem_of_elements. split; [|done].
    exists k. split; [done|]. by rewrite elem_of_elements, elem_of_union, !elem_of_dom.
Qed.

Lemma target_window_NoDup ms tgt (ids : gset ByteVec) : NoDup ((fun w => (w.1, w.2.1)) <$> target_window ms tgt ids).
Proof.
  unfold target_window. pose proof (NoDup_elements ids) as Hnd. induction (elements ids) as [|i l IH]; [constructor|].
  apply NoDup_cons in Hnd as [Hi Hnd]. cbn [mbind list_bind]. rewrite fmap_app. apply NoDup_app. split_and!; [| |by apply IH].
  - unfold target_writes. rewrite <- list_fmap_compose. apply NoDup_fmap; [by intros ?? [=]|apply NoDup_elements].
  - intros x (w & -> & (k & -> & _)%list_elem_of_fmap)%list_elem_of_fmap (w' & Heq & Hin)%list_elem_of_fmap. cbn [fst snd] in *.
    apply list_elem_of_bind in Hin as (j & (k' & -> & _)%list_elem_of_fmap & Hj). cbn in Heq. by injection Heq as -> _.
Qed.

Lemma target_window_maps ms tgt (ids : gset ByteVec) i :
  i ∈ ids -> map_wf ht (tgt i) -> window_maps ms (target_window ms tgt ids) i = tgt i.
Proof.
  intros Hi Hwf. apply map_eq. intros k.
  destruct (decide (is_Some (ms i !! k) \/ is_Some (tgt i !! k))) as [Hk|Hk].
  - erewrite window_maps_in; [|apply target_window_NoDup|by apply target_window_elem].
    destruct (tgt i !! k) as [v|] eqn:Hv; cbn; [|by rewrite decide_True].
    destruct (Hwf k v Hv) as [_ Hz]. by rewrite decide_False.
  - rewrite window_maps_other.
    + destruct (ms i !! k) eqn:?, (tgt i !! k) eqn:?; try done; destruct Hk; eauto.
    + intros ([i' [k' v]] & [= <- <-] & (_ & Hin & _)%target_window_elem)%list_elem_of_fmap. done.
Qed.

Lemma answers_ext self ms ms' ids : (forall i, i ∈ ids -> ms i = ms' i) -> answers self ms ids -> answers self ms' ids.
Proof. intros Hms Ha i Hi. rewrite <- Hms by done. by apply Ha. Qed.

(** ** Properties *)

(** C1 A new storage over a database that does not use the identifiers runs any
    history of commits without error or panic (writing zero removes; the keys of
    a window may be written any number of times, except that a pending value is
    not replaced by another one, nor the committed value of a removed key
    restored), and then answers
    as the maps the history leads to: the root hash is that of the map's trie,
    [get] and [contains] are lookups. *)
Theorem storage_history_correct db c cfg ids hist :
  db_holds db c -> unused c ids -> (forall i, i ∈ ids -> identifier_safe i ht) -> separated ht ids ->
  history_ok ids (fun _ => ∅) hist ->
  wp (run_history hist) (BonsaiStorage_new db cfg ht)
    (fun self _ => answers self (history_maps hist (fun _ => ∅)) ids).
Proof.
  intros Hdb Hc Hsafe Hsep Hw. eapply wp_mono; [|apply wp_run_history; [by eapply storage_at_new|done]].
  cbn beta. intros self _ Hat. by apply storage_at_answers.
Qed.

(** C18 Before the commit of a window, reads already see its writes, under
    every identifier; the identifiers it does not name are not affected. *)
Theorem storage_reads_pending self ms ids ws :
  storage_at self ms ids -> window ht ids ms ws ->
  wp (for_each ws storage_write) self (fun self' _ =>
    (forall i k, i ∈ ids -> length k = ht ->
      BonsaiStorage_get self' i k = Ok (window_maps ms ws i !! k) /\
      BonsaiStorage_contains self' i k = Ok (bool_decide (is_Some (window_maps ms ws i !! k)))) /\
    (forall i, Forall (fun w => w.1 <> i) ws -> window_maps ms ws i = ms i)).
Proof.
  intros [[c Hm] Hclean] Hw.
  eapply wp_mono; [|by apply (wp_storage_writes ht Hht self c ms ms ids)].
  cbn beta. intros self1 _ [Hm1 _]. split.
  - intros i k Hi Hk. split; [by eapply (storage_get_model ht)|by eapply storage_contains_model].
  - intros i. clear. revert ms. induction ws as [|w ws IH]; intros ms Hne; [done|].
    apply Forall_cons in Hne as [Hi Hne]. unfold window_maps. cbn [fold_left].
    unfold window_maps in IH. rewrite IH by done. unfold write_maps. by rewrite decide_False.
Qed.

(** C19 Writes that are not committed are dropped by [reset_to_last_commit]:
    the storage answers as after its last commit. *)
Theorem storage_reset_drops_window self ms ids ws :
  storage_at self ms ids -> window ht ids ms ws ->
  wp (_ ← for_each ws storage_write; on_tries MerkleTrees_reset_to_last_commit) self
    (fun self' _ => answers self' ms ids).
Proof.
  intros [[c Hm] Hclean] Hw. wp_step.
  eapply wp_mono; [|by apply (wp_storage_writes ht Hht self c ms ms ids)].
  cbn beta. intros self1 _ [Hm1 _]. unfold on_tries. wp_step.
  wp_apply (wp_trees_reset ht). intros T _ [HT Hc].
  apply storage_at_answers. split; [by exists c|done].
Qed.

(** C21 A storage opened on the database of a committed one, with any
    configuration, answers as that one. *)
Theorem storage_reopen self ms ids cfg :
  storage_at self ms ids ->
  answers (BonsaiStorage_new (F := F) (K := K) (M := M) (ID := ID) self.(tries).(trees_db).(db) cfg ht) ms ids.
Proof.
  intros [[c Hm] Hclean]. apply storage_at_answers. split.
  - exists c. destruct Hm as [Hdb Ht Hids Hbase Hh Hsep]. split; try done.
  - intros i Hi. repeat split. apply slot_view_default.
Qed.

(** C26 A write under a key of the wrong length fails with [KeyLength] and
    changes no tree and no binding of the database. *)
Theorem storage_write_key_length self i k v :
  self.(tries).(trees_max_height) = ht -> length k <> ht ->
  (forall t, self.(tries).(trees) !! i = Some t -> t.(max_height) = ht) ->
  exists self', storage_write (i, (k, v)) self = (self', Err (Error_KeyLength ht (length k))) /\
    self'.(tries).(trees_db) = self.(tries).(trees_db) /\
    forall j, tree_or_new self'.(tries) j = tree_or_new self.(tries) j.
Proof.
  clear Hht. intros Hh Hk Htree.
  assert ((tree_or_new self.(tries) i).(max_height) = ht) as Hmh.
  { unfold tree_or_new. destruct (trees (tries self) !! i) eqn:Hl; cbn; [by apply Htree|done]. }
  assert (MerkleTree_set (trees_db (tries self)) k v (tree_or_new (tries self) i) =
    (tree_or_new (tries self) i, Err (Error_KeyLength ht (length k)))) as Hset.
  { unfold MerkleTree_set, MerkleTree_delete_leaf. case_decide; unfold mbind, action_bind, gets; cbn beta iota;
      by rewrite Hmh, decide_True by done. }
  replace (storage_write (i, (k, v))) with (on_tries (F := F) (K := K) (M := M) (DB := DB) (ID := ID) (MerkleTrees_set i k v)).
  2:{ unfold storage_write. case_decide; [by subst|done]. }
  unfold on_tries, zoom, MerkleTrees_set, on_entry. rewrite Hset. eexists. split; [reflexivity|]. split; [done|].
  intros j. unfold tree_or_new. cbn. rewrite lookup_insert. case_decide; [by subst|done].
Qed.

(** C20 No state is a dead end: from any committed storage every family of maps
    (keys of the right length, no zero values) is one commit away. There is a
    window of writes whose commit, under any identifier, succeeds and leaves a
    storage that answers as these maps; in particular a storage can always be
    emptied. *)
Theorem storage_reaches self ms tgt ids :
  storage_at self ms ids -> (forall i, i ∈ ids -> map_wf ht (tgt i)) ->
  exists ws, window ht ids ms ws /\
    forall id, wp (commit_window (id, ws)) self (fun self' _ => answers self' tgt ids).
Proof.
  intros Hat Htgt. exists (target_window ms tgt ids).
  assert (window ht ids ms (target_window ms tgt ids)) as Hw.
  { apply window_once; [apply target_window_NoDup|]. apply Forall_forall. intros [i [k v]] (Hi & Hk & _)%target_window_elem. split; [done|]. cbn.
    destruct Hk as [[w Hk]|[w Hk]]; [|by destruct (Htgt i Hi k w Hk)].
    destruct Hat as [[c Hm] _]. by destruct (storage_map_wf ht _ _ _ _ _ Hm Hi k w Hk). }
  split; [done|]. intros id. wp_apply wp_commit_window. intros self' _ Hat'. eapply answers_ext; [|by apply storage_at_answers].
  intros i Hi. by apply target_window_maps, Htgt.
Qed.
End StorageCorrect.

(** ** Two storages, possibly on different kinds of database *)
Section TwoStorages.
Context {F K : Type} {M : Type -> Type} {DB1 DB2 ID : Type}.
Context `{StarkFelt F, !LawfulFelt F, !StarkHash F, SlotMap K M, !LawfulSlotMap K M,
  !NodeCodec F K, !LawfulNodeCodec F K, BonsaiDatabase DB1, !LawfulDatabase DB1,
  BonsaiDatabase DB2, !LawfulDatabase DB2, Id ID, HashMapIter}.
Context (ht : nat) (Hht : 0 < ht <= 255).

(** C4 The root hash depends on the map alone: two histories, on databases that
    may be of different kinds, that lead to the same map under an identifier end
    with the same root hash. *)
Theorem storage_root_hash_history_independent (db1 : DB1) c1 cfg1 hist1 (db2 : DB2) c2 cfg2 hist2 ids i
    (s1 : BonsaiStorage F K M DB1 ID) (s2 : BonsaiStorage F K M DB2 ID) :
  db_holds db1 c1 -> unused c1 ids -> db_holds db2 c2 -> unused c2 ids ->
  (forall i, i ∈ ids -> identifier_safe i ht) -> separated ht ids ->
  history_ok ht ids (fun _ => ∅) hist1 -> history_ok ht ids (fun _ => ∅) hist2 -> i ∈ ids ->
  history_maps hist1 (fun _ => ∅) i = history_maps hist2 (fun _ => ∅) i ->
  run_history hist1 (BonsaiStorage_new db1 cfg1 ht) = (s1, Ok tt) ->
  run_history hist2 (BonsaiStorage_new db2 cfg2 ht) = (s2, Ok tt) ->
  exists r, BonsaiStorage_root_hash s1 i = Ok r /\ BonsaiStorage_root_hash s2 i = Ok r.
Proof.
  intros Hdb1 Hu1 Hdb2 Hu2 Hsafe Hsep Hw1 Hw2 Hi Hmaps Hr1 Hr2.
  exists (map_root_hash (history_maps hist1 (fun _ => ∅) i)). split.
  - by eapply (run_history_root ht Hht db1).
  - rewrite Hmaps. by eapply (run_history_root ht Hht db2).
Qed.
End TwoStorages.

(** [commit] is [transactional_commit] and a snapshot. *)
Lemma wp_commit_snapshot {F K DB ID} {M : Type -> Type}
    `{StarkFelt F, !StarkHash F, SlotMap K M, !NodeCodec F K, BonsaiDatabase DB, Id ID, HashMapIter, !BonsaiPersistentDatabase DB ID}
    (self : BonsaiStorage F K M DB ID) id Q :
  wp (BonsaiStorage_transactional_commit id) self (fun self' _ => wp (on_db (KeyValueDB_create_snapshot id)) self' Q) ->
  wp (BonsaiStorage_commit id) self Q.
Proof.
  intros (s2 & [] & Hrun & s3 & [] & Hsnap & HQ). exists s3, tt. split; [|done].
  unfold BonsaiStorage_transactional_commit in Hrun. unfold BonsaiStorage_commit, mbind, action_bind in *.
  destruct (on_tries MerkleTrees_commit self) as [s1 [[]| | |]]; try done.
  destruct (on_db (KeyValueDB_commit id) s1) as [s' [[]| | |]]; try done. injection Hrun as ->. exact Hsnap.
Qed.

Section StoragePersistent.
Context {F K : Type} {M : Type -> Type} {DB ID : Type}.
Context `{StarkFelt F, !LawfulFelt F, !StarkHash F, SlotMap K M, !LawfulSlotMap K M,
  !NodeCodec F K, !LawfulNodeCodec F K, BonsaiDatabase DB, !LawfulDatabase DB, Id ID, HashMapIter,
  !BonsaiPersistentDatabase DB ID, !LawfulPersistentDatabase DB ID}.
Context (ht : nat) (Hht : 0 < ht <= 255).
Implicit Types (self : BonsaiStorage F K M DB ID) (ms : ByteVec -> gmap BitVec F).

(** A database that may have taken a snapshot. *)
Lemma wp_kv_snapshot (kv : KeyValueDB DB ID) c id :
  db_holds kv.(db) c -> kv.(config).(snapshot_interval) <> 0%Z ->
  wp (KeyValueDB_create_snapshot id) kv (fun kv' _ => db_holds kv'.(db) c /\ kv'.(config) = kv.(config)).
Proof.
  intros Hc Hi. unfold wp, KeyValueDB_create_snapshot. rewrite decide_False by done. case_decide.
  - eexists _, tt. split; [reflexivity|]. cbn. split; [by apply db_snapshot_spec|done].
  - by exists kv, tt.
Qed.

(** C2 [commit] on a persistent database does what [transactional_commit] does,
    provided the snapshot interval is not zero: it neither fails nor panics,
    and the storage answers as the maps after the window. *)
Theorem storage_commit_correct self ms ids ws id :
  storage_at ht self ms ids -> window ht ids ms ws ->
  self.(tries).(trees_db).(config).(snapshot_interval) <> 0%Z ->
  wp (_ ← for_each ws storage_write; BonsaiStorage_commit id) self
    (fun self' _ => storage_at ht self' (window_maps ms ws) ids /\ answers ht self' (window_maps ms ws) ids).
Proof.
  intros [[c Hm] Hclean] Hw Hint. wp_step.
  eapply wp_mono; [|by apply (wp_storage_writes ht Hht self c ms ms ids)].
  cbn beta. intros self1 _ [Hm1 Hcfg1].
  apply wp_commit_snapshot. wp_apply (wp_transactional_commit ht Hht self1 c ms (window_maps ms ws) ids id). intros self2 _ ([c2 Hm2] & Hc2 & Hcfg2). unfold on_db, on_tries. wp_step. wp_step.
  eapply wp_mono; [|eapply wp_kv_snapshot; [by eauto with bonsai|congruence]].
  cbn beta. intros kv' _ [Hdb _].
  assert (storage_at ht (mkBonsaiStorage (set_trees_db kv' self2.(tries))) (window_maps ms ws) ids) as Hat.
  { split; [exists c2|exact Hc2]. destruct Hm2 as [_ Ht Hids Hbase Hh Hsep]. by split. }
  split; [done|]. by apply storage_at_answers.
Qed.
End StoragePersistent.
