(* ===== verification/ContentsCorrect.v ===== *)
(** * What the database of a storage holds

    The bindings of a committed storage's trie and flat columns: nothing but
    what its commits have written ([storage_only]), and, when the columns were
    empty at the start, exactly the nodes and the leaves of the maps' tries:
    nothing is missing, nothing stale is left behind. *)
From S2P Require Import Prelude Path Id Database Error External MerkleNode Trie Changes KeyValueDb Tree Iterator Update Trees Proof Storage Annot TreeInv SeekSpec SetSpec DeleteSpec CommitSpec TreeSpec TreeCorrect TreesSpec StorageSpec StorageCorrect.

Section ContentsCorrect.
Context {F K : Type} {M : Type -> Type} {DB ID : Type}.
Context `{StarkFelt F, !LawfulFelt F, !StarkHash F, SlotMap K M, !LawfulSlotMap K M,
  !NodeCodec F K, !LawfulNodeCodec F K, BonsaiDatabase DB, !LawfulDatabase DB, Id ID, HashMapIter}.
Context (ht : nat) (Hht : 0 < ht <= 255).
Implicit Types (self : BonsaiStorage F K M DB ID) (c : gmap DatabaseKey ByteVec) (ms : ByteVec -> gmap BitVec F).

(** ** Only keys of a kind *)
Section Only.
Context (P : TrieKey -> Prop) (ids : gset ByteVec).
Context (HP : forall i key, i ∈ ids -> insert_key ht i key -> P key).

Definition only c : Prop := forall key v, view_of c key = Some v -> P key.

(** A committed storage whose database has no other keys. *)
Definition storage_only self ms : Prop :=
  (exists c, storage_model ht self c ms ms ids /\ only c) /\ storage_clean self ids.

(** The log of a commit and what it expires are in another column. *)
Lemma only_commit cfg b id c c1 :
  only c -> (forall key v, view_of c1 key = Some v -> view_of c key = Some v \/ exists i, i ∈ ids /\ insert_key ht i key) ->
  only (committed_contents (ID := ID) cfg b id c1).
Proof.
  intros Hc Hins key v. rewrite committed_contents_view. intros [?|(i & Hi & Hk)]%Hins; [by eapply Hc|by eapply HP].
Qed.

Lemma wp_commit_window_only self ms w :
  storage_only self ms -> window ht ids ms w.2 ->
  wp (commit_window w) self (fun self' _ => storage_only self' (window_maps ms w.2)).
Proof.
  intros [(c & Hm & Honly) Hclean] Hw. unfold commit_window. wp_step.
  eapply wp_mono; [|by apply (wp_storage_writes ht Hht self c ms ms ids)].
  cbn beta. intros self1 _ [Hm1 _].
  wp_apply (wp_transactional_commit_log ht Hht). intros self2 _ (c1 & b & Hm2 & Hc2 & _ & _ & _ & _ & Hins).
  split; [|done]. eexists. split; [exact Hm2|]. by eapply only_commit.
Qed.

Lemma wp_run_history_only self ms hist :
  storage_only self ms -> history_ok ht ids ms hist ->
  wp (run_history hist) self (fun self' _ => storage_only self' (history_maps hist ms)).
Proof.
  revert self ms. induction hist as [|w hist IH]; intros self ms Hat Hw; [by apply wp_ret|].
  destruct Hw as [Hw0 Hw]. unfold run_history. cbn [for_each]. wp_step.
  wp_apply wp_commit_window_only. intros self1 _ Hat1. by apply IH.
Qed.

Lemma storage_only_new db c cfg :
  db_holds db c -> unused c ids -> (forall i, i ∈ ids -> identifier_safe i ht) -> separated ht ids -> only c ->
  storage_only (BonsaiStorage_new db cfg ht) (fun _ => ∅).
Proof.
  intros Hdb Hc Hsafe Hsep Honly.
  destruct (storage_model_new (F := F) (K := K) (M := M) (ID := ID) ht c db cfg ids) as [Hm Hclean];
    [done..|by intros i b Hi; apply Hc|by intros i b Hi; apply Hc|].
  split; [by exists c|done].
Qed.
End Only.

(** ** Exactly the tries *)

(** The binding of [key] is a node of the trie of an identifier's map, under the
    identifier and the path of the node, or a leaf, under the identifier and the
    key. *)
Definition trie_binding (ids : gset ByteVec) ms (key : TrieKey) (v : ByteVec) : Prop :=
  exists i, i ∈ ids /\
    ((exists q n, key = node_key i q /\ stored_nodes (K := K) (trie_of (ms i)) !! q = Some n /\ v = Node_encode_fields n) \/
     (exists k x, key = flat_key i k /\ ms i !! k = Some x /\ v = Felt_encode x)).

(** The paths of the nodes are shorter than the keys. *)
Lemma stored_nodes_length m q n : map_wf ht m -> stored_nodes (K := K) (trie_of m) !! q = Some n -> length q < ht.
Proof.
  intros Hwf Hq. apply trie_of_rep in Hwf as [Hwf _]. destruct (trie_of m) as [t|]; cbn in Hwf, Hq; [|by rewrite lookup_empty in Hq].
  apply elem_of_list_to_map_2 in Hq. pose proof (tres_within (K := K) [] ht t Hwf) as Hw.
  rewrite tres_nodes, Forall_fmap, Forall_forall in Hw. by destruct (Hw _ Hq).
Qed.

(** The contents of a committed storage at the keys of a trie. *)
Lemma storage_nodes_view self c ms (ids : gset ByteVec) i q :
  storage_model ht self c ms ms ids -> i ∈ ids -> length q <= ht ->
  view_of c (node_key i q) = Node_encode_fields <$> stored_nodes (K := K) (trie_of (ms i)) !! q.
Proof.
  intros Hm Hi Hq. destruct (models_tree _ _ _ _ _ (storage_base _ _ _ _ _ _ i Hm Hi)) as (oa & Hrep & Htrie).
  change i with (MerkleTree_new (F := F) (K := K) (M := M) i ht).(identifier) at 1. by eapply (committed_nodes ht).
Qed.

Lemma storage_flat_view self c ms (ids : gset ByteVec) i k :
  storage_model ht self c ms ms ids -> i ∈ ids -> length k = ht -> view_of c (flat_key i k) = Felt_encode <$> ms i !! k.
Proof. intros Hm Hi. exact (models_flat _ _ _ _ _ (storage_base _ _ _ _ _ _ i Hm Hi) k). Qed.

Lemma contents_exact self c ms (ids : gset ByteVec) key v :
  storage_model ht self c ms ms ids -> only (fun key => exists i, i ∈ ids /\ insert_key ht i key) c ->
  view_of c key = Some v <-> trie_binding ids ms key v.
Proof.
  intros Hm Honly. split.
  - intros Hv. destruct (Honly key v Hv) as (i & Hi & [(q & Hq & ->)|(k & Hk & ->)]); exists i; (split; [done|]).
    + left. rewrite (storage_nodes_view self c ms ids) in Hv by done. apply fmap_Some in Hv as (n & Hn & ->). eauto.
    + right. rewrite (storage_flat_view self c ms ids) in Hv by done. apply fmap_Some in Hv as (x & Hx & ->). eauto.
  - intros (i & Hi & [(q & n & -> & Hn & ->)|(k & x & -> & Hx & ->)]);
      pose proof (storage_map_wf ht _ _ _ _ _ Hm Hi) as Hwf.
    + rewrite (storage_nodes_view self c ms ids), Hn; [done..|]. apply stored_nodes_length in Hn; [lia|done].
    + rewrite (storage_flat_view self c ms ids), Hx; [done..|]. by destruct (Hwf k x Hx).
Qed.

(** ** Properties *)

(** C12 The database is exact: after any history of commits on a new storage whose
    trie and flat columns were empty, these columns hold the nodes and the leaves
    of the tries of the maps the history leads to, under their keys, and nothing
    else. In particular they are empty again once every map is: no node is ever
    left behind. *)
Theorem storage_contents_exact db c cfg ids hist :
  db_holds db c -> (forall key, view_of c key = None) ->
  (forall i, i ∈ ids -> identifier_safe i ht) -> separated ht ids -> history_ok ht ids (fun _ => ∅) hist ->
  wp (run_history hist) (BonsaiStorage_new db cfg ht) (fun self _ => exists c',
    db_holds self.(tries).(trees_db).(KeyValueDb.db) c' /\
    (forall key v, view_of c' key = Some v <-> trie_binding ids (history_maps hist (fun _ => ∅)) key v) /\
    ((forall i, i ∈ ids -> history_maps hist (fun _ => ∅) i = ∅) -> forall key, view_of c' key = None)).
Proof.
  intros Hdb Hempty Hsafe Hsep Hw.
  eapply wp_mono; [|apply (wp_run_history_only (fun key => exists i, i ∈ ids /\ insert_key ht i key) ids); [by eauto| |exact Hw]].
  2:{ eapply storage_only_new; [done| |done..|].
      - intros i b Hi. split; [apply (Hempty (TrieKey_Trie (i ++ b)))|apply (Hempty (TrieKey_Flat (i ++ b)))].
      - intros key v. by rewrite Hempty. }
  cbn beta. intros self _ [(c' & Hm & Honly) _]. exists c'.
  assert (forall key v, view_of c' key = Some v <-> trie_binding ids (history_maps hist (fun _ => ∅)) key v) as Hex
    by (intros key v; by eapply contents_exact).
  split; [by eapply storage_db|]. split; [done|]. intros Hnil key.
  destruct (view_of c' key) as [v|] eqn:Hv; [|done]. exfalso.
  apply Hex in Hv as (i & Hi & [(q & n & _ & Hn & _)|(k & x & _ & Hx & _)]); rewrite Hnil in * by done; done.
Qed.
End ContentsCorrect.
