(* ===== verification/CommitErrors.v ===== *)
(** * Commits whose writes fail

    [commit] writes twice: the updates of the trees, then the trie log. The
    database it is given here has the reads and batches of another one, and
    refuses to write a batch ([write_fails]). Of the other database only the
    contract is used, and that a batch reaches it when it is written
    ([BatchedDatabase]), as with RocksDB. *)
From S2P Require Import Prelude Path Id Database RocksLib Rocks RocksSpec Error External MerkleNode Trie Changes Logs KeyValueDb Tree Iterator Update Trees Proof Storage Annot TreeInv SeekSpec SetSpec DeleteSpec CommitSpec TreeSpec TreesSpec StorageSpec LogSpec StorageCorrect.

(** [write_batch] returns the error and writes nothing. *)
Definition write_fails {DB} `{BonsaiDatabase DB} (e : DatabaseError DB) : BonsaiDatabase DB := {|
  Batch := Batch DB;
  DatabaseError := DatabaseError DB;
  db_create_batch := db_create_batch;
  db_get := db_get;
  db_get_by_prefix := db_get_by_prefix;
  db_contains := db_contains;
  db_insert := db_insert;
  db_remove := db_remove;
  db_remove_by_prefix := db_remove_by_prefix;
  db_write_batch db _ := (db, Err e);
|}.

(** Until it is written, a batch leaves the database as it was. *)
Class BatchedDatabase (DB : Type) `{LawfulDatabase DB} :=
  batched_holds : forall db b m0 m, db_pending db b m0 m -> db_holds db m0.

#[export] Instance RocksDB_batched {ID} `{RocksLib, !LawfulRocksLib column_names} : BatchedDatabase (RocksDB ID).
Proof. by intros db b m0 m [Hm0 _]. Qed.

Section CommitErrors.
Context {F K : Type} {M : Type -> Type} {DB ID : Type}.
Context `{StarkFelt F, !LawfulFelt F, !StarkHash F, SlotMap K M, !LawfulSlotMap K M,
  !NodeCodec F K, !LawfulNodeCodec F K, BD : BonsaiDatabase DB, LD : !LawfulDatabase DB, !BatchedDatabase DB,
  LawfulId ID, HashMapIter}.
Context (ht : nat) (Hht : 0 < ht <= 255).
Implicit Types (self : BonsaiStorage F K M DB ID) (c : gmap DatabaseKey ByteVec) (ms : ByteVec -> gmap BitVec F)
  (ids : gset ByteVec) (id : ID) (e : DatabaseError DB) (kv : KeyValueDB DB ID).

(** The trees are cleared before their updates are written. *)
Lemma trees_commit_fails (self : MerkleTrees F K M DB ID) c fs ms ids e :
  trees_model ht self c fs ms ids ->
  exists (self' : MerkleTrees F K M DB ID) c', MerkleTrees_commit (H1 := write_fails e) self = (self', Err (Error_Database e)) /\
    trees_model ht self' c fs fs ids /\ (forall i, i ∈ ids -> clean (tree_or_new self' i)) /\
    (self.(trees_db).(changes_store) = ChangeStore_new ->
      recorded self'.(trees_db).(changes_store).(current_changes) (view_of c) (view_of c')) /\
    forall i k, i ∈ ids -> length k = ht -> view_of c' (flat_key i k) = Felt_encode <$> ms i !! k.
Proof.
  intros Hm. destruct (trees_commit_batch ht Hht self c fs ms ids Hm) as (ts & rs & kv & b & c' & Hrs & Hrun & Hb).
  eexists _, c'. split; [exact (trees_commit_run (H1 := write_fails e) self ts rs kv b Hrs Hrun)|].
  destruct Hm as [Hdb Htrees Hids Hbase Hh Hsep].
  assert (forall i k, i ∈ ids -> length k = ht -> view_of c' (flat_key i k) = Felt_encode <$> ms i !! k) as Hflat.
  { intros i k Hi. exact (models_flat _ _ _ _ _ (commit_batch_base ht self c ms ids ts kv b c' i Hh Hb Hi) k). }
  destruct Hb as [Hp _ Hrec _ _ Hids' Htrees']. split; [|split_and!; [intros i Hi; by apply Htrees'|done..]].
  split; [cbn; by eapply batched_holds| |done|done|done|done].
  intros i Hi. destruct (Htrees' i Hi) as [[(oa & Hrep & _) _ _ _ _ _] Hclean].
  assert (identifier (tree_or_new (set_trees (list_to_map ts) self) i) = i) as Hid.
  { unfold tree_or_new. cbn [trees set_trees]. destruct (list_to_map ts !! i) as [t|] eqn:Ht; [|done]. by apply Hids' in Ht as [_ ?]. }
  eapply (models_clean ht); [by apply Hbase|apply (clean_new ht)|exact Hclean|exact Hid|exact (rep_height _ _ _ _ Hrep)].
Qed.

(** The changes are taken before their log is written. *)
Lemma kv_commit_fails kv c id e :
  db_holds kv.(db) c -> kv.(config).(max_saved_trie_logs) <> Some 0%Z ->
  exists kv', KeyValueDB_commit (H := write_fails e) id kv = (kv', Err (Error_Database e)) /\
    db_holds kv'.(db) c /\ kv'.(changes_store) = ChangeStore_new /\ kv'.(config) = kv.(config).
Proof.
  intros Hc Hmax. set (kv1 := set_changes ∅ kv).
  destruct (wp_insert_logs (ChangeBatch_serialize kv.(changes_store).(current_changes) id) (kv1, KeyValueDB_create_batch kv) c c)
    as ([kv2 b2] & [] & Hrun & Hp & Heq).
  { cbn. by apply db_create_batch_spec. }
  cbn [fst snd] in Hp, Heq. exists kv2. split; [|split; [by eapply batched_holds|by rewrite Heq]].
  unfold KeyValueDB_commit, mbind, action_bind, gets, modify. cbn [set_changes config changes_store mret action_ret].
  rewrite decide_True by done. fold kv1.
  change (for_each _ (KeyValueDB_insert_log (H := write_fails e)) (kv1, KeyValueDB_create_batch (H := write_fails e) kv))
    with (for_each (ChangeBatch_serialize kv.(changes_store).(current_changes) id) (KeyValueDB_insert_log) (kv1, KeyValueDB_create_batch kv)).
  rewrite Hrun. cbn. by destruct kv2.
Qed.

(** ** Storages between commits *)
Definition storage_rest self ms ids : Prop :=
  exists c, storage_model ht self c ms ms ids /\ storage_clean self ids /\ self.(tries).(trees_db).(changes_store) = ChangeStore_new.

Lemma storage_rest_at self ms ids : storage_rest self ms ids -> storage_at ht self ms ids.
Proof. intros (c & Hm & Hc & _). split; [by exists c|done]. Qed.

Lemma wp_run_history_rest self ms ids hist :
  storage_rest self ms ids -> history_ok ht ids ms hist ->
  wp (run_history hist) self (fun self' _ => storage_rest self' (history_maps hist ms) ids).
Proof.
  revert self ms. induction hist as [|w hist IH]; intros self ms Hat Hw; [by apply wp_ret|].
  destruct Hw as [Hw0 Hw], Hat as (c & Hm & _). unfold run_history. cbn [for_each]. wp_step. unfold commit_window at 1. wp_step.
  eapply wp_mono; [|by apply (wp_storage_writes ht Hht self c ms ms ids)]. cbn beta. intros self1 _ [Hm1 _].
  wp_apply (wp_transactional_commit_log ht Hht). intros self2 _ (c1 & b & Hm2 & Hc2 & _ & Hch & _).
  apply IH; [by eexists|done].
Qed.

(** The first write fails: nothing is committed, and the writes are forgotten. *)
Definition window_lost self1 ms ms' ids id e : Prop :=
  exists self2, BonsaiStorage_transactional_commit (H1 := write_fails e) id self1 = (self2, Err (Error_Database e)) /\
    (exists c, db_holds self1.(tries).(trees_db).(db) c /\ db_holds self2.(tries).(trees_db).(db) c) /\
    answers ht self2 ms ids /\
    forall i k, i ∈ ids -> length k = ht -> ms' i !! k <> ms i !! k ->
      self2.(tries).(trees_db).(changes_store).(current_changes) !! flat_key i k =
        Some (mkChange (Felt_encode <$> ms i !! k) (Felt_encode <$> ms' i !! k)).

(** The second one fails: the writes are committed, and their log is forgotten. *)
Definition log_lost self1 ms' ids id e : Prop :=
  exists self2, on_db (KeyValueDB_commit (H := write_fails e) id) self1 = (self2, Err (Error_Database e)) /\
    (exists c, db_holds self1.(tries).(trees_db).(db) c /\ db_holds self2.(tries).(trees_db).(db) c) /\
    answers ht self2 ms' ids /\ self2.(tries).(trees_db).(changes_store) = ChangeStore_new.

Lemma commit_loses_window self c ms ms' ids id e :
  storage_model ht self c ms ms' ids -> self.(tries).(trees_db).(changes_store) = ChangeStore_new ->
  window_lost self ms ms' ids id e.
Proof.
  intros Hm Hch. pose proof (trees_commit_fails _ _ _ _ _ e Hm) as (T & c' & Hrun & Hm' & Hclean & Hrec & Hflat).
  exists (mkBonsaiStorage T). split; [|split; [|split]].
  - unfold BonsaiStorage_transactional_commit, mbind, action_bind, on_tries, zoom. by rewrite Hrun.
  - exists c. split; [apply Hm|apply Hm'].
  - apply (storage_at_answers ht Hht). split; [by exists c|exact Hclean].
  - intros i k Hi Hk Hne. specialize (Hrec Hch (flat_key i k)). cbn [tries].
    rewrite (Hflat i k Hi Hk) in Hrec. rewrite (models_flat _ _ _ _ _ (storage_base _ _ _ _ _ _ i Hm Hi) k Hk : view_of c (flat_key i k) = _) in Hrec.
    destruct (_ !! flat_key i k) as [[o n]|]; cbn in Hrec; [by destruct Hrec as [-> ->]|].
    exfalso. by apply Hne, (inj (fmap Felt_encode)).
Qed.

Lemma commit_loses_log self c ms' ids id e :
  storage_model ht self c ms' ms' ids -> storage_clean self ids -> self.(tries).(trees_db).(config).(max_saved_trie_logs) <> Some 0%Z ->
  log_lost self ms' ids id e.
Proof.
  intros Hm Hclean Hmax. destruct (kv_commit_fails self.(tries).(trees_db) c id e) as (kv & Hrun & Hdb & Hch & Hcfg); [apply Hm|done|].
  exists (mkBonsaiStorage (set_trees_db kv self.(tries))). split; [|split_and!; [exists c; split; [apply Hm|done]| |done]].
  - unfold on_db, on_tries, zoom. by rewrite Hrun.
  - apply (storage_at_answers ht Hht). destruct Hm as [? Ht Hids Hbase Hh Hsep].
    split; [exists c; by split|]. intros i Hi. exact (Hclean i Hi).
Qed.

(** ** Properties *)

End CommitErrors.
