(* ===== verification/ReadErrors.v ===== *)
(** * Writes during which a read fails

    An insertion reads the database only before it changes the tree: when a read
    fails, it returns the error of the database and the tree holds what it held
    ([MerkleTree_set_bails]), with nodes loaded on the way. (A removal does not:
    see [FaultFindings.v].) The database here answers some keys with an error
    ([read_fails]), and is otherwise another one. *)
From S2P Require Import Prelude Path Id Database Error External MerkleNode Trie Changes Logs KeyValueDb Tree Iterator Update Trees Proof Storage Annot TreeInv SeekSpec SetSpec TreeSpec TreesSpec StorageSpec StorageCorrect.

(** [get] and [contains] of the keys that [bad] selects return the error. *)
Definition read_fails {DB} `{BonsaiDatabase DB} (bad : DatabaseKey -> bool) (e : DatabaseError DB) : BonsaiDatabase DB := {|
  Batch := Batch DB;
  DatabaseError := DatabaseError DB;
  db_create_batch := db_create_batch;
  db_get db k := if bad k then Err e else db_get db k;
  db_get_by_prefix := db_get_by_prefix;
  db_contains db k := if bad k then Err e else db_contains db k;
  db_insert := db_insert;
  db_remove := db_remove;
  db_remove_by_prefix := db_remove_by_prefix;
  db_write_batch := db_write_batch;
|}.

(** ** Actions that go on or bail out

    From [s], [m'] does what [m] does, or returns the error in a state that
    satisfies [R]. *)
Definition bails {S E A} (m' m : action S E A) (e : E) (s : S) (R : S -> Prop) : Prop :=
  m' s = m s \/ exists s', m' s = (s', Err e) /\ R s'.

Section Bails.
Context {S T E A B : Type}.
Implicit Types (m : action S E A) (R : S -> Prop).

Lemma bails_refl m e s R : bails m m e s R.
Proof. by left. Qed.

Lemma bails_mono m' m e s (R R' : S -> Prop) : (forall s', R s' -> R' s') -> bails m' m e s R -> bails m' m e s R'.
Proof. intros HR [?|(s' & ? & ?)]; [by left|right]. eauto. Qed.

Lemma bails_bind m' m (f' f : A -> action S E B) e s R :
  bails m' m e s R -> (forall s1 a, m s = (s1, Ok a) -> bails (f' a) (f a) e s1 R) -> bails (m' ≫= f') (m ≫= f) e s R.
Proof.
  intros Hm Hf. unfold bails, mbind, action_bind. destruct Hm as [->|(s' & -> & HR)]; [|right; by exists s'].
  destruct (m s) as [s1 [a|e1|w|]] eqn:Hrun; [by apply Hf|by left..].
Qed.

Lemma bails_zoom (get : S -> T) (put : T -> S -> S) (m' m : action T E A) e s (R : T -> Prop) R' :
  (forall t, R t -> R' (put t s)) -> bails m' m e (get s) R -> bails (zoom get put m') (zoom get put m) e s R'.
Proof.
  intros HR [Heq|(t & Ht & Hr)]; unfold bails, zoom; [left; by rewrite Heq|right]. rewrite Ht. exists (put t s). split; [done|by apply HR].
Qed.

Lemma bails_lift (o' o : outcome E A) e s R : o' = o \/ o' = Err e /\ R s -> bails (lift o') (lift o) e s R.
Proof. intros [->|[-> HR]]; [by left|right]. by exists s. Qed.
End Bails.

Section ReadErrors.
Context {F K : Type} {M : Type -> Type} {DB ID : Type}.
Context `{StarkFelt F, !LawfulFelt F, !StarkHash F, SlotMap K M, !LawfulSlotMap K M,
  !NodeCodec F K, !LawfulNodeCodec F K, BD : BonsaiDatabase DB, !LawfulDatabase DB, Id ID, HashMapIter}.
Context (bad : DatabaseKey -> bool) (err : DatabaseError DB).
Abbreviation MerkleTree := (MerkleTree F K M).
Abbreviation Iterator := (MerkleTreeIterator F K M).
Abbreviation error := (BonsaiStorageError (DatabaseError DB)).
Abbreviation BD' := (read_fails bad err).
Abbreviation e := (Error_Database err).
Implicit Types (self : MerkleTree) (it : Iterator) (kv : KeyValueDB DB ID).

(** ** Loading *)
Lemma KeyValueDB_get_bails kv key :
  KeyValueDB_get (H := BD') kv key = KeyValueDB_get (H := BD) kv key \/ KeyValueDB_get (H := BD') kv key = Err e.
Proof. unfold KeyValueDB_get, from_DatabaseError. cbn. destruct (bad _); [by right|by left]. Qed.

Lemma load_db_node_bails kv key self :
  bails (MerkleTree_load_db_node (H1 := BD') kv key) (MerkleTree_load_db_node (H1 := BD) kv key) e self (fun self' => self' = self).
Proof.
  unfold MerkleTree_load_db_node. eapply bails_bind; [apply bails_refl|]. intros s1 death [= <- <-]. case_decide; [apply bails_refl|].
  eapply bails_bind; [apply bails_lift|intros s1 n _; apply bails_refl].
  destruct (KeyValueDB_get_bails kv key); auto.
Qed.

Lemma load_root_bails kv self :
  bails (MerkleTree_load_root_node (H1 := BD') kv) (MerkleTree_load_root_node (H1 := BD) kv) e self (fun self' => self' = self).
Proof.
  unfold MerkleTree_load_root_node. eapply bails_bind; [apply bails_refl|]. intros s1 root [= <- <-].
  destruct (root_node self) as [[]|]; [apply bails_refl..|].
  eapply bails_bind; [apply bails_refl|]. intros s1 identifier [= <- <-].
  eapply bails_bind; [apply load_db_node_bails|]. intros s1 id _. destruct id; apply bails_refl.
Qed.

Lemma load_node_handle_bails kv h path self :
  bails (MerkleTree_load_node_handle (H1 := BD') kv h path) (MerkleTree_load_node_handle (H1 := BD) kv h path) e self (fun self' => self' = self).
Proof.
  unfold MerkleTree_load_node_handle. destruct h; [|apply bails_refl].
  eapply bails_bind; [apply bails_refl|]. intros s1 identifier [= <- <-].
  eapply bails_bind; [apply load_db_node_bails|]. intros s1 k _. apply bails_refl.
Qed.

(** ** The traversal *)

(** The node is read before its child is loaded. *)
Lemma traverse_node_tree node height key it it' r :
  traverse_node (DB := DB) node height key it = (it', Ok r) -> it'.(tree) = it.(tree).
Proof.
  unfold traverse_node. destruct node as [b|edge]; unfold mbind, action_bind, gets, lift, modify.
  - destruct (bit_index key (length (current_path it))); cbn; try done. by intros [= <- _].
  - cbn. destruct (EdgeNode_path_matches edge key height); cbn; try done. by intros [= <- _].
Qed.

Lemma traverse_one_bails kv k height key it :
  bails (MerkleTreeIterator_traverse_one (H1 := BD') kv k height key) (MerkleTreeIterator_traverse_one (H1 := BD) kv k height key) e it
    (fun it' => it'.(tree) = it.(tree)).
Proof.
  unfold MerkleTreeIterator_traverse_one. eapply bails_bind; [apply bails_refl|]. intros it1 [] [= <-].
  eapply bails_bind; [apply bails_refl|]. intros it2 node Hnode.
  assert (it2.(tree) = it.(tree)) as Ht2 by (unfold on_tree, zoom, MerkleTree_get_node_mut in Hnode; cbn in Hnode; by injection Hnode as <- _).
  eapply bails_bind; [apply bails_refl|]. intros it3 [h matches] Hn. apply traverse_node_tree in Hn as Ht3. cbn beta iota.
  eapply bails_bind; [apply bails_refl|]. intros it4 path [= <- <-]. destruct (_ || _); [apply bails_refl|].
  eapply bails_bind; [|intros it5 child _; apply bails_refl].
  eapply bails_zoom; [|apply load_node_handle_bails]. cbn. intros t ->. congruence.
Qed.

Context (d : TrieKey -> option ByteVec) (ht : nat) (kv : KeyValueDB DB ID).
Context (Hht : 0 < ht <= 255) (Hkv : kv_view kv d).

(** Nodes of the tree have been loaded. *)
Definition loaded self (oa : option (atree F K)) self' : Prop :=
  exists oa' : option (atree F K), tree_rep ht d self' oa' /\ strip <$> oa' = strip <$> oa /\ same_pending self self'.

Lemma traverse_loop_bails fuel key C foc rest kf it :
  seek_at d ht key C foc rest kf it -> length key = ht ->
  bails (traverse_loop (H1 := BD') (V := unit) fuel kv key (Some kf)) (traverse_loop (H1 := BD) (V := unit) fuel kv key (Some kf)) e (tt, it)
    (fun vit => loaded it.(tree) (Some (plug C foc)) vit.2.(tree)).
Proof.
  revert C foc rest kf it. induction fuel as [|fuel IH]; intros C foc rest kf it Hat Hlen; [apply bails_refl|].
  cbn [traverse_loop]. eapply bails_bind; [apply bails_refl|]. intros s1 h1 [= <- <-].
  eapply bails_bind; [apply bails_refl|]. intros s1 [] [= <-].
  eapply bails_bind; [apply bails_refl|]. intros s1 h2 [= <- <-]. cbn [snd].
  replace (set_tree (tree it) it) with it by (by destruct it).
  rewrite (at_path _ _ _ _ _ _ _ _ Hat).
  eapply bails_bind.
  - eapply bails_zoom; [|apply traverse_one_bails]. cbn [snd]. intros it' Ht. exists (Some (plug C foc)). cbn [snd]. rewrite Ht.
    split; [apply Hat|done].
  - intros [[] s1] next Hrun.
    assert (wp (MerkleTreeIterator_traverse_one (H1 := BD) kv kf (length (cpath C)) key) it (fun it' next => next = None \/
      exists f foc0 foc' rest' kf', next = Some kf' /\ foc = frame_plug f foc0 /\ loads kf' foc0 foc' /\
        seek_at d ht key (f :: C) foc' rest' kf' it' /\ same_pending it.(tree) it'.(tree))) as Hwp.
    { eapply (wp_traverse_one kv d ht Hkv); [lia|exact Hat|done|by left|].
      intros it' f foc0 foc' rest' kf' -> Hl -> Hf Hrest Hat' Hsame _. right. by eexists _, _, _, _, _. }
    destruct Hwp as (it' & next' & Hone & Hnext). unfold on_iter, zoom in Hrun. cbn [snd] in Hrun. rewrite Hone in Hrun. injection Hrun as <- <-.
    destruct Hnext as [->|(f & foc0 & foc' & rest' & kf' & -> & -> & Hl & Hat' & Hsame)]; [destruct fuel; apply bails_refl|].
    eapply bails_mono; [|by eapply IH]. cbn [snd]. intros [[] it2] (oa' & Hrep & Hs & Hsame2). exists oa'.
    split; [done|]. split; [|by eapply same_pending_trans]. rewrite Hs. cbn. f_equal.
    apply (strip_plug_eq (f :: C)). by eapply loads_strip.
Qed.

Lemma loaded_refl self oa : tree_rep ht d self oa -> loaded self oa self.
Proof. by exists oa. Qed.

Lemma seek_nodes_bails key self oa :
  tree_rep ht d self oa -> length key = ht ->
  bails (MerkleTree_seek_nodes (H1 := BD') kv key) (MerkleTree_seek_nodes (H1 := BD) kv key) e self (loaded self oa).
Proof.
  intros Hrep Hlen.
  assert (bails (MerkleTreeIterator_traverse_to (H1 := BD') (V := unit) kv key) (MerkleTreeIterator_traverse_to (H1 := BD) (V := unit) kv key) e
    (tt, MerkleTreeIterator_new self) (fun vit => loaded self oa vit.2.(tree))) as Hto.
  { unfold MerkleTreeIterator_traverse_to. destruct key as [|b key]; [apply bails_refl|].
    eapply bails_bind.
    - eapply bails_zoom with (R := fun it => it.(tree) = self); [cbn; intros it ->; by apply loaded_refl|]. cbn [snd]. unfold traverse_start.
      eapply bails_bind; [apply bails_refl|]. intros it0 ? [= <- <-]. cbn [MerkleTreeIterator_new current_path common_len current_nodes_heights].
      rewrite decide_True by done. cbn zeta. cbn [take last].
      eapply bails_bind; [apply bails_refl|]. intros it1 [] [= <-]. eapply bails_bind; [apply bails_refl|]. intros it2 [] [= <-].
      eapply bails_bind; [|intros it3 root _; apply bails_refl].
      eapply bails_zoom; [|apply load_root_bails]. by intros t ->.
    - intros [[] it1] start Hstart. destruct start as [[kf|]|]; [|destruct key; apply bails_refl|apply bails_refl].
      assert (exists a a', oa = Some a /\ loads kf a a' /\ seek_at d ht (b :: key) [] a' (b :: key) kf it1 /\ same_pending self it1.(tree))
        as (a & a' & -> & Hl & Hat & Hsame).
      { assert (wp (traverse_start (H1 := BD) kv (b :: key)) (MerkleTreeIterator_new self) (fun it start => forall kf, start = Some (Some kf) ->
          exists a a', oa = Some a /\ loads kf a a' /\ seek_at d ht (b :: key) [] a' (b :: key) kf it /\ same_pending self it.(tree))) as Hwp.
        { unfold traverse_start. wp_step. wp_step. cbn [MerkleTreeIterator_new current_path common_len current_nodes_heights].
          rewrite decide_True by done. cbn zeta. cbn [take last]. wp_step. wp_step. wp_step. wp_step. wp_step. unfold on_tree. wp_step.
          cbn [tree set_current_path set_current_nodes_heights]. eapply (wp_load_root kv d ht Hkv); [lia|exact Hrep|lia| |].
          - intros self' _ _ _ _. wp_step. wp_step. wp_step. by intros kf'.
          - intros self' a a' k -> Ha Hrep' Hk Hr Hsame. wp_step. intros kf' [= <-]. exists a, a'. split_and!; [done..| |done]. by split. }
        destruct Hwp as (it' & start & Hrun & Hall). unfold on_iter, zoom in Hstart. cbn [snd] in Hstart. rewrite Hrun in Hstart.
        assert (it' = it1 /\ start = Some (Some kf)) as [-> ->] by (by injection Hstart). by apply Hall. }
      eapply bails_mono; [|by eapply traverse_loop_bails]. cbn [snd]. intros [[] it2] (oa' & Hrep' & Hs & Hsame2). exists oa'.
      split; [done|]. split; [|by eapply same_pending_trans]. rewrite Hs. cbn. f_equal. by eapply loads_strip. }
  unfold MerkleTree_seek_nodes, MerkleTreeIterator_seek_to. unfold bails in *. destruct Hto as [->|([[] it'] & -> & HR)]; [by left|right].
  eexists. split; [reflexivity|exact HR].
Qed.

Lemma loaded_models self f m self' oa :
  tree_models ht d self f m -> trie_rep ht (strip <$> oa) m -> loaded self oa self' ->
  tree_models ht d self' f m /\ self'.(identifier) = self.(identifier).
Proof.
  intros [_ Hflat Hview Hcache Hsafe Hnew] Htrie Hl. destruct Hl as (oa' & Hrep' & Hs & Hi & _ & _ & Hc).
  split; [|done]. split; rewrite ?Hi, ?Hc; [|done..]. exists oa'. by rewrite Hs.
Qed.

(** ** Insertion *)
Lemma MerkleTree_set_bails key value self f m :
  tree_models ht d self f m -> length key = ht -> value <> Felt_ZERO ->
  bails (MerkleTree_set (H1 := BD') kv key value) (MerkleTree_set (H1 := BD) kv key value) e self (fun self' => tree_models ht d self' f m /\ self'.(identifier) = self.(identifier)).
Proof.
  intros Hm Hlen Hv. unfold MerkleTree_set. rewrite !decide_False by done.
  eapply bails_bind; [apply bails_refl|]. intros s1 height [= <- <-]. case_decide; [apply bails_refl|].
  eapply bails_bind; [apply bails_refl|]. intros s1 cache [= <- <-].
  assert (bails (same ← flat_has_value (H1 := BD') kv (bitslice_to_bytes key) value;
      if (same : bool) then mret tt else set_node (H1 := BD') kv key value)
    (same ← flat_has_value (H1 := BD) kv (bitslice_to_bytes key) value; if (same : bool) then mret tt else set_node (H1 := BD) kv key value) e self
    (fun self' => tree_models ht d self' f m /\ self'.(identifier) = self.(identifier))) as Hfresh; [|destruct (_ !! _) as [[]|]; [apply bails_refl|exact Hfresh..]].
  eapply bails_bind.
  - unfold flat_has_value. eapply bails_bind; [apply bails_refl|]. intros s1 identifier [= <- <-].
    eapply bails_bind; [apply bails_lift|intros s1 r _; destruct r; apply bails_refl].
    destruct (KeyValueDB_get_bails kv (TrieKey_new self.(identifier) TrieKeyType_Flat (bitslice_to_bytes key))) as [Hg|Hg]; rewrite Hg; auto.
  - intros s1 same Hsame. assert (s1 = self) as ->.
    { unfold flat_has_value, mbind, action_bind, gets, lift in Hsame. destruct (KeyValueDB_get (H := BD) kv _) as [[r|]| | |]; try done; [|by injection Hsame].
      destruct (Felt_decode_unwrap r); try done. by injection Hsame. }
    destruct same; [apply bails_refl|]. destruct (models_tree _ _ _ _ _ Hm) as (oa & Hrep & Htrie).
    eapply bails_bind; [|intros s1 nodes _; apply bails_refl].
    eapply bails_mono; [|by apply seek_nodes_bails]. intros self' Hl. by eapply loaded_models.
Qed.
End ReadErrors.

(** ** Properties *)
Section Storage.
Context {F K : Type} {M : Type -> Type} {DB ID : Type}.
Context `{StarkFelt F, !LawfulFelt F, !StarkHash F, SlotMap K M, !LawfulSlotMap K M,
  !NodeCodec F K, !LawfulNodeCodec F K, BD : BonsaiDatabase DB, !LawfulDatabase DB, Id ID, HashMapIter}.
Context (ht : nat) (Hht : 0 < ht <= 255) (bad : DatabaseKey -> bool) (err : DatabaseError DB).
Implicit Types (self : BonsaiStorage F K M DB ID) (c : gmap DatabaseKey ByteVec) (ms : ByteVec -> gmap BitVec F).

Lemma storage_insert_bails self c fs ms ids i k v :
  storage_model ht self c fs ms ids -> i ∈ ids -> length k = ht -> v <> Felt_ZERO ->
  bails (BonsaiStorage_insert (H1 := read_fails bad err) i k v) (BonsaiStorage_insert (H1 := BD) i k v) (Error_Database err) self
    (fun self' => storage_model ht self' c fs ms ids).
Proof.
  intros Hm Hi Hk Hv. eapply bails_zoom with (R := fun T => trees_model ht T c fs ms ids); [by intros T HT|].
  unfold MerkleTrees_set, on_entry, bails.
  destruct (MerkleTree_set_bails bad err (view_of c) ht self.(tries).(trees_db) Hht (storage_view ht _ _ _ _ _ Hm) k v
    (tree_or_new self.(tries) i) (fs i) (ms i) (storage_tree ht _ _ _ _ _ i Hm Hi) Hk Hv) as [Hrun|(t & Hrun & Ht & Hid)].
  - left. by rewrite Hrun.
  - right. rewrite Hrun. eexists. split; [reflexivity|]. eapply (trees_model_entry ht Hht); [exact Hm|exact Hi|exact Ht| |done].
    rewrite Hid. by eapply tree_or_new_identifier.
Qed.

(** C24 An insertion during which the database fails to read is undone: after the
    writes of a window, with some keys that cannot be read, an insertion either
    does what it does when they can, or returns the error of the database. Then
    the storage answers as before the insertion, and once the keys can be read
    the insertion can be tried again and the window committed. *)
Theorem storage_insert_read_error self ms ids ws i k v id :
  storage_at ht self ms ids -> window ht ids ms (ws ++ [(i, (k, v))]) -> v <> Felt_ZERO ->
  wp (for_each ws storage_write) self (fun self1 _ =>
    BonsaiStorage_insert (H1 := read_fails bad err) i k v self1 = BonsaiStorage_insert (H1 := BD) i k v self1 \/
    exists self2, BonsaiStorage_insert (H1 := read_fails bad err) i k v self1 = (self2, Err (Error_Database err)) /\
      (forall j k', j ∈ ids -> length k' = ht -> BonsaiStorage_get self2 j k' = Ok (window_maps ms ws j !! k')) /\
      wp (_ ← BonsaiStorage_insert i k v; BonsaiStorage_transactional_commit id) self2
        (fun self3 _ => answers ht self3 (window_maps ms (ws ++ [(i, (k, v))])) ids)).
Proof.
  intros [[c Hm] Hclean] Hw Hv. apply (window_from_app ht Hht) in Hw as [Hw ([Hi Hk] & Hok & _)]. cbn [fst snd] in *.
  eapply wp_mono; [|by apply (wp_storage_writes ht Hht self c ms ms ids)]. cbn beta. intros self1 _ [Hm1 _].
  destruct (storage_insert_bails self1 c ms _ ids i k v Hm1 Hi Hk Hv) as [|(self2 & Hrun & Hm2)]; [by left|right].
  exists self2. split; [done|]. split; [intros j k' Hj Hk'; by eapply (storage_get_model ht)|].
  replace (BonsaiStorage_insert i k v) with (storage_write (F := F) (K := K) (M := M) (DB := DB) (ID := ID) (i, (k, v))).
  2:{ unfold storage_write. by rewrite decide_False. }
  wp_step. wp_apply (wp_storage_write ht Hht). intros self3 _ [Hm3 _].
  wp_apply (wp_transactional_commit ht Hht). intros self4 _ ([c' Hm4] & Hclean4 & _).
  unfold window_maps. rewrite fold_left_app. apply (storage_at_answers ht Hht). split; [by exists c'|done].
Qed.
End Storage.
