(* ===== verification/StateRuns.v ===== *)
(** * The commits a past state is rebuilt from

    What the database of a storage holds after a run of consecutive commits, the
    first of which takes the oldest snapshot: that snapshot and the log of every
    commit of the run, kept by what is committed after ([in_run]). Reverting the
    logs in the order of [get_transaction] gives each key the value it had before
    the last commit of the run that changed it. *)
From S2P Require Import Prelude Path Id BTree Database Snapshots Error External MerkleNode Trie Changes Logs KeyValueDb Tree Iterator Update Trees Proof Storage Annot TreeInv SeekSpec SetSpec TreeSpec TreesSpec StorageSpec LogSpec StorageCorrect.

Section Runs.
Context {F K : Type} {M : Type -> Type} {DB ID : Type}.
Context `{StarkFelt F, !LawfulFelt F, !StarkHash F, SlotMap K M, !LawfulSlotMap K M,
  !NodeCodec F K, !LawfulNodeCodec F K, BonsaiDatabase DB, LawfulId ID, HashMapIter,
  !BonsaiPersistentDatabase DB ID, !SnapshotDatabase DB ID}.
Context (ht : nat) (Hht : 0 < ht <= 255) (max : option nat).
Abbreviation writes := (list (ByteVec * (BitVec * F))).
Implicit Types (self : BonsaiStorage F K M DB ID) (c : gmap DatabaseKey ByteVec) (ms : ByteVec -> gmap BitVec F)
  (id : ID) (b : gmap TrieKey Change) (cfg : KeyValueDBConfig) (S : snapshots_of ID).

(** The writes of a window, then a commit with its snapshot. *)
Definition persist_window (w : ID * writes) : action (BonsaiStorage F K M DB ID) (BonsaiStorageError (DatabaseError DB)) unit :=
  _ ← for_each w.2 storage_write;
  BonsaiStorage_commit w.1.

(** A storage between two commits: [c] are the contents of its database, [S]
    those its snapshots were taken of. *)
Record rests cfg S self c ms (ids : gset ByteVec) : Prop := {
  rest_model : storage_model (LawfulDatabase0 := snap_lawful max S) ht self c ms ms ids;
  rest_clean : storage_clean self ids;
  rest_config : self.(tries).(trees_db).(config) = cfg;
  rest_changes : self.(tries).(trees_db).(changes_store) = ChangeStore_new;
  rest_snaps : btree_wf S;
}.

(** The commits that take a snapshot. *)
Definition takes_snapshot cfg (w : ID * writes) : Prop := (id_as_u64 w.1 `mod` cfg.(snapshot_interval) = 0)%Z.
#[export] Instance takes_snapshot_dec cfg w : Decision (takes_snapshot cfg w).
Proof. unfold takes_snapshot. apply _. Defined.

Definition snaps_after cfg S (w : ID * writes) c : snapshots_of ID :=
  if decide (takes_snapshot cfg w) then btree_insert Id_ltb w.1 c S else S.

Lemma snaps_after_takes cfg S w c : takes_snapshot cfg w -> snaps_after cfg S w c = btree_insert Id_ltb w.1 c S.
Proof. intros Hw. unfold snaps_after. by rewrite decide_True. Qed.
Lemma snaps_after_skips cfg S w c : ~ takes_snapshot cfg w -> snaps_after cfg S w c = S.
Proof. intros Hw. unfold snaps_after. by rewrite decide_False. Qed.

(** Room for the snapshots of commits still to come. *)
Definition room cfg S (ws : list (ID * writes)) : Prop := has_room max S (length (filter (takes_snapshot cfg) ws)).

Lemma room_one cfg S w ws : room cfg S (w :: ws) -> takes_snapshot cfg w -> has_room max S 1.
Proof. unfold room, has_room. intros Hr Hw. rewrite filter_cons_True in Hr by done. destruct max; [|done]. cbn [length] in Hr. lia. Qed.

Lemma room_cons cfg S w ws c : room cfg S (w :: ws) -> room cfg (snaps_after cfg S w c) ws.
Proof.
  unfold room, snaps_after, has_room. destruct max as [n|]; [|done]. rewrite filter_cons.
  pose proof (btree_insert_length Id_ltb w.1 c S). case_decide; cbn [length]; lia.
Qed.

(** One commit: [b] are the changes it logs, [c1] the contents before the log
    is written. *)
Lemma wp_persist_window cfg S self c ms ids w :
  rests cfg S self c ms ids -> window ht ids ms w.2 -> cfg.(snapshot_interval) <> 0%Z -> id_wf w.1 ->
  (takes_snapshot cfg w -> has_room max S 1) ->
  wp (persist_window w) self (fun self' _ => exists c1 b, let c' := committed_contents cfg b w.1 c1 in
    rests cfg (snaps_after cfg S w c') self' c' (window_maps ms w.2) ids /\
    recorded b (view_of c) (view_of c') /\ (forall k, c1 !! DatabaseKey_TrieLog k = c !! DatabaseKey_TrieLog k)).
Proof.
  intros [Hm Hclean Hcfg Hch Hwf] Hw Hint Hid Hroom. destruct w as [id ws]. cbn [fst snd] in *. unfold persist_window. wp_step.
  eapply wp_mono; [|apply (wp_storage_writes (LawfulDatabase0 := snap_lawful max S) ht Hht self c ms ms ids); [exact Hm|done]].
  cbn beta. intros self1 _ [Hm1 Hdb1]. cbn [fst]. refine (wp_commit_snapshot self1 id _ _).
  wp_apply (wp_transactional_commit_log (LawfulDatabase0 := snap_lawful max S) ht Hht self1 c ms (window_maps ms ws) ids id).
  intros self2 _ (c1 & b & Hm2 & Hc2 & Hcfg2 & Hch2 & Hrec & Hlog & _).
  rewrite Hdb1, Hcfg in *. specialize (Hrec Hch).
  apply (recorded_ext _ _ _ (view_of (committed_contents cfg b id c1))) in Hrec; [|apply committed_contents_view].
  set (c' := committed_contents cfg b id c1) in *.
  unfold on_db, on_tries. wp_step. wp_step. unfold wp, KeyValueDB_create_snapshot. rewrite Hcfg2, decide_False by done.
  case_decide as Hmod; eexists _, tt; (split; [reflexivity|]); exists c1, b; (split; [|by split]).
  - rewrite snaps_after_takes by done. split; [|exact Hc2|exact Hcfg2|exact Hch2|by apply btree_insert_wf].
    destruct Hm2 as [Hdb Ht Hids Hbase Hh Hsep]. split; [|done..]. by apply snap_take_spec; [|apply Hroom].
  - rewrite snaps_after_skips by done. split; [|exact Hc2|exact Hcfg2|exact Hch2|done]. by destruct Hm2.
Qed.

(** ** Before, in and after the run

    [n] commits with consecutive identifiers, the first one [id]. *)
Context (cfg : KeyValueDBConfig) (ids : gset ByteVec) (id : ID) (n : nat).
Context (Hkeep : keeps_logs cfg) (Hint : cfg.(snapshot_interval) <> 0%Z) (Hid : id_wf id)
  (Hbound : (id_as_u64 id + Z.of_nat n <= 2 ^ 64)%Z).

Definition in_range (j : Z) : Prop := (id_as_u64 id <= j < id_as_u64 id + Z.of_nat n)%Z.

(** A commit outside the run: its snapshot comes after that of [id], and it does
    not discard a log of the run. *)
Record outside (w : ID * writes) : Prop := {
  out_wf : id_wf w.1;
  out_id : ~ in_range (id_as_u64 w.1);
  out_snap : takes_snapshot cfg w -> (id_as_u64 id < id_as_u64 w.1)%Z;
  out_log : forall e, expired_log cfg w.1 = Some e -> ~ in_range e;
}.

(** The [k]th commit of the run. *)
Record inside (k : nat) (w : ID * writes) : Prop := {
  in_wf : id_wf w.1;
  in_id : id_as_u64 w.1 = (id_as_u64 id + Z.of_nat k)%Z;
  in_log : forall e, expired_log cfg w.1 = Some e -> ~ in_range e;
}.

(** What a commit does to the log of another identifier. *)
Lemma log_of_commit b c c1 (i j : ID) :
  id_wf i -> id_wf j -> i <> j -> expired_log cfg i <> Some (id_as_u64 j) ->
  (forall k, c1 !! DatabaseKey_TrieLog k = c !! DatabaseKey_TrieLog k) ->
  log_of (committed_contents cfg b i c1) j = log_of c j.
Proof. intros Hi Hj Hne He Hc. rewrite committed_log_other by (done || congruence). by apply log_of_ext. Qed.

Lemma log_of_commit_in b c c1 (w : ID * writes) (j : ID) :
  id_wf w.1 -> (forall e, expired_log cfg w.1 = Some e -> ~ in_range e) -> id_wf j -> in_range (id_as_u64 j) ->
  id_as_u64 w.1 <> id_as_u64 j -> (forall k, c1 !! DatabaseKey_TrieLog k = c !! DatabaseKey_TrieLog k) ->
  log_of (committed_contents cfg b w.1 c1) j = log_of c j.
Proof. intros Hw He Hj Hin Hne Hc. apply log_of_commit; [done..|congruence| |done]. intros Hex. by apply (He _ Hex). Qed.

(** Logs missing from [k] on, and snapshots after [id]. *)
Definition unlogged (k : nat) c : Prop :=
  forall j : ID, id_wf j -> (id_as_u64 id + Z.of_nat k <= id_as_u64 j < id_as_u64 id + Z.of_nat n)%Z -> log_of c j = ∅.
Definition before_run S c : Prop := unlogged 0 c /\ forall j, j ∈ S.*1 -> (id_as_u64 id < id_as_u64 j)%Z.

Lemma wp_before S self c ms ws :
  rests cfg S self c ms ids -> before_run S c -> history_ok ht ids ms ws -> Forall outside ws -> forall rest, room cfg S (ws ++ rest) ->
  wp (for_each ws persist_window) self (fun self' _ => exists S' c',
    rests cfg S' self' c' (history_maps ws ms) ids /\ before_run S' c' /\ room cfg S' rest).
Proof.
  intros Hr Hb Hok Hws rest. revert S self c ms Hr Hb Hok. induction Hws as [|w ws [Hwf Hne Hmod Hex] Hws IH];
    intros S self c ms Hr Hb Hok Hroom; cbn [for_each]; [wp_step; by exists S, c|].
  destruct Hok as [Hw Hok]. wp_step.
  eapply wp_mono; [|exact (wp_persist_window cfg S self c ms ids w Hr Hw Hint Hwf (room_one cfg S w _ Hroom))]. cbn beta.
  intros self1 _ (c1 & b & Hr1 & _ & Hlog). eapply wp_mono; [|eapply IH; [exact Hr1| |exact Hok|by eapply room_cons]].
  { cbn beta. intros self2 _ (S2 & c2 & Hr2 & Hb2 & Hroom2). by exists S2, c2. }
  destruct Hb as [Hno Hold]. split.
  - intros j Hj Hin. assert (in_range (id_as_u64 j)) as Hwj by (unfold in_range; lia).
    rewrite (log_of_commit_in b c) by (done || (intros Heq; apply Hne; by rewrite Heq)). by apply Hno.
  - unfold snaps_after. case_decide; [|done]. destruct (rest_snaps _ _ _ _ _ _ Hr) as [_ Hall].
    intros j [->|Hj]%btree_insert_fst; [by apply Hmod|by apply Hold|done|done].
Qed.

(** The commits of the run so far led from the contents [c0] through [cs]: the
    logs [bs] undo them, from the snapshot of [id], which is the oldest. *)
Record in_run S c c0 cs : Prop := {
  run_logs : exists bs t, (id, t) ∈ S /\
    Forall2 (fun j b => holds_log c (from_u64 (ID := ID) j) b) (seqZ (id_as_u64 id) (Z.of_nat (length cs))) bs /\
    forall key, undo_all bs (view_of t) key = view_of (before_last_change (fun c => view_of c key) c0 cs) key;
  run_left : unlogged (length cs) c;
  run_snaps : forall j, j ∈ S.*1 -> (id_as_u64 id <= id_as_u64 j)%Z;
}.

(** A commit keeps the logs of the other commits of the run. *)
Lemma run_logs_commit b' c c1 (w : ID * writes) k bs :
  id_wf w.1 -> (forall e, expired_log cfg w.1 = Some e -> ~ in_range e) ->
  (forall k, c1 !! DatabaseKey_TrieLog k = c !! DatabaseKey_TrieLog k) ->
  k <= n -> ~ (id_as_u64 id <= id_as_u64 w.1 < id_as_u64 id + Z.of_nat k)%Z ->
  Forall2 (fun j b => holds_log c (from_u64 (ID := ID) j) b) (seqZ (id_as_u64 id) (Z.of_nat k)) bs ->
  Forall2 (fun j b => holds_log (committed_contents cfg b' w.1 c1) (from_u64 (ID := ID) j) b) (seqZ (id_as_u64 id) (Z.of_nat k)) bs.
Proof.
  intros Hw He Hc Hk Hne Hlogs. apply Forall2_same_length_lookup_2; [by eapply Forall2_length|].
  intros p j b1 Hj Hb1. pose proof (Forall2_lookup_lr _ _ _ _ _ _ Hlogs Hj Hb1) as Hl. cbn beta in Hl.
  apply lookup_seqZ in Hj as [-> Hp]. pose proof (id_as_u64_range id Hid).
  unfold holds_log. rewrite (log_of_commit_in b' c); [exact Hl|done..| | | |done].
  - apply from_u64_wf. lia.
  - unfold in_range. rewrite id_as_u64_from_u64; lia.
  - rewrite id_as_u64_from_u64; lia.
Qed.

(** The first commit of the run. *)
Lemma wp_run_first S self c ms ws rest :
  rests cfg S self c ms ids -> before_run S c -> window ht ids ms ws -> 0 < n -> takes_snapshot cfg (id, ws) ->
  room cfg S ((id, ws) :: rest) ->
  wp (persist_window (id, ws)) self (fun self' _ => exists S' c',
    rests cfg S' self' c' (window_maps ms ws) ids /\ in_run S' c' c [c'] /\ room cfg S' rest).
Proof.
  intros Hr [Hno Hold] Hw Hn Hmod Hroom.
  eapply wp_mono; [|exact (wp_persist_window cfg S self c ms ids (id, ws) Hr Hw Hint Hid (room_one cfg S _ _ Hroom))]. cbn [fst snd].
  intros self1 _ (c1 & b & Hr1 & Hrec & Hlog). set (c' := committed_contents cfg b id c1) in *.
  exists (snaps_after cfg S (id, ws) c'), c'. split; [exact Hr1|]. pose proof (rest_snaps _ _ _ _ _ _ Hr) as Hwf.
  split; [|by eapply room_cons]. rewrite snaps_after_takes by done. cbn [fst]. split.
  - exists [b], c'. split_and!.
    + apply btree_insert_elem; [done..|by left].
    + cbn [length]. rewrite seqZ_cons, seqZ_nil by lia. constructor; [|done]. rewrite from_u64_as_u64 by done.
      apply committed_log; [done|done|]. rewrite (log_of_ext c c1) by done. apply Hno; [done|lia].
    + intros key. cbn [undo_all fold_left]. by rewrite (recorded_undo b (view_of c) (view_of c') key Hrec), before_last_change_one.
  - intros j Hj Hin. cbn [length] in Hin. unfold c'. rewrite (log_of_commit b c) by
      (done || (intros ->; lia) || (intros He; pose proof (expired_log_range _ _ _ Hid He); lia)). apply Hno; [done|lia].
  - intros j [->|Hj]%btree_insert_fst; [cbn; lia| |by destruct Hwf|done]. specialize (Hold j Hj). lia.
Qed.

(** The next commit of the run. *)
Lemma wp_run_next S self c ms c0 cs w rest :
  rests cfg S self c ms ids -> in_run S c c0 cs -> last (c0 :: cs) = Some c -> window ht ids ms w.2 -> 0 < length cs < n ->
  inside (length cs) w -> room cfg S (w :: rest) ->
  wp (persist_window w) self (fun self' _ => exists S' c',
    rests cfg S' self' c' (window_maps ms w.2) ids /\ in_run S' c' c0 (cs ++ [c']) /\ room cfg S' rest).
Proof.
  intros Hr [(b0 & t & Hin & Hlogs & Hundo) Hleft Hsnaps] Hlast Hw Hlen [Hwf Hnum Hex] Hroom.
  eapply wp_mono; [|exact (wp_persist_window cfg S self c ms ids w Hr Hw Hint Hwf (room_one cfg S _ _ Hroom))]. cbn beta.
  intros self1 _ (c1 & b & Hr1 & Hrec & Hlog). set (c' := committed_contents cfg b w.1 c1) in *.
  exists (snaps_after cfg S w c'), c'. split; [exact Hr1|]. pose proof (rest_snaps _ _ _ _ _ _ Hr) as Hsw.
  split; [|by eapply room_cons]. split.
  - exists (b0 ++ [b]), t. split_and!.
    + unfold snaps_after. case_decide; [|done]. apply btree_insert_elem; [done..|]. right. split; [|done]. intros Heq. rewrite <- Heq in Hnum. lia.
    + rewrite length_app, Nat2Z.inj_add, seqZ_app by lia. apply Forall2_app; [by apply (run_logs_commit b c); (done || lia)|].
      cbn [length]. rewrite seqZ_cons, seqZ_nil by lia. constructor; [|done]. rewrite <- Hnum, from_u64_as_u64 by done.
      apply committed_log; [done..|]. rewrite (log_of_ext c c1) by done. apply Hleft; [done|lia].
    + intros key. rewrite undo_all_snoc, (recorded_undo_changed b (view_of c) (view_of c')) by done.
      unfold before_last_change in *. rewrite (before_last_snoc _ _ _ _ _ c) by done. rewrite Hundo. by case_decide.
  - intros j Hj Hjn. rewrite length_app in Hjn. cbn [length] in Hjn. unfold c'.
    rewrite (log_of_commit_in b c) by (done || (unfold in_range; lia) || lia). apply Hleft; [done|lia].
  - unfold snaps_after. case_decide; [|done]. intros j [->|Hj]%btree_insert_fst; [lia|by apply Hsnaps|by destruct Hsw|done].
Qed.

(** What is committed after the run. *)
Lemma wp_run_after S self c ms c0 cs ws :
  rests cfg S self c ms ids -> in_run S c c0 cs -> length cs = n -> history_ok ht ids ms ws -> Forall outside ws -> room cfg S ws ->
  wp (for_each ws persist_window) self (fun self' _ => exists S' c',
    rests cfg S' self' c' (history_maps ws ms) ids /\ in_run S' c' c0 cs).
Proof.
  intros Hr Ha Hn Hok Hws. revert S self c ms Hr Ha Hok. induction Hws as [|w ws [Hwf Hne Hmod Hex] Hws IH];
    intros S self c ms Hr Ha Hok Hroom; cbn [for_each]; [wp_step; by exists S, c|].
  destruct Hok as [Hw Hok]. wp_step.
  eapply wp_mono; [|exact (wp_persist_window cfg S self c ms ids w Hr Hw Hint Hwf (room_one cfg S w _ Hroom))]. cbn beta.
  intros self1 _ (c1 & b & Hr1 & _ & Hlog). eapply wp_mono; [|eapply IH; [exact Hr1| |exact Hok|by eapply room_cons]].
  { cbn beta. intros self2 _ (S2 & c2 & Hr2 & Ha2). by exists S2, c2. }
  destruct Ha as [(b0 & t & Hin & Hlogs & Hundo) Hleft Hold]. pose proof (rest_snaps _ _ _ _ _ _ Hr) as Hsw. unfold snaps_after.
  unfold in_range in Hne. split.
  - exists b0, t. split_and!; [|apply (run_logs_commit b c); (done || lia)|done].
    case_decide; [apply btree_insert_elem; [done..|right; split; [|done]]|done].
    intros Heq. rewrite <- Heq in *. specialize (Hmod ltac:(done)). lia.
  - intros j Hj Hjn. lia.
  - case_decide; [|done]. intros j [->|Hj]%btree_insert_fst; [|by apply Hold|by destruct Hsw|done].
    specialize (Hmod ltac:(done)). lia.
Qed.

(** ** The whole run *)

(** The maps after each commit of a history. *)
Fixpoint maps_after ms (hist : list (ID * writes)) : list (ByteVec -> gmap BitVec F) :=
  match hist with
  | [] => []
  | w :: hist => let ms' := window_maps ms w.2 in ms' :: maps_after ms' hist
  end.

Lemma maps_after_length ms hist : length (maps_after ms hist) = length hist.
Proof. revert ms. induction hist as [|w hist IH]; intros ms; cbn; [done|]. by rewrite IH. Qed.

Lemma maps_after_snoc ms hist (w : ID * writes) : maps_after ms (hist ++ [w]) = maps_after ms hist ++ [history_maps (hist ++ [w]) ms].
Proof. revert ms. induction hist as [|w' hist IH]; intros ms; cbn; [done|]. by rewrite IH. Qed.

(** The commits of the run from the [k]th on, each with its number. *)
Fixpoint numbered (k : nat) (ws : list (ID * writes)) : Prop :=
  match ws with
  | [] => True
  | w :: ws => inside k w /\ numbered (Datatypes.S k) ws
  end.

(** The contents of a storage at rest with the maps. *)
Definition holds_maps c ms : Prop := exists S self, storage_model (LawfulDatabase0 := snap_lawful max S) ht self c ms ms ids.

Lemma rests_holds_maps S self c ms : rests cfg S self c ms ids -> holds_maps c ms.
Proof. intros [Hm _ _ _ _]. by exists S, self. Qed.

Lemma wp_run_rest S self c ms c0 cs ws rest :
  rests cfg S self c ms ids -> in_run S c c0 cs -> last (c0 :: cs) = Some c -> history_ok ht ids ms ws ->
  0 < length cs -> length cs + length ws <= n -> numbered (length cs) ws -> room cfg S (ws ++ rest) ->
  wp (for_each ws persist_window) self (fun self' _ => exists S' c' cs',
    rests cfg S' self' c' (history_maps ws ms) ids /\ in_run S' c' c0 (cs ++ cs') /\ Forall2 holds_maps cs' (maps_after ms ws) /\
    room cfg S' rest).
Proof.
  revert S self c ms cs. induction ws as [|w ws IH]; intros S self c ms cs Hr Ha Hlast Hok Hpos Hlen Hnum Hroom; cbn [for_each].
  { wp_step. exists S, c, []. rewrite app_nil_r. split_and!; (done || constructor). }
  destruct Hok as [Hw Hok], Hnum as [Hnw Hnum]. cbn [length] in Hlen. wp_step.
  eapply wp_mono; [|eapply wp_run_next; [exact Hr|exact Ha|done|done|lia|done|exact Hroom]]. cbn beta.
  intros self1 _ (S1 & c1 & Hr1 & Ha1 & Hroom1).
  eapply wp_mono; [|eapply IH; [exact Hr1|exact Ha1| |exact Hok|rewrite length_app; cbn; lia..| |exact Hroom1]].
  - cbn beta. intros self2 _ (S2 & c2 & cs2 & Hr2 & Ha2 & Hs2 & Hroom2). exists S2, c2, (c1 :: cs2).
    rewrite <- app_assoc in Ha2. split_and!; [done..| |done]. constructor; [by eapply rests_holds_maps|done].
  - by rewrite app_comm_cons, last_snoc.
  - rewrite length_app. cbn [length]. by rewrite Nat.add_1_r.
Qed.

(** A history on a new storage with the run in it. *)
Lemma wp_history_with_run (db : DB) c bcfg (pre : list (ID * writes)) ws run post :
  db_holds (LawfulDatabase := snap_lawful max []) db c -> unused c ids -> unlogged 0 c ->
  (forall i, i ∈ ids -> identifier_safe i ht) -> separated ht ids -> KeyValueDBConfig_from bcfg = cfg ->
  let hist := pre ++ ((id, ws) :: run) ++ post in
  history_ok ht ids (fun _ => ∅) hist -> takes_snapshot cfg (id, ws) -> length ((id, ws) :: run) = n ->
  Forall outside pre -> numbered 1 run -> Forall outside post -> room cfg [] hist ->
  wp (for_each hist persist_window) (BonsaiStorage_new db bcfg ht) (fun self _ => exists S c' c0 cs,
    rests cfg S self c' (history_maps hist (fun _ => ∅)) ids /\ in_run S c' c0 cs /\
    holds_maps c0 (history_maps pre (fun _ => ∅)) /\
    Forall2 holds_maps cs (maps_after (history_maps pre (fun _ => ∅)) ((id, ws) :: run))).
Proof.
  intros Hdb Hu Hno Hsafe Hsep Hcfg hist (Hw1 & [Hw Hw2]%history_ok_app)%history_ok_app Hmod Hlen Hpre Hrun Hpost Hroom.
  destruct (storage_model_new (LawfulDatabase0 := snap_lawful max []) (F := F) (K := K) (M := M) (ID := ID) ht c db bcfg ids) as [Hm Hclean];
    [done..|by intros i x Hi; apply Hu|by intros i x Hi; apply Hu|].
  assert (rests cfg [] (BonsaiStorage_new db bcfg ht) c (fun _ => ∅) ids) as Hr by (split; [done..|by split; constructor]).
  apply wp_for_each_app. eapply wp_mono; [|eapply wp_before; [exact Hr| |done|done|exact Hroom]].
  2:{ split; [done|]. by intros j ?%elem_of_nil. }
  cbn beta. intros s0 _ (S0 & c0 & Hr0 & Hb0 & Hroom0). apply wp_for_each_app. cbn [for_each]. wp_step.
  destruct Hw as [Hwin Hw]. cbn [length] in Hlen.
  eapply wp_mono; [|eapply wp_run_first; [exact Hr0|exact Hb0|exact Hwin|lia|exact Hmod|exact Hroom0]]. cbn beta.
  intros s1 _ (S1 & c1 & Hr1 & Ha1 & Hroom1).
  eapply wp_mono; [|eapply wp_run_rest; [exact Hr1|exact Ha1|done|exact Hw|cbn; lia..|exact Hrun|exact Hroom1]]. cbn beta.
  intros s2 _ (S2 & c2 & cs & Hr2 & Ha2 & Hs2 & Hroom2).
  eapply wp_mono; [|eapply wp_run_after; [exact Hr2|exact Ha2| | |exact Hpost|exact Hroom2]]. cbn beta.
  - intros s3 _ (S3 & c3 & Hr3 & Ha3). exists S3, c3, c0, (c1 :: cs). split_and!; [|exact Ha3|by eapply rests_holds_maps|].
    + unfold hist, history_maps in *. rewrite !fmap_app, !fold_left_app. exact Hr3.
    + constructor; [by eapply rests_holds_maps|exact Hs2].
  - rewrite length_app. cbn. apply Forall2_length in Hs2. by rewrite Hs2, maps_after_length.
  - exact Hw2.
Qed.
End Runs.
