(* ===== verification/StateCorrect.v ===== *)
(** * Past states of a storage

    [get_transactional_state] on a storage over a database with snapshots. What
    did not change since the first snapshot's commit is as at the identifier that
    is asked for, whatever was committed since ([storage_state_unchanged]). The
    rest is not, against the documentation (the finding [transactional_state_wrong],
    [Findings.v]): for the identifier after the first snapshot the storage answers
    as before the commit of that snapshot; for a later one each key, and the root
    of each trie, is as before the last commit in between that changed it. *)
From S2P Require Import Prelude Path Id BTree Database Snapshots Error External MerkleNode Trie Changes Logs KeyValueDb Tree Iterator Update Trees Proof Storage Annot TreeInv SeekSpec SetSpec DeleteSpec TreeSpec TreeCorrect TreesSpec StorageSpec LogSpec StorageCorrect StateRuns ContentsCorrect.

Section State.
Context {F K : Type} {M : Type -> Type} {DB ID : Type}.
Context `{StarkFelt F, !LawfulFelt F, !StarkHash F, SlotMap K M, !LawfulSlotMap K M,
  !NodeCodec F K, !LawfulNodeCodec F K, BonsaiDatabase DB, LawfulId ID, HashMapIter,
  !BonsaiPersistentDatabase DB ID, !SnapshotDatabase DB ID}.
Context (ht : nat) (Hht : 0 < ht <= 255) (max : option nat).
Abbreviation writes := (list (ByteVec * (BitVec * F))).
Implicit Types (self : BonsaiStorage F K M DB ID) (c : gmap DatabaseKey ByteVec) (ms : ByteVec -> gmap BitVec F)
  (id : ID) (b : gmap TrieKey Change) (S : snapshots_of ID)
  (cs : list (gmap DatabaseKey ByteVec)) (mss : list (ByteVec -> gmap BitVec F)).

(** ** The state of a transaction *)

(** The snapshot [transaction] finds for a later identifier. *)
Lemma first_snapshot S id t next :
  id_wf id -> btree_wf S -> (id, t) ∈ S -> (forall j, j ∈ S.*1 -> (id_as_u64 id <= id_as_u64 j)%Z) ->
  id_wf next -> (id_as_u64 id < id_as_u64 next)%Z ->
  head (btree_range_to Id_ltb next S) = Some (id, t).
Proof.
  intros Hid Hwf Hin Hold Hn Hnext. pose proof (btree_range_to_oldest next _ Hwf Hn) as Hr.
  assert (id ∈ S.*1) as Hin1 by (apply list_elem_of_fmap; by exists (id, t)).
  destruct (head _) as [[i v]|]; [|specialize (Hr id Hin1); lia].
  destruct Hr as (Hiv & Hlt & Hmin). assert (i ∈ S.*1) as Hi1 by (apply list_elem_of_fmap; by exists (i, v)).
  assert (id_wf i) as Hiw by (destruct Hwf as [_ Hall]; rewrite Forall_forall in Hall; by apply Hall).
  specialize (Hold i Hi1). specialize (Hmin id Hin1).
  assert (i = id) as ->.
  { rewrite <- (from_u64_as_u64 i Hiw), <- (from_u64_as_u64 id Hid). f_equal. lia. }
  enough (v = t) as -> by done. eapply btree_functional; eauto.
Qed.

(** The entry of the root of a map's trie. *)
Definition root_entry (m : gmap BitVec F) : option ByteVec := Node_encode_fields <$> stored_nodes (K := K) (trie_of m) !! [].

(** The root of a trie is a node, or there is none. *)
Lemma root_entry_new (m : gmap BitVec F) i (kv : KeyValueDB (Transaction DB ID) ID) d :
  map_wf ht m -> kv_view kv d -> d (node_key i []) = root_entry m ->
  MerkleTree_root_hash (MerkleTree_new (F := F) (K := K) (M := M) i ht) kv = Ok (map_root_hash m).
Proof.
  intros Hwf Hkv Hd. set (t := MerkleTree_new (F := F) (K := K) (M := M) i ht).
  change i with t.(identifier) in Hd. unfold MerkleTree_root_hash. cbn [root_node t MerkleTree_new].
  apply trie_of_rep in Hwf as [Hwf _]. unfold map_root_hash, root_entry, stored_nodes in *.
  destruct (trie_of m) as [u|]; cbn [from_option] in Hwf |- *.
  - assert ((list_to_map (trie_nodes (F := F) (K := K) [] u) : gmap BitVec (Node F K)) !! [] = Some (tnode [] u) /\ is_leaf u = false) as [Hu Hl].
    { destruct u; cbn in Hwf |- *; [lia|split; [by apply lookup_insert_eq|done]..]. }
    rewrite Hu in Hd. cbn [fmap option_fmap option_map] in Hd.
    rewrite (get_branch_stored kv d Hkv t [] u ht) by (done || cbn; lia). by destruct u.
  - assert (d (node_key t.(identifier) []) = None) as Hn by exact Hd.
    rewrite (get_branch_none kv d Hkv t []); [done|]. rewrite Hn. by intros [].
Qed.

(** What a new storage over a past state answers: its point reads suffice. *)
Lemma new_state_reads (txn : Transaction DB ID) t tcfg (created : ID) :
  point_holds txn t ->
  exists st, BonsaiStorage_new_from_transactional_state (F := F) (K := K) (M := M) txn tcfg ht created = Ok st /\
    (forall i m, map_wf ht m -> view_of t (node_key i []) = root_entry m -> BonsaiStorage_root_hash st i = Ok (map_root_hash m)) /\
    (forall i k (x : option F), view_of t (flat_key i k) = Felt_encode <$> x ->
      BonsaiStorage_get st i k = Ok x /\ BonsaiStorage_contains st i k = Ok (bool_decide (is_Some x))).
Proof.
  intros Ht. eexists. split; [reflexivity|].
  set (kv := KeyValueDB_new txn (KeyValueDBConfig_from tcfg) (Some created)).
  assert (kv_view kv (view_of t)) as Hkv.
  { intros key. unfold KeyValueDB_get, from_DatabaseError. by rewrite (point_get_spec _ _ _ Ht). }
  split; [intros i m Hwf Hv; by apply (root_entry_new m i kv (view_of t))|].
  intros i k x Hv. split.
  - change (MerkleTree_get (MerkleTree_new (F := F) (K := K) (M := M) i ht) kv k = Ok x).
    unfold MerkleTree_get. cbn [cache_leaf_modified MerkleTree_new]. rewrite lookup_empty.
    fold (flat_key (MerkleTree_new (F := F) (K := K) (M := M) i ht).(identifier) k). rewrite Hkv. cbn [identifier MerkleTree_new].
    rewrite Hv. cbn. destruct x as [x|]; [|done]. cbn. by rewrite Felt_decode_unwrap_encode.
  - change (MerkleTree_contains (MerkleTree_new (F := F) (K := K) (M := M) i ht) kv k = Ok (bool_decide (is_Some x))).
    unfold MerkleTree_contains. cbn [cache_leaf_modified MerkleTree_new]. rewrite lookup_empty.
    fold (flat_key (MerkleTree_new (F := F) (K := K) (M := M) i ht).(identifier) k). cbn [identifier MerkleTree_new].
    unfold KeyValueDB_contains, from_DatabaseError. rewrite (point_contains_spec _ _ _ Ht).
    cbn. f_equal. apply bool_decide_ext. rewrite <- (fmap_is_Some Felt_encode x), <- Hv. done.
Qed.

(** ** [get_transactional_state] after a run of commits *)
Section Run.
Context (cfg : KeyValueDBConfig) (ids : gset ByteVec) (id : ID).
Context (Hkeep : keeps_logs cfg) (Hint : cfg.(snapshot_interval) <> 0%Z) (Hid : id_wf id).
Abbreviation holds_maps := (holds_maps (K := K) (M := M) (DB := DB) (ID := ID) ht max ids).

(** The transaction is in the state that reverting the logs leads to. *)
Lemma state_after_run S self c ms c0 cs tcfg next :
  rests ht max cfg S self c ms ids -> in_run id (length cs) S c c0 cs -> 0 < length cs ->
  id_wf next -> id_as_u64 next = (id_as_u64 id + Z.of_nat (length cs))%Z ->
  exists st txn t, BonsaiStorage_get_transactional_state self next tcfg = Ok (Some st) /\
    BonsaiStorage_new_from_transactional_state (F := F) (K := K) (M := M) txn tcfg ht next = Ok st /\ point_holds txn t /\
    forall key, view_of t key = view_of (before_last_change (fun c => view_of c key) c0 cs) key.
Proof.
  intros Hr [(bs & t & Hin & Hlogs & Hundo) _ Hold] Hpos Hn Hnext. pose proof (tm_db _ _ _ _ _ _ (rest_model _ _ _ _ _ _ _ _ Hr)) as Hdb.
  pose proof (snap_open_spec max S _ _ next Hdb) as Hopen.
  rewrite (first_snapshot S id t next Hid (rest_snaps _ _ _ _ _ _ _ _ Hr) Hin Hold Hn) in Hopen by lia. destruct Hopen as (txn0 & Hopen & Ht0).
  destruct (get_transaction_undoes (LawfulDatabase0 := snap_lawful max S) self.(tries).(trees_db) c next id txn0 t bs)
    as (txn & t' & Hget & Ht & Hv); [exact Hdb|exact Hopen|exact Ht0| |].
  - rewrite Hnext. by replace (id_as_u64 id + Z.of_nat (length cs) - id_as_u64 id)%Z with (Z.of_nat (length cs)) by lia.
  - eexists _, txn, t'. split_and!; [|reflexivity|done|intros key; by rewrite Hv, Hundo].
    unfold BonsaiStorage_get_transactional_state. rewrite Hget. cbn [mbind outcome_bind].
    by rewrite (tm_height _ _ _ _ _ _ (rest_model _ _ _ _ _ _ _ _ Hr)).
Qed.

(** The entries of the contents of a storage at rest. *)
Lemma holds_maps_entries c ms i : holds_maps c ms -> i ∈ ids ->
  map_wf ht (ms i) /\ view_of c (node_key i []) = root_entry (ms i) /\
  forall k, length k = ht -> view_of c (flat_key i k) = Felt_encode <$> ms i !! k.
Proof.
  intros (S & self & Hm) Hi. split_and!.
  - by eapply (storage_map_wf (LawfulDatabase0 := snap_lawful max S) ht).
  - eapply (storage_nodes_view (LawfulDatabase0 := snap_lawful max S) ht); [done..|cbn; lia].
  - intros k Hk. by eapply (storage_flat_view (LawfulDatabase0 := snap_lawful max S) ht).
Qed.

(** Each key, and the root of each trie, as before its last change. *)
Definition answers_before_change (st : BonsaiStorage F K M (Transaction DB ID) ID) ms mss : Prop :=
  forall i, i ∈ ids ->
    BonsaiStorage_root_hash st i = Ok (map_root_hash (before_last_change (fun ms => root_entry (ms i)) ms mss i)) /\
    forall k, length k = ht ->
      BonsaiStorage_get st i k = Ok (before_last_change (fun ms => ms i !! k) ms mss i !! k) /\
      BonsaiStorage_contains st i k = Ok (bool_decide (is_Some (before_last_change (fun ms => ms i !! k) ms mss i !! k))).

Lemma before_change_holds_maps c0 ms0 cs mss (key : TrieKey) {B} `{EqDecision B} (g : (ByteVec -> gmap BitVec F) -> B) (h : B -> option ByteVec) :
  Inj (=) (=) h -> (forall c ms, holds_maps c ms -> view_of c key = h (g ms)) ->
  holds_maps c0 ms0 -> Forall2 holds_maps cs mss ->
  holds_maps (before_last_change (fun c => view_of c key) c0 cs) (before_last_change g ms0 mss).
Proof.
  intros Hh Hg Hc0 Hcs. unfold before_last_change.
  rewrite <- (before_last_fmap g (fun ms => h (g ms)) h) by done.
  by apply (before_last_Forall2 holds_maps).
Qed.

Lemma run_answers self c0 ms0 cs mss txn t tcfg (created : ID) st :
  BonsaiStorage_new_from_transactional_state (F := F) (K := K) (M := M) txn tcfg ht created = Ok st -> point_holds txn t ->
  (forall key, view_of t key = view_of (before_last_change (fun c => view_of c key) c0 cs) key) ->
  holds_maps c0 ms0 -> Forall2 holds_maps cs mss -> answers_before_change st ms0 mss.
Proof.
  intros Hst Ht Hv Hc0 Hcs. destruct (new_state_reads txn t tcfg created Ht) as (st' & Hst' & Hroot & Hget).
  assert (st' = st) as -> by congruence. intros i Hi. split.
  - assert (holds_maps (before_last_change (fun c => view_of c (node_key i [])) c0 cs)
      (before_last_change (fun ms => root_entry (ms i)) ms0 mss)) as Hb.
    { apply (before_change_holds_maps c0 ms0 cs mss (node_key i []) _ (fun x => x));
        [intros ???|intros c ms Hs; by apply holds_maps_entries|..]; done. }
    apply Hroot; [|rewrite Hv]; by eapply holds_maps_entries.
  - intros k Hk. apply Hget. rewrite Hv. eapply holds_maps_entries; [|exact Hi|exact Hk].
    apply (before_change_holds_maps c0 ms0 cs mss (flat_key i k) _ (fmap Felt_encode)); [apply _|intros c ms Hs; by apply holds_maps_entries|done..].
Qed.
End Run.

(** ** Properties *)
Context (cfg : KeyValueDBConfig) (ids : gset ByteVec) (id : ID).
Context (Hkeep : keeps_logs cfg) (Hint : cfg.(snapshot_interval) <> 0%Z) (Hid : id_wf id).

(** Another commit: its snapshot comes after that of [id], and it does not
    discard the log of [id]. *)
Definition other_commit (w : ID * writes) : Prop :=
  id_wf w.1 /\ w.1 <> id /\ (takes_snapshot cfg w -> (id_as_u64 id < id_as_u64 w.1)%Z) /\
  expired_log cfg w.1 <> Some (id_as_u64 id).

Lemma other_outside w : other_commit w -> outside cfg id 1 w.
Proof.
  intros (Hw & Hne & Hs & He). split; [done| |done|].
  - unfold in_range. intros Hin. apply Hne. rewrite <- (from_u64_as_u64 w.1 Hw), <- (from_u64_as_u64 id Hid). f_equal. lia.
  - unfold in_range. intros e Hex Hin. apply He. rewrite Hex. f_equal. lia.
Qed.

(** What the code returns for the identifier after the first snapshot: on a
    storage over a database that keeps its snapshots, after any history of
    commits in which that of [id] takes the oldest snapshot and its log has not
    expired, [get_transactional_state] for the identifier after [id] returns a
    storage that answers as the maps before the commit of [id]; the storage itself
    answers as the maps at the end of the history. [HashMapDb] keeps every
    snapshot, RocksDB as many as it is configured to. *)
Theorem storage_state_before_snapshot (db : DB) c bcfg tcfg (pre : list (ID * writes)) ws post next :
  db_holds (LawfulDatabase := snap_lawful max []) db c -> unused c ids -> log_of c id = ∅ ->
  (forall i, i ∈ ids -> identifier_safe i ht) -> separated ht ids ->
  KeyValueDBConfig_from bcfg = cfg -> history_ok ht ids (fun _ => ∅) (pre ++ (id, ws) :: post) -> takes_snapshot cfg (id, ws) ->
  Forall other_commit pre -> Forall other_commit post -> room max cfg [] (pre ++ (id, ws) :: post) ->
  id_wf next -> id_as_u64 next = (id_as_u64 id + 1)%Z ->
  wp (for_each (pre ++ (id, ws) :: post) persist_window) (BonsaiStorage_new db bcfg ht) (fun self _ =>
    answers ht self (history_maps (pre ++ (id, ws) :: post) (fun _ => ∅)) ids /\
    exists st, BonsaiStorage_get_transactional_state self next tcfg = Ok (Some st) /\
      answers ht st (history_maps pre (fun _ => ∅)) ids).
Proof.
  intros Hdb Hu Hno Hsafe Hsep Hcfg Hok Hmod Hpre Hpost Hroom Hn Hnext. pose proof (id_as_u64_range next Hn).
  assert (forall j, id_wf j -> (id_as_u64 id <= id_as_u64 j < id_as_u64 id + 1)%Z -> j = id) as Hone.
  { intros j Hj Hin. rewrite <- (from_u64_as_u64 j Hj), <- (from_u64_as_u64 id Hid). f_equal. lia. }
  eapply wp_mono; [|eapply (wp_history_with_run ht Hht max cfg ids id 1 Hkeep Hint Hid ltac:(lia) db c bcfg pre ws [] post)]; try done.
  2:{ intros j Hj Hin. rewrite (Hone j) by (done || lia). done. }
  2,3: by eapply Forall_impl; [|apply other_outside].
  cbn beta. intros self _ (S & c' & c0 & cs & Hr & Hrun & Hc0 & Hcs).
  split; [apply (storage_at_answers (LawfulDatabase0 := snap_lawful max S) ht Hht); split; [exists c'; apply Hr|apply Hr]|].
  pose proof (Forall2_length _ _ _ Hcs) as Hlen. cbn in Hlen. rewrite <- Hlen in Hrun.
  edestruct (state_after_run cfg ids id Hid) as (st & txn & t & Hget & Hst & Ht & Hv); [exact Hr|exact Hrun|lia|exact Hn|lia|].
  exists st. split; [exact Hget|]. eapply (run_answers ids) in Hv; [|done..].
  intros i Hi. destruct (Hv i Hi) as [Hroot Hreads]. cbn [maps_after] in Hroot, Hreads. rewrite before_last_change_one in Hroot.
  split; [exact Hroot|]. intros k Hk. specialize (Hreads k Hk). by rewrite before_last_change_one in Hreads.
Qed.

(** What it returns for a later one mixes commits: on a storage as above,
    after a history with the consecutive commits [run], that of [id] first, none
    of whose logs has expired, [get_transactional_state] for the identifier after
    the last of them returns a storage in which each key has the value from
    before the last commit of the run that changed it (the same, when none did),
    and each trie the root from before the last commit that changed that. *)
Theorem storage_later_state (db : DB) c bcfg tcfg (pre : list (ID * writes)) ws run post next :
  let n := length ((id, ws) :: run) in let hist := pre ++ ((id, ws) :: run) ++ post in
  db_holds (LawfulDatabase := snap_lawful max []) db c -> unused c ids ->
  (forall j, id_wf j -> (id_as_u64 id <= id_as_u64 j < id_as_u64 id + Z.of_nat n)%Z -> log_of c j = ∅) ->
  (forall i, i ∈ ids -> identifier_safe i ht) -> separated ht ids ->
  KeyValueDBConfig_from bcfg = cfg -> history_ok ht ids (fun _ => ∅) hist -> takes_snapshot cfg (id, ws) ->
  Forall (outside cfg id n) pre -> numbered cfg id n 1 run -> Forall (outside cfg id n) post -> room max cfg [] hist ->
  id_wf next -> id_as_u64 next = (id_as_u64 id + Z.of_nat n)%Z ->
  wp (for_each hist persist_window) (BonsaiStorage_new db bcfg ht) (fun self _ =>
    exists st, BonsaiStorage_get_transactional_state self next tcfg = Ok (Some st) /\
      let before := history_maps pre (fun _ => ∅) in
      answers_before_change ids st before (maps_after before ((id, ws) :: run))).
Proof.
  intros n hist Hdb Hu Hno Hsafe Hsep Hcfg Hok Hmod Hpre Hrun Hpost Hroom Hn Hnext. pose proof (id_as_u64_range next Hn).
  eapply wp_mono; [|eapply (wp_history_with_run ht Hht max cfg ids id n Hkeep Hint Hid ltac:(lia) db c bcfg pre ws run post)]; try done.
  2:{ intros j Hj Hin. apply Hno; [done|lia]. }
  cbn beta. intros self _ (S & c' & c0 & cs & Hr & Hin & Hc0 & Hcs).
  assert (length cs = n) as Hlen by (rewrite (Forall2_length _ _ _ Hcs); apply maps_after_length). rewrite <- Hlen in Hin, Hnext.
  edestruct (state_after_run cfg ids id Hid) as (st & txn & t & Hget & Hst & Ht & Hv); [exact Hr|exact Hin|subst n; cbn in Hlen; lia|done..|].
  exists st. split; [exact Hget|]. by eapply (run_answers ids) in Hv.
Qed.

(** C22 Where the trie did not change, a transactional state is the state at its
    identifier: on a storage over a database that keeps its snapshots, after a
    history with consecutive commits [(id, ws) :: run ++ [(next, wn)]] of which
    the first takes the oldest snapshot, with the logs before [next] not expired,
    [get_transactional_state] for [next] returns a storage that gives every key
    which none of these commits changed its value after the commit of [next], and
    every trie which none of them changed its root hash, whatever was committed
    after [next]. *)
Theorem storage_state_unchanged (db : DB) c bcfg tcfg (pre : list (ID * writes)) ws run next wn post :
  let n := length ((id, ws) :: run) in let hist := pre ++ ((id, ws) :: run) ++ (next, wn) :: post in
  db_holds (LawfulDatabase := snap_lawful max []) db c -> unused c ids ->
  (forall j, id_wf j -> (id_as_u64 id <= id_as_u64 j < id_as_u64 id + Z.of_nat n)%Z -> log_of c j = ∅) ->
  (forall i, i ∈ ids -> identifier_safe i ht) -> separated ht ids ->
  KeyValueDBConfig_from bcfg = cfg -> history_ok ht ids (fun _ => ∅) hist -> takes_snapshot cfg (id, ws) ->
  Forall (outside cfg id n) pre -> numbered cfg id n 1 run -> Forall (outside cfg id n) ((next, wn) :: post) -> room max cfg [] hist ->
  id_as_u64 next = (id_as_u64 id + Z.of_nat n)%Z ->
  wp (for_each hist persist_window) (BonsaiStorage_new db bcfg ht) (fun self _ =>
    exists st, BonsaiStorage_get_transactional_state self next tcfg = Ok (Some st) /\
      let before := history_maps pre (fun _ => ∅) in
      let commits := (id, ws) :: run ++ [(next, wn)] in
      let at_next := history_maps (pre ++ commits) (fun _ => ∅) in
      forall i, i ∈ ids ->
        (Forall (fun ms => ms i = before i) (maps_after before commits) ->
          BonsaiStorage_root_hash st i = Ok (map_root_hash (at_next i))) /\
        forall k, length k = ht -> Forall (fun ms => ms i !! k = before i !! k) (maps_after before commits) ->
          BonsaiStorage_get st i k = Ok (at_next i !! k) /\
          BonsaiStorage_contains st i k = Ok (bool_decide (is_Some (at_next i !! k)))).
Proof.
  intros n hist Hdb Hu Hno Hsafe Hsep Hcfg Hok Hmod Hpre Hrun Hpost Hroom Hnext.
  pose proof (out_wf _ _ _ _ (Forall_inv Hpost)) as Hn.
  eapply wp_mono; [|by apply (storage_later_state db c bcfg tcfg pre ws run ((next, wn) :: post) next)].
  cbn beta zeta. intros self _ (st & Hget & Hst). exists st. split; [exact Hget|]. intros i Hi. destruct (Hst i Hi) as [Hroot Hreads].
  set (before := history_maps pre (fun _ => ∅)) in *. rewrite history_maps_app, app_comm_cons, maps_after_snoc. fold before.
  set (at_next := history_maps _ before). split.
  - rewrite Forall_app, Forall_singleton. intros [Hall ->]. rewrite Hroot, before_last_change_same; [done|].
    eapply Forall_impl; [exact Hall|]. by intros ms ->.
  - intros k Hk. rewrite Forall_app, Forall_singleton. intros [Hall Hlast]. specialize (Hreads k Hk).
    rewrite before_last_change_same in Hreads by exact Hall. by rewrite Hlast.
Qed.
End State.
