(* ===== verification/ListCorrect.v ===== *)
(** * Listing the keys of an identifier

    [get_keys] and [get_key_value_pairs] read the flat column by the prefix of
    the identifier. On a committed storage whose identifiers are not prefixes of
    each other's keys ([apart]) they return the bytes of the keys of the
    identifier's map. *)
From S2P Require Import Prelude Path Id Database Error External MerkleNode Trie Changes KeyValueDb Tree Iterator Update Trees Proof Storage Annot TreeInv SeekSpec SetSpec TreeSpec TreesSpec StorageSpec StorageCorrect ContentsCorrect.

(** No identifier is a prefix of the flat key of another. *)
Definition apart (ht : nat) (ids : gset ByteVec) : Prop :=
  forall i j k, i ∈ ids -> j ∈ ids -> i <> j -> length k = ht -> ~ i `prefix_of` j ++ bitslice_to_bytes k.

Lemma apart_length ht ids n : (forall i, i ∈ ids -> length i = n) -> apart ht ids.
Proof.
  intros Hn i j k Hi Hj Hne _ [x Hx]. apply Hne. apply app_inj_1 in Hx as [-> _]; [done|]. by rewrite !Hn.
Qed.

Section ListCorrect.
Context {F K : Type} {M : Type -> Type} {DB ID : Type}.
Context `{StarkFelt F, !LawfulFelt F, !StarkHash F, SlotMap K M, !LawfulSlotMap K M,
  !NodeCodec F K, !LawfulNodeCodec F K, BonsaiDatabase DB, !LawfulDatabase DB, Id ID, HashMapIter}.
Context (ht : nat) (Hht : 0 < ht <= 255).
Implicit Types (self : BonsaiStorage F K M DB ID) (c : gmap DatabaseKey ByteVec) (ms : ByteVec -> gmap BitVec F).

(** The flat bindings under an identifier are those of keys of the height. *)
Definition listed_key (ids : gset ByteVec) (key : TrieKey) : Prop :=
  forall i b, i ∈ ids -> key = TrieKey_Flat (i ++ b) -> exists k, length k = ht /\ b = bitslice_to_bytes k.
Definition flat_only c (i : ByteVec) : Prop :=
  forall b v, c !! DatabaseKey_Flat (i ++ b) = Some v -> exists k, length k = ht /\ b = bitslice_to_bytes k.

Lemma listed_key_insert ids i key : apart ht ids -> i ∈ ids -> insert_key ht i key -> listed_key ids key.
Proof.
  intros Hap Hi [(q & _ & ->)|(k & Hk & ->)] j b Hj; [done|]. intros [= Heq].
  destruct (decide (j = i)) as [->|Hne]; [apply app_inv_head in Heq; by exists k|].
  destruct (Hap j i k Hj Hi Hne Hk). rewrite Heq. by exists b.
Qed.

Lemma listed_only c ids i : only (listed_key ids) c -> i ∈ ids -> flat_only c i.
Proof. intros Ho Hi b v Hv. by eapply (Ho (TrieKey_Flat (i ++ b)) v). Qed.

Lemma listed_new c ids : unused c ids -> only (listed_key ids) c.
Proof. intros Hc key v Hv i b Hi ->. destruct (Hc i b Hi) as [_ Hn]. unfold view_of in Hv. cbn in Hv. congruence. Qed.

(** The flat entries of an identifier, with its prefix. *)
Definition flat_entry (i : ByteVec) (kv : BitVec * F) : ByteVec * ByteVec :=
  (i ++ bitslice_to_bytes kv.1, Felt_encode kv.2).

Lemma storage_flat_entries self c ms ids i :
  storage_model ht self c ms ms ids -> flat_only c i -> i ∈ ids ->
  exists l, db_get_by_prefix self.(tries).(trees_db).(db) (DatabaseKey_Flat i) = Ok l /\
    l ≡ₚ flat_entry i <$> map_to_list (ms i).
Proof.
  intros Hm Hflat Hi. pose proof (storage_base ht _ _ _ _ _ _ Hm Hi) as [_ Hf _ _ _].
  destruct (db_get_by_prefix_spec _ _ (DatabaseKey_Flat i) (storage_db ht _ _ _ _ _ Hm)) as (l & Hget & Hl).
  exists l. split; [done|]. rewrite Hl. symmetry.
  assert (forall k v, (k, v) ∈ map_to_list (ms i) -> length k = ht) as Hlen.
  { intros k v Hkv%elem_of_map_to_list. by destruct (storage_map_wf ht _ _ _ _ _ Hm Hi k v Hkv). }
  apply (prefix_entries_perm (DatabaseKey_Flat i)).
  - apply NoDup_fmap_2_strong; [|apply NoDup_map_to_list]. intros [k v] [k' v'] Hx Hy [= Heq%app_inv_head _].
    apply (bytes_inj ht Hht) in Heq as ->; [|by eapply Hlen..].
    apply elem_of_map_to_list in Hx, Hy. congruence.
  - intros s v. cbn [DatabaseKey_as_slice DatabaseKey_with]. rewrite list_elem_of_fmap. split.
    + intros ([k w] & [= -> ->] & Hkv). split; [by eexists|]. specialize (Hf k (Hlen k w Hkv)).
      apply elem_of_map_to_list in Hkv. rewrite Hkv in Hf. exact Hf.
    + intros [[b ->] Hv]. destruct (Hflat b v Hv) as (k & Hk & ->). specialize (Hf k Hk).
      unfold view_of in Hf. cbn in Hf. rewrite Hv in Hf. destruct (ms i !! k) as [w|] eqn:Hw; [|done]. injection Hf as ->.
      exists (k, w). split; [done|]. by apply elem_of_map_to_list.
Qed.

Lemma strip_flat_key i k : length k = ht -> strip_identifier i (i ++ bitslice_to_bytes k) = Some (bits_to_bytes k).
Proof.
  intros Hk. assert (k <> []) as Hne by (intros ->; cbn in Hk; lia).
  rewrite bitslice_to_bytes_eq, Path_encode_eq by done. unfold strip_identifier. rewrite length_app. cbn [length].
  rewrite decide_True by lia. rewrite drop_app_ge by lia. by replace (length i + 1 - length i) with 1 by lia.
Qed.

End ListCorrect.
