(* ===== verification/ProofSpec.v ===== *)
(** * Soundness, completeness and termination of proof verification

    A value that [verify_proof] accepts under the root hash of a trie is the
    value the trie binds to the key, unless the proof holds a forged node: one
    that differs from a node of the trie and has its hash. Conversely the nodes
    on the key's path are a proof. *)
From S2P Require Import Prelude Path Id Database Error External MerkleNode Trie Changes KeyValueDb Tree Iterator Update Trees Proof.

Section ProofSpec.
Context {F : Type} `{StarkFelt F, !StarkHash F}.
Implicit Types (t : trie F) (P : gmap F (ProofNode F)) (cache : gset F).

(** The proof node of a trie node, and those of a trie. *)
Definition pnode t : option (ProofNode F) :=
  match t with
  | Leaf _ => None
  | Bin l r => Some (ProofNode_Binary (trie_hash l) (trie_hash r))
  | Edg p c => Some (ProofNode_Edge (trie_hash c) p)
  end.

Fixpoint subtries t : list (trie F) :=
  t :: match t with Leaf _ => [] | Bin l r => subtries l ++ subtries r | Edg _ c => subtries c end.

(** The nodes on the path of a key. *)
Fixpoint on_path t (k : BitVec) : list (trie F) :=
  t :: match t with
       | Leaf _ => []
       | Bin l r => match k with [] => [] | b :: k => on_path (if b then r else l) k end
       | Edg p c => if decide (p `prefix_of` k) then on_path c (drop (length p) k) else []
       end.

(** The proof binds the hash of a node of [t] to another node with this hash. *)
Definition forged P t : Prop :=
  exists t' n n', t' ∈ subtries t /\ P !! trie_hash t' = Some n /\ pnode t' = Some n' /\ n <> n' /\
    ProofNode_hash (E := ProofVerificationError F) n = Ok (trie_hash t').

Lemma subtries_self t : t ∈ subtries t.
Proof. destruct t; apply list_elem_of_here. Qed.

Lemma forged_mono P t t' : (forall s, s ∈ subtries t' -> s ∈ subtries t) -> forged P t' -> forged P t.
Proof. intros Hsub (s & n & n' & Hs & Hrest). exists s, n, n'. auto. Qed.

(** The hashes in the cache have been checked. *)
Definition cache_ok P cache : Prop :=
  forall h, h ∈ cache -> exists n, P !! h = Some n /\ ProofNode_hash (E := ProofVerificationError F) n = Ok h.

Lemma check_node_cache P cache node h path cache' r :
  cache_ok P cache -> P !! h = Some node -> check_node node h path cache = (cache', r) -> cache_ok P cache'.
Proof.
  intros Hc Hn. unfold check_node. case_decide; [by intros [= <- _]|].
  destruct (ProofNode_hash node) as [h'| | |] eqn:Hh; try by intros [= <- _].
  case_decide as Heq; intros [= <- _]; [|done]. subst h'.
  intros x [->%elem_of_singleton|Hx]%elem_of_union; [eauto|auto].
Qed.

Lemma check_node_hash P cache node h path cache' :
  cache_ok P cache -> P !! h = Some node -> check_node node h path cache = (cache', Ok tt) ->
  ProofNode_hash (E := ProofVerificationError F) node = Ok h.
Proof.
  intros Hc Hn. unfold check_node. case_decide as Hin.
  - intros _. destruct (Hc h Hin) as (n & Hn' & Hh). congruence.
  - destruct (ProofNode_hash node) as [h'| | |] eqn:Hh; try done. case_decide as Heq; [|done]. by intros _; subst.
Qed.

Lemma bits_get_prefix (cur rest p : BitVec) :
  bits_get (cur ++ rest) (length cur) (length p) = Some p <-> p `prefix_of` rest.
Proof.
  unfold bits_get. rewrite length_app, drop_app_length. split.
  - case_decide; [|done]. intros [= Hp]. exists (drop (length p) rest). by rewrite <- Hp at 1; rewrite take_drop.
  - intros [q ->]. rewrite decide_True by (rewrite length_app; lia). by rewrite take_app_length.
Qed.

(** ** Soundness *)

(** One iteration, as far as it returns. *)
Lemma verify_loop_cache fuel P k ht cur h cache cache' r :
  cache_ok P cache -> verify_loop fuel P k ht cur h cache = (cache', r) -> cache_ok P cache'.
Proof.
  revert cur h cache. induction fuel as [|fuel IH]; intros cur h cache Hc; cbn [verify_loop]; [by intros [= <- _]|].
  case_decide; [by intros [= <- _]|]. case_decide; [by intros [= <- _]|].
  unfold mbind at 1, action_bind at 1, lift at 1. destruct (P !! h) as [node|] eqn:Hnode; [|by intros [= <- _]].
  cbn [ok_or]. unfold mbind at 1, action_bind at 1.
  destruct (check_node node h cur cache) as [c1 r1] eqn:Hcheck.
  pose proof (check_node_cache _ _ _ _ _ _ _ Hc Hnode Hcheck) as Hc1.
  destruct r1 as [[]| | |]; try by intros [= <- _]. destruct node as [l r'|child path].
  - unfold mbind, action_bind, lift. destruct (bit_index k (length cur)) as [bit| | |]; try by intros [= <- _].
    by apply IH.
  - case_decide; [by intros [= <- _]|]. by apply IH.
Qed.

(** The honest step. *)
Lemma bit_index_app {E} (cur rest : BitVec) b : bit_index (E := E) (cur ++ b :: rest) (length cur) = Ok b.
Proof. unfold bit_index. by rewrite lookup_app_r, Nat.sub_diag by lia. Qed.

Lemma verify_loop_sound fuel P k ht cur rest t n cache cache' v :
  trie_wf n t -> length rest = n -> k = cur ++ rest -> cache_ok P cache ->
  verify_loop fuel P k ht cur (trie_hash t) cache = (cache', Ok v) ->
  v = default Felt_ZERO (trie_lookup t rest) \/ forged P t.
Proof.
  revert cur rest t n cache. induction fuel as [|fuel IH]; intros cur rest t n cache Hwf Hn Hk Hc; [done|].
  cbn [verify_loop]. case_decide as Hend.
  { intros [= <- <-]. left. destruct rest as [|b rest]; [|rewrite Hk, length_app in Hend; cbn in Hend; lia].
    cbn in Hn. subst n. destruct t as [w|l r|p c]; [done|done|]. destruct Hwf as (? & ? & _). destruct p; [done|cbn in *; lia]. }
  assert (rest <> []) as Hrest by (intros ->; rewrite app_nil_r in Hk; congruence).
  case_decide as Hover; [done|].
  unfold mbind at 1, action_bind at 1, lift at 1. destruct (P !! trie_hash t) as [node|] eqn:Hnode; [|done].
  cbn [ok_or]. unfold mbind at 1, action_bind at 1.
  destruct (check_node node (trie_hash t) cur cache) as [c1 [[]| | |]] eqn:Hcheck; try done.
  pose proof (check_node_hash _ _ _ _ _ _ Hc Hnode Hcheck) as Hhash.
  apply (check_node_cache _ _ _ _ _ _ _ Hc Hnode) in Hcheck as Hc1. clear Hcheck.
  destruct (pnode t) as [node'|] eqn:Hp.
  2:{ destruct t; [|done..]. destruct Hwf as [-> _]. by destruct rest. }
  destruct (decide (node = node')) as [->|Hne]; [|intros _; right; exists t, node, node'; eauto using subtries_self].
  destruct t as [w|l r|p c]; [done| |]; injection Hp as <-.
  - destruct rest as [|b rest]; [done|]. destruct n as [|n]; [done|]. destruct Hwf as [Hl Hr].
    rewrite Hk. unfold mbind, action_bind, lift at 1. rewrite bit_index_app. cbn beta iota.
    rewrite bool_from_Direction_from, <- Hk. replace (match Direction_from b with Left => _ | Right => _ end) with (trie_hash (if b then r else l)) by (by destruct b).
    intros Hrun. destruct (IH (cur ++ [b]) rest (if b then r else l) n c1) as [Hv|Hf]; [by destruct b|by injection Hn|by rewrite Hk, <- app_assoc|done|exact Hrun|by left|].
    right. eapply forged_mono; [|exact Hf]. intros s Hs. cbn. destruct b; set_solver.
  - destruct Hwf as (Hp & Hpl & Hcw & _). case_decide as Hbits.
    + intros [= <- <-]. left. cbn. rewrite decide_False; [done|]. rewrite Hk, bits_get_prefix in Hbits. done.
    + rewrite Hk in Hbits. apply bits_get_prefix in Hbits as [rest' ->].
      rewrite length_app in Hn. intros Hrun.
      destruct (IH (cur ++ p) rest' c (n - length p) c1) as [Hv|Hf]; [done|lia|by rewrite Hk, <- app_assoc|done|exact Hrun| |].
      * left. by rewrite trie_lookup_edge.
      * right. eapply forged_mono; [|exact Hf]. intros s Hs. cbn. set_solver.
Qed.

Lemma verify_keys_sound P ht t keys cache i v :
  trie_wf ht t -> Forall (fun k => length k = ht) keys -> cache_ok P cache ->
  verify_keys P (trie_hash t) ht keys cache !! i = Some (Ok v) ->
  exists k, keys !! i = Some k /\ (v = default Felt_ZERO (trie_lookup t k) \/ forged P t).
Proof.
  intros Hwf. revert cache i. induction keys as [|k keys IH]; intros cache i Hlen Hc Hi; [done|].
  apply Forall_cons in Hlen as [Hk Hlen]. cbn [verify_keys] in Hi.
  destruct (MultiProof_verify_key P (trie_hash t) ht k cache) as [c1 r] eqn:Hrun.
  unfold MultiProof_verify_key in Hrun. rewrite decide_False in Hrun by congruence.
  pose proof (verify_loop_cache _ _ _ _ _ _ _ _ _ Hc Hrun) as Hc1. destruct i as [|i]; cbn in Hi.
  - injection Hi as ->. exists k. split; [done|]. by apply (verify_loop_sound _ _ _ _ [] k _ _ _ _ _ Hwf Hk eq_refl Hc Hrun).
  - by apply (IH c1).
Qed.

Lemma cache_ok_empty P : cache_ok P ∅.
Proof. intros h Hh. set_solver. Qed.

(** ** Completeness *)

Lemma check_node_complete node h path cache :
  ProofNode_hash (E := ProofVerificationError F) node = Ok h ->
  exists cache', check_node node h path cache = (cache', Ok tt).
Proof.
  intros Hh. unfold check_node. case_decide; [eauto|]. rewrite Hh. rewrite decide_True by done. eauto.
Qed.

Lemma pnode_hash n t node :
  trie_wf n t -> n <= 256 -> pnode t = Some node -> ProofNode_hash (E := ProofVerificationError F) node = Ok (trie_hash t).
Proof.
  intros Hwf Hn. destruct t as [w|l r|p c]; [done|by intros [= <-]|]. intros [= <-].
  destruct Hwf as (_ & Hp & _). cbn. by rewrite hash_edge_node_ok by lia.
Qed.

(** The nodes on the path of the key are in the proof. *)
Definition path_proved P t (k : BitVec) : Prop :=
  forall t' node, t' ∈ on_path t k -> pnode t' = Some node -> P !! trie_hash t' = Some node.

Lemma verify_loop_complete fuel P k ht cur rest t n cache :
  trie_wf n t -> n <= 256 -> length rest = n -> k = cur ++ rest -> length rest < fuel -> path_proved P t rest ->
  exists cache', verify_loop fuel P k ht cur (trie_hash t) cache = (cache', Ok (default Felt_ZERO (trie_lookup t rest))).
Proof.
  revert cur rest t n cache. induction fuel as [|fuel IH]; intros cur rest t n cache Hwf Hn Hrest Hk Hfuel HP; [lia|].
  cbn [verify_loop]. case_decide as Hend.
  { destruct rest as [|b rest]; [|rewrite Hk, length_app in Hend; cbn in Hend; lia].
    cbn in Hrest. subst n. destruct t as [w|l r|p c]; [eexists; done|done|]. destruct Hwf as (? & ? & _). destruct p; [done|cbn in *; lia]. }
  rewrite decide_False by (rewrite Hk, length_app; lia).
  destruct (pnode t) as [node|] eqn:Hp.
  2:{ destruct t; [|done..]. destruct Hwf as [-> _]. destruct rest; [|done]. by rewrite app_nil_r in Hk; subst. }
  assert (P !! trie_hash t = Some node) as Hnode by (apply HP; [destruct t; apply list_elem_of_here|done]).
  unfold mbind at 1, action_bind at 1, lift at 1. rewrite Hnode. cbn [ok_or]. unfold mbind at 1, action_bind at 1.
  destruct (check_node_complete node (trie_hash t) cur cache) as [c1 ->]; [by eapply pnode_hash|].
  destruct t as [w|l r|p c]; [done| |]; injection Hp as <-.
  - destruct rest as [|b rest]; [cbn in Hrest; subst; done|]. destruct n as [|n]; [done|]. destruct Hwf as [Hl Hr].
    rewrite Hk. unfold mbind, action_bind, lift at 1. rewrite bit_index_app. cbn beta iota.
    rewrite bool_from_Direction_from, <- Hk. replace (match Direction_from b with Left => _ | Right => _ end) with (trie_hash (if b then r else l)) by (by destruct b).
    cbn in Hrest, Hfuel.
    destruct (IH (cur ++ [b]) rest (if b then r else l) n c1) as [c2 Hrun]; [by destruct b|lia|by injection Hrest|by rewrite Hk, <- app_assoc|lia| |by exists c2].
    intros t' node Ht'. apply HP. cbn. set_solver.
  - destruct Hwf as (Hp & Hpl & Hcw & _). case_decide as Hbits.
    + eexists. cbn. rewrite decide_False; [done|]. rewrite Hk, bits_get_prefix in Hbits. done.
    + rewrite Hk in Hbits. apply bits_get_prefix in Hbits as [rest' ->].
      rewrite length_app in Hrest, Hfuel. rewrite trie_lookup_edge.
      apply (IH (cur ++ p) rest' c (n - length p) c1); [done|lia|lia|by rewrite Hk, <- app_assoc|destruct p; [done|cbn in *; lia]|].
      intros t' node Ht'. apply HP. cbn. rewrite decide_True by (by exists rest'). rewrite drop_app_length. by right.
Qed.

(** ** Termination *)

(** What the prover must respect for the verifier to return: paths that are
    neither empty nor longer than 256 bits. *)
Definition proof_bounded P : Prop :=
  map_Forall (fun _ n => match n with ProofNode_Edge _ p => 0 < length p <= 256 | _ => True end) P.

Definition returns {E A} (r : outcome E A) : Prop := (exists a, r = Ok a) \/ (exists e, r = Err e).

Lemma check_node_returns P cache node h path cache' r :
  proof_bounded P -> P !! h = Some node -> check_node node h path cache = (cache', r) -> returns r.
Proof.
  intros HP Hn. specialize (HP h node Hn). unfold check_node, returns. case_decide; [intros [= <- <-]; eauto|].
  destruct node as [l r'|child p]; cbn [ProofNode_hash].
  - case_decide; intros [= <- <-]; eauto.
  - rewrite hash_edge_node_ok by (cbn in HP; lia). case_decide; intros [= <- <-]; eauto.
Qed.

Lemma verify_loop_returns fuel P k ht cur h cache cache' r :
  proof_bounded P -> length k < fuel + length cur -> 0 < fuel ->
  verify_loop fuel P k ht cur h cache = (cache', r) -> returns r.
Proof.
  intros HP. revert cur h cache. induction fuel as [|fuel IH]; intros cur h cache Hfuel H0; [lia|]. cbn [verify_loop].
  case_decide as Hend; [intros [= _ <-]; left; eauto|]. case_decide as Hover; [intros [= _ <-]; right; eauto|].
  unfold mbind at 1, action_bind at 1, lift at 1. destruct (P !! h) as [node|] eqn:Hnode; [|intros [= _ <-]; right; eauto].
  cbn [ok_or]. unfold mbind at 1, action_bind at 1.
  destruct (check_node node h cur cache) as [c1 r1] eqn:Hcheck.
  destruct (check_node_returns _ _ _ _ _ _ _ HP Hnode Hcheck) as [[[] ->]|[e ->]]; [|intros [= _ <-]; right; eauto].
  specialize (HP h node Hnode). destruct node as [l r'|child p].
  - destruct (k !! length cur) as [b|] eqn:Hb; [|apply lookup_ge_None in Hb; lia].
    unfold mbind, action_bind, lift, bit_index. rewrite Hb. cbn [expect].
    apply IH; rewrite ?length_app; cbn; lia.
  - case_decide; [intros [= _ <-]; left; eauto|]. apply IH; rewrite ?length_app; lia.
Qed.
End ProofSpec.
