(* ===== verification/GenSpec.v ===== *)
(** * Generation of proofs

    [get_multi_proof] walks to each key in turn, resuming where the path of the
    next key leaves that of the last, and records the nodes it visits. On a tree
    whose cached hashes are up to date ([acoh]) it collects nodes of the trie
    only ([honest]), among them every node on the path of every key
    ([wp_multi_proof]). *)
From S2P Require Import Prelude Path Id Database Error External MerkleNode Trie Changes KeyValueDb Tree Iterator Update Trees Proof Annot TreeInv SeekSpec WalkSpec ProofSpec.

(** ** Cached hashes *)
Section Coherent.
Context {F K : Type} `{StarkFelt F, !StarkHash F}.
Implicit Types a : atree F K.

(** Every node in memory caches its hash. *)
Fixpoint acoh a : Prop :=
  match a with
  | ALeaf _ | AStored _ => True
  | ABin _ ho l r => ho = Some (trie_hash (strip a)) /\ acoh l /\ acoh r
  | AEdge _ ho _ c => ho = Some (trie_hash (strip a)) /\ acoh c
  end.

Lemma acoh_astored t : acoh (astored (K := K) t).
Proof. by destruct t. Qed.

Lemma acoh_loads k a a' : loads k a a' -> acoh a -> acoh a'.
Proof.
  intros [[-> _]|(t & -> & _ & ->)] ?; [done|].
  destruct t; cbn; rewrite ?strip_astored; auto using acoh_astored.
Qed.

Lemma acoh_frame_plug f a a' :
  strip a' = strip a -> acoh a' -> acoh (frame_plug f a) -> acoh (frame_plug f a').
Proof. intros Hs Ha'. destruct f as [k ho [] o|k ho p]; cbn; rewrite ?Hs; naive_solver. Qed.

Lemma acoh_frame_hole f a : acoh (frame_plug f a) -> acoh a.
Proof. destruct f as [k ho [] o|k ho p]; cbn; naive_solver. Qed.

Lemma acoh_plug C a a' : strip a' = strip a -> acoh a' -> acoh (plug C a) -> acoh (plug C a').
Proof.
  revert a a'. induction C as [|f C IH]; intros a a' Hs Ha' Hc; [done|]. cbn [plug] in *.
  eapply (IH (frame_plug f a)); [destruct f as [? ? [] ?|]; cbn; by rewrite Hs| |done].
  assert (acoh (frame_plug f a)) as Hf.
  { clear -Hc. revert Hc. generalize (frame_plug f a). induction C as [|g C IH]; intros b Hc; [done|].
    cbn [plug] in Hc. by eapply acoh_frame_hole, IH. }
  by eapply acoh_frame_plug.
Qed.

Lemma acoh_hole C a : acoh (plug C a) -> acoh a.
Proof.
  revert a. induction C as [|f C IH]; intros a Hc; [done|]. cbn [plug] in Hc. by eapply acoh_frame_hole, IH.
Qed.

(** ** The nodes above the hole *)
Definition above (C : list (frame F K)) a (s : trie F) : Prop :=
  exists C2 C1, C = C2 ++ C1 /\ C2 <> [] /\ s = strip (plug C2 a).

Lemma above_cons f C a s : above (f :: C) a s <-> s = strip (frame_plug f a) \/ above C (frame_plug f a) s.
Proof.
  split.
  - intros ([|f' C2] & C1 & Heq & Hne & ->); [done|]. injection Heq as <- ->.
    destruct C2 as [|g C2]; [by left|]. right. by exists (g :: C2), C1.
  - intros [->|(C2 & C1 & -> & Hne & ->)]; [by exists [f], C|by exists (f :: C2), C1].
Qed.

Lemma above_strip C a a' s : strip a' = strip a -> above C a' s -> above C a s.
Proof. intros Hs (C2 & C1 & -> & Hne & ->). exists C2, C1. split_and!; [done..|]. by apply strip_plug_eq. Qed.

Lemma above_app C2 C1 a s : above C1 (plug C2 a) s -> above (C2 ++ C1) a s.
Proof.
  intros (D2 & D1 & -> & Hne & ->). exists (C2 ++ D2), D1. split_and!.
  - by rewrite app_assoc.
  - intros Hnil. by apply app_nil in Hnil as [_ ?].
  - by rewrite plug_app.
Qed.

Lemma strip_plug_subtries C a s : s ∈ subtries (strip a) -> s ∈ subtries (strip (plug C a)).
Proof.
  revert a. induction C as [|f C IH]; intros a Hs; [done|]. cbn [plug]. apply IH.
  destruct f as [k ho [] o|k ho p]; cbn; set_solver.
Qed.

(** The path of a key that goes through the hole. *)
Lemma on_path_plug C a rest s :
  s ∈ on_path (strip (plug C a)) (cpath C ++ rest) -> above C a s \/ s ∈ on_path (strip a) rest.
Proof.
  revert a rest. induction C as [|f C IH]; intros a rest Hs; [by right|].
  cbn [plug cpath] in Hs. rewrite <- app_assoc in Hs.
  apply IH in Hs as [Hs|Hs]; [left; apply above_cons; by right|].
  destruct f as [k ho b o|k ho p]; cbn [frame_plug frame_path] in Hs.
  - assert (s = strip (frame_plug (FBin k ho b o) a) \/ s ∈ on_path (strip a) rest) as [->|?]; [|left; apply above_cons; by left|by right].
    destruct b; cbn in Hs |- *; set_solver.
  - cbn [strip on_path] in Hs. rewrite decide_True in Hs by (by exists rest). rewrite drop_app_length in Hs.
    apply elem_of_cons in Hs as [->|Hs]; [left; apply above_cons; by left|by right].
Qed.

(** Below the node where the traversal stops there is at most a leaf. *)
Lemma on_path_stop a rest s :
  stop_at a rest -> trie_wf (length rest) (strip a) -> s ∈ on_path (strip a) rest ->
  s = strip a \/ is_leaf s = true.
Proof.
  assert (forall t s, trie_wf 0 t -> s ∈ on_path t [] -> is_leaf s = true) as Hleaf.
  { intros t s' Hwf Hs'. destruct t as [v|l r|p c]; [by apply list_elem_of_singleton in Hs' as ->|done|].
    destruct Hwf as (? & ? & _). destruct p; [done|cbn in *; lia]. }
  destruct a as [v|t|k ho l r|k ho p c]; cbn [stop_at strip on_path]; try done.
  - destruct rest as [|b [|]]; try done. intros _ [Hl Hr] [->|Hs]%elem_of_cons; [by left|right].
    destruct b; [by apply (Hleaf (strip r))|by apply (Hleaf (strip l))].
  - intros Hstop (_ & _ & Hc & _) [->|Hs]%elem_of_cons; [by left|right].
    case_decide as Hp; [|by apply elem_of_nil in Hs]. destruct Hstop as [?| ->]; [done|].
    rewrite drop_all in Hs. rewrite Nat.sub_diag in Hc. by eapply Hleaf.
Qed.
End Coherent.

Section GenSpec.
Context {F K : Type} {M : Type -> Type} {DB ID : Type}.
Context `{StarkFelt F, !StarkHash F, SlotMap K M, !LawfulSlotMap K M, !NodeCodec F K, !LawfulNodeCodec F K,
  BonsaiDatabase DB, Id ID, HashMapIter}.
Context (kv : KeyValueDB DB ID) (d : TrieKey -> option ByteVec) (ht : nat).
Context (Hkv : kv_view kv d) (Hht : 0 < ht <= 255).
Abbreviation MerkleTree := (MerkleTree F K M).
Abbreviation Iterator := (MerkleTreeIterator F K M).
Abbreviation error := (BonsaiStorageError (DatabaseError DB)).
Abbreviation Proof := (gmap F (ProofNode F)).
Implicit Types (t s : trie F) (P : Proof) (C : list (frame F K)).

(** ** One visit *)

Lemma wp_node_hash path a self l (Q : MerkleTree -> F -> Prop) :
  nodes_rep (slot_view self.(nodes)) l -> mems (res path a) ⊆ l -> acoh a ->
  Q self (trie_hash (strip a)) -> wp (node_hash (DB := DB) (ahandle a)) self Q.
Proof.
  intros Hn Hsub Hc HQ. unfold node_hash. unfold wp. cbn [MerkleTree_get_or_compute_node_hash].
  destruct a as [v|t|k ho x y|k ho p c]; cbn [ahandle acoh strip] in *; [by exists self, v|by exists self, (trie_hash t)|..].
  - assert (slot_view self.(nodes) !! k = Some (Binary (mkBinaryNode ho (length path) (ahandle x) (ahandle y)))) as Hk.
    { apply (nodes_rep_lookup _ _ _ _ Hn), Hsub. cbn [res]. unfold bin_entry. rewrite mems_mem. by left. }
    exists self, (trie_hash (Bin (strip x) (strip y))). split; [|done].
    unfold mbind, action_bind, MerkleTree_get_node_mut, slot_get. rewrite Hk. cbn. by destruct Hc as [-> _].
  - assert (slot_view self.(nodes) !! k = Some (Edge (mkEdgeNode ho (length path) p (ahandle c)))) as Hk.
    { apply (nodes_rep_lookup _ _ _ _ Hn), Hsub. cbn [res]. unfold edge_entry. rewrite mems_mem. by left. }
    exists self, (trie_hash (Edg p (strip c))). split; [|done].
    unfold mbind, action_bind, MerkleTree_get_node_mut, slot_get. rewrite Hk. cbn. by destruct Hc as [-> _].
Qed.

(** The visitor reads off the node and its hash. *)
Lemma wp_ProofVisitor_node path foc kf self l (Q : MerkleTree -> F * ProofNode F -> Prop) :
  nodes_rep (slot_view self.(nodes)) l -> mems (res path foc) ⊆ l -> acoh foc -> ahandle foc = InMemory kf ->
  (forall n, pnode (strip foc) = Some n -> Q self (trie_hash (strip foc), n)) ->
  wp (ProofVisitor_node (DB := DB) kf) self Q.
Proof.
  intros Hn Hsub Hc Hkf HQ. unfold ProofVisitor_node. wp_step.
  destruct foc as [v|t|k ho x y|k ho p c]; try done; injection Hkf as ->.
  - eapply wp_get_node; [exact Hn|apply Hsub; cbn [res]; unfold bin_entry; rewrite mems_mem; by left|].
    cbn [res] in Hsub. unfold bin_entry in Hsub. rewrite mems_mem, mems_app in Hsub.
    wp_step. wp_step. cbn [acoh] in Hc. destruct Hc as (Hho & Hx & Hy).
    eapply (wp_node_hash (path ++ [false]) x); [exact Hn|set_solver|done|].
    wp_step. eapply (wp_node_hash (path ++ [true]) y); [exact Hn|set_solver|done|]. wp_step. wp_step.
    eapply (wp_node_hash path (ABin kf ho x y)); [exact Hn|cbn [res]; unfold bin_entry; rewrite mems_mem, mems_app; set_solver|done|].
    wp_step. by apply HQ.
  - eapply wp_get_node; [exact Hn|apply Hsub; cbn [res]; unfold edge_entry; rewrite mems_mem; by left|].
    cbn [res] in Hsub. unfold edge_entry in Hsub. rewrite mems_mem in Hsub.
    wp_step. wp_step. cbn [acoh] in Hc. destruct Hc as (Hho & Hx).
    eapply (wp_node_hash (path ++ p) c); [exact Hn|set_solver|done|]. wp_step. wp_step.
    eapply (wp_node_hash path (AEdge kf ho p c)); [exact Hn|cbn [res]; unfold edge_entry; rewrite mems_mem; set_solver|done|].
    wp_step. by apply HQ.
Qed.

(** ** What the proof holds *)

(** Nodes of the trie, under their hashes. *)
Definition honest P t : Prop :=
  forall h n, P !! h = Some n -> exists s, s ∈ subtries t /\ trie_hash s = h /\ pnode s = Some n.
Definition covered P s : Prop := is_leaf s = true \/ is_Some (P !! trie_hash s).

Lemma covered_insert P h n s : covered P s -> covered (<[h := n]> P) s.
Proof. intros [?|Hs]; [by left|right]. rewrite lookup_insert. by case_decide. Qed.

(** The invariant at a node [foc] of the walk, [v] once it is visited; [ks] are
    the keys done. *)
Record gen_inv t (ks : list BitVec) (v : bool) C (foc : atree F K) P : Prop := {
  gi_coh : acoh (plug C foc);
  gi_trie : strip (plug C foc) = t;
  gi_honest : honest P t;
  gi_done : forall k s, k ∈ ks -> s ∈ on_path t k -> covered P s;
  gi_above : forall s, above C foc s -> covered P s;
  gi_here : v = true -> covered P (strip foc);
}.

Lemma gen_inv_visit t ks C foc P n :
  gen_inv t ks false C foc P -> pnode (strip foc) = Some n ->
  gen_inv t ks true C foc (<[trie_hash (strip foc) := n]> P).
Proof.
  intros [Hc Ht Hh Hd Ha _] Hn. split; try done.
  - intros h n'. rewrite lookup_insert. case_decide as Heq; [|apply Hh].
    intros [= <-]. exists (strip foc). split; [|done]. rewrite <- Ht. apply strip_plug_subtries, subtries_self.
  - intros k s Hk Hs. eapply covered_insert, Hd; done.
  - intros s Hs. by apply covered_insert, Ha.
  - intros _. right. by rewrite lookup_insert_eq.
Qed.

Lemma gen_inv_step t ks C f foc0 foc kf P :
  gen_inv t ks true C (frame_plug f foc0) P -> loads kf foc0 foc -> gen_inv t ks false (f :: C) foc P.
Proof.
  intros [Hc Ht Hh Hd Ha Hv] Hl. pose proof (loads_strip _ _ _ Hl) as Hs.
  change (plug C (frame_plug f foc0)) with (plug (f :: C) foc0) in *. split; try done.
  - eapply acoh_plug; [exact Hs| |exact Hc]. by eapply acoh_loads, acoh_hole.
  - rewrite <- Ht. by apply strip_plug_eq.
  - intros s Has. apply (above_strip _ _ _ _ Hs) in Has. apply above_cons in Has as [->|Has]; [by apply Hv|by apply Ha].
Qed.

(** The walk resumes at a node above the last. *)
Lemma gen_inv_resume t ks C1 C2 foc P :
  gen_inv t ks true (C2 ++ C1) foc P -> gen_inv t ks true C1 (plug C2 foc) P.
Proof.
  intros [Hc Ht Hh Hd Ha Hv]. rewrite plug_app in *. split; try done.
  - intros s Hs. by apply Ha, above_app.
  - intros _. destruct C2 as [|f C2]; [by apply Hv|]. apply Ha. by exists (f :: C2), C1.
Qed.

(** The walk has reached the end of a key. *)
Lemma gen_inv_done t ks C foc P key rest kf it :
  gen_inv t ks true C foc P -> seek_stopped d ht key C foc rest kf it -> length key = ht ->
  gen_inv t (key :: ks) true C foc P.
Proof.
  intros [Hc Ht Hh Hd Ha Hv] Hst Hlen. split; try done.
  intros k s Hk Hs. apply elem_of_cons in Hk as [->|Hk]; [|by eapply Hd].
  rewrite <- Ht, (stopped_key _ _ _ _ _ _ _ _ Hst) in Hs. apply on_path_plug in Hs as [Hs|Hs]; [by apply Ha|].
  destruct (tree_rep_wf_hole _ _ _ _ _ (stopped_tree _ _ _ _ _ _ _ _ Hst)) as [HlC Hwf].
  assert (ht - length (cpath C) = length rest) as Hrest.
  { rewrite <- Hlen, (stopped_key _ _ _ _ _ _ _ _ Hst), length_app. lia. }
  rewrite Hrest in Hwf.
  apply on_path_stop in Hs as [->|Hs]; [by apply Hv|by left|exact (stopped_at _ _ _ _ _ _ _ _ Hst)|done].
Qed.

(** ** One key *)
#[local] Existing Instance ProofVisitor.

(** The invariant between two keys. *)
Definition gen_whole t (ks : list BitVec) (a : atree F K) P : Prop :=
  acoh a /\ strip a = t /\ honest P t /\ forall k s, k ∈ ks -> s ∈ on_path t k -> covered P s.

Definition gen_ready t (ks : list BitVec) : Proof -> Iterator -> Prop := walk_ready d ht (gen_inv t ks true) (gen_whole t ks).

Lemma gen_ready_whole t ks P it : gen_ready t ks P it -> exists a, tree_rep ht d it.(tree) (Some a) /\ gen_whole t ks a P.
Proof. apply walk_ready_whole. by intros C foc P' [Hc Ht Hh Hd _ _]. Qed.

(** Walking to one key. *)
Lemma wp_gen_key t ks key it P :
  gen_ready t ks P it -> length key = ht ->
  wp (MerkleTreeIterator_traverse_to kv key) (P, it) (fun r _ =>
    gen_ready t (key :: ks) r.1 r.2 /\ same_pending it.(tree) r.2.(tree)).
Proof.
  intros Hready Hlen.
  eapply wp_mono; [|eapply (wp_walk_key kv d ht Hkv Hht (gen_inv t ks false) (gen_inv t ks true) (gen_whole t ks))]; try done.
  - cbn beta. intros r _ (C & foc & rest & kf & Hst & HJ & Hsame). split; [|done].
    eapply walk_ready_stopped; [exact Hst|]. by eapply gen_inv_done.
  - intros key' C' foc' rest' kf' it' P' Q Hat' Hinv' HQ. unfold visit_node, ProofVisitor.
    wp_step. wp_step. cbn [snd]. eapply (wp_ProofVisitor_node (cpath C') foc' kf').
    + apply (tree_rep_nodes _ _ _ _ _ (at_tree _ _ _ _ _ _ _ _ Hat')).
    + rewrite mems_app. set_solver.
    + by eapply acoh_hole, gi_coh.
    + by eapply at_handle.
    + intros n Hn. wp_step. apply HQ. by apply gen_inv_visit.
  - intros. by eapply gen_inv_step.
  - intros a a' k P' (Hc & Ht & Hh & Hd) Hl. split; try done.
    + by eapply acoh_loads.
    + rewrite <- Ht. by eapply loads_strip.
    + intros s (C2 & C1 & Heq & Hne & _). by destruct C2.
  - intros. by apply gen_inv_resume.
  - by intros C foc P' [Hc Ht Hh Hd _ _].
Qed.

(** Walking to every key. *)
Lemma wp_gen_keys t ks keys it P :
  gen_ready t ks P it -> Forall (fun k => length k = ht) keys ->
  wp (for_each keys (multi_proof_key kv ht)) (P, it) (fun r _ =>
    gen_ready t (rev keys ++ ks) r.1 r.2 /\ same_pending it.(tree) r.2.(tree)).
Proof.
  revert ks it P. induction keys as [|key keys IH]; intros ks it P Hready Hlen; cbn [for_each].
  - wp_step. cbn. split; [done|]. done.
  - apply Forall_cons in Hlen as [Hk Hlen]. wp_step. unfold multi_proof_key. rewrite decide_False by congruence.
    wp_apply wp_gen_key. intros [P1 it1] _ [Hr1 Hs1]. cbn [fst snd] in *.
    wp_apply IH. intros r _ [Hr2 Hs2]. split; [|by eapply same_pending_trans].
    cbn [rev]. by rewrite <- app_assoc.
Qed.

(** The generated proof: nodes of the trie, and all those on the paths of the
    keys. *)
Lemma wp_multi_proof self a keys :
  tree_rep ht d self (Some a) -> acoh a -> Forall (fun k => length k = ht) keys ->
  wp (MerkleTree_get_multi_proof kv keys) self (fun self' P =>
    (exists a', tree_rep ht d self' (Some a') /\ acoh a' /\ strip a' = strip a) /\ same_pending self self' /\
    honest P (strip a) /\ forall k s, k ∈ keys -> s ∈ on_path (strip a) k -> covered P s).
Proof.
  intros Hrep Hc Hlen.
  destruct (wp_gen_keys (strip a) [] keys (MerkleTreeIterator_new self) ∅) as ([P it] & [] & Hrun & Hready & Hsame).
  - eapply (ready_root _ _ _ _ _ _ a); [done|split_and!; try done|done]. intros k s Hk. by apply elem_of_nil in Hk.
  - done.
  - exists (tree it), P. split.
    + unfold MerkleTree_get_multi_proof. rewrite (rep_height _ _ _ _ Hrep), Hrun. done.
    + cbn [fst snd] in *. destruct (gen_ready_whole _ _ _ _ Hready) as (a' & Hrep' & Hc' & Ht & Hh & Hd).
      split; [by exists a'|]. split; [done|]. split; [done|]. intros k s Hk. apply Hd.
      by rewrite app_nil_r, list_elem_of_In, <- in_rev, <- list_elem_of_In.
Qed.

(** On the empty tree. *)
Lemma wp_gen_keys_empty keys it P :
  tree_rep ht d it.(tree) None -> it.(current_path) = [] -> Forall (fun k => length k = ht) keys ->
  wp (for_each keys (multi_proof_key kv ht)) (P, it) (fun r _ =>
    tree_rep ht d r.2.(tree) None /\ same_pending it.(tree) r.2.(tree) /\ r.1 = P).
Proof.
  revert it. induction keys as [|key keys IH]; intros it Hrep Hp Hlen; cbn [for_each]; [by wp_step|].
  apply Forall_cons in Hlen as [Hk Hlen]. wp_step. unfold multi_proof_key. rewrite decide_False by congruence.
  eapply wp_mono with (fun r _ => tree_rep ht d r.2.(tree) None /\ same_pending it.(tree) r.2.(tree) /\
    r.1 = P /\ r.2.(current_path) = []).
  { cbn beta. intros [P1 it1] _ (Hrep1 & Hs1 & HP1 & Hp1). cbn [fst snd] in *. subst P1.
    eapply wp_mono; [|by apply IH]. cbn. intros r _ (Hrep2 & Hs2 & HP). split; [done|]. split; [|done].
    by eapply same_pending_trans. }
  wp_apply (wp_walk_empty kv d ht Hkv Hht). intros r _ (-> & Hrep' & Hs & Hp' & _). done.
Qed.

Lemma wp_multi_proof_empty self keys :
  tree_rep ht d self None -> Forall (fun k => length k = ht) keys ->
  wp (MerkleTree_get_multi_proof kv keys) self (fun self' P =>
    tree_rep ht d self' None /\ same_pending self self' /\ P = ∅).
Proof.
  intros Hrep Hlen.
  destruct (wp_gen_keys_empty keys (MerkleTreeIterator_new self) ∅) as ([P it] & [] & Hrun & Hq); [done..|].
  exists (tree it), P. split; [|done].
  unfold MerkleTree_get_multi_proof. by rewrite (rep_height _ _ _ _ Hrep), Hrun.
Qed.
End GenSpec.
