(* ===== verification/ProofCorrect.v ===== *)
(** * Correctness of proofs

    What the root hash and the proofs of [src/src/trie/proof.rs] are worth: the
    root hash commits to the map of its identifier, a value the verifier
    accepts under it is the value of the map, unless two different nodes have
    the same hash; the nodes on the paths of the keys make the verifier accept;
    it terminates on proofs whose edges are neither empty nor too long. *)
From S2P Require Import Prelude Path Id Database Error External MerkleNode Trie Changes KeyValueDb Tree Iterator Update Trees Proof Storage Annot TreeInv SeekSpec SetSpec DeleteSpec CommitSpec TreeSpec TreesSpec StorageSpec StorageCorrect ProofSpec.

Section Commitment.
Context {F : Type} `{StarkFelt F, !StarkHash F}.
Implicit Types (t : trie F) (o : option (trie F)) (m : gmap BitVec F).

(** Two different nodes, one of each trie, with the same hash. *)
Definition collision t1 t2 : Prop :=
  exists s1 s2 n1 n2, s1 ∈ subtries t1 /\ s2 ∈ subtries t2 /\
    pnode s1 = Some n1 /\ pnode s2 = Some n2 /\ n1 <> n2 /\ trie_hash s1 = trie_hash s2.

Lemma collision_mono t1 t2 t1' t2' :
  (forall s, s ∈ subtries t1' -> s ∈ subtries t1) -> (forall s, s ∈ subtries t2' -> s ∈ subtries t2) ->
  collision t1' t2' -> collision t1 t2.
Proof. intros Hs1 Hs2 (s1 & s2 & n1 & n2 & ? & ? & Hrest). exists s1, s2, n1, n2. auto. Qed.

(** Tries of one height with the same hash. *)
Lemma trie_hash_inj n t1 t2 :
  trie_wf n t1 -> trie_wf n t2 -> trie_hash t1 = trie_hash t2 -> t1 = t2 \/ collision t1 t2.
Proof.
  assert (forall t1 t2 n1 n2, pnode t1 = Some n1 -> pnode t2 = Some n2 -> n1 <> n2 ->
    trie_hash t1 = trie_hash t2 -> collision t1 t2) as Htop.
  { intros s1 s2 n1 n2 ? ? ? ?. exists s1, s2, n1, n2. split_and!; try done; apply subtries_self. }
  revert n t2. induction t1 as [v|l IHl r IHr|p c IH]; intros n t2 H1 H2 Hh.
  - destruct H1 as [-> _]. destruct t2 as [w|? ?|p ?]; cbn in *; [left; by subst|done|].
    destruct H2 as (? & ? & _). destruct p; [done|cbn in *; lia].
  - destruct n as [|n]; [done|]. destruct H1 as [Hl Hr], t2 as [w|l' r'|p' c']; [by destruct H2| |by right; eapply Htop].
    destruct H2 as [Hl' Hr'].
    destruct (decide (trie_hash l = trie_hash l' /\ trie_hash r = trie_hash r')) as [[El Er]|Hne];
      [|right; eapply Htop; [reflexivity|reflexivity|intros [= ? ?]; by apply Hne|done]].
    destruct (IHl n l' Hl Hl' El) as [->|Hc].
    2:{ right. eapply collision_mono; [..|exact Hc]; cbn; set_solver. }
    destruct (IHr n r' Hr Hr' Er) as [->|Hc]; [by left|].
    right. eapply collision_mono; [..|exact Hc]; cbn; set_solver.
  - destruct H1 as (Hp & Hpl & Hc & He), t2 as [w|l' r'|p' c'].
    + destruct H2 as [-> _]. destruct p; [done|cbn in *; lia].
    + right. eapply Htop; [reflexivity|reflexivity|done|done].
    + destruct H2 as (Hp' & Hpl' & Hc' & He').
      destruct (decide (trie_hash c = trie_hash c' /\ p = p')) as [[Ec <-]|Hne];
        [|right; eapply Htop; [reflexivity|reflexivity|intros [= ? ?]; by apply Hne|done]].
      destruct (IH _ c' Hc Hc' Ec) as [->|Hcol]; [by left|].
      right. eapply collision_mono; [..|exact Hcol]; cbn; set_solver.
Qed.

(** The tries of the two roots collide, or one of them hashes to the root hash
    of the empty trie. *)
Definition root_collision o1 o2 : Prop :=
  match o1, o2 with
  | Some t1, Some t2 => collision t1 t2
  | Some t, None | None, Some t => trie_hash t = Felt_ZERO
  | None, None => False
  end.

Lemma root_hash_inj n o1 o2 m1 m2 :
  trie_rep n o1 m1 -> trie_rep n o2 m2 -> otrie_hash o1 = otrie_hash o2 -> m1 = m2 \/ root_collision o1 o2.
Proof.
  intros [Hw1 Hl1] [Hw2 Hl2] Hh.
  assert (o1 = o2 -> m1 = m2) as Heq by (intros ->; apply map_eq; intros k; by rewrite <- Hl1, <- Hl2).
  destruct o1 as [t1|], o2 as [t2|]; cbn in *; auto.
  destruct (trie_hash_inj n t1 t2) as [->|]; auto.
Qed.

(** The proof binds the root hash of the empty trie to a node, or the hash of
    a node of the trie to another one. *)
Definition forged_root (P : gmap F (ProofNode F)) o : Prop :=
  match o with
  | Some t => forged P t
  | None => exists n, P !! Felt_ZERO = Some n /\ ProofNode_hash (E := ProofVerificationError F) n = Ok Felt_ZERO
  end.

Lemma verify_keys_empty P ht keys cache i v :
  0 < ht -> cache_ok P cache ->
  verify_keys P Felt_ZERO ht keys cache !! i = Some (Ok v) -> forged_root P None.
Proof.
  intros Hht. revert cache i. induction keys as [|k keys IH]; intros cache i Hc Hi; [done|].
  cbn [verify_keys] in Hi. destruct (MultiProof_verify_key P Felt_ZERO ht k cache) as [c1 r] eqn:Hrun.
  unfold MultiProof_verify_key in Hrun. case_decide as Hk.
  { injection Hrun as <- <-. destruct i as [|i]; [done|]. by apply (IH cache i). }
  pose proof (verify_loop_cache _ _ _ _ _ _ _ _ _ Hc Hrun) as Hc1. destruct i as [|i]; cbn in Hi; [|by apply (IH c1 i)].
  injection Hi as ->. unfold verify_fuel in Hrun. cbn [verify_loop] in Hrun.
  rewrite decide_False in Hrun by (cbn; lia). rewrite decide_False in Hrun by (cbn; lia).
  unfold mbind at 1, action_bind at 1, lift at 1 in Hrun. destruct (P !! Felt_ZERO) as [node|] eqn:Hnode; [|done].
  cbn [ok_or] in Hrun. unfold mbind at 1, action_bind at 1 in Hrun.
  destruct (check_node node Felt_ZERO [] cache) as [c2 [[]| | |]] eqn:Hcheck; try done.
  exists node. split; [done|]. exact (check_node_hash _ _ _ _ _ _ Hc Hnode Hcheck).
Qed.

Lemma verify_root_sound P ht o keys i v :
  0 < ht -> otrie_wf ht o -> Forall (fun k => length k = ht) keys ->
  MultiProof_verify_proof P (otrie_hash o) keys ht !! i = Some (Ok v) ->
  exists k, keys !! i = Some k /\ (v = default Felt_ZERO (otrie_lookup o k) \/ forged_root P o).
Proof.
  intros Hht Hwf Hlen Hi. destruct o as [t|].
  - destruct (verify_keys_sound P ht t keys ∅ i v) as (k & Hk & Hv); [done|done|apply cache_ok_empty|done|].
    by exists k.
  - destruct (keys !! i) as [k|] eqn:Hk.
    + exists k. split; [done|]. right. eapply verify_keys_empty; [done|apply cache_ok_empty|exact Hi].
    + exfalso. apply lookup_ge_None in Hk.
      assert (forall keys cache, length (verify_keys P Felt_ZERO ht keys cache) = length keys) as Hvl.
      { clear. induction keys as [|k keys IH]; intros cache; [done|]. cbn [verify_keys].
        destruct (MultiProof_verify_key _ _ _ _ _). cbn. by rewrite IH. }
      apply lookup_lt_Some in Hi. unfold MultiProof_verify_proof in Hi. cbn [otrie_hash] in Hi. rewrite Hvl in Hi. lia.
Qed.

(** A proof that holds the nodes on the paths of the keys. *)
Lemma verify_keys_complete P ht t keys cache :
  trie_wf ht t -> ht <= 256 -> Forall (fun k => length k = ht /\ path_proved P t k) keys ->
  verify_keys P (trie_hash t) ht keys cache = (fun k => Ok (default Felt_ZERO (trie_lookup t k))) <$> keys.
Proof.
  intros Hwf Hht. revert cache. induction keys as [|k keys IH]; intros cache Hkeys; [done|].
  apply Forall_cons in Hkeys as [[Hk Hp] Hkeys]. cbn [verify_keys]. unfold MultiProof_verify_key.
  rewrite decide_False by congruence.
  destruct (verify_loop_complete (verify_fuel P k) P k ht [] k t ht cache) as [c1 ->]; [done..| |done|].
  { unfold verify_fuel. nia. }
  cbn. by rewrite IH.
Qed.

(** C28 The verifier terminates on any proof whose edges are neither empty nor
    longer than 256 bits: for every key it returns a value or an error; it does
    not panic and does not loop. *)
Theorem verify_proof_returns (P : gmap F (ProofNode F)) root keys ht :
  proof_bounded P -> Forall (fun r => returns r) (MultiProof_verify_proof P root keys ht).
Proof.
  intros HP. unfold MultiProof_verify_proof. generalize (∅ : gset F). induction keys as [|k keys IH]; intros cache; [constructor|].
  cbn [verify_keys]. destruct (MultiProof_verify_key P root ht k cache) as [c1 r] eqn:Hrun. constructor; [|apply IH].
  unfold MultiProof_verify_key in Hrun. case_decide.
  - injection Hrun as _ <-. right. eauto.
  - eapply verify_loop_returns; [exact HP| | |exact Hrun]; unfold verify_fuel; cbn; nia.
Qed.

(** C29 The verifier is complete: on a proof that holds the nodes on the paths
    of the keys it accepts every key with the value the trie gives it (zero when
    it gives none). *)
Theorem verify_proof_complete (P : gmap F (ProofNode F)) t keys ht :
  trie_wf ht t -> ht <= 256 -> Forall (fun k => length k = ht /\ path_proved P t k) keys ->
  MultiProof_verify_proof P (trie_hash t) keys ht = (fun k => Ok (default Felt_ZERO (trie_lookup t k))) <$> keys.
Proof. apply verify_keys_complete. Qed.

(** A key of another length than the tree's is rejected with
    [KeyLengthMismatch], and the verdict on the other keys does not depend on
    it. *)
Theorem verify_proof_key_length (P : gmap F (ProofNode F)) root keys1 k keys2 ht :
  length k <> ht ->
  MultiProof_verify_proof P root (keys1 ++ k :: keys2) ht !! length keys1 =
    Some (Err (KeyLengthMismatch k ht (length k))) /\
  delete (length keys1) (MultiProof_verify_proof P root (keys1 ++ k :: keys2) ht) =
    MultiProof_verify_proof P root (keys1 ++ keys2) ht.
Proof.
  intros Hk. unfold MultiProof_verify_proof. generalize (∅ : gset F). induction keys1 as [|k1 keys1 IH]; intros cache; cbn [app verify_keys].
  - unfold MultiProof_verify_key. by rewrite decide_True by done.
  - destruct (MultiProof_verify_key P root ht k1 cache) as [c1 r]. destruct (IH c1) as [H1 H2].
    cbn [length lookup list_lookup delete list_delete]. split; [done|]. f_equal. exact H2.
Qed.
End Commitment.

Section StorageProofs.
Context {F K : Type} {M : Type -> Type} {DB ID : Type}.
Context `{StarkFelt F, !LawfulFelt F, !StarkHash F, SlotMap K M, !LawfulSlotMap K M,
  !NodeCodec F K, !LawfulNodeCodec F K, BonsaiDatabase DB, !LawfulDatabase DB, Id ID, HashMapIter}.
Context (ht : nat) (Hht : 0 < ht <= 255).
Implicit Types (self : BonsaiStorage F K M DB ID) (ms : ByteVec -> gmap BitVec F).

(** C10 The root hash commits to the map: when two identifiers of committed
    storages have the same root hash, their maps are equal, or two different
    nodes of their tries have the same hash (or a non-empty trie hashes to
    zero, the root hash of the empty one). *)
Theorem storage_root_hash_commits self1 ms1 ids1 i1 self2 ms2 ids2 i2 :
  storage_at ht self1 ms1 ids1 -> i1 ∈ ids1 -> storage_at ht self2 ms2 ids2 -> i2 ∈ ids2 ->
  BonsaiStorage_root_hash self1 i1 = BonsaiStorage_root_hash self2 i2 ->
  ms1 i1 = ms2 i2 \/ root_collision (trie_of (ms1 i1)) (trie_of (ms2 i2)).
Proof.
  intros Hat1 Hi1 Hat2 Hi2 Hroot.
  destruct (storage_at_answers ht Hht _ _ _ Hat1 i1 Hi1) as [Hr1 _].
  destruct (storage_at_answers ht Hht _ _ _ Hat2 i2 Hi2) as [Hr2 _].
  eapply (root_hash_inj ht); [by eapply storage_at_trie|by eapply storage_at_trie|].
  rewrite Hr1, Hr2 in Hroot. by injection Hroot.
Qed.

(** C5 Proofs are sound: a value that [verify_proof] accepts for a key under
    the root hash of an identifier is the value of the key in its map (zero when
    the map does not bind it), unless the proof holds a forged node: another node
    with the hash of a node of the trie. *)
Theorem storage_proof_sound self ms ids i root (P : gmap F (ProofNode F)) keys n v :
  storage_at ht self ms ids -> i ∈ ids -> BonsaiStorage_root_hash self i = Ok root ->
  Forall (fun k => length k = ht) keys ->
  MultiProof_verify_proof P root keys ht !! n = Some (Ok v) ->
  exists k, keys !! n = Some k /\
    (BonsaiStorage_get self i k = Ok (ms i !! k) /\ v = default Felt_ZERO (ms i !! k) \/
     forged_root P (trie_of (ms i))).
Proof.
  intros Hat Hi Hroot Hkeys Hn. destruct (storage_at_answers ht Hht _ _ _ Hat i Hi) as [Hr Hget].
  rewrite Hr in Hroot. injection Hroot as <-.
  destruct (storage_at_trie ht _ _ _ i Hat Hi) as [Hwf Hl].
  destruct (verify_root_sound P ht (trie_of (ms i)) keys n v) as (k & Hk & Hv); [lia|done|done|exact Hn|].
  exists k. split; [done|]. destruct Hv as [->|Hf]; [left|by right].
  rewrite Forall_forall in Hkeys. rewrite Hl. split; [|done]. apply Hget, Hkeys. by eapply list_elem_of_lookup_2.
Qed.
End StorageProofs.
