(* ===== verification/GenCorrect.v ===== *)
(** * Proofs of a storage

    [get_multi_proof] on a storage without pending writes ([storage_settled]):
    it succeeds, leaves the storage answering as before, and the verifier
    accepts the generated proof under the root hash with the value of every key,
    unless two different nodes of the trie have the same hash. *)
From S2P Require Import Prelude Path Id Database Error External MerkleNode Trie Changes KeyValueDb Tree Iterator Update Trees Proof Storage Annot TreeInv SeekSpec SetSpec DeleteSpec CommitSpec TreeSpec TreesSpec StorageSpec StorageCorrect ProofSpec ProofCorrect GenSpec.

Section GenCorrect.
Context {F K : Type} {M : Type -> Type} {DB ID : Type}.
Context `{StarkFelt F, !LawfulFelt F, !StarkHash F, SlotMap K M, !LawfulSlotMap K M,
  !NodeCodec F K, !LawfulNodeCodec F K, BonsaiDatabase DB, !LawfulDatabase DB, Id ID, HashMapIter}.
Context (ht : nat).
Implicit Types (self : BonsaiStorage F K M DB ID) (ms : ByteVec -> gmap BitVec F) (t : trie F).

(** A tree that holds the map [m], with nothing pending and, in every node in
    memory, the node's hash. *)
Definition tree_settled (d : TrieKey -> option ByteVec) (T : MerkleTree F K M) (m : gmap BitVec F) : Prop :=
  T.(cache_leaf_modified) = ∅ /\
  exists oa, tree_rep ht d T oa /\ strip <$> oa = trie_of m /\ match oa with Some a => acoh a | None => True end.

Lemma tree_settled_clean d T f m : tree_models ht d T f m -> clean T -> tree_settled d T m.
Proof.
  intros Hm (Hr & _ & Hc & _). pose proof (models_trie _ _ _ _ _ Hm) as Ht.
  destruct Hm as [(oa & Hrep & Htrie) _ _ _ _ _]. split; [done|]. exists oa. split; [done|].
  split; [by eapply trie_rep_unique|].
  pose proof (rep_root _ _ _ _ Hrep) as Hroot. rewrite Hr in Hroot. by destruct oa as [[]|].
Qed.

(** The root hash of such a tree is that of its map. *)
Lemma root_hash_settled (kv : KeyValueDB DB ID) d T f m :
  0 < ht <= 255 -> kv_view kv d -> tree_models ht d T f m -> tree_settled d T m ->
  MerkleTree_root_hash T kv = Ok (map_root_hash m).
Proof.
  intros Hht Hkv Hm (_ & oa & Hrep & Htrie & Hcoh). pose proof (rep_root _ _ _ _ Hrep) as Hr.
  unfold map_root_hash. rewrite <- Htrie. unfold MerkleTree_root_hash.
  destruct T.(root_node) as [[|k]|] eqn:Hroot; cbn [root_ok] in Hr.
  - by destruct oa.
  - destruct oa as [a|]; [|done]. pose proof (rep_nodes _ _ _ _ Hrep) as Hn. cbn [ores] in Hn. unfold slot_get.
    destruct a as [| |k' ho l r|k' ho p c]; try done; injection Hr as ->; cbn [acoh] in Hcoh; destruct Hcoh as [Hho _].
    + erewrite (nodes_rep_lookup _ _ k) by (exact Hn || (cbn [res]; unfold bin_entry; rewrite mems_mem; by left)). cbn. by rewrite Hho.
    + erewrite (nodes_rep_lookup _ _ k) by (exact Hn || (cbn [res]; unfold edge_entry; rewrite mems_mem; by left)). cbn. by rewrite Hho.
  - pose proof (root_hash_clean ht Hht kv d T f m Hkv Hm Hroot) as Hclean. unfold MerkleTree_root_hash in Hclean.
    rewrite Hroot in Hclean. by rewrite Htrie.
Qed.

Context (Hht : 0 < ht <= 255).

(** ** Generation on a tree *)

(** What the generated proof holds, for the trie of a map. *)
Definition proof_of (P : gmap F (ProofNode F)) (o : option (trie F)) (keys : list BitVec) : Prop :=
  match o with
  | Some t => honest P t /\ forall k s, k ∈ keys -> s ∈ on_path t k -> covered P s
  | None => P = ∅
  end.

Lemma wp_tree_multi_proof (kv : KeyValueDB DB ID) d T f m keys :
  kv_view kv d -> tree_models ht d T f m -> tree_settled d T m -> Forall (fun k => length k = ht) keys ->
  wp (MerkleTree_get_multi_proof kv keys) T (fun T' P =>
    tree_models ht d T' f m /\ T'.(identifier) = T.(identifier) /\ tree_settled d T' m /\ proof_of P (trie_of m) keys).
Proof.
  intros Hkv Hm (Hc & oa & Hrep & Htrie & Hcoh) Hlen. destruct oa as [a|]; cbn in Htrie; rewrite <- Htrie.
  - wp_apply (wp_multi_proof kv d ht Hkv Hht T a keys). intros T' P ((a' & Hrep' & Hcoh' & Hs) & Hsame & Hh & Hd).
    assert (strip <$> Some a' = trie_of m) as Htrie' by (cbn; by rewrite Hs).
    split; [by eapply models_same|]. destruct Hsame as (Hi & _ & _ & Hc'). split; [done|]. split; [|done].
    split; [by rewrite Hc'|]. by exists (Some a').
  - wp_apply (wp_multi_proof_empty kv d ht Hkv Hht T keys). intros T' P (Hrep' & Hsame & ->).
    split; [by eapply (models_same _ _ _ _ _ _ None)|]. destruct Hsame as (Hi & _ & _ & Hc'). split; [done|]. split; [|done].
    split; [by rewrite Hc'|]. by exists None.
Qed.

#[local] Instance ProofNode_eq_dec : EqDecision (ProofNode F).
Proof. solve_decision. Defined.

(** The verifier on such a proof. *)
Lemma proof_of_path (P : gmap F (ProofNode F)) t keys k :
  proof_of P (Some t) keys -> k ∈ keys -> path_proved P t k \/ collision t t.
Proof.
  intros [Hh Hc] Hk.
  destruct (decide (Forall (fun s => match pnode s with Some n => bool_decide (P !! trie_hash s = Some n) | None => true end = true) (on_path t k))) as [Hall|Hno].
  - left. intros s n Hs Hn. rewrite Forall_forall in Hall. specialize (Hall s Hs). cbn in Hall. rewrite Hn in Hall. by apply bool_decide_eq_true in Hall.
  - right. apply not_Forall_Exists in Hno; [|apply _]. apply Exists_exists in Hno as (s & Hs & Hne).
    cbn in Hne. destruct (pnode s) as [n|] eqn:Hn; [|by destruct Hne]. rewrite bool_decide_eq_true in Hne.
    destruct (Hc k s Hk Hs) as [Hleaf|[n' Hn']]; [by destruct s|].
    destruct (Hh _ _ Hn') as (s' & Hs' & Hhash & Hpn). exists s', s, n', n. split_and!; [done| |done..|congruence|done].
    clear -Hs. revert k Hs. induction t as [v|l IHl r IHr|p c IH]; intros k Hs; cbn [on_path] in Hs.
    + set_solver.
    + cbn. apply elem_of_cons in Hs as [->|Hs]; [by left|right]. destruct k as [|[] k]; [set_solver|..]; apply elem_of_app; eauto.
    + cbn. apply elem_of_cons in Hs as [->|Hs]; [by left|right]. case_decide; [eauto|set_solver].
Qed.

Lemma Forall_or {A} (P : A -> Prop) (Q : Prop) l : (forall x, x ∈ l -> P x \/ Q) -> Forall P l \/ Q.
Proof.
  induction l as [|a l IH]; intros Hl; [left; constructor|].
  destruct (Hl a) as [Ha|]; [by left| |by right]. destruct IH as [IH|]; [intros x Hx; apply Hl; by right| |by right].
  left. by constructor.
Qed.

(** ** Generation on a storage *)

(** A storage with the maps [ms] and nothing pending; it may have nodes in
    memory. *)
Definition storage_settled self ms (ids : gset ByteVec) : Prop :=
  exists c, storage_model ht self c ms ms ids /\
    forall i, i ∈ ids -> tree_settled (view_of c) (tree_or_new self.(tries) i) (ms i).

Lemma storage_at_settled self ms ids : storage_at ht self ms ids -> storage_settled self ms ids.
Proof.
  intros [[c Hm] Hc]. exists c. split; [done|]. intros i Hi.
  eapply tree_settled_clean; [by eauto with bonsai|by apply Hc].
Qed.

Lemma storage_settled_answers self ms ids : storage_settled self ms ids -> answers ht self ms ids.
Proof.
  intros (c & Hm & Hs) i Hi. split.
  - eapply (root_hash_settled _ _ _ _ _ Hht); [by eauto with bonsai..|by apply Hs].
  - intros k Hk. split; [by eapply (storage_get_model ht)|by eapply (storage_contains_model ht)].
Qed.

Lemma wp_storage_multi_proof self ms ids i keys :
  storage_settled self ms ids -> i ∈ ids -> Forall (fun k => length k = ht) keys ->
  wp (BonsaiStorage_get_multi_proof i keys) self (fun self' P =>
    storage_settled self' ms ids /\ proof_of P (trie_of (ms i)) keys).
Proof.
  intros (c & Hm & Hs) Hi Hlen. unfold BonsaiStorage_get_multi_proof, on_tries. wp_step.
  assert (Hkv : kv_view self.(tries).(trees_db) (view_of c)) by eauto with bonsai.
  eapply wp_mono; [|eapply (wp_on_entry ht Hht self.(tries) c ms ms ids i _ (ms i)
    (fun T P => tree_settled (view_of c) T (ms i) /\ proof_of P (trie_of (ms i)) keys)); [exact Hm|done|]].
  2:{ eapply wp_mono; [|by apply (wp_tree_multi_proof _ _ _ (ms i) (ms i) keys Hkv); [eauto with bonsai|apply Hs|]].
      cbn beta. intros T' P (HT & Hid & Hset & HP). split; [done|]. split; [|done].
      rewrite Hid. by eapply (tree_or_new_identifier ht). }
  cbn beta. intros T P (HT & [Hset HP] & Hother & Hdb). split; [|done]. exists c. cbn [tries].
  assert (forall j, j ∈ ids -> (if decide (i = j) then ms i else ms j) = ms j) as Hms by (intros j _; by case_decide; subst).
  split.
  - destruct HT as [Hd Ht Hids Hbase Hh Hsep]. split; try done.
    intros j Hj. specialize (Ht j Hj). by rewrite Hms in Ht.
  - intros j Hj. destruct (decide (j = i)) as [->|Hne]; [done|]. rewrite Hother by done. by apply Hs.
Qed.

(** ** Sessions *)

(** What a client does between two reads: commit a window of writes, make a
    window of writes and drop it, ask for a proof. *)
Inductive session_op : Type :=
| Commit (id : ID) (ws : list (ByteVec * (BitVec * F)))
| Abandon (ws : list (ByteVec * (BitVec * F)))
| Prove (i : ByteVec) (keys : list BitVec).

Definition session_step (o : session_op) : action (BonsaiStorage F K M DB ID) (BonsaiStorageError (DatabaseError DB)) unit :=
  match o with
  | Commit id ws => commit_window (id, ws)
  | Abandon ws => _ ← for_each ws storage_write; on_tries MerkleTrees_reset_to_last_commit
  | Prove i keys => _ ← BonsaiStorage_get_multi_proof i keys; mret tt
  end.

Definition session_maps ms (o : session_op) : ByteVec -> gmap BitVec F :=
  match o with Commit _ ws => window_maps ms ws | _ => ms end.

Definition session_op_ok (ids : gset ByteVec) ms (o : session_op) : Prop :=
  match o with
  | Commit _ ws | Abandon ws => window ht ids ms ws
  | Prove i keys => i ∈ ids /\ Forall (fun k => length k = ht) keys
  end.
#[export] Instance session_op_ok_dec ids ms o : Decision (session_op_ok ids ms o).
Proof. destruct o; apply _. Defined.

Fixpoint session_ok (ids : gset ByteVec) ms (ops : list session_op) : Prop :=
  match ops with
  | [] => True
  | o :: ops => session_op_ok ids ms o /\ session_ok ids (session_maps ms o) ops
  end.
#[export] Instance session_ok_dec ids ms ops : Decision (session_ok ids ms ops).
Proof. revert ms. induction ops; intros ms; cbn; apply _. Defined.

Lemma wp_session_step self ms ids o :
  storage_settled self ms ids -> session_op_ok ids ms o ->
  wp (session_step o) self (fun self' _ => storage_settled self' (session_maps ms o) ids).
Proof.
  intros (c & Hm & Hs) Ho. destruct o as [id ws|ws|i keys]; cbn [session_step session_maps session_op_ok] in *.
  - unfold commit_window. wp_step.
    eapply wp_mono; [|by apply (wp_storage_writes ht Hht self c ms ms ids)].
    cbn beta. intros self1 _ [Hm1 _]. wp_apply (wp_transactional_commit ht Hht). intros self2 _ (Hm2 & Hc2 & _). by apply storage_at_settled.
  - wp_step. eapply wp_mono; [|by apply (wp_storage_writes ht Hht self c ms ms ids)].
    cbn beta. intros self1 _ [Hm1 _]. unfold on_tries. wp_step.
    wp_apply (wp_trees_reset ht). intros T _ [HT Hc].
    apply storage_at_settled. split; [by exists c|done].
  - destruct Ho as [Hi Hlen]. wp_step. eapply wp_mono; [|apply wp_storage_multi_proof; [by exists c|done|done]].
    cbn beta. intros self' P [Hset _]. by wp_step.
Qed.

Lemma wp_session self ms ids ops :
  storage_settled self ms ids -> session_ok ids ms ops ->
  wp (for_each ops session_step) self (fun self' _ => storage_settled self' (fold_left session_maps ops ms) ids).
Proof.
  revert self ms. induction ops as [|o ops IH]; intros self ms Hs Hok; cbn [for_each fold_left]; [by wp_step|].
  destruct Hok as [Ho Hok]. wp_step. wp_apply wp_session_step. intros self' _ Hs'. by apply IH.
Qed.

(** ** Properties *)

(** C6 Proofs are complete, end to end: on a storage with nothing pending,
    [get_multi_proof] succeeds for any keys of the right length and leaves the
    storage answering as before, and the verifier, given the root hash of the
    identifier, accepts the proof with the value of every key (zero when it has
    none), unless two different nodes of the trie have the same hash. For the
    empty map the proof is empty. *)
Theorem storage_multi_proof_correct self ms ids i keys :
  storage_settled self ms ids -> i ∈ ids -> Forall (fun k => length k = ht) keys ->
  wp (BonsaiStorage_get_multi_proof i keys) self (fun self' P =>
    storage_settled self' ms ids /\ answers ht self' ms ids /\ (ms i = ∅ -> P = ∅) /\
    (ms i <> ∅ -> forall r, BonsaiStorage_root_hash self i = Ok r ->
      MultiProof_verify_proof P r keys ht = (fun k => Ok (default Felt_ZERO (ms i !! k))) <$> keys \/
      root_collision (trie_of (ms i)) (trie_of (ms i)))).
Proof.
  intros Hs Hi Hlen. wp_apply wp_storage_multi_proof. intros self' P [Hs' HP]. split; [done|]. split; [by apply storage_settled_answers|].
  destruct (storage_settled_answers _ _ _ Hs i Hi) as [Hroot _].
  destruct Hs as (c & Hm & _). pose proof (models_trie _ _ _ _ _ (storage_tree _ _ _ _ _ _ _ Hm Hi)) as Htrie.
  destruct (trie_of (ms i)) as [t|] eqn:Ht; cbn in HP.
  - split.
    { intros Hnil. rewrite Hnil in Ht. done. }
    intros _ r Hr. rewrite Hroot in Hr. injection Hr as <-. unfold map_root_hash. rewrite Ht. cbn [otrie_hash].
    destruct Htrie as [Hwf Hlook]. cbn in Hwf, Hlook.
    destruct (Forall_or (path_proved P t) (collision t t) keys) as [Hall|]; [by intros k Hk; eapply proof_of_path| |by right].
    left. unfold MultiProof_verify_proof. rewrite (verify_keys_complete P ht t keys) by (done || lia || by apply Forall_and).
    apply list_fmap_ext. intros j k _. by rewrite <- Hlook.
  - split; [done|]. intros Hne. destruct Hne. destruct Htrie as [_ Hl]. apply map_eq. intros k. by rewrite <- Hl, lookup_empty.
Qed.

(** C7 Any session on a new storage, commits, windows that are dropped and
    proofs in any order, runs without error or panic, and leaves a storage that
    answers as the maps its commits lead to. *)
Theorem storage_session_correct db c cfg ids ops :
  db_holds db c -> unused c ids -> (forall i, i ∈ ids -> identifier_safe i ht) -> separated ht ids ->
  session_ok ids (fun _ => ∅) ops ->
  wp (for_each ops session_step) (BonsaiStorage_new db cfg ht)
    (fun self _ => answers ht self (fold_left session_maps ops (fun _ => ∅)) ids).
Proof.
  intros Hdb Hu Hsafe Hsep Hok. eapply wp_mono; [|apply wp_session; [|exact Hok]].
  - cbn beta. intros self _ Hs. by apply storage_settled_answers.
  - apply storage_at_settled. by eapply storage_at_new.
Qed.

(** At any moment of a session, a window of pending writes included, the storage
    satisfies its invariant. *)
Lemma wp_session_model db c cfg ids ops ws :
  db_holds db c -> unused c ids -> (forall i, i ∈ ids -> identifier_safe i ht) -> separated ht ids ->
  session_ok ids (fun _ => ∅) ops -> window ht ids (fold_left session_maps ops (fun _ => ∅)) ws ->
  wp (_ ← for_each ops session_step; for_each ws storage_write) (BonsaiStorage_new db cfg ht)
    (fun self _ => exists c' fs ms, storage_model ht self c' fs ms ids).
Proof.
  intros Hdb Hu Hsafe Hsep Hok Hw. wp_step.
  eapply wp_mono; [|apply wp_session; [apply storage_at_settled; by eapply storage_at_new|exact Hok]].
  cbn beta. intros self _ (c1 & Hm & Hs).
  eapply wp_mono; [|eapply (wp_storage_writes ht Hht self c1 _ _ ids); [exact Hm|done]].
  cbn beta. intros self' _ [Hm' _]. eauto.
Qed.

(** C8 The nodes in memory form a tree, at any moment of any session on a new
    storage, a window of pending writes included: in the slot map of every
    identifier each node is referred to exactly once, by its parent or as the
    root, so that no handle dangles and no node is shared or leaked; the root is
    at height 0, children are below their parents at the height their handle
    says, and nothing is above the height of the tree. *)
Theorem storage_trees_shaped db c cfg ids ops ws :
  db_holds db c -> unused c ids -> (forall i, i ∈ ids -> identifier_safe i ht) -> separated ht ids ->
  session_ok ids (fun _ => ∅) ops -> window ht ids (fold_left session_maps ops (fun _ => ∅)) ws ->
  wp (_ ← for_each ops session_step; for_each ws storage_write) (BonsaiStorage_new db cfg ht)
    (fun self _ => forall i, i ∈ ids -> tree_shaped (tree_or_new self.(tries) i)).
Proof.
  intros Hdb Hu Hsafe Hsep Hok Hw. eapply wp_mono; [|by eapply wp_session_model].
  cbn beta. intros self _ (c1 & fs & ms & Hm) i Hi.
  destruct (models_tree _ _ _ _ _ (storage_tree _ _ _ _ _ _ _ Hm Hi)) as (oa & Hrep & _). by eapply rep_shaped.
Qed.

(** C27 A proof request with a key of the wrong length fails with [KeyLength] for
    the first such key; the storage answers as before. *)
Theorem storage_multi_proof_key_length self ms ids i keys1 k keys2 :
  storage_settled self ms ids -> i ∈ ids -> Forall (fun k => length k = ht) keys1 -> length k <> ht ->
  exists self', BonsaiStorage_get_multi_proof i (keys1 ++ k :: keys2) self = (self', Err (Error_KeyLength ht (length k))) /\
    answers ht self' ms ids.
Proof.
  intros Hs Hi Hlen Hk. destruct (wp_storage_multi_proof _ _ _ _ _ Hs Hi Hlen) as (self' & P & Hrun & Hs' & _).
  exists self'. split; [|by apply storage_settled_answers].
  assert ((tree_or_new self.(tries) i).(max_height) = ht) as Hh.
  { destruct Hs as (c & _ & Hset). destruct (Hset i Hi) as (_ & oa & Hrep & _). apply (rep_height _ _ _ _ Hrep). }
  revert Hrun. unfold BonsaiStorage_get_multi_proof, on_tries, zoom, MerkleTrees_get_multi_proof, on_entry, MerkleTree_get_multi_proof.
  rewrite Hh. destruct (for_each keys1 _ _) as [[P1 it] r] eqn:Hfor. destruct r as [[]| | |]; intros [= <- _].
  rewrite (for_each_app_ok _ _ _ _ _ Hfor). cbn [for_each].
  assert (multi_proof_key (self.(tries).(trees_db)) ht k (P1, it) = ((P1, it), Err (Error_KeyLength ht (length k)))) as Hkey
    by (unfold multi_proof_key; by rewrite decide_True by done).
  unfold mbind at 1, action_bind at 1. by rewrite Hkey.
Qed.
End GenCorrect.
