(* ===== verification/Dump.v ===== *)
(** * Dumps

    Models the functions of [src/src/trie/tree.rs], [src/src/trie/trees.rs],
    [src/src/lib.rs] and [src/src/databases/rocks_db.rs] that print the trees and
    the database for debugging. A dump of trees is the list of the lines it
    traces (tracing does not fail); a dump of the database writes to a formatter,
    which may fail. A dump indexes the slot map and unwraps handles, keys and
    values: the theorems say that it never panics, that it ends, and that it shows
    every node, and every entry of the database, exactly once. *)
From S2P Require Import Prelude Path Id Database RocksLib Rocks RocksSpec RocksModel Error External MerkleNode Trie Changes KeyValueDb Tree Iterator Update Trees Proof Storage Annot TreeInv SetSpec TreeSpec TreesSpec StorageSpec StorageCorrect GenCorrect.
From stdpp Require Import lexico sorting.

(** ** Trees *)

(** What [trace!] is called with. *)
Inductive TraceLine (F K : Type) : Type :=
| Trace_tree_is_empty
| Trace_root_is_node (node : K)
| Trace_root_is_not_loaded
| Trace_bonsai_node (head : K) (node : Node F K)
| Trace_left_is_hash (hash : F)
| Trace_right_is_hash (hash : F)
| Trace_child_is_hash (hash : F)
| Trace_number_of_trees (n : nat)
| Trace_identifier (k : ByteVec).
Arguments Trace_tree_is_empty {F K}.
Arguments Trace_root_is_node {F K}.
Arguments Trace_root_is_not_loaded {F K}.
Arguments Trace_bonsai_node {F K}.
Arguments Trace_left_is_hash {F K}.
Arguments Trace_right_is_hash {F K}.
Arguments Trace_child_is_hash {F K}.
Arguments Trace_number_of_trees {F K}.
Arguments Trace_identifier {F K}.

Section Dump.
Context {F K : Type} {M : Type -> Type} {DB ID E : Type}.
Context `{StarkFelt F, !StarkHash F, SlotMap K M, !LawfulSlotMap K M, !NodeCodec F K, BonsaiDatabase DB, Id ID, HashMapIter}.
Abbreviation MerkleTree := (MerkleTree F K M).
Abbreviation MerkleTrees := (MerkleTrees F K M DB ID).
Abbreviation line := (TraceLine F K).
Implicit Types lines : list line.

Fixpoint MerkleTree_dump_node (fuel : nat) (self : MerkleTree) (head : K) : outcome E (list line) :=
  match fuel with
  | 0 => NoFuel
  | S fuel =>
      let child (h : NodeHandle F K) (is_hash : F -> line) : outcome E (list line) :=
        match h with
        | Hash hash => Ok [is_hash hash]
        | InMemory node_id => MerkleTree_dump_node fuel self node_id
        end in
      current_tmp ← expect (slot_get self.(nodes) head) "invalid SlotMap key used";
      lines ← match current_tmp with
              | Binary binary =>
                  left ← child binary.(binary_left) Trace_left_is_hash;
                  right ← child binary.(binary_right) Trace_right_is_hash;
                  Ok (left ++ right)
              | Edge edge => child edge.(edge_child) Trace_child_is_hash
              end;
      Ok (Trace_bonsai_node head current_tmp :: lines)
  end.

Definition MerkleTree_dump (self : MerkleTree) : outcome E (list line) :=
  match self.(root_node) with
  | Some RootHandle_Empty => Ok [Trace_tree_is_empty]
  | Some (RootHandle_Loaded node) =>
      lines ← MerkleTree_dump_node (tree_fuel self) self node;
      Ok (Trace_root_is_node node :: lines)
  | None => Ok [Trace_root_is_not_loaded]
  end.

Fixpoint dump_trees (trees : list (ByteVec * MerkleTree)) : outcome E (list line) :=
  match trees with
  | [] => Ok []
  | (k, tree) :: trees =>
      lines ← MerkleTree_dump tree;
      rest ← dump_trees trees;
      Ok (Trace_identifier k :: lines ++ rest)
  end.

Definition MerkleTrees_dump (self : MerkleTrees) : outcome E (list line) :=
  lines ← dump_trees (hash_iter self.(trees));
  Ok (Trace_number_of_trees (size self.(trees)) :: lines).

Definition BonsaiStorage_dump (self : BonsaiStorage F K M DB ID) : outcome E (list line) :=
  MerkleTrees_dump self.(tries).

(** The nodes a dump shows. *)
Definition shown_nodes (lines : list line) : list (K * Node F K) :=
  omap (M := list) (fun l => match l with Trace_bonsai_node k n => Some (k, n) | _ => None end) lines.

Lemma shown_nodes_app l1 l2 : shown_nodes (l1 ++ l2) = shown_nodes l1 ++ shown_nodes l2.
Proof. apply omap_app. Qed.

(** The dump of what a handle refers to. *)
Definition dump_handle (fuel : nat) (self : MerkleTree) (is_hash : F -> line) (h : NodeHandle F K) : outcome E (list line) :=
  match h with
  | Hash hash => Ok [is_hash hash]
  | InMemory node_id => MerkleTree_dump_node fuel self node_id
  end.

(** A subtree is shown in preorder. *)
Lemma dump_handle_spec (self : MerkleTree) path (a : atree F K) fuel is_hash :
  (forall h, shown_nodes [is_hash h] = []) ->
  (forall k nd, (k, nd) ∈ mems (res path a) -> slot_get self.(nodes) k = Some nd) ->
  length (mems (res path a)) <= fuel ->
  exists lines, dump_handle fuel self is_hash (ahandle a) = Ok lines /\ shown_nodes lines = mems (res path a).
Proof.
  revert path fuel is_hash. induction a as [v|t|k ho l IHl r IHr|k ho p c IH]; intros path fuel is_hash Hsh Hslot Hfuel;
    cbn [res] in Hslot, Hfuel |- *; cbn [ahandle].
  - eexists. by split.
  - eexists. split; [done|]. by rewrite Hsh, mems_tres.
  - unfold bin_entry in *. rewrite mems_mem, mems_app in *. cbn [length] in Hfuel. rewrite length_app in Hfuel.
    destruct fuel as [|fuel]; [lia|]. cbn [dump_handle MerkleTree_dump_node].
    rewrite (Hslot k _ ltac:(by left)). cbn [expect mbind outcome_bind binary_left binary_right].
    destruct (IHl (path ++ [false]) fuel Trace_left_is_hash) as (ls & Hl & Hls); [done|intros; apply Hslot; set_solver|lia|].
    destruct (IHr (path ++ [true]) fuel Trace_right_is_hash) as (rs & Hr & Hrs); [done|intros; apply Hslot; set_solver|lia|].
    unfold dump_handle in Hl, Hr. rewrite Hl. cbn [mbind outcome_bind]. rewrite Hr. eexists. split; [done|].
    change (shown_nodes (?x :: ?ls)) with (shown_nodes [x] ++ shown_nodes ls). by rewrite shown_nodes_app, Hls, Hrs.
  - unfold edge_entry in *. rewrite mems_mem in *. cbn [length] in Hfuel.
    destruct fuel as [|fuel]; [lia|]. cbn [dump_handle MerkleTree_dump_node].
    rewrite (Hslot k _ ltac:(by left)). cbn [expect mbind outcome_bind edge_child].
    destruct (IH (path ++ p) fuel Trace_child_is_hash) as (ls & Hc & Hls); [done|intros; apply Hslot; set_solver|lia|].
    unfold dump_handle in Hc. rewrite Hc. eexists. split; [done|].
    change (shown_nodes (?x :: ?ls)) with (shown_nodes [x] ++ shown_nodes ls). by rewrite Hls.
Qed.

(** The dump of a tree shows every node of its slot map once. *)
Lemma MerkleTree_dump_spec ht d (self : MerkleTree) oa :
  tree_rep ht d self oa ->
  exists lines, MerkleTree_dump self = Ok lines /\ shown_nodes lines ≡ₚ map_to_list (slot_view self.(nodes)).
Proof.
  intros [_ [Hn Hnd] Hroot _ _ _ _ _].
  assert (map_to_list (slot_view self.(nodes)) ≡ₚ mems (ores oa)) as Hperm by (rewrite Hn; by apply map_to_list_to_map).
  unfold MerkleTree_dump. destruct (root_node self) as [[|k]|], oa as [a|]; cbn in Hroot; try done;
    try (eexists; split; [done|]; rewrite Hperm; done).
  - destruct (dump_handle_spec self [] a (tree_fuel self) Trace_child_is_hash) as (ls & Hls & Hsh); [done| | |].
    { intros k' nd Hin. unfold slot_get. rewrite Hn. by apply elem_of_list_to_map_1. }
    { unfold tree_fuel. erewrite (nodes_rep_size _ (mems (ores (Some a)))) by done. cbn [ores]. lia. }
    rewrite Hroot in Hls. cbn [dump_handle] in Hls. rewrite Hls. eexists. split; [done|].
    change (shown_nodes (?x :: ?ls)) with (shown_nodes [x] ++ shown_nodes ls). rewrite Hsh, Hperm. done.
  - destruct a; try done. eexists. split; [done|]. rewrite Hperm. cbn [ores res]. by rewrite mems_tres.
Qed.

(** The dump of a storage is the dump of each of its trees. *)
Lemma MerkleTrees_dump_spec (self : MerkleTrees) :
  (forall i t, self.(trees) !! i = Some t -> exists ht d oa, tree_rep ht d t oa) ->
  exists lines, MerkleTrees_dump self = Ok lines /\
    shown_nodes lines ≡ₚ (map_to_list self.(trees) ≫= fun it => map_to_list (slot_view it.2.(nodes))).
Proof.
  intros Ht. unfold MerkleTrees_dump.
  assert (Forall (fun it => exists ht d oa, tree_rep ht d it.2 oa) (hash_iter self.(trees))) as Hall.
  { apply Forall_forall. intros [i t] Hin. rewrite hash_iter_perm, elem_of_map_to_list in Hin. eauto. }
  assert (exists lines, dump_trees (hash_iter self.(trees)) = Ok lines /\
    shown_nodes lines ≡ₚ (hash_iter self.(trees) ≫= fun it => map_to_list (slot_view it.2.(nodes)))) as (lines & -> & Hsh).
  { clear Ht. induction Hall as [|[i t] ts (ht & d & oa & Hrep) _ (rest & Hrest & Hsh)]; [by exists []|].
    destruct (MerkleTree_dump_spec ht d t oa Hrep) as (ls & Hls & Hn). cbn [dump_trees]. rewrite Hls, Hrest.
    eexists. split; [done|]. change (shown_nodes (?x :: ?ls)) with (shown_nodes [x] ++ shown_nodes ls).
    cbn [app shown_nodes omap list_omap]. fold (shown_nodes (ls ++ rest)). by rewrite shown_nodes_app, Hn, Hsh. }
  eexists. split; [done|]. change (shown_nodes (?x :: ?ls)) with (shown_nodes [x] ++ shown_nodes ls).
  cbn [app]. rewrite Hsh. by rewrite hash_iter_perm.
Qed.
End Dump.

Section StorageDump.
Context {F K : Type} {M : Type -> Type} {DB ID : Type}.
Context `{StarkFelt F, !LawfulFelt F, !StarkHash F, SlotMap K M, !LawfulSlotMap K M,
  !NodeCodec F K, !LawfulNodeCodec F K, BonsaiDatabase DB, !LawfulDatabase DB, Id ID, HashMapIter}.
Context (ht : nat) (Hht : 0 < ht <= 255).

(** C9 At any moment of any session on a new storage, pending writes included,
    the dump of the storage ends without panic, although it indexes the slot maps
    with every handle it meets, and it shows every node in memory exactly once. *)
Theorem storage_dump_correct (db : DB) c cfg ids ops ws :
  db_holds db c -> unused c ids -> (forall i, i ∈ ids -> identifier_safe i ht) -> separated ht ids ->
  session_ok ht ids (fun _ => ∅) ops -> window ht ids (fold_left session_maps ops (fun _ => ∅)) ws ->
  wp (_ ← for_each ops session_step; for_each ws storage_write) (BonsaiStorage_new db cfg ht)
    (fun self _ => exists lines, BonsaiStorage_dump (E := Empty_set) self = Ok lines /\
      shown_nodes lines ≡ₚ (map_to_list self.(tries).(trees) ≫= fun it => map_to_list (slot_view it.2.(nodes)))).
Proof.
  intros Hdb Hu Hsafe Hsep Hok Hw. eapply wp_mono; [|by eapply wp_session_model].
  cbn beta. intros self _ (c1 & fs & ms & Hm). apply MerkleTrees_dump_spec. intros i t Ht.
  destruct (tm_ids _ _ _ _ _ _ Hm i t Ht) as [Hi _]. pose proof (storage_tree _ _ _ _ _ _ _ Hm Hi) as Htree.
  unfold tree_or_new in Htree. rewrite Ht in Htree. destruct (models_tree _ _ _ _ _ Htree) as (oa & Hrep & _). eauto.
Qed.
End StorageDump.

(** ** Databases *)

(** The raw iterators of [rocksdb], on a database or on a transaction, and what
    is documented of them: after [seek_to_first] they are on the first entry of
    the column, [next] moves to the entry with the next key, and they are valid,
    with a key and a value, as long as they are on an entry. *)
Class RocksRawIter `{RocksLib} := {
  DBRawIterator : Type;
  raw_iterator_cf : OptimisticTransactionDB -> ColumnFamilyRef -> DBRawIterator;
  txn_raw_iterator_cf : RocksTransaction -> ColumnFamilyRef -> DBRawIterator;
  raw_seek_to_first : DBRawIterator -> DBRawIterator;
  raw_valid : DBRawIterator -> bool;
  raw_key : DBRawIterator -> option ByteVec;
  raw_value : DBRawIterator -> option ByteVec;
  raw_next : DBRawIterator -> DBRawIterator;
}.

Class LawfulRocksRawIter (names : list string) `{LawfulRocksLib names, !RocksRawIter} := {
  raw_entries : DBRawIterator -> list (ByteVec * ByteVec);
  raw_valid_spec : forall it, raw_valid it = match raw_entries it with [] => false | _ => true end;
  raw_entry_spec : forall it k v l, raw_entries it = (k, v) :: l ->
    raw_key it = Some k /\ raw_value it = Some v /\ raw_entries (raw_next it) = l;
  raw_iterator_cf_spec : forall db h, rocks_ok db ->
    scan (rocks_view db) (cf_name h) [] (raw_entries (raw_seek_to_first (raw_iterator_cf db h)));
  txn_raw_iterator_cf_spec : forall t h, txn_ok t ->
    scan (overlay (txn_writes t) (txn_base t)) (cf_name h) []
      (raw_entries (raw_seek_to_first (txn_raw_iterator_cf t h)));
}.

(** What a dump writes. *)
Inductive DumpLine : Type :=
| Dump_open
| Dump_entry (key value : ByteVec)
| Dump_close.

(** [writeln] writes a line to the formatter [W] (to the standard output, for a
    transaction). *)
Section RocksDump.
Context `{RocksLib, !RocksRawIter} {ID W E : Type} (writeln : DumpLine -> action W E unit).

(** [while iter.valid()]. *)
Fixpoint dump_column (fuel : nat) (iter : DBRawIterator) : action W E unit :=
  match fuel with
  | 0 => lift NoFuel
  | S fuel =>
      if raw_valid iter then
        key ← lift (expect (raw_key iter) "called `Option::unwrap()` on a `None` value");
        value ← lift (expect (raw_value iter) "called `Option::unwrap()` on a `None` value");
        _ ← writeln (Dump_entry key value);
        dump_column fuel (raw_next iter)
      else mret tt
  end.

(** [impl fmt::Debug for RocksDB]; [dump_database] prints it. *)
Definition RocksDB_fmt (fuel : nat) (self : RocksDB ID) : action W E unit :=
  _ ← writeln Dump_open;
  handle_trie ← lift (expect (cf_handle self.(rocks_db) TRIE_CF) CF_ERROR);
  handle_flat ← lift (expect (cf_handle self.(rocks_db) FLAT_CF) CF_ERROR);
  handle_trie_log ← lift (expect (cf_handle self.(rocks_db) TRIE_LOG_CF) CF_ERROR);
  _ ← dump_column fuel (raw_seek_to_first (raw_iterator_cf self.(rocks_db) handle_trie));
  _ ← dump_column fuel (raw_seek_to_first (raw_iterator_cf self.(rocks_db) handle_flat));
  _ ← dump_column fuel (raw_seek_to_first (raw_iterator_cf self.(rocks_db) handle_trie_log));
  writeln Dump_close.

Definition RocksDBTransaction_dump_database (fuel : nat) (self : RocksDBTransaction) : action W E unit :=
  handle_trie ← lift (expect (self.(column_families) !! TRIE_CF) CF_ERROR);
  handle_flat ← lift (expect (self.(column_families) !! FLAT_CF) CF_ERROR);
  handle_trie_log ← lift (expect (self.(column_families) !! TRIE_LOG_CF) CF_ERROR);
  _ ← dump_column fuel (raw_seek_to_first (txn_raw_iterator_cf self.(txn) handle_trie));
  _ ← dump_column fuel (raw_seek_to_first (txn_raw_iterator_cf self.(txn) handle_flat));
  dump_column fuel (raw_seek_to_first (txn_raw_iterator_cf self.(txn) handle_trie_log)).

Context `{!LawfulRocksLib column_names, !LawfulRocksRawIter column_names}.

Definition entry_line (kv : ByteVec * ByteVec) : DumpLine := Dump_entry kv.1 kv.2.

(** An action that writes lines, one after the other, until a write fails. *)
Definition writes (m : action W E unit) (lines : list DumpLine) : Prop := forall w, m w = for_each lines writeln w.

Lemma writes_line x : writes (writeln x) [x].
Proof. intros w. cbn [for_each]. unfold mbind, action_bind. by destruct (writeln x w) as [w' [[]| | |]]. Qed.

Lemma writes_bind m1 m2 l1 l2 : writes m1 l1 -> writes m2 l2 -> writes (_ ← m1; m2) (l1 ++ l2).
Proof.
  intros H1 H2 w. rewrite for_each_app. unfold mbind, action_bind. rewrite H1.
  destruct (for_each l1 writeln w) as [w' [[]| | |]]; [apply H2|done..].
Qed.

(** A loop with enough fuel writes the entries of the column. *)
Lemma writes_column fuel iter :
  length (raw_entries iter) < fuel -> writes (dump_column fuel iter) (entry_line <$> raw_entries iter).
Proof.
  revert iter. induction fuel as [|fuel IH]; intros iter Hfuel; [lia|]. cbn [dump_column]. rewrite raw_valid_spec.
  destruct (raw_entries iter) as [|[k v] l] eqn:Hit; [done|].
  destruct (raw_entry_spec iter k v l Hit) as (-> & -> & <-). rewrite fmap_cons.
  apply (writes_bind _ _ [entry_line (k, v)]); [apply writes_line|]. apply IH. cbn [length] in Hfuel. lia.
Qed.

(** The entries of the three columns, in the order of the dumps. *)
Definition columns (view : gmap (string * list Z) (list Z)) (trie flat log : list (ByteVec * ByteVec)) : Prop :=
  scan view TRIE_CF [] trie /\ scan view FLAT_CF [] flat /\ scan view TRIE_LOG_CF [] log.

(** The dump of the database writes every entry of the three columns once, in
    the order of the keys. *)
Lemma RocksDB_fmt_spec (self : RocksDB ID) :
  rocks_ok self.(rocks_db) ->
  exists trie flat log, columns (rocks_view self.(rocks_db)) trie flat log /\
    forall fuel, length trie < fuel -> length flat < fuel -> length log < fuel ->
      writes (RocksDB_fmt fuel self) (Dump_open :: (entry_line <$> trie ++ flat ++ log) ++ [Dump_close]).
Proof.
  intros Hok.
  destruct (cf_handle_spec _ TRIE_CF Hok ltac:(set_solver)) as (h1 & Hh1 & Hn1).
  destruct (cf_handle_spec _ FLAT_CF Hok ltac:(set_solver)) as (h2 & Hh2 & Hn2).
  destruct (cf_handle_spec _ TRIE_LOG_CF Hok ltac:(set_solver)) as (h3 & Hh3 & Hn3).
  pose proof (raw_iterator_cf_spec _ h1 Hok) as Hs1. pose proof (raw_iterator_cf_spec _ h2 Hok) as Hs2.
  pose proof (raw_iterator_cf_spec _ h3 Hok) as Hs3. rewrite Hn1 in Hs1. rewrite Hn2 in Hs2. rewrite Hn3 in Hs3.
  do 3 eexists. split; [by split_and!|]. intros fuel H1 H2 H3. unfold RocksDB_fmt. rewrite Hh1, Hh2, Hh3, !fmap_app, <- !app_assoc.
  apply (writes_bind _ _ [Dump_open]); [apply writes_line|].
  do 3 (apply writes_bind; [by apply writes_column|]). apply writes_line.
Qed.

(** A transaction dumps the contents its iterators see. *)
Lemma RocksDBTransaction_dump_spec (self : RocksDBTransaction) :
  txn_ok self.(txn) -> families_ok self.(column_families) ->
  exists trie flat log, columns (txn_scans self) trie flat log /\
    forall fuel, length trie < fuel -> length flat < fuel -> length log < fuel ->
      writes (RocksDBTransaction_dump_database fuel self) (entry_line <$> trie ++ flat ++ log).
Proof.
  intros Hok Hf.
  destruct (Hf TRIE_CF ltac:(set_solver)) as (h1 & Hh1 & Hn1). destruct (Hf FLAT_CF ltac:(set_solver)) as (h2 & Hh2 & Hn2).
  destruct (Hf TRIE_LOG_CF ltac:(set_solver)) as (h3 & Hh3 & Hn3).
  pose proof (txn_raw_iterator_cf_spec _ h1 Hok) as Hs1. pose proof (txn_raw_iterator_cf_spec _ h2 Hok) as Hs2.
  pose proof (txn_raw_iterator_cf_spec _ h3 Hok) as Hs3. rewrite Hn1 in Hs1. rewrite Hn2 in Hs2. rewrite Hn3 in Hs3.
  do 3 eexists. split; [by split_and!|]. intros fuel H1 H2 H3. unfold RocksDBTransaction_dump_database.
  rewrite Hh1, Hh2, Hh3, !fmap_app. do 2 (apply writes_bind; [by apply writes_column|]). by apply writes_column.
Qed.
End RocksDump.

(** The raw iterators of the model of [rocksdb]: the entries still to come. *)
#[export] Instance ModelRocks_raw_iter : RocksRawIter := {|
  DBRawIterator := list (list Z * list Z);
  raw_iterator_cf db h := model_entries db.(model_view) h [];
  txn_raw_iterator_cf t h := model_entries (overlay t.(model_writes) t.(model_base)) h [];
  raw_seek_to_first it := it;
  raw_valid it := match it with [] => false | _ => true end;
  raw_key it := fst <$> head it;
  raw_value it := snd <$> head it;
  raw_next it := tail it;
|}.

#[export] Instance ModelRocks_raw_iter_lawful : LawfulRocksRawIter column_names.
Proof.
  refine {| raw_entries it := it |}; cbn.
  - done.
  - by intros it k v l ->.
  - intros db h _. apply model_entries_scan.
  - intros t h _. apply model_entries_scan.
Defined.

(** A database with entries in two columns, dumped to a list of lines. *)
Example dump_run :
  let db := RocksDB_new (ID := BasicId) (mkModelDb column_names
    (<[(FLAT_CF, [2%Z]) := [7%Z]]> (<[(FLAT_CF, [1%Z]) := [8%Z]]> (<[(TRIE_CF, [3%Z]) := [9%Z]]> ∅))) []) RocksDBConfig_default in
  RocksDB_fmt (E := Empty_set) (fun l ls => (ls ++ [l], Ok tt)) 4 db [] =
  ([Dump_open; Dump_entry [3%Z] [9%Z]; Dump_entry [1%Z] [8%Z]; Dump_entry [2%Z] [7%Z]; Dump_close], Ok tt).
Proof. by vm_compute. Qed.
