(* ===== verification/RocksOpen.v ===== *)
(** * Opening a RocksDB database

    Models [create_rocks_db] of [src/src/databases/rocks_db.rs]: it empties a
    directory and opens a database with the three column families in it. The file
    system and the opening are parameters ([RocksOpen]) with their documented
    behaviour ([LawfulRocksOpen]). A storage on the database it opens answers as
    the maps it was given ([create_rocks_db_storage]). *)
From S2P Require Import Prelude Path Id Database RocksLib Rocks RocksSpec RocksModel Error External MerkleNode Trie Changes KeyValueDb Tree Iterator Update Trees Proof Storage Annot TreeInv SetSpec TreeSpec TreesSpec StorageSpec StorageCorrect.

(** ** [std::fs] and [rocksdb::Options] *)
Class RocksOpen `{RocksLib} := {
  FileSystem : Type;
  FilePath : Type;
  IoError : Type;
  path_exists : FilePath -> FileSystem -> bool;
  remove_dir_all : FilePath -> action FileSystem IoError unit;
  create_dir_all : FilePath -> action FileSystem IoError unit;
  Options : Type;
  Options_default : Options;
  Options_create_if_missing : bool -> Options -> Options;
  Options_create_missing_column_families : bool -> Options -> Options;
  ColumnFamilyDescriptor : Type;
  ColumnFamilyDescriptor_new : string -> Options -> ColumnFamilyDescriptor;
  open_cf_descriptors : Options -> FilePath -> list ColumnFamilyDescriptor -> action FileSystem RocksError OptimisticTransactionDB;
}.

(** Where the file system works ([fs_ok]) directories are removed and created,
    and opening an empty directory with the options that create what is missing
    gives an empty database with the column families of the descriptors. *)
Class LawfulRocksOpen `{!RocksLib, !LawfulRocksLib column_names, !RocksOpen} := {
  fs_ok : FileSystem -> Prop;
  dir_empty : FilePath -> FileSystem -> Prop;
  create_if_missing : Options -> bool;
  create_missing_column_families : Options -> bool;
  descriptor_name : ColumnFamilyDescriptor -> string;
  remove_dir_all_spec : forall path fs, fs_ok fs -> path_exists path fs = true ->
    exists fs', remove_dir_all path fs = (fs', Ok tt) /\ fs_ok fs' /\ path_exists path fs' = false;
  create_dir_all_spec : forall path fs, fs_ok fs -> path_exists path fs = false ->
    exists fs', create_dir_all path fs = (fs', Ok tt) /\ fs_ok fs' /\ dir_empty path fs';
  set_create_if_missing : forall b o,
    create_if_missing (Options_create_if_missing b o) = b /\
    create_missing_column_families (Options_create_if_missing b o) = create_missing_column_families o;
  set_create_missing_column_families : forall b o,
    create_missing_column_families (Options_create_missing_column_families b o) = b /\
    create_if_missing (Options_create_missing_column_families b o) = create_if_missing o;
  descriptor_new : forall name o, descriptor_name (ColumnFamilyDescriptor_new name o) = name;
  open_spec : forall o path ds fs, fs_ok fs -> dir_empty path fs ->
    create_if_missing o = true -> create_missing_column_families o = true ->
    column_names ⊆ descriptor_name <$> ds ->
    exists fs' db, open_cf_descriptors o path ds fs = (fs', Ok db) /\ rocks_ok db /\ rocks_view db = ∅;
}.

(** [.unwrap()] on what a call of [std::fs] returns. *)
Definition fs_unwrap `{RocksOpen} {E A} (m : action FileSystem IoError A) : action FileSystem E A := fun fs =>
  let '(fs, r) := m fs in (fs, unwrap r).

Definition create_rocks_db `{RocksOpen} (path : FilePath) : action FileSystem RocksError OptimisticTransactionDB :=
  exists_ ← gets (path_exists path);
  _ ← (if exists_ : bool then fs_unwrap (remove_dir_all path) else mret tt);
  _ ← fs_unwrap (create_dir_all path);
  let opts := Options_default in
  let opts := Options_create_if_missing true opts in
  let opts := Options_create_missing_column_families true opts in
  db ← open_cf_descriptors opts path
    [ColumnFamilyDescriptor_new TRIE_LOG_CF Options_default;
     ColumnFamilyDescriptor_new TRIE_CF Options_default;
     ColumnFamilyDescriptor_new FLAT_CF Options_default];
  mret db.

Section RocksOpen.
Context `{!RocksLib, !LawfulRocksLib column_names, !RocksOpen, !LawfulRocksOpen}.

Lemma wp_fs_unwrap {E A} (m : action FileSystem IoError A) fs (Q : FileSystem -> A -> Prop) :
  wp m fs Q -> wp (fs_unwrap (E := E) m) fs Q.
Proof. intros (fs' & a & Hm & HQ). exists fs', a. unfold fs_unwrap. by rewrite Hm. Qed.

(** Whatever the directory held, the database is open with its column families
    and empty. *)
Lemma wp_create_rocks_db path fs :
  fs_ok fs -> wp (create_rocks_db path) fs (fun _ db => rocks_ok db /\ rocks_view db = ∅).
Proof.
  intros Hfs. unfold create_rocks_db. wp_step. wp_step. wp_step.
  assert (wp (E := RocksError) (if path_exists path fs then fs_unwrap (remove_dir_all path) else mret tt) fs
    (fun fs' _ => fs_ok fs' /\ path_exists path fs' = false)) as Hempty.
  { destruct (path_exists path fs) eqn:Hex; [|by wp_step]. apply wp_fs_unwrap.
    destruct (remove_dir_all_spec path fs Hfs Hex) as (fs' & Hrun & ? & ?). by exists fs', tt. }
  eapply wp_mono; [|exact Hempty]. cbn beta. intros fs1 _ [Hfs1 Hex]. wp_step. apply wp_fs_unwrap.
  destruct (create_dir_all_spec path fs1 Hfs1 Hex) as (fs2 & Hrun & Hfs2 & Hd). exists fs2, tt. split; [done|].
  wp_step. destruct (set_create_if_missing true Options_default) as [Hc _].
  destruct (set_create_missing_column_families true (Options_create_if_missing true Options_default)) as [Hm Hc'].
  match goal with |- wp (open_cf_descriptors ?o _ ?ds) _ _ =>
    destruct (open_spec o path ds fs2) as (fs3 & db & Hopen & Hok & Hv); [done|done|congruence|done| |] end.
  { rewrite !fmap_cons, !descriptor_new. cbn. unfold column_names. set_solver. }
  exists fs3, db. split; [done|]. by wp_step.
Qed.
End RocksOpen.

Section Storage.
Context `{!RocksLib, !LawfulRocksLib column_names, !RocksOpen, !LawfulRocksOpen}.
Context {F K : Type} {M : Type -> Type} {ID : Type}.
Context `{StarkFelt F, !LawfulFelt F, !StarkHash F, SlotMap K M, !LawfulSlotMap K M,
  !NodeCodec F K, !LawfulNodeCodec F K, Id ID, HashMapIter}.
Context (ht : nat) (Hht : 0 < ht <= 255).

(** C3 The whole stack, from the disk up: whatever the directory held,
    [create_rocks_db] opens a database on which a new storage runs any history of
    commits without error or panic, and then answers as the maps the history
    leads to. *)
Theorem create_rocks_db_storage (path : FilePath) (fs : FileSystem) (config : RocksDBConfig) (cfg : BonsaiStorageConfig) (ids : gset ByteVec) (hist : list (ID * list (ByteVec * (BitVec * F)))) :
  fs_ok fs -> (forall i, i ∈ ids -> identifier_safe i ht) -> separated ht ids -> history_ok ht ids (fun _ => ∅) hist ->
  wp (create_rocks_db path) fs (fun _ db =>
    wp (run_history (K := K) (M := M) hist) (BonsaiStorage_new (RocksDB_new (ID := ID) db config) cfg ht)
      (fun self _ => answers ht self (history_maps hist (fun _ => ∅)) ids)).
Proof.
  intros Hfs Hsafe Hsep Hok. wp_apply wp_create_rocks_db. intros _ db [Hdb Hv].
  assert (db_holds (RocksDB_new (ID := ID) db config) ∅) as Hh.
  { split; [done|]. intros k. cbn. by rewrite Hv, !lookup_empty. }
  eapply wp_mono; [|apply (wp_run_history ht Hht _ (fun _ => ∅) ids); [eapply storage_at_new; [exact Hh| |done..]|done]].
  - cbn beta. intros self _ Hat. by apply storage_at_answers.
  - intros i b _. by rewrite !lookup_empty.
Qed.
End Storage.

(** ** A file system for [ModelRocks]: its directories, empty or with a database *)
#[export] Instance ModelRocks_open : RocksOpen := {|
  FileSystem := gmap string (option ModelDb);
  FilePath := string;
  IoError := unit;
  path_exists path fs := bool_decide (is_Some (fs !! path));
  remove_dir_all path fs := (delete path fs, match fs !! path with Some _ => Ok tt | None => Err tt end);
  create_dir_all path fs := (<[path := default None (fs !! path)]> fs, Ok tt);
  Options := bool * bool;
  Options_default := (false, false);
  Options_create_if_missing b o := (b, o.2);
  Options_create_missing_column_families b o := (o.1, b);
  ColumnFamilyDescriptor := string;
  ColumnFamilyDescriptor_new name _ := name;
  open_cf_descriptors o path ds fs :=
    match fs !! path with
    | Some (Some db) => (fs, if decide (ds ⊆ db.(model_names)) then Ok db else Err model_corruption)
    | Some None =>
        if o.1 && o.2 then let db := mkModelDb column_names ∅ [] in (<[path := Some db]> fs, Ok db) else (fs, Err model_corruption)
    | None => (fs, Err model_corruption)
    end;
|}.

Definition model_dir_empty (path : string) (fs : gmap string (option ModelDb)) : Prop := fs !! path = Some None.

#[export] Instance ModelRocks_open_lawful : LawfulRocksOpen.
Proof.
  refine (Build_LawfulRocksOpen ModelRocks ModelRocks_lawful ModelRocks_open (fun _ => True) model_dir_empty fst snd id _ _ _ _ _ _);
    try done; cbn.
  - intros path fs _ [db Hdb]%bool_decide_eq_true. rewrite Hdb. eexists. split_and!; [done..|].
    apply bool_decide_eq_false. rewrite lookup_delete_eq. by intros [].
  - intros path fs _ Hex%bool_decide_eq_false. eexists. split_and!; [done..|].
    unfold model_dir_empty. rewrite lookup_insert_eq. destruct (fs !! path); [by destruct Hex|done].
  - intros [o1 o2] path ds fs _ Hd -> -> _. rewrite Hd. by eexists _, _.
Defined.
