(* ===== verification/Findings.v ===== *)
(** * What the model showed

    Runs of the model on concrete inputs where the code does not do what it
    means to, or what its documentation says. The storage of these runs is over
    [HashMapDb], with the field elements and the hash of [Instances.v]; keys
    have eight bits. *)
From S2P Require Import Prelude Path Id Database HashMapDb External MerkleNode Instances Trie Error Changes KeyValueDb Tree Iterator Update Trees Proof Storage.

Definition TestStorage : Type := BonsaiStorage Felt252 positive (gmap positive) (HashMapDb BasicId) BasicId.
Definition test_new : TestStorage := BonsaiStorage_new HashMapDb_default BonsaiStorageConfig_default 8.
Definition test_key (n : Z) : BitVec := bits_of_byte n.

(** The calls of a run, and what the last one returns. *)
Inductive call : Type :=
| CallInsert (identifier : ByteVec) (key value : Z)
| CallRemove (identifier : ByteVec) (key : Z)
| CallCommit (id : Z).

Definition test_call (c : call) : action TestStorage (BonsaiStorageError HashMapDbError) unit :=
  match c with
  | CallInsert i k v => BonsaiStorage_insert i (test_key k) (felt v)
  | CallRemove i k => BonsaiStorage_remove i (test_key k)
  | CallCommit id => BonsaiStorage_commit (mkBasicId id)
  end.
Definition test_run (cs : list call) : TestStorage * outcome (BonsaiStorageError HashMapDbError) unit :=
  for_each cs test_call test_new.

Definition root_val (r : outcome (BonsaiStorageError HashMapDbError) Felt252) : option Z :=
  match r with Ok h => Some h.(felt_val) | _ => None end.
Definition get_val (r : outcome (BonsaiStorageError HashMapDbError) (option Felt252)) : option (option Z) :=
  match r with Ok v => Some (felt_val <$> v) | _ => None end.

(** Two writes of a key in one window: the second updates the pending leaf, not
    the trie. The value is the second, the root hash that of the first. *)
Example set_twice_root :
  let s := test_run [CallInsert [] 64 4; CallInsert [] 64 5; CallCommit 0] in
  s.2 = Ok tt /\
  get_val (BonsaiStorage_get s.1 [] (test_key 64)) = Some (Some 5%Z) /\
  root_val (BonsaiStorage_root_hash s.1 []) = Some (map_root_hash {[test_key 64 := felt 4]}).(felt_val) /\
  root_val (BonsaiStorage_root_hash s.1 []) <> Some (map_root_hash {[test_key 64 := felt 5]}).(felt_val).
Proof. vm_compute. repeat split; congruence. Qed.

(** A committed leaf is removed and set back to its value in one window: the
    write compares with the database, returns early, and the leaf is lost. *)
Example remove_reinsert_lost :
  let s := test_run [CallInsert [] 64 4; CallCommit 0; CallRemove [] 64; CallInsert [] 64 4; CallCommit 1] in
  s.2 = Ok tt /\
  get_val (BonsaiStorage_get s.1 [] (test_key 64)) = Some None /\
  root_val (BonsaiStorage_root_hash s.1 []) = Some 0%Z.
Proof. vm_compute. repeat split. Qed.

(** The split of an edge puts its key in the death row without the identifier.
    The commit then deletes the node with this key of the trie without
    identifier, which cannot be traversed there any more. *)
Example split_deletes_foreign_node :
  let s := test_run [CallInsert [] 64 1; CallInsert [] 96 2; CallInsert [] 97 3;
                     CallInsert [9%Z] 64 1; CallInsert [9%Z] 96 2; CallCommit 0;
                     CallInsert [9%Z] 97 3; CallCommit 1; CallInsert [] 98 4] in
  s.2 = Err (Error_Trie "Could not get node from db").
Proof. vm_compute. reflexivity. Qed.

(** A write changes loaded nodes but not their cached hashes: before the
    commit, a proof is made of stale hashes, and the root hash is the stale one
    where the code means to refuse ("The tree has uncommited changes"). *)
Example stale_hash_before_commit :
  let s := test_run [CallInsert [] 64 1; CallInsert [] 96 2; CallCommit 0; CallInsert [] 64 3] in
  s.2 = Ok tt /\
  root_val (BonsaiStorage_root_hash s.1 []) =
    Some (map_root_hash (<[test_key 64 := felt 1]> {[test_key 96 := felt 2]})).(felt_val).
Proof. vm_compute. repeat split. Qed.

Definition proof_of (s : TestStorage) (keys : list Z) : option (gmap Felt252 (ProofNode Felt252)) :=
  match (BonsaiStorage_get_multi_proof [] (test_key <$> keys) s).2 with Ok p => Some p | _ => None end.
Definition verdicts (p : gmap Felt252 (ProofNode Felt252)) (root : Z) (keys : list Z) : list (option Z) :=
  (fun r => match r with Ok v => Some v.(felt_val) | _ => None end) <$> MultiProof_verify_proof p (felt root) (test_key <$> keys) 8.

Example stale_proof_rejected :
  let s := (test_run [CallInsert [] 64 1; CallInsert [] 96 2; CallCommit 0; CallInsert [] 64 3]).1 in
  match proof_of s [64%Z], root_val (BonsaiStorage_root_hash s []) with
  | Some p, Some root => verdicts p root [64%Z] = [None]
  | _, _ => False
  end.
Proof. vm_compute. reflexivity. Qed.

(** The proof of the empty trie is empty: the verifier misses a node instead of
    returning zero for a key that is not a member. *)
Definition missing_node (r : outcome (ProofVerificationError Felt252) Felt252) : bool :=
  match r with Err (MissingNode _ _) => true | _ => false end.
Example empty_trie_proof :
  (size <$> proof_of test_new [64%Z]) = Some 0 /\
  root_val (BonsaiStorage_root_hash test_new []) = Some 0%Z /\
  (missing_node <$> MultiProof_verify_proof (∅ : gmap Felt252 (ProofNode Felt252)) (felt 0) [test_key 64] 8) = [true].
Proof. split_and!; by vm_compute. Qed.

(** A proof is untrusted input: an edge longer than 256 bits panics. *)
Definition panics {E A} (r : outcome E A) : bool := match r with Panic _ => true | _ => false end.
Example long_edge_panics :
  (panics <$> MultiProof_verify_proof
     ({[felt 7 := ProofNode_Edge (felt 0) (replicate 257 false)]} : gmap Felt252 (ProofNode Felt252))
     (felt 7) [test_key 64] 8) = [true].
Proof. by vm_compute. Qed.

(** A zero snapshot interval panics after the commit is written. *)
Example zero_interval_panics :
  let cfg := mkBonsaiStorageConfig (Some 500%Z) (Some 100%Z) 0 in
  (BonsaiStorage_commit (mkBasicId 0) (BonsaiStorage_new HashMapDb_default cfg 8 : TestStorage)).2 =
  Panic "attempt to calculate the remainder with a divisor of zero".
Proof. vm_compute. reflexivity. Qed.

(** The state at a commit: the code starts from the oldest snapshot before the
    commit and writes the old values of the logs in between, oldest first. It
    returns neither the state at the commit (3) nor the one before it (2); for
    the commit that took the first snapshot it finds none. *)
Definition state_at (s : TestStorage) (id key : Z) : option (option (option Z)) :=
  match BonsaiStorage_get_transactional_state s (mkBasicId id) BonsaiStorageConfig_default with
  | Ok (Some t) => Some (get_val (BonsaiStorage_get t [] (test_key key)))
  | Ok None => Some None
  | _ => None
  end.
Example transactional_state_wrong :
  let s := (test_run [CallInsert [] 64 1; CallCommit 0; CallInsert [] 64 2; CallCommit 1; CallInsert [] 64 3; CallCommit 2]).1 in
  state_at s 2 64 = Some (Some (Some 1%Z)) /\ state_at s 0 64 = Some None.
Proof. vm_compute. split; reflexivity. Qed.

(** A log that has expired reads as an empty one, not as the error "database is
    missing trie logs": the state before the commit of 0 is answered with the
    value it wrote, where the log, kept, leads to none. *)
Definition run_logs (logs : Z) : TestStorage :=
  (for_each [CallInsert [] 64 1; CallCommit 0; CallInsert [] 64 2; CallCommit 1; CallInsert [] 64 3; CallCommit 2] test_call
    (BonsaiStorage_new HashMapDb_default (mkBonsaiStorageConfig (Some logs) (Some 100%Z) 5) 8)).1.
Example expired_log_ignored :
  state_at (run_logs 500) 1 64 = Some (Some None) /\ state_at (run_logs 2) 1 64 = Some (Some (Some 1%Z)).
Proof. vm_compute. split; reflexivity. Qed.

(** Merging a transactional state back is not implemented. *)
Example merge_panics :
  let s := (test_run [CallInsert [] 64 1; CallCommit 0; CallInsert [] 64 2; CallCommit 1]).1 in
  match BonsaiStorage_get_transactional_state s (mkBasicId 1) BonsaiStorageConfig_default with
  | Ok (Some t) => panics (BonsaiStorage_merge t s).2 = true
  | _ => False
  end.
Proof. vm_compute. reflexivity. Qed.

(** The old value of a key changed twice is that of the first change, unless
    there was none: then it becomes the value in between. *)
Example insert_in_place_old_value :
  let key := TrieKey_Flat [1%Z] in
  let b := ChangeBatch_insert_in_place key (mkChange (Some [1%Z]) (Some [2%Z]))
             (ChangeBatch_insert_in_place key (mkChange None (Some [1%Z])) ∅) in
  b !! key = Some (mkChange (Some [1%Z]) (Some [2%Z])).
Proof. vm_compute. reflexivity. Qed.

(** Reading a log relies on the entries of a key being adjacent, which
    [HashMapDb] does not guarantee: here the new value of the first key, read
    before the entry of another key, is lost. *)
Definition log_entry (id : Z) (k ty : Z) (v : Z) : ByteVec * ByteVec :=
  (to_bytes (mkBasicId id) ++ [KEY_SEPARATOR] ++ [k; 1; ty]%Z, [v]).
Example deserialize_needs_order :
  let b : outcome HashMapDbError (gmap TrieKey Change) := ChangeBatch_deserialize (mkBasicId 0)
     [log_entry 0 1 NEW_VALUE 20; log_entry 0 2 NEW_VALUE 7; log_entry 0 1 OLD_VALUE 10] in
  match b with
  | Ok b => b !! TrieKey_Flat [1%Z] = Some (mkChange (Some [10%Z]) None)
  | _ => False
  end.
Proof. vm_compute. reflexivity. Qed.

(** Identifier and key are concatenated without a separator: a node of one
    identifier and a node of another have the same database key. *)
Example identifiers_collide :
  TrieKey_new [] TrieKeyType_Trie (Path_encode (replicate 8 false)) = TrieKey_new [8%Z] TrieKeyType_Trie (Path_encode []).
Proof. vm_compute. reflexivity. Qed.

(** The bits of a key do not come back from its bytes: the length is dropped. *)
Example key_bytes_lose_length :
  bytes_to_bitvec (E := HashMapDbError) (bitslice_to_bytes [true; true]) =
  Ok [true; true; false; false; false; false; false; false].
Proof. vm_compute. reflexivity. Qed.

(** The keys of an identifier are read by its prefix: those of an identifier
    that extends it are listed as well, cut at the wrong place. *)
Example listing_foreign_keys :
  let s := test_run [CallInsert [9%Z] 64 1; CallInsert [9%Z; 7%Z] 65 2; CallCommit 0] in
  s.2 = Ok tt /\
  match BonsaiStorage_get_keys s.1 [9%Z] with
  | Ok keys => bool_decide ([64%Z] ∈ keys) = true /\ length keys = 2
  | _ => False
  end.
Proof. vm_compute. repeat split. Qed.

(** The listing has a remark that on [HashMapDb] it does not tell branches from
    leaves. It need not: [HashMapDb] keeps the nodes in [trie_db], whose keys
    here have the prefix as well, and the listing reads [flat_db] alone. *)
Example listing_without_nodes :
  let s := test_run [CallInsert [9%Z] 64 1; CallInsert [9%Z] 96 2; CallCommit 0] in
  let db := s.1.(tries).(trees_db).(db) in
  s.2 = Ok tt /\
  forallb (fun kv => bool_decide ([9%Z] `prefix_of` kv.1)) (map_to_list db.(trie_db)) = true /\
  size db.(trie_db) = 4 /\ size db.(flat_db) = 2 /\
  match BonsaiStorage_get_keys s.1 [9%Z] with
  | Ok keys => bool_decide (keys ≡ₚ [[64%Z]; [96%Z]]) = true
  | _ => False
  end.
Proof. vm_compute. repeat split. Qed.
