(* ===== verification/FaultFindings.v ===== *)
(** * What the model showed of errors of the database

    Runs over the model of RocksDB, of which a read or a write fails. *)
From S2P Require Import Prelude Path Id Database RocksLib Rocks RocksSpec RocksModel External MerkleNode Instances Trie Error Changes KeyValueDb Tree Iterator Update Trees Proof Storage StorageSpec CommitErrors Findings.

Definition FaultyDb : Type := RocksDB (H := ModelRocks) BasicId.
Definition FaultyStorage : Type := BonsaiStorage Felt252 positive (gmap positive) FaultyDb BasicId.
Definition faulty_new : FaultyStorage :=
  BonsaiStorage_new (RocksDB_new (mkModelDb column_names ∅ []) RocksDBConfig_default) BonsaiStorageConfig_default 8.
Definition faulty_write (i : ByteVec) (key value : Z) : action FaultyStorage (BonsaiStorageError (DatabaseError FaultyDb)) unit :=
  storage_write (i, (test_key key, felt value)).
Definition faulty_get (s : FaultyStorage) (key : Z) : option (option Z) :=
  match BonsaiStorage_get s [] (test_key key) with Ok v => Some (felt_val <$> v) | _ => None end.
Definition faulty_root (s : FaultyStorage) : option Z :=
  match BonsaiStorage_root_hash s [] with Ok h => Some h.(felt_val) | _ => None end.

(** The keys that cannot be read for the moment. *)
Definition with_bad (bad : list ByteVec) (s : FaultyStorage) : FaultyStorage :=
  let kv := s.(tries).(trees_db) in let rocks := kv.(KeyValueDb.db).(rocks_db) in
  mkBonsaiStorage (set_trees_db (set_db (set_rocks_db (mkModelDb rocks.(model_names) rocks.(model_view) bad) kv.(KeyValueDb.db)) kv) s.(tries)).

(** [remove] marks the leaf as removed before it looks for it. When a node on the
    way cannot be read, the leaf stays in the trie with the mark: removing it again
    does nothing, and the commit makes [get] and the root hash disagree. *)
Example failed_remove_splits_state :
  let s := (_ ← faulty_write [] 64 1; _ ← faulty_write [] 96 2; _ ← faulty_write [] 97 3; BonsaiStorage_commit (mkBasicId 0)) faulty_new in
  let s1 := faulty_write [] 97 0 (with_bad [[7%Z; 96%Z]] s.1) in
  let s2 := (_ ← faulty_write [] 97 0; BonsaiStorage_commit (mkBasicId 1)) (with_bad [] s1.1) in
  s.2 = Ok tt /\ s1.2 = Err (Error_Database (RocksDBError_RocksDB model_corruption)) /\ s2.2 = Ok tt /\
  faulty_get s2.1 97 = Some None /\
  faulty_root s2.1 = Some (map_root_hash {[test_key 64 := felt 1; test_key 96 := felt 2; test_key 97 := felt 3]}).(felt_val).
Proof. vm_compute. repeat split. Qed.

(** Later in the removal, when the sibling of the removed leaf cannot be read, the
    node of the leaf is gone while its parent still refers to it: no commit
    succeeds any more. *)
Example failed_remove_dangles :
  let s := (_ ← faulty_write [] 64 1; _ ← faulty_write [] 96 2; BonsaiStorage_commit (mkBasicId 0)) faulty_new in
  let s1 := faulty_write [] 64 0 (with_bad [[3%Z; 96%Z]] s.1) in
  let s2 := BonsaiStorage_commit (mkBasicId 1) (with_bad [] s1.1) in
  let s3 := BonsaiStorage_commit (mkBasicId 1) s2.1 in
  s.2 = Ok tt /\ s1.2 = Err (Error_Database (RocksDBError_RocksDB model_corruption)) /\
  s2.2 = Err (Error_Trie "Couldn't fetch node in the temporary storage") /\ s3.2 = s2.2.
Proof. vm_compute. repeat split. Qed.

(** A commit that cannot write forgets the writes, whose changes are in the log
    of the next commit all the same. *)
Example failed_commit_logs_ghost :
  let e : DatabaseError FaultyDb := RocksDBError_RocksDB model_busy in
  let s := (_ ← faulty_write [] 64 1; BonsaiStorage_transactional_commit (H1 := write_fails e) (mkBasicId 0)) faulty_new in
  let s1 := BonsaiStorage_commit (mkBasicId 1) s.1 in
  s.2 = Err (Error_Database e) /\ s1.2 = Ok tt /\ faulty_get s1.1 64 = Some None /\
  (log ← from_DatabaseError (db_get_by_prefix s1.1.(tries).(trees_db).(KeyValueDb.db) (DatabaseKey_TrieLog (to_bytes (mkBasicId 1))));
    b ← ChangeBatch_deserialize (mkBasicId 1) log;
    Ok (b !! TrieKey_new [] TrieKeyType_Flat (bitslice_to_bytes (test_key 64)))) = Ok (Some (mkChange None (Some (Felt_encode (felt 1))))).
Proof. vm_compute. repeat split. Qed.
