(* ===== verification/Tests.v ===== *)
(** * The tests of the repository, on the model

    The unit tests of [src/src/trie/iterator.rs], [src/src/trie/proof.rs],
    [src/src/trie/merkle_node.rs] and [src/src/trie/path.rs], the property test
    of [src/src/tests/proptest.rs] with its recorded problems, the tests of
    [src/src/tests/simple.rs] that do not compare with hashes of Pedersen and one
    of [src/src/tests/transactional_state.rs], as functions of the model. Here they are
    evaluated on the instances of [Instances.v] and, where they open RocksDB, on
    [ModelRocks]; the random sequences of [proptest_seek_to] are covered
    completely. [TestCorrect.v] proves the property test for every input. *)
From S2P Require Import Prelude Path Id BTree Database HashMapDb RocksLib Rocks RocksSpec RocksModel External MerkleNode Instances Trie Error Changes KeyValueDb Tree Iterator Update Trees Proof Storage Dump.
From Stdlib Require Import Ascii.

(** [assert!] and [assert_eq!]. *)
Definition assert {E} (b : bool) : outcome E unit := if b then Ok tt else Panic "assertion failed".

(** [bits![u8, Msb0; ...]] of a string of bits, [BitSlice::from_slice] of bytes. *)
Definition bits (s : string) : BitVec := (fun a => Ascii.eqb a "1"%char) <$> list_ascii_of_string s.
Definition bits_from_slice (bytes : ByteVec) : BitVec := bytes ≫= bits_of_byte.

Abbreviation RocksDb := (RocksDB (H := ModelRocks) BasicId).
Abbreviation RocksStorage := (BonsaiStorage Felt252 positive (gmap positive) RocksDb BasicId).
Abbreviation test_error := (BonsaiStorageError (DatabaseError RocksDb)).
Definition rocks_storage (height : nat) : RocksStorage :=
  BonsaiStorage_new (RocksDB_new (mkModelDb column_names ∅ []) RocksDBConfig_default) BonsaiStorageConfig_default height.

Definition dump_storage : action RocksStorage test_error unit :=
  storage ← gets (fun self => self);
  _ ← lift (BonsaiStorage_dump storage);
  mret tt.

(** ** [trie::iterator::tests] *)
Module IteratorTests.
Abbreviation Iter := (MerkleTreeIterator Felt252 positive (gmap positive)).

(** The index of a slot-map key; the instance counts from one, as the slot map. *)
Definition cur_nodes_ids (it : Iter) : list Z := (fun n : positive * nat => Zpos n.1) <$> it.(current_nodes_heights).

(** The storage the tests seek in. *)
Definition test_storage : RocksStorage * outcome test_error unit :=
  (_ ← for_each [(bits "00010000", felt 1); (bits "00010001", felt 2); (bits "00010010", felt 3); (bits "01000000", felt 4)]
    (fun '(key, value) => BonsaiStorage_insert [] key value);
   dump_storage) (rocks_storage 8).

Definition test_iter : Iter := MerkleTreeIterator_new (tree_or_new test_storage.1.(tries) []).

(** A case: the key sought, and the leaf, the path, where the case asserts it,
    and the nodes after it. *)
Record seek_case := mkCase {
  case_key : BitVec;
  case_leaf : option Felt252;
  case_path : option BitVec;
  case_ids : list Z;
}.

Definition all_cases : list seek_case := [
  mkCase (bits "00010000") (Some (felt 1)) None [1; 7; 6; 4; 2]%Z;
  mkCase (bits "00010001") (Some (felt 2)) None [1; 7; 6; 4; 2]%Z;
  mkCase (bits "00010010") (Some (felt 3)) None [1; 7; 6; 4; 3]%Z;
  mkCase (bits "01000000") (Some (felt 4)) None [1; 7; 5]%Z;
  mkCase (bits "00010001") (Some (felt 2)) None [1; 7; 6; 4; 2]%Z;
  mkCase (bits "01000") None (Some (bits "01000000")) [1; 7; 5]%Z;
  mkCase (bits "000") None (Some (bits "000100")) [1; 7; 6]%Z;
  mkCase (bits "0001000") None (Some (bits "0001000")) [1; 7; 6; 4]%Z;
  mkCase (bits "000100") None (Some (bits "000100")) [1; 7; 6]%Z;
  mkCase [] None (Some []) [];
  mkCase (bits "0") None (Some (bits "0")) [1]%Z;
  mkCase (bits "0101000") None (Some (bits "01000000")) [1; 7; 5]%Z;
  mkCase (bits "1001000") None (Some (bits "0")) [1]%Z;
  mkCase (bits "1") None (Some (bits "0")) [1]%Z].

Definition run_case (c : seek_case) : action Iter test_error unit :=
  _ ← MerkleTreeIterator_seek_to test_storage.1.(tries).(trees_db) c.(case_key);
  leaf ← gets leaf_hash;
  _ ← lift (assert (bool_decide (leaf = c.(case_leaf))));
  path ← gets current_path;
  _ ← lift (match c.(case_path) with Some p => assert (bool_decide (path = p)) | None => Ok tt end);
  ids ← gets cur_nodes_ids;
  lift (assert (bool_decide (ids = c.(case_ids)))).

(** [cases_funcs[case](&mut iter)] for each case. *)
Definition test_iterator_seek_to_inner (cases : list nat) : outcome test_error unit :=
  (for_each cases (fun case =>
     c ← lift (expect (all_cases !! case) "index out of bounds"); run_case c) test_iter).2.

Example test_storage_ok : test_storage.2 = Ok tt.
Proof. by vm_compute. Qed.

(** [test_iterator_seek_to]. *)
Example test_iterator_seek_to : test_iterator_seek_to_inner (seq 0 (length all_cases)) = Ok tt.
Proof. by vm_compute. Qed.

(** The iterator after a case, whatever ran before. *)
Definition after (c : seek_case) : Iter := (run_case c test_iter).1.

#[local] Instance NodeHandle_eq_dec : EqDecision (NodeHandle Felt252 positive).
Proof. solve_decision. Defined.
#[local] Instance BinaryNode_eq_dec : EqDecision (BinaryNode Felt252 positive).
Proof. solve_decision. Defined.
#[local] Instance EdgeNode_eq_dec : EqDecision (EdgeNode Felt252 positive).
Proof. solve_decision. Defined.
#[local] Instance Node_eq_dec : EqDecision (Node Felt252 positive).
Proof. solve_decision. Defined.
#[local] Instance RootHandle_eq_dec : EqDecision (RootHandle positive).
Proof. solve_decision. Defined.
#[local] Instance InsertOrRemove_eq_dec : EqDecision (InsertOrRemove Felt252).
Proof. solve_decision. Defined.
#[local] Instance MerkleTree_eq_dec : EqDecision (MerkleTree Felt252 positive (gmap positive)).
Proof. solve_decision. Defined.
#[local] Instance Iter_eq_dec : EqDecision Iter.
Proof. solve_decision. Defined.

Definition case_leads (it : Iter) (c : seek_case) : bool :=
  match run_case c it with (it', Ok _) => bool_decide (it' = after c) | _ => false end.

Lemma run_case_after it c :
  it ∈ test_iter :: (after <$> all_cases) -> c ∈ all_cases -> run_case c it = (after c, Ok tt).
Proof.
  intros Hit Hc.
  assert (forallb (fun it => forallb (case_leads it) all_cases) (test_iter :: (after <$> all_cases)) = true) as Hall by by vm_compute.
  rewrite forallb_forall in Hall. specialize (Hall it ltac:(by apply list_elem_of_In)).
  rewrite forallb_forall in Hall. specialize (Hall c ltac:(by apply list_elem_of_In)). unfold case_leads in Hall.
  destruct (run_case c it) as [it' [[]| | |]]; try done. apply bool_decide_eq_true in Hall. by subst.
Qed.

(** [proptest_seek_to]: the cases in any order, with any repetitions. *)
Theorem proptest_seek_to (cases : list nat) :
  Forall (fun case => case < length all_cases) cases -> test_iterator_seek_to_inner cases = Ok tt.
Proof.
  intros Hcases. unfold test_iterator_seek_to_inner.
  assert (test_iter ∈ test_iter :: (after <$> all_cases)) as Hit by by left.
  revert Hit. generalize test_iter at 1 3. intros it Hit. revert it Hit.
  induction Hcases as [|case cases Hc _ IH]; intros it Hit; [done|].
  apply lookup_lt_is_Some in Hc as [c Hc]. cbn [for_each].
  assert (run_case c it = (after c, Ok tt)) as Hrun.
  { apply run_case_after; [done|]. by eapply list_elem_of_lookup_2. }
  rewrite Hc. cbn [expect]. erewrite bind_ok; [|unfold mbind, action_bind, lift; exact Hrun].
  apply IH. right. by apply list_elem_of_fmap_2, list_elem_of_lookup_2 with case.
Qed.
End IteratorTests.

(** ** [test_multiproof] of [trie::proof::tests] *)
Module ProofTests.
Definition key_values : list (BitVec * Felt252) := [
  (bits "00010000", felt 1); (bits "00010001", felt 2); (bits "00011101", felt 0); (bits "10010001", felt 0);
  (bits "01111101", felt 3); (bits "00010010", felt 0); (bits "01000000", felt 4); (bits "10010101", felt 0)].

Definition test_multiproof : outcome test_error unit :=
  let '(storage, inserted) :=
    (_ ← for_each key_values (fun '(k, v) => BonsaiStorage_insert [] k v); dump_storage) (rocks_storage 8) in
  _ ← inserted;
  let '(tree, proof) := MerkleTree_get_multi_proof storage.(tries).(trees_db) key_values.*1 (tree_or_new storage.(tries) []) in
  proof ← proof;
  root ← MerkleTree_root_hash tree storage.(tries).(trees_db);
  assert (bool_decide ((fun r => match r with Ok v => Some v | _ => None end) <$> MultiProof_verify_proof proof root key_values.*1 8 =
    Some <$> key_values.*2)).

Example test_multiproof_passes : test_multiproof = Ok tt.
Proof. by vm_compute. Qed.
End ProofTests.

(** ** The tests of [trie::merkle_node] *)
Module MerkleNodeTests.
Definition test_edge (height : nat) (path : ByteVec) : EdgeNode Felt252 positive :=
  mkEdgeNode None height (bits_from_slice path) (Hash (felt 0)).
Definition path_matches (edge : EdgeNode Felt252 positive) (key : ByteVec) (height : nat) : option bool :=
  match EdgeNode_path_matches (E := HashMapDbError) edge (bits_from_slice key) height with Ok b => Some b | _ => None end.
Definition common_path (edge : EdgeNode Felt252 positive) (key : ByteVec) : BitVec :=
  EdgeNode_common_path edge (bits_from_slice key).

Definition test_path : ByteVec := [170; 85; 170; 85]%Z.

Definition test_path_matches_basic : bool :=
  bool_decide (path_matches (test_edge 0 test_path) [170; 85; 170; 85]%Z 0 = Some true).
Definition test_path_matches_with_height : bool :=
  bool_decide (path_matches (test_edge 8 test_path) [170; 170; 85; 170; 85]%Z 8 = Some true).
Definition test_path_matches_only_part_with_height : bool :=
  bool_decide (path_matches (test_edge 8 test_path) [170; 170; 85; 170; 85; 170]%Z 8 = Some true).
Definition test_path_dont_match : bool :=
  bool_decide (path_matches (test_edge 0 [186; 85; 170; 85]%Z) [170; 85; 170; 85; 170]%Z 0 = Some false).
Definition test_common_path_basic : bool :=
  bool_decide (common_path (test_edge 0 test_path) [170; 85; 170; 85]%Z = bits_from_slice test_path).
Definition test_common_path_only_part : bool :=
  bool_decide (common_path (test_edge 0 test_path) [170; 85]%Z = bits_from_slice [170; 85]%Z).
Definition test_common_path_part_with_height : bool :=
  bool_decide (common_path (test_edge 8 test_path) [85; 170]%Z = bits_from_slice [170]%Z).
Definition test_no_common_path : bool :=
  bool_decide (common_path (test_edge 0 test_path) [85; 170]%Z = []).

Example merkle_node_tests_pass :
  test_path_matches_basic && test_path_matches_with_height && test_path_matches_only_part_with_height &&
  test_path_dont_match && test_common_path_basic && test_common_path_only_part &&
  test_common_path_part_with_height && test_no_common_path = true.
Proof. by vm_compute. Qed.
End MerkleNodeTests.

(** ** [test_shared_path_encode_decode] of [trie::path] *)
Module PathTests.
Definition path_cases : list ByteVec := [
  [170; 170]; []; [170]; [0]; [255]; [255; 0; 170; 170; 255; 0; 170; 170; 255; 0; 170; 170]]%Z.
Definition test_shared_path_encode_decode (input : ByteVec) : bool :=
  let path := bits_from_slice input in
  match Path_decode (Path_encode path) with Ok (decoded, _) => bool_decide (path = decoded) | _ => false end.

Example path_tests_pass : forallb test_shared_path_encode_decode path_cases = true.
Proof. by vm_compute. Qed.
End PathTests.

(** ** [tests::proptest] *)
Section PropTest.
Context {F K : Type} {M : Type -> Type} {ID : Type}.
Context `{StarkFelt F, !StarkHash F, SlotMap K M, !NodeCodec F K, Id ID, HashMapIter}.
Abbreviation Tree := (MerkleTree F K M).
Abbreviation Kv := (KeyValueDB (HashMapDb ID) ID).
Abbreviation error := (BonsaiStorageError (DatabaseError (HashMapDb ID))).

(** [MerkleTree::assert_empty] and [HashMapDb::assert_empty]. *)
Definition MerkleTree_assert_empty (self : Tree) : outcome error unit := assert (bool_decide (slot_view self.(nodes) = ∅)).
Definition HashMapDb_assert_empty (self : HashMapDb ID) : outcome error unit :=
  _ ← assert (bool_decide (self.(trie_db) = ∅)); assert (bool_decide (self.(flat_db) = ∅)).

(** [MerkleTree::commit]; [get_updates] asserts that it has visited the tree. *)
Definition MerkleTree_commit : action (Tree * Kv) error unit := fun '(self, kv) =>
  let '(self, db_changes) := MerkleTree_get_updates (DB := HashMapDb ID) self in
  match (u ← db_changes; _ ← MerkleTree_assert_empty self; Ok u) with
  | Ok db_changes =>
      let '((kv, batch), r) := for_each (hash_iter db_changes) apply_update (kv, KeyValueDB_create_batch kv) in
      match r with
      | Ok _ => let '(kv, r) := KeyValueDB_write_batch batch kv in ((self, kv), unwrap r)
      | _ => ((self, kv), r)
      end
  | Err e => ((self, kv), Err e)
  | Panic w => ((self, kv), Panic w)
  | NoFuel => ((self, kv), NoFuel)
  end.

Inductive Step : Type :=
| Step_Insert (k : BitVec) (v : F)
| Step_Remove (k : BitVec)
| Step_Commit.

(** The state of [check]: the reference map, the tree and the database. *)
Abbreviation state := (gmap BitVec F * (Tree * Kv))%type.

(** [.unwrap()] on what an action returns. *)
Definition unwrapped {S E A} (m : action S E A) : action S E A := fun s => let '(s', r) := m s in (s', unwrap r).

Definition tree_set (k : BitVec) (v : F) : action (Tree * Kv) error unit :=
  unwrapped (fun '(t, kv) => let '(t, r) := MerkleTree_set kv k v t in ((t, kv), r)).

Definition on_tree_db {A} (m : action (Tree * Kv) error A) : action state error A :=
  zoom snd (fun t '(ckv, _) => (ckv, t)) m.
Definition write_step (k : BitVec) (v : F) : action state error unit :=
  _ ← modify (fun '(ckv, t) => (<[k := v]> ckv, t));
  on_tree_db (tree_set k v).

Definition dump_tree : action (Tree * Kv) error unit :=
  tree ← gets fst;
  _ ← lift (MerkleTree_dump tree);
  mret tt.

Definition apply_step (s : Step) : action state error unit :=
  _ ← match s with
      | Step_Insert k v => write_step k v
      | Step_Remove k => write_step k Felt_ZERO
      | Step_Commit => on_tree_db (unwrapped MerkleTree_commit)
      end;
  on_tree_db dump_tree.

(** The tree returns the value of the reference map. *)
Definition check_key (kv : BitVec * F) : action (Tree * Kv) error unit := fun '(t, db) =>
  ((t, db), v2 ← unwrap (MerkleTree_get t db kv.1); assert (bool_decide (kv.2 = default Felt_ZERO v2))).
Definition remove_key (kv : BitVec * F) : action (Tree * Kv) error unit :=
  _ ← tree_set kv.1 Felt_ZERO; unwrapped MerkleTree_commit.

(** The height is five in the test. *)
Definition check (height : nat) (steps : list Step) : outcome error unit :=
  let kv := KeyValueDB_new HashMapDb_default KeyValueDBConfig_default None in
  let '((ckv, t), r) := for_each steps apply_step (∅, (MerkleTree_new [] height, kv)) in
  _ ← r;
  let '((t, kv), r) := (_ ← for_each (hash_iter ckv) check_key; for_each (hash_iter ckv) remove_key) t in
  _ ← r;
  _ ← HashMapDb_assert_empty kv.(db);
  MerkleTree_assert_empty t.
End PropTest.

Module PropTestProblems.
Abbreviation XStep := (Step (F := Felt252)).
Definition ins (k : string) (v : Z) : XStep := Step_Insert (bits k) (felt v).
Definition rem (k : string) : XStep := Step_Remove (bits k).
Definition run (steps : list XStep) : outcome (BonsaiStorageError HashMapDbError) unit :=
  check (K := positive) (M := gmap positive) (ID := BasicId) 5 steps.

Definition test_merkle_pb_1 := [ins "10011" 32; rem "10011"; rem "00000"; ins "00000" 32; Step_Commit; rem "00000"].
Definition test_merkle_pb_2 := [ins "01000" 32; ins "00000" 128; rem "00000"; Step_Commit].
Definition test_merkle_pb_3 := [ins "10000" 33; ins "11000" 34; ins "11010" 35; rem "10000"; rem "10000"; Step_Commit].
Definition test_merkle_pb_4 := [ins "00100" 32; Step_Commit; ins "00000" 33; Step_Commit].
Definition test_merkle_pb_5 := [ins "00001" 32; ins "00100" 32].
Definition test_merkle_pb_6 :=
  [ins "10000" 32; ins "11000" 32; Step_Commit; ins "11010" 32; ins "10000" 32; rem "10000"; rem "10000"].
Definition test_merkle_pb_7 := [ins "00000" 32; ins "10000" 32; Step_Commit; ins "00000" 64].

Example merkle_problems_pass :
  run <$> [test_merkle_pb_1; test_merkle_pb_2; test_merkle_pb_3; test_merkle_pb_4; test_merkle_pb_5; test_merkle_pb_6; test_merkle_pb_7] =
  replicate 7 (Ok tt).
Proof. by vm_compute. Qed.

(** The random inputs would have to repeat a value to show that a key removed
    and set back to its committed value is lost. *)
Example recommitted_value_fails : run [ins "00000" 32; Step_Commit; rem "00000"; ins "00000" 32] = Panic "assertion failed".
Proof. by vm_compute. Qed.
End PropTestProblems.

(** ** [tests::simple] *)
Module SimpleTests.
Definition value1 : Felt252 := felt 2279219251713205956808611524205958610257315118.
Definition value2 : Felt252 := felt 142451203231912494992230371021594560332694830.
Definition commit_with (f : action RocksStorage test_error unit) (id : Z) : action RocksStorage test_error unit :=
  _ ← f; BonsaiStorage_commit (mkBasicId id).

Definition basics : outcome test_error unit :=
  let '(storage, r) := (
    _ ← commit_with (BonsaiStorage_insert [] (bits_from_slice [1; 2; 1]%Z) value1) 0;
    _ ← commit_with (BonsaiStorage_insert [] (bits_from_slice [1; 2; 2]%Z) value2) 1;
    _ ← commit_with (BonsaiStorage_insert [] (bits_from_slice [1; 2; 3]%Z) value2) 2;
    _ ← BonsaiStorage_remove [] (bits_from_slice [1; 2; 1]%Z);
    self ← gets (fun self => self);
    v ← lift (BonsaiStorage_get self [] (bits_from_slice [1; 2; 1]%Z));
    _ ← lift (assert (bool_decide (v = None)));
    _ ← BonsaiStorage_commit (mkBasicId 3);
    self ← gets (fun self => self);
    v ← lift (BonsaiStorage_get self [] (bits_from_slice [1; 2; 1]%Z));
    lift (assert (bool_decide (v = None)))) (rocks_storage 24) in
  _ ← r;
  keys ← BonsaiStorage_get_keys storage [];
  assert (length keys =? 2)%nat.

Example basics_passes : basics = Ok tt.
Proof. by vm_compute. Qed.

(** The storages of the other tests: over RocksDB, of some height. A test inserts
    pairs of a key and a value under an identifier, and commits. *)
Definition insert_all (identifier : ByteVec) (l : list (BitVec * Felt252)) : action RocksStorage test_error unit :=
  for_each l (fun '(key, value) => BonsaiStorage_insert identifier key value).
Definition root_after (height : nat) (identifier : ByteVec) (m : action RocksStorage test_error unit) : outcome test_error Felt252 :=
  let '(storage, r) := m (rocks_storage height) in _ ← r; BonsaiStorage_root_hash storage identifier.

Definition pair1 : BitVec * Felt252 := (bits_from_slice [1; 2; 1]%Z, felt 0x2acf9d2ae5a475818075672b04e317e9da3d5180fed2c5f8d6d8a5fd5a92257).
Definition pair2 : BitVec * Felt252 := (bits_from_slice [1; 2; 2]%Z, felt 0x100bd6fbfced88ded1b34bd1a55b747ce3a9fde9a914bca75571e4496b56443).
Definition pair3 : BitVec * Felt252 := (bits_from_slice [1; 2; 3]%Z, felt 0x00a038cda302fedbc4f6117648c6d3faca3cda924cb9c517b46232c6316b152f).
Definition pair4 : BitVec * Felt252 := (bits_from_slice [1; 2; 4]%Z, felt 0x02808c7d8f3745e55655ad3f51f096d0c06a41f3d76caf96bad80f9be9ced171).

(** [assert_ne!] is about the hash of the instance. *)
Definition root_hash_similar_rocks_db : outcome test_error unit :=
  root_hash_1 ← root_after 24 [] (
    _ ← commit_with (insert_all [] [pair1; pair2]) 0;
    commit_with (insert_all [] [pair3; pair4]) 1);
  root_hash_2 ← root_after 24 [] (commit_with (insert_all [] [pair3; pair4]) 0);
  assert (negb (bool_decide (root_hash_1 = root_hash_2))).

(** A felt as a key: [to_bytes_be().view_bits()[5..]]. *)
Definition keyer (f : Felt252) : BitVec := drop 5 (bits_from_slice (be_bytes 32 f.(felt_val))).

Definition contract_states1 : list (BitVec * Felt252) := [
  (keyer (felt 0x020cfa74ee3564b4cd5435cdace0f9c4d43b939620e4a0bb5076105df0a626c6), felt 0x3a1606fc1a168e11bc31605aa32265a1a887c185feebb255a56bcac189fd5b6);
  (keyer (felt 0x06ee3440b08a9c805305449ec7f7003f27e9f7e287b83610952ec36bdc5a6bae), felt 0x4fc78cbac87f833e56c91dfd6eda5be3362204d86d24f1e1e81577d509f963b)].
Definition contract_states2 : list (BitVec * Felt252) := [
  (keyer (felt 0x06538fdd3aa353af8a87f5fe77d1f533ea82815076e30a86d65b72d3eb4f0b80), felt 0x2acf9d2ae5a475818075672b04e317e9da3d5180fed2c5f8d6d8a5fd5a92257)].

(** One commit or two, the same root hash. *)
Definition starknet_specific : outcome test_error unit :=
  root_hash1 ← root_after 251 [] (
    _ ← commit_with (insert_all [] contract_states1) 0;
    commit_with (insert_all [] contract_states2) 1);
  root_hash2 ← root_after 251 [] (
    _ ← insert_all [] contract_states1;
    commit_with (insert_all [] contract_states2) 1);
  assert (bool_decide (root_hash1 = root_hash2)).

Definition contract_states : list (BitVec * Felt252) := [
  (keyer (felt 0x0000000000000000000000000000000000000000000000000000000000000005), felt 0x000000000000000000000000000000000000000000000000000000000000022b);
  (keyer (felt 0x0313ad57fdf765addc71329abf8d74ac2bce6d46da8c2b9b82255a5076620300), felt 0x04e7e989d58a17cd279eca440c5eaa829efb6f9967aaad89022acbe644c39b36);
  (keyer (felt 0x313ad57fdf765addc71329abf8d74ac2bce6d46da8c2b9b82255a5076620301), felt 0x453ae0c9610197b18b13645c44d3d0a407083d96562e8752aab3fab616cecb0);
  (keyer (felt 0x05aee31408163292105d875070f98cb48275b8c87e80380b78d30647e05854d5), felt 0x00000000000000000000000000000000000000000000000000000000000007e5);
  (keyer (felt 0x06cf6c2f36d36b08e591e4489e92ca882bb67b9c39a3afccf011972a8de467f0), felt 0x07ab344d88124307c07b56f6c59c12f4543e9c96398727854a322dea82c73240)].

Definition double_insert : outcome test_error unit :=
  _ ← root_after 251 [] (commit_with (for_each contract_states (fun kv => insert_all [] [kv; kv])) 0); Ok tt.

Definition double_identifier : outcome test_error unit :=
  let identifier := [2; 3]%Z in let identifier2 := [1; 3; 1]%Z in
  let '(storage, r) := commit_with (for_each contract_states (fun kv =>
    _ ← insert_all identifier [kv]; insert_all identifier2 [kv])) 0 (rocks_storage 251) in
  _ ← r;
  root_hash ← BonsaiStorage_root_hash storage identifier;
  root_hash2 ← BonsaiStorage_root_hash storage identifier2;
  _ ← assert (bool_decide (root_hash = root_hash2));
  keys ← BonsaiStorage_get_keys storage identifier;
  keys2 ← BonsaiStorage_get_keys storage identifier2;
  _ ← assert (bool_decide (keys = keys2));
  assert (length keys =? 5)%nat.

Example simple_tests_pass :
  root_hash_similar_rocks_db = Ok tt /\ starknet_specific = Ok tt /\ double_insert = Ok tt /\ double_identifier = Ok tt.
Proof. vm_compute. repeat split. Qed.
End SimpleTests.

(** ** Tests of [tests::transactional_state], which [tests/mod.rs] leaves out

    The first commit of a storage has the identifier 0, and its snapshot is not
    before that identifier: there is no state for it, and the tests that ask for
    it would panic. *)
Module TransactionalStateTests.
Definition Ok_or_panic {A} (o : option A) : outcome test_error A := expect o "called `Option::unwrap()` on a `None` value".

Definition transactional_state_basics : outcome test_error unit :=
  let '(storage, r) := (
    _ ← SimpleTests.commit_with (BonsaiStorage_insert [] (bits_from_slice [1; 2; 2]%Z) (felt 0x66342762FDD54D033c195fec3ce2568b62052e)) 0;
    SimpleTests.commit_with (BonsaiStorage_insert [] (bits_from_slice [1; 2; 3]%Z) (felt 0x66342762FD54D033c195fec3ce2568b62052e)) 1)
    (rocks_storage 24) in
  _ ← r;
  state ← unwrap (BonsaiStorage_get_transactional_state storage (mkBasicId 0) BonsaiStorageConfig_default);
  bonsai_at_txn ← Ok_or_panic state;
  v ← unwrap (BonsaiStorage_get bonsai_at_txn [] (bits_from_slice [1; 2; 2]%Z));
  v ← Ok_or_panic v;
  _ ← assert (bool_decide (v = felt 0x66342762FDD54D033c195fec3ce2568b62052e));
  v ← unwrap (BonsaiStorage_get bonsai_at_txn [] (bits_from_slice [1; 2; 3]%Z));
  assert (bool_decide (v = None)).

Example transactional_state_basics_panics : transactional_state_basics = Panic "called `Option::unwrap()` on a `None` value".
Proof. vm_compute. reflexivity. Qed.
End TransactionalStateTests.
