(* ===== verification/TestCorrect.v ===== *)
(** * The property test, on all regular inputs

    [check] of [Tests.v] is the property test of [src/src/tests/proptest.rs]: a
    tree follows a reference map through insertions, removals and commits, and
    leaves an empty database and an empty slot map once every key is removed.
    It passes for every sequence of steps whose writes the trie follows
    ([steps_ok]), at any height; outside of these it can fail
    ([recommitted_value_fails], [Tests.v]). *)
From S2P Require Import Prelude Path Id Database HashMapDb External MerkleNode Trie Error Changes KeyValueDb Tree Iterator Update Trees Annot TreeInv SeekSpec SetSpec DeleteSpec CommitSpec TreeSpec TreesSpec Dump Tests.

Section TestCorrect.
Context {F K : Type} {M : Type -> Type} {ID : Type}.
Context `{StarkFelt F, !LawfulFelt F, !StarkHash F, SlotMap K M, !LawfulSlotMap K M,
  !NodeCodec F K, !LawfulNodeCodec F K, Id ID, HashMapIter}.
Context (ht : nat) (Hht : 0 < ht <= 255).
Abbreviation Tree := (MerkleTree F K M).
Abbreviation Kv := (KeyValueDB (HashMapDb ID) ID).
Implicit Types (t : Tree) (kv : Kv) (f m ckv : gmap BitVec F) (c : gmap DatabaseKey ByteVec).

(** The writes the trie follows, from the map [m] over the committed map [f]. *)
Fixpoint steps_ok f m (steps : list (Step (F := F))) : Prop :=
  match steps with
  | [] => True
  | Step_Insert k v :: steps => length k = ht /\ write_ok f m (k, v) /\ steps_ok f (write_map m (k, v)) steps
  | Step_Remove k :: steps => length k = ht /\ steps_ok f (delete k m) steps
  | Step_Commit :: steps => steps_ok m m steps
  end.
#[export] Instance steps_ok_dec f m steps : Decision (steps_ok f m steps).
Proof. revert f m. induction steps as [|[] steps IH]; intros f m; cbn; apply _. Defined.

(** A tree over a database that holds nothing but its nodes and leaves. *)
Record follows f m (s : Tree * Kv) : Prop := {
  fo_tree : exists c, db_holds s.2.(db) c /\ tree_models ht (view_of c) s.1 f m /\
    forall key v, view_of c key = Some v -> insert_key ht [] key;
  fo_id : s.1.(identifier) = [];
}.

Lemma wp_unwrapped {S E A} (act : action S E A) s (Q : S -> A -> Prop) : wp act s Q -> wp (unwrapped act) s Q.
Proof. intros (s' & a & Hrun & HQ). exists s', a. split; [|done]. unfold unwrapped. by rewrite Hrun. Qed.

Lemma wp_tree_set f m (s : Tree * Kv) k v :
  follows f m s -> length k = ht -> write_ok f m (k, v) ->
  wp (tree_set k v) s (fun s' _ => follows f (write_map m (k, v)) s').
Proof.
  destruct s as [t kv]. intros [(c & Hc & Hm & Ho) Hid] Hk Hw. cbn [fst snd] in *. apply wp_unwrapped.
  destruct (wp_write ht Hht kv (view_of c) t f m k v) as (t' & [] & Hrun & Hm' & Hkept & _); [by apply kv_view_of|done..|].
  unfold wp. rewrite Hrun. eexists _, tt. split; [reflexivity|]. split; [by exists c|]. cbn. by rewrite Hkept.
Qed.

Lemma wp_tree_commit f m (s : Tree * Kv) :
  follows f m s -> wp (unwrapped MerkleTree_commit) s (fun s' _ => follows m m s' /\ clean s'.1).
Proof.
  destruct s as [t kv]. intros [(c & Hc & Hm & Ho) Hid]. cbn [fst snd] in *. apply wp_unwrapped. unfold wp, MerkleTree_commit.
  destruct (wp_commit (DB := HashMapDb ID) ht Hht _ _ _ _ Hm) as (t' & u & -> & Hm' & Hclean & Hid' & _ & Hins).
  cbn [mbind outcome_bind]. pose proof Hclean as (_ & _ & _ & Hn). unfold MerkleTree_assert_empty, assert.
  rewrite bool_decide_true by done. cbn [mbind outcome_bind].
  destruct (wp_apply_changes False kv.(config) (kv, KeyValueDB_create_batch kv) c c u) as ([kv1 b] & [] & Hrun & c' & [Hp _ _ _] & Hview).
  { split; [by apply db_create_batch_spec|done..]. }
  { by intros key _ Hn'. }
  change (for_each (hash_iter u) apply_update (kv, KeyValueDB_create_batch kv) = ((kv1, b), Ok tt)) in Hrun. rewrite Hrun.
  destruct (db_write_batch_spec _ _ _ _ Hp) as (db' & Hwrite & Hdb'). unfold KeyValueDB_write_batch. cbn [fst snd] in Hwrite.
  rewrite Hwrite. eexists _, tt. split; [reflexivity|]. split; [|done]. split; [|cbn; congruence]. exists c'. split; [done|]. split.
  - eapply (models_ext ht Hht); [exact Hm'|..]; intros q Hq; apply Hview.
  - intros key v. rewrite Hview. unfold apply_updates. rewrite <- Hid.
    destruct (u !! key) as [[w|]|] eqn:Hu; [|done|rewrite Hid; apply Ho]. intros _. by eapply Hins.
Qed.

(** ** The steps *)

(** The reference map has the same values, keys of the height, and is empty only
    if nothing was written. *)
Record refers f m (s : gmap BitVec F * (Tree * Kv)) : Prop := {
  re_follows : follows f m s.2;
  re_values : forall k, length k = ht -> default Felt_ZERO (m !! k) = default Felt_ZERO (s.1 !! k);
  re_keys : forall k, is_Some (s.1 !! k) -> length k = ht;
  re_empty : s.1 = ∅ -> f = ∅ /\ s.2.1.(death_row) = ∅;
}.

Lemma write_map_value m k v k' :
  default Felt_ZERO (write_map m (k, v) !! k') = if decide (k = k') then v else default Felt_ZERO (m !! k').
Proof.
  unfold write_map. cbn [fst snd]. case_decide as Hv; case_decide as Hk; subst;
    by rewrite ?lookup_delete_eq, ?lookup_insert_eq, ?lookup_delete_ne, ?lookup_insert_ne.
Qed.

Lemma wp_write_step f m s k v :
  refers f m s -> length k = ht -> write_ok f m (k, v) ->
  wp (write_step k v) s (fun s' _ => refers f (write_map m (k, v)) s').
Proof.
  destruct s as [ckv s]. intros [Hf Hv Hk He] Hlen Hw. unfold write_step, on_tree_db. wp_step. wp_step. wp_step. cbn [snd fst] in *.
  wp_apply wp_tree_set. intros s' _ Hf'. split; cbn [fst snd]; [done|..].
  - intros k' Hk'. rewrite write_map_value, lookup_insert. case_decide; [done|by apply Hv].
  - intros k' [<-|[_ ?]]%lookup_insert_is_Some; [done|by apply Hk].
  - intros Hnil. by apply insert_non_empty in Hnil.
Qed.

Lemma map_default_empty m : map_wf ht m -> (forall k, length k = ht -> default Felt_ZERO (m !! k) = Felt_ZERO) -> m = ∅.
Proof.
  intros Hwf Hz. apply map_eq. intros k. rewrite lookup_empty. destruct (m !! k) as [v|] eqn:Hk; [|done].
  destruct (Hwf k v Hk) as [Hl Hv]. specialize (Hz k Hl). by rewrite Hk in Hz.
Qed.

Lemma follows_wf f m s : follows f m s -> map_wf ht m.
Proof. intros [(c & _ & Hm & _) _]. eapply trie_rep_map_wf. by eapply models_trie. Qed.

Lemma wp_dump_tree f m (s : Tree * Kv) : follows f m s -> wp dump_tree s (fun s' _ => s' = s).
Proof.
  intros [(c & _ & Hm & _) _]. destruct (models_tree _ _ _ _ _ Hm) as (oa & Hrep & _).
  destruct (MerkleTree_dump_spec (E := BonsaiStorageError (DatabaseError (HashMapDb ID))) _ _ _ _ Hrep) as (lines & Hdump & _).
  unfold dump_tree. wp_step. wp_step. wp_step. exists s, lines. split; [by unfold lift; rewrite Hdump|]. by wp_step.
Qed.

(** The step of the test without the dump that follows it. *)
Lemma wp_step_then_dump f m (s : gmap BitVec F * (Tree * Kv)) (act : action (gmap BitVec F * (Tree * Kv)) (BonsaiStorageError (DatabaseError (HashMapDb ID))) unit) :
  wp act s (fun s' _ => refers f m s') -> wp (_ ← act; on_tree_db dump_tree) s (fun s' _ => refers f m s').
Proof.
  intros Hact. wp_step. eapply wp_mono; [|exact Hact]. cbn beta. intros [ckv t] _ Hr. unfold on_tree_db. wp_step.
  eapply wp_mono; [|eapply wp_dump_tree, Hr]. cbn beta. by intros ? _ ->.
Qed.

Lemma wp_apply_step f m s st steps :
  refers f m s -> steps_ok f m (st :: steps) ->
  exists f' m', wp (apply_step st) s (fun s' _ => refers f' m' s') /\ steps_ok f' m' steps.
Proof.
  intros Hr Hok. destruct st as [k v|k|]; cbn [apply_step]; cbn in Hok.
  - destruct Hok as (Hk & Hw & Hok). exists f, (write_map m (k, v)). split; [|done]. by apply wp_step_then_dump, wp_write_step.
  - destruct Hok as (Hk & Hok). exists f, (delete k m). split; [|done]. apply wp_step_then_dump.
    eapply wp_mono; [|apply wp_write_step; [exact Hr|done|by left]].
    cbn beta. intros s' _ Hr'. unfold write_map in Hr'. by rewrite decide_True in Hr'.
  - exists m, m. split; [|done]. apply wp_step_then_dump.
    destruct s as [ckv s]. destruct Hr as [Hf Hv Hk He]. cbn [fst snd] in *. unfold on_tree_db. wp_step. cbn [snd].
    wp_apply wp_tree_commit. intros s' _ [Hf' Hc]. split; cbn [fst snd]; [done..|].
    intros ->. split; [|by destruct Hc as (_ & ? & _)].
    eapply map_default_empty; [by eapply follows_wf|]. intros k Hl. rewrite Hv by done. by rewrite lookup_empty.
Qed.

Lemma wp_apply_steps f m s steps :
  refers f m s -> steps_ok f m steps -> wp (for_each steps apply_step) s (fun s' _ => exists f' m', refers f' m' s').
Proof.
  revert f m s. induction steps as [|st steps IH]; intros f m s Hr Hok; cbn [for_each]; [wp_step; by exists f, m|].
  destruct (wp_apply_step f m s st steps Hr Hok) as (f' & m' & Hst & Hok'). wp_step. eapply wp_mono; [|exact Hst].
  cbn beta. intros s' _ Hr'. by apply (IH f' m').
Qed.

(** ** The checks *)

Lemma wp_check_keys f m s (l : list (BitVec * F)) :
  follows f m s -> Forall (fun e => length e.1 = ht /\ default Felt_ZERO (m !! e.1) = e.2) l ->
  wp (for_each l check_key) s (fun s' _ => s' = s).
Proof.
  intros Hf. induction 1 as [|[k v] l [Hk Hv] _ IH]; cbn [for_each]; [by wp_step|]. wp_step.
  destruct s as [t kv]. destruct Hf as [(c & Hc & Hm & _) _]. cbn [fst snd] in *.
  eexists _, tt. split; [|exact IH]. unfold check_key. cbn [fst snd].
  rewrite (MerkleTree_get_models ht kv (view_of c) t f m k) by (done || by apply kv_view_of).
  cbn [unwrap mbind outcome_bind]. unfold assert. by rewrite bool_decide_true.
Qed.

Lemma foldr_delete_delete m k (l : list BitVec) : foldr delete (delete k m) l = delete k (foldr delete m l).
Proof. induction l as [|k' l IH]; [done|]. cbn. rewrite IH. apply delete_delete. Qed.

Lemma wp_remove_keys f m s (l : list (BitVec * F)) :
  follows f m s -> Forall (fun e => length e.1 = ht) l ->
  wp (for_each l remove_key) s (fun s' _ =>
    (l = [] /\ s' = s) \/ (follows (foldr delete m l.*1) (foldr delete m l.*1) s' /\ clean s'.1)).
Proof.
  intros Hf Hlen. revert f m s Hf. induction Hlen as [|[k v] l Hk Hlen IH]; intros f m s Hf; cbn [for_each]; [wp_step; by left|].
  wp_step. unfold remove_key. wp_step. eapply wp_mono; [|apply wp_tree_set; [exact Hf|exact Hk|by left]].
  cbn beta. intros s1 _ Hf1. cbn [fst] in *. wp_apply wp_tree_commit. intros s2 _ [Hf2 Hc2].
  unfold write_map in Hf2. cbn [fst snd] in Hf2. rewrite decide_True in Hf2 by done.
  eapply wp_mono; [|by eapply IH]. cbn beta. intros s3 _ Hs3. right. cbn [fmap list_fmap foldr fst].
  rewrite <- foldr_delete_delete. destruct Hs3 as [[-> ->]|Hs3]; done.
Qed.

Lemma foldr_delete_none m (l : list BitVec) k : k ∈ l -> foldr delete m l !! k = None.
Proof.
  induction l as [|k' l IH]; [by intros ?%elem_of_nil|]. cbn. intros [->|Hk]%elem_of_cons; [by rewrite lookup_delete_eq|].
  rewrite lookup_delete. case_decide; auto.
Qed.

Lemma foldr_delete_le m (l : list BitVec) k v : foldr delete m l !! k = Some v -> m !! k = Some v /\ k ∉ l.
Proof.
  induction l as [|k' l IH]; cbn; [split; [done|apply not_elem_of_nil]|]. rewrite lookup_delete. case_decide; [done|].
  intros [? ?]%IH. split; [done|]. rewrite not_elem_of_cons. split; congruence.
Qed.

(** An empty tree has an empty slot map and an empty database. *)
Lemma follows_empty s :
  follows ∅ ∅ s -> s.1.(death_row) = ∅ -> HashMapDb_assert_empty s.2.(db) = Ok tt /\ MerkleTree_assert_empty (ID := ID) s.1 = Ok tt.
Proof.
  destruct s as [t kv]. intros [(c & Hc & Hm & Ho) Hid] Hrow. cbn [fst snd] in *.
  destruct Hm as [(oa & Hrep & Htrie) Hflat _ _ _ _].
  assert (oa = None) as ->.
  { destruct oa as [a|]; [|done]. destruct Htrie as [Hwf Hl]. cbn in Hwf, Hl.
    destruct (trie_inhabited ht _ Hwf) as (k & v & Hv). specialize (Hl k). by rewrite Hv, lookup_empty in Hl. }
  assert (forall key, view_of c key = None) as Hnone.
  { intros key. destruct (view_of c key) as [v|] eqn:Hv; [|done]. exfalso.
    destruct (Ho key v Hv) as [(q & Hq & ->)|(k & Hk & ->)].
    - rewrite <- Hid in Hv. destruct (rep_cover _ _ _ _ Hrep q Hq) as [Hin|Hin]; [by rewrite Hv|by apply elem_of_nil in Hin|].
      by rewrite Hrow in Hin.
    - rewrite <- Hid in Hv. specialize (Hflat k Hk). by rewrite Hflat, lookup_empty in Hv. }
  assert (HashMapDb_contents kv.(db) = c) as Hcon by exact Hc.
  split.
  - unfold HashMapDb_assert_empty, assert. rewrite !bool_decide_true; [done|..]; apply map_eq; intros b; rewrite lookup_empty.
    + specialize (Hnone (TrieKey_Trie b)). unfold view_of in Hnone. by rewrite <- Hcon, HashMapDb_contents_lookup in Hnone.
    + specialize (Hnone (TrieKey_Flat b)). unfold view_of in Hnone. by rewrite <- Hcon, HashMapDb_contents_lookup in Hnone.
  - unfold MerkleTree_assert_empty, assert. rewrite bool_decide_true; [done|]. by destruct (rep_nodes _ _ _ _ Hrep).
Qed.

Lemma follows_new : follows ∅ ∅ (MerkleTree_new [] ht, KeyValueDB_new HashMapDb_default KeyValueDBConfig_default None).
Proof.
  split; [|done]. exists ∅. cbn [fst snd]. split; [done|]. split; [|done].
  apply models_new; [done..|by left].
Qed.

(** C13 The checks of the repository's property test hold, at every height, on
    every sequence of insertions, removals and commits whose writes the trie
    follows ([steps_ok]: between two commits no pending value is replaced by
    another one, and no removed key is set back to its committed value). Such a
    sequence runs without error or panic; the tree then returns the last value
    written under every key; and once every key is removed, each followed by a
    commit, the database and the slot map are empty. On other inputs the test can
    fail, as [recommitted_value_fails] shows. *)
Theorem proptest_inserts steps : steps_ok ∅ ∅ steps -> check (K := K) (M := M) (ID := ID) ht steps = Ok tt.
Proof.
  intros Hok. unfold check.
  destruct (wp_apply_steps ∅ ∅ (∅, (MerkleTree_new [] ht, KeyValueDB_new HashMapDb_default KeyValueDBConfig_default None)) steps)
    as ([ckv s] & [] & Hrun & f & m & [Hf Hv Hk He]); [|done|].
  { split; cbn; [apply follows_new|done| |done]. intros k [v Hkv]. by rewrite lookup_empty in Hkv. }
  rewrite Hrun. cbn [mbind outcome_bind fst snd] in *.
  assert (forall k v, (k, v) ∈ hash_iter ckv -> ckv !! k = Some v) as Hin.
  { intros k v. by rewrite hash_iter_perm, elem_of_map_to_list. }
  assert (wp (_ ← for_each (hash_iter ckv) check_key; for_each (hash_iter ckv) remove_key) s
    (fun s' _ => follows ∅ ∅ s' /\ s'.1.(death_row) = ∅)) as (s' & [] & Hrun' & Hf' & Hrow).
  2:{ revert Hrun'. destruct s' as [t' kv']. destruct (follows_empty _ Hf' Hrow) as [Hdb Ht]. cbn [fst snd] in *.
      unfold mbind at 2. intros Hrun'. unfold mbind at 1 in Hrun'. rewrite Hrun'. cbn [mbind outcome_bind]. by rewrite Hdb. }
  wp_step. eapply wp_mono; [|apply (wp_check_keys f m); [exact Hf|]].
  2:{ apply Forall_forall. intros [k v] Hkv%Hin. cbn. assert (length k = ht) as Hl by (apply Hk; by eexists).
      split; [done|]. by rewrite Hv, Hkv. }
  cbn beta. intros ? _ ->. eapply wp_mono; [|apply (wp_remove_keys f m); [exact Hf|]].
  2:{ apply Forall_forall. intros [k v] Hkv%Hin. apply Hk. by eexists. }
  assert (foldr delete m (hash_iter ckv).*1 = ∅) as Hnil.
  { apply map_eq. intros k. rewrite lookup_empty. destruct (foldr delete m _ !! k) as [v|] eqn:Hkv; [|done]. exfalso.
    apply foldr_delete_le in Hkv as [Hm Hno]. destruct (follows_wf _ _ _ Hf k v Hm) as [Hl Hz]. specialize (Hv k Hl).
    rewrite Hm in Hv. cbn in Hv. destruct (ckv !! k) as [w|] eqn:Hc; [|by cbn in Hv]. apply Hno, list_elem_of_fmap.
    exists (k, w). split; [done|]. by rewrite hash_iter_perm, elem_of_map_to_list. }
  cbn beta. rewrite Hnil. intros s' _ [[Hempty ->]|[Hf' Hc]].
  - assert (ckv = ∅) as ->.
    { apply map_to_list_empty_iff, Permutation_nil. by rewrite <- hash_iter_perm, Hempty. }
    destruct He as [-> Hrow]; [done|]. split; [|done]. cbn in Hnil. by rewrite Hempty in Hnil; cbn in Hnil; rewrite Hnil in Hf.
  - split; [done|]. by destruct Hc as (_ & ? & _).
Qed.
End TestCorrect.
