(* ===== verification/Witnesses.v ===== *)
(** * Concrete runs of the theorems

    Each theorem of the development that has hypotheses, at an input where they
    hold: a storage of two identifiers over [HashMapDb], with keys of eight bits
    and the instances of [Instances.v]. *)
From S2P Require Import Prelude Path Id BTree Database HashMapDb RocksLib Rocks RocksSpec RocksModel External MerkleNode Instances Trie Error Changes Logs Snapshots KeyValueDb Tree Iterator Update Trees Proof Storage Annot TreeInv SeekSpec WalkSpec SetSpec DeleteSpec CommitSpec TreeSpec TreeCorrect IterCorrect TreesSpec StorageSpec LogSpec StorageCorrect CommitErrors ReadErrors StateRuns StateCorrect ContentsCorrect ListCorrect ProofSpec ProofCorrect GenSpec GenCorrect Dump RocksOpen Tests TestCorrect.

(** ** The storage of the runs *)
Abbreviation XDB := (HashMapDb BasicId).
Abbreviation XStorage := (BonsaiStorage Felt252 positive (gmap positive) XDB BasicId).
Abbreviation XProof := (@gmap Felt252 (Felt_eq_dec (F := Felt252)) (Felt_countable (F := Felt252)) (ProofNode Felt252)).
Definition xdb : XDB := HashMapDb_default.
Definition xcfg : BonsaiStorageConfig := BonsaiStorageConfig_default.
Definition xid (b : Z) : ByteVec := [b].
Definition xids : gset ByteVec := {[xid 200; xid 201]}.
Definition xkey (n : Z) : BitVec := bits_of_byte n.
Definition xnew : XStorage := BonsaiStorage_new xdb xcfg 8.

Definition xw (b n v : Z) : ByteVec * (BitVec * Felt252) := (xid b, (xkey n, felt v)).
Definition xwindow : list (ByteVec * (BitVec * Felt252)) := 
  [xw 200 64 1; xw 200 97 5; xw 200 96 2; xw 200 97 0; xw 200 97 6; xw 201 64 3; xw 200 97 6; xw 200 97 0].
Definition xhist : list (BasicId * list (ByteVec * (BitVec * Felt252))) :=
  [(mkBasicId 0, xwindow); (mkBasicId 1, [xw 200 64 0; xw 201 65 4])].
Definition xmaps : ByteVec -> gmap BitVec Felt252 := history_maps xhist (fun _ => ∅).

Lemma x_height : 0 < 8 <= 255. Proof. lia. Qed.

Lemma xids_cases i : i ∈ xids -> i = xid 200 \/ i = xid 201.
Proof. unfold xids. set_solver. Qed.
Lemma x_safe i : i ∈ xids -> identifier_safe i 8.
Proof. intros [-> | ->]%xids_cases; apply identifier_safe_head; lia. Qed.
Lemma x_separated : separated 8 xids.
Proof.
  apply (separated_heads 8 xids 1); [lia|].
  intros i [-> | ->]%xids_cases; (split; [done|]); eexists _, []; (split; [reflexivity|lia]).
Qed.
Lemma x_unused : unused (∅ : gmap DatabaseKey ByteVec) xids.
Proof. intros i b _. by rewrite !lookup_empty. Qed.
Lemma x_holds : db_holds xdb (∅ : gmap DatabaseKey ByteVec).
Proof. reflexivity. Qed.

(** Windows and histories are checked by evaluation. *)
Lemma xwindow_new : window 8 xids (fun _ => ∅) xwindow.
Proof. apply (bool_decide_eq_true_1 _). by vm_compute. Qed.
Lemma xhist_ok : history_ok 8 xids (fun _ => ∅) xhist.
Proof. apply (bool_decide_eq_true_1 _). by vm_compute. Qed.

(** The storage after the history. *)
Definition xs : XStorage := (run_history xhist xnew).1.
Lemma x_new_at : storage_at 8 xnew (fun _ => ∅) xids.
Proof. exact (storage_at_new 8 xdb ∅ xcfg xids x_holds x_unused x_safe x_separated). Qed.
Lemma x_run : run_history xhist xnew = (xs, Ok tt) /\ storage_at 8 xs xmaps xids.
Proof.
  destruct (wp_run_history 8 x_height xnew (fun _ => ∅) xids xhist x_new_at xhist_ok) as (s & [] & Hrun & Hat).
  unfold xs. rewrite Hrun. by split.
Qed.

(** A window on top of it. *)
Lemma xwindow_ok : window 8 xids xmaps xwindow.
Proof. apply (bool_decide_eq_true_1 _). by vm_compute. Qed.

(** ** The storage *)
Lemma storage_history_correct_witness :
  wp (run_history xhist) xnew (fun self _ => answers 8 self xmaps xids).
Proof. exact (storage_history_correct 8 x_height xdb ∅ xcfg xids xhist x_holds x_unused x_safe x_separated xhist_ok). Defined.

Definition xhist2 : list (BasicId * list (ByteVec * (BitVec * Felt252))) :=
  [(mkBasicId 5, [xw 200 96 7; xw 201 1 1]); (mkBasicId 6, [xw 200 96 2])].
Definition xs2 : XStorage := (run_history xhist2 xnew).1.
Lemma xhist2_ok : history_ok 8 xids (fun _ => ∅) xhist2.
Proof. apply (bool_decide_eq_true_1 _). by vm_compute. Qed.
Definition xmaps2 : ByteVec -> gmap BitVec Felt252 := history_maps xhist2 (fun _ => ∅).
Lemma x_run2 : run_history xhist2 xnew = (xs2, Ok tt) /\ storage_at 8 xs2 xmaps2 xids.
Proof.
  destruct (wp_run_history 8 x_height xnew (fun _ => ∅) xids xhist2 x_new_at xhist2_ok) as (s & [] & Hrun & Hat).
  unfold xs2. rewrite Hrun. by split.
Qed.
Lemma x_same_map : xmaps (xid 200) = xmaps2 (xid 200).
Proof. apply (bool_decide_eq_true_1 _). by vm_compute. Qed.
Lemma xid_in : xid 200 ∈ xids.
Proof. unfold xids. set_solver. Qed.

(** The second history once more, on RocksDB. *)
Abbreviation XRocks := (RocksDB (H := ModelRocks) BasicId).
Abbreviation RStorage := (BonsaiStorage Felt252 positive (gmap positive) XRocks BasicId).
Definition rdb : XRocks := RocksDB_new (mkModelDb column_names ∅ []) RocksDBConfig_default.
Definition rnew : RStorage := BonsaiStorage_new rdb xcfg 8.
Definition rs2 : RStorage := (run_history xhist2 rnew).1.
Lemma r_holds : db_holds rdb (∅ : gmap DatabaseKey ByteVec).
Proof. by split. Qed.
Lemma r_run2 : run_history xhist2 rnew = (rs2, Ok tt).
Proof.
  destruct (wp_run_history 8 x_height rnew (fun _ => ∅) xids xhist2) as (s & [] & Hrun & Hat).
  - exact (storage_at_new 8 rdb ∅ xcfg xids r_holds x_unused x_safe x_separated).
  - exact xhist2_ok.
  - unfold rs2. by rewrite Hrun.
Qed.

Lemma storage_root_hash_history_independent_witness :
  exists r, BonsaiStorage_root_hash xs (xid 200) = Ok r /\ BonsaiStorage_root_hash rs2 (xid 200) = Ok r.
Proof.
  exact (storage_root_hash_history_independent 8 x_height xdb ∅ xcfg xhist rdb ∅ xcfg xhist2 xids (xid 200) xs rs2
    x_holds x_unused r_holds x_unused x_safe x_separated xhist_ok xhist2_ok xid_in x_same_map (proj1 x_run) r_run2).
Defined.

Lemma storage_reads_pending_witness :
  wp (for_each xwindow storage_write) xs (fun self' _ =>
    (forall i k, i ∈ xids -> length k = 8 ->
      BonsaiStorage_get self' i k = Ok (window_maps xmaps xwindow i !! k) /\
      BonsaiStorage_contains self' i k = Ok (bool_decide (is_Some (window_maps xmaps xwindow i !! k)))) /\
    (forall i, Forall (fun w => w.1 <> i) xwindow -> window_maps xmaps xwindow i = xmaps i)).
Proof. exact (storage_reads_pending 8 x_height xs xmaps xids xwindow (proj2 x_run) xwindow_ok). Defined.

(** The nodes of the tries cannot be read for the moment. *)
Definition x_unread : DatabaseError XDB := mkHashMapDbError.
Definition x_bad (key : DatabaseKey) : bool := match key with DatabaseKey_Trie _ => true | _ => false end.
Definition x_first : list (ByteVec * (BitVec * Felt252)) := [xw 200 64 1; xw 200 97 5].
Lemma storage_insert_read_error_witness :
  let insert_fails := BonsaiStorage_insert (H1 := read_fails x_bad x_unread) (xid 201) (xkey 96) (felt 9) in
  let insert := BonsaiStorage_insert (H1 := HashMapDb_database) (xid 201) (xkey 96) (felt 9) in
  wp (for_each x_first storage_write) xs (fun self1 _ =>
    insert_fails self1 = insert self1 \/
    exists self2, insert_fails self1 = (self2, Err (Error_Database x_unread)) /\
      (forall j k', j ∈ xids -> length k' = 8 -> BonsaiStorage_get self2 j k' = Ok (window_maps xmaps x_first j !! k')) /\
      wp (_ ← insert; BonsaiStorage_transactional_commit (mkBasicId 10)) self2
        (fun self3 _ => answers 8 self3 (window_maps xmaps (x_first ++ [xw 201 96 9])) xids)) /\
  ((_ ← for_each x_first storage_write; insert_fails) xs).2 = Err (Error_Database x_unread).
Proof.
  split; [|by vm_compute].
  refine (storage_insert_read_error 8 x_height x_bad x_unread xs xmaps xids x_first (xid 201) (xkey 96) (felt 9)
    (mkBasicId 10) (proj2 x_run) _ _); [|done].
  apply (bool_decide_eq_true_1 _). by vm_compute.
Defined.

Lemma storage_reset_drops_window_witness :
  wp (_ ← for_each xwindow storage_write; on_tries MerkleTrees_reset_to_last_commit) xs
    (fun self' _ => answers 8 self' xmaps xids).
Proof. exact (storage_reset_drops_window 8 x_height xs xmaps xids xwindow (proj2 x_run) xwindow_ok). Defined.

Lemma storage_reopen_witness :
  answers 8 (BonsaiStorage_new xs.(tries).(trees_db).(db) xcfg 8 : XStorage) xmaps xids.
Proof. exact (storage_reopen 8 x_height xs xmaps xids xcfg (proj2 x_run)). Defined.

Lemma storage_write_key_length_witness :
  exists self', storage_write (xid 200, ([true], felt 3)) xnew = (self', Err (Error_KeyLength 8 1)) /\
    self'.(tries).(trees_db) = xnew.(tries).(trees_db) /\
    forall j, tree_or_new self'.(tries) j = tree_or_new xnew.(tries) j.
Proof. apply (storage_write_key_length 8 xnew (xid 200) [true] (felt 3)); [reflexivity|done|intros t [=]]. Defined.

Lemma storage_commit_correct_witness :
  wp (_ ← for_each xwindow storage_write; BonsaiStorage_commit (mkBasicId 10)) xs
    (fun self' _ => storage_at 8 self' (window_maps xmaps xwindow) xids /\
      answers 8 self' (window_maps xmaps xwindow) xids).
Proof.
  apply (storage_commit_correct 8 x_height xs xmaps xids xwindow (mkBasicId 10) (proj2 x_run) xwindow_ok).
  apply (bool_decide_eq_true_1 _). by vm_compute.
Defined.

(** ** Proofs *)
Lemma x_same_root : BonsaiStorage_root_hash xs (xid 200) = BonsaiStorage_root_hash xs2 (xid 200).
Proof.
  destruct (storage_at_answers 8 x_height _ _ _ (proj2 x_run) (xid 200) xid_in) as [Hr1 _].
  destruct (storage_at_answers 8 x_height _ _ _ (proj2 x_run2) (xid 200) xid_in) as [Hr2 _].
  by rewrite Hr1, Hr2, x_same_map.
Qed.
Lemma storage_root_hash_commits_witness :
  xmaps (xid 200) = xmaps2 (xid 200) \/ root_collision (trie_of (xmaps (xid 200))) (trie_of (xmaps2 (xid 200))).
Proof.
  exact (storage_root_hash_commits 8 x_height xs xmaps xids (xid 200) xs2 xmaps2 xids (xid 200)
    (proj2 x_run) xid_in (proj2 x_run2) xid_in x_same_root).
Defined.

Definition xproof : XProof :=
  match (BonsaiStorage_get_multi_proof (xid 200) [xkey 96] xs).2 with Ok p => p | _ => ∅ end.
Definition xroot : Felt252 := match BonsaiStorage_root_hash xs (xid 200) with Ok r => r | _ => felt 0 end.
Lemma x_root : BonsaiStorage_root_hash xs (xid 200) = Ok xroot.
Proof.
  destruct (storage_at_answers 8 x_height _ _ _ (proj2 x_run) (xid 200) xid_in) as [Hr _].
  unfold xroot. by rewrite Hr.
Qed.
Definition xverdict : option (outcome (ProofVerificationError Felt252) Felt252) :=
  MultiProof_verify_proof xproof xroot [xkey 96] 8 !! 0.
Definition xvalue : Felt252 := match xverdict with Some (Ok v) => v | _ => felt 0 end.
Lemma x_verdict : xverdict = Some (Ok xvalue).
Proof.
  assert (match xverdict with Some (Ok _) => true | _ => false end = true) as Hok by by vm_compute.
  unfold xvalue. by destruct xverdict as [[]|].
Qed.
Lemma storage_proof_sound_witness :
  exists k, [xkey 96] !! 0 = Some k /\
    (BonsaiStorage_get xs (xid 200) k = Ok (xmaps (xid 200) !! k) /\ xvalue = default (felt 0) (xmaps (xid 200) !! k) \/
     forged_root xproof (trie_of (xmaps (xid 200)))).
Proof.
  apply (storage_proof_sound 8 x_height xs xmaps xids (xid 200) xroot xproof [xkey 96] 0 xvalue (proj2 x_run) xid_in x_root).
  - by repeat constructor.
  - exact x_verdict.
Defined.

Definition xtrie : trie Felt252 := Edg (xkey 96) (Leaf (felt 2)).
Definition xP : XProof := {[trie_hash xtrie := ProofNode_Edge (felt 2) (xkey 96)]}.
Lemma verify_proof_returns_witness :
  Forall (fun r => returns r) (MultiProof_verify_proof xP (felt 7) [xkey 1; [true]] 8).
Proof. apply verify_proof_returns. apply map_Forall_singleton. cbn. lia. Defined.

Lemma felt_nonzero z : (z mod felt_prime <> 0)%Z -> felt z <> Felt_ZERO.
Proof. intros Hz Heq. apply Hz. by apply (f_equal felt_val) in Heq. Qed.

Lemma verify_proof_complete_witness :
  MultiProof_verify_proof xP (trie_hash xtrie) [xkey 96; xkey 3] 8 =
  (fun k => Ok (default Felt_ZERO (trie_lookup xtrie k))) <$> [xkey 96; xkey 3].
Proof.
  apply verify_proof_complete; [|lia|].
  - cbn [trie_wf xtrie]. split_and!; [done|cbn; lia|done|by apply felt_nonzero|done].
  - assert (forall k, path_proved xP xtrie k) as Hp.
    { intros k t' node Ht Hn. cbn [on_path xtrie] in Ht. case_decide; set_unfold in Ht.
      - destruct Ht as [->|[->|[]]]; [|done]. injection Hn as <-. apply lookup_singleton_eq.
      - destruct Ht as [->|[]]. injection Hn as <-. apply lookup_singleton_eq. }
    by repeat constructor.
Defined.

Lemma verify_proof_key_length_witness :
  MultiProof_verify_proof xP (trie_hash xtrie) ([xkey 96] ++ [true] :: [xkey 3]) 8 !! length [xkey 96] =
    Some (Err (KeyLengthMismatch [true] 8 (length [true]))) /\
  delete (length [xkey 96]) (MultiProof_verify_proof xP (trie_hash xtrie) ([xkey 96] ++ [true] :: [xkey 3]) 8) =
    MultiProof_verify_proof xP (trie_hash xtrie) ([xkey 96] ++ [xkey 3]) 8.
Proof. apply verify_proof_key_length. done. Defined.

(** ** Generated proofs and sessions *)
Definition xkeys : list BitVec := [xkey 96; xkey 97; xkey 3].
Lemma xkeys_length : Forall (fun k => length k = 8) xkeys.
Proof. by repeat constructor. Qed.
Lemma xs_settled : storage_settled 8 xs xmaps xids.
Proof. exact (storage_at_settled 8 xs xmaps xids (proj2 x_run)). Qed.

Lemma storage_multi_proof_correct_witness :
  wp (BonsaiStorage_get_multi_proof (xid 200) xkeys) xs (fun self' P =>
    storage_settled 8 self' xmaps xids /\ answers 8 self' xmaps xids /\ (xmaps (xid 200) = ∅ -> P = ∅) /\
    (xmaps (xid 200) <> ∅ -> forall r, BonsaiStorage_root_hash xs (xid 200) = Ok r ->
      MultiProof_verify_proof P r xkeys 8 = (fun k => Ok (default Felt_ZERO (xmaps (xid 200) !! k))) <$> xkeys \/
      root_collision (trie_of (xmaps (xid 200))) (trie_of (xmaps (xid 200))))).
Proof. exact (storage_multi_proof_correct 8 x_height xs xmaps xids (xid 200) xkeys xs_settled xid_in xkeys_length). Defined.

Lemma storage_multi_proof_key_length_witness :
  exists self', BonsaiStorage_get_multi_proof (xid 200) (xkeys ++ [true] :: []) xs = (self', Err (Error_KeyLength 8 1)) /\
    answers 8 self' xmaps xids.
Proof. exact (storage_multi_proof_key_length 8 x_height xs xmaps xids (xid 200) xkeys [true] [] xs_settled xid_in xkeys_length ltac:(done)). Defined.

Definition xsession : list (session_op (F := Felt252) (ID := BasicId)) :=
  [Commit (mkBasicId 0) xwindow; Prove (xid 200) xkeys; Abandon [xw 200 64 9]; Prove (xid 201) [xkey 64; xkey 65];
   Commit (mkBasicId 1) [xw 200 64 0; xw 201 65 4]; Prove (xid 200) xkeys].
Lemma xsession_ok : session_ok 8 xids (fun _ => ∅) xsession.
Proof. apply (bool_decide_eq_true_1 _). by vm_compute. Qed.
Lemma storage_session_correct_witness :
  wp (for_each xsession session_step) xnew
    (fun self _ => answers 8 self (fold_left session_maps xsession (fun _ => ∅)) xids).
Proof. exact (storage_session_correct 8 x_height xdb ∅ xcfg xids xsession x_holds x_unused x_safe x_separated xsession_ok). Defined.

Lemma storage_trees_shaped_witness :
  wp (_ ← for_each xsession session_step; for_each [xw 200 64 9; xw 200 96 0; xw 201 1 1] storage_write) xnew
    (fun self _ => forall i, i ∈ xids -> tree_shaped (tree_or_new self.(tries) i)).
Proof.
  apply (storage_trees_shaped 8 x_height xdb ∅ xcfg xids xsession _ x_holds x_unused x_safe x_separated xsession_ok).
  apply (bool_decide_eq_true_1 _). by vm_compute.
Defined.

Lemma storage_dump_correct_witness :
  wp (_ ← for_each xsession session_step; for_each [xw 200 64 9; xw 200 96 0; xw 201 1 1] storage_write) xnew
    (fun self _ => exists lines, BonsaiStorage_dump (E := Empty_set) self = Ok lines /\
      shown_nodes lines ≡ₚ (map_to_list self.(tries).(trees) ≫= fun it => map_to_list (slot_view it.2.(nodes)))).
Proof.
  apply (storage_dump_correct 8 x_height xdb ∅ xcfg xids xsession _ x_holds x_unused x_safe x_separated xsession_ok).
  apply (bool_decide_eq_true_1 _). by vm_compute.
Defined.

(** ** A tree: the one of the identifier [200] *)
Abbreviation XTree := (MerkleTree Felt252 positive (gmap positive)).
Definition xkv : KeyValueDB XDB BasicId := xs.(tries).(trees_db).
Definition xd : TrieKey -> option ByteVec := view_of (HashMapDb_contents xkv.(db)).
Definition xtree : XTree := tree_or_new xs.(tries) (xid 200).
Definition xm : gmap BitVec Felt252 := xmaps (xid 200).

Lemma xkv_view : kv_view xkv xd.
Proof. apply kv_view_of. reflexivity. Qed.
Lemma xtree_models : tree_models 8 xd xtree xm xm.
Proof.
  destruct (proj2 x_run) as [[c Hm] _]. assert (HashMapDb_contents xkv.(db) = c) as Hc by exact (tm_db _ _ _ _ _ _ Hm).
  unfold xd. rewrite Hc. exact (tm_trees _ _ _ _ _ _ Hm _ xid_in).
Qed.
Lemma xtree_clean : clean xtree.
Proof. exact (proj2 (proj2 x_run) _ xid_in). Qed.
Lemma x_length n : length (xkey n) = 8.
Proof. reflexivity. Qed.

Lemma MerkleTree_set_correct_witness :
  wp (MerkleTree_set xkv (xkey 5) (felt 9)) xtree (fun self' _ =>
    tree_models 8 xd self' xm (<[xkey 5 := felt 9]> xm) /\ others_kept xtree self' (xkey 5)).
Proof.
  apply (MerkleTree_set_correct 8 x_height xkv xd xtree xm xm (xkey 5) (felt 9) xkv_view xtree_models (x_length 5)).
  - by apply felt_nonzero.
  - right; right; by left.
Defined.

Lemma MerkleTree_delete_leaf_correct_witness :
  wp (MerkleTree_delete_leaf xkv (xkey 96)) xtree (fun self' _ =>
    tree_models 8 xd self' xm (delete (xkey 96) xm) /\ others_kept xtree self' (xkey 96)) /\
  MerkleTree_set xkv (xkey 96) Felt_ZERO xtree = MerkleTree_delete_leaf xkv (xkey 96) xtree.
Proof. exact (MerkleTree_delete_leaf_correct 8 x_height xkv xd xtree xm xm (xkey 96) xkv_view xtree_models (x_length 96)). Defined.

Lemma MerkleTree_seek_nodes_correct_witness :
  wp (MerkleTree_seek_nodes xkv (xkey 97)) xtree (fun self' ns =>
    tree_models 8 xd self' xm xm /\ self'.(cache_leaf_modified) = xtree.(cache_leaf_modified) /\
    (ns = [] <-> xm = ∅) /\ seek_ends 8 self' (xkey 97) ns).
Proof. exact (MerkleTree_seek_nodes_correct 8 x_height xkv xd xtree xm xm (xkey 97) xkv_view xtree_models (x_length 97)). Defined.

(** The tree after a write. *)
Definition xtree1 : XTree := (MerkleTree_set xkv (xkey 5) (felt 9) xtree).1.
Definition xm1 : gmap BitVec Felt252 := <[xkey 5 := felt 9]> xm.
Lemma xtree1_models : tree_models 8 xd xtree1 xm xm1.
Proof.
  assert (felt 9 <> Felt_ZERO) as H9 by by apply felt_nonzero.
  assert (write_ok xm xm (xkey 5, felt 9)) as Ha by (right; right; by left).
  destruct (wp_set 8 x_height xkv xd xtree xm xm (xkey 5) (felt 9) xkv_view xtree_models (x_length 5) H9 Ha)
    as (t & [] & Hrun & Hm & _).
  unfold xtree1, xm1. by rewrite Hrun.
Qed.
Lemma MerkleTreeIterator_seeks_correct_witness :
  wp (for_each ([xkey 96; xkey 97; xkey 3] ++ [xkey 96]) (MerkleTreeIterator_seek_to xkv)) (MerkleTreeIterator_new xtree1) (fun it _ =>
    tree_models 8 xd it.(tree) xm xm1 /\ it.(tree).(cache_leaf_modified) = xtree1.(cache_leaf_modified) /\ stands it xm1 (xkey 96)).
Proof.
  apply (MerkleTreeIterator_seeks_correct 8 x_height xkv xd xtree1 xm xm1 _ _ xkv_view xtree1_models).
  by repeat constructor.
Defined.

(** The value it wrote is pending: another one does not reach the trie. *)
Lemma MerkleTree_set_irregular_witness :
  let m' := match xm1 !! xkey 5 with Some _ => <[xkey 5 := felt 10]> xm1 | None => xm1 end in
  wp (MerkleTree_set xkv (xkey 5) (felt 10)) xtree1 (fun self1 _ =>
    (self1 = match xm1 !! xkey 5 with
             | Some _ => set_cache_leaf_modified (<[bitslice_to_bytes (xkey 5) := Insert (felt 10)]> xtree1.(cache_leaf_modified)) xtree1
             | None => xtree1
             end) /\
    wp (MerkleTree_get_updates (DB := XDB)) self1 (fun self2 u =>
      let d' := apply_updates u xd in
      (forall q, length q <= 8 ->
        d' (node_key xtree1.(identifier) q) = Node_encode_fields <$> stored_nodes (K := positive) (trie_of xm1) !! q) /\
      (forall k', length k' = 8 -> d' (flat_key xtree1.(identifier) k') = Felt_encode <$> m' !! k'))).
Proof.
  apply (MerkleTree_set_irregular 8 x_height xkv xd xtree1 xm xm1 (xkey 5) (felt 10) xkv_view xtree1_models (x_length 5)).
  apply (bool_decide_eq_false_1 _). by vm_compute.
Defined.

Lemma xtree1_loaded : is_Some xtree1.(root_node).
Proof. apply (bool_decide_eq_true_1 _). by vm_compute. Qed.

Lemma MerkleTree_get_updates_correct_witness :
  wp (MerkleTree_get_updates (DB := XDB)) xtree1 (fun self' u =>
    let d' := apply_updates u xd in
    tree_models 8 d' self' xm1 xm1 /\ clean self' /\
    (forall q, length q <= 8 ->
      d' (node_key xtree1.(identifier) q) = Node_encode_fields <$> stored_nodes (K := positive) (trie_of xm1) !! q) /\
    (forall k, length k = 8 -> d' (flat_key xtree1.(identifier) k) = Felt_encode <$> xm1 !! k)).
Proof. exact (MerkleTree_get_updates_correct 8 x_height xd xtree1 xm xm1 xtree1_models). Defined.

Lemma MerkleTree_compute_root_hash_correct_witness :
  exists hashes, MerkleTree_compute_root_hash (DB := XDB) xtree1 = Ok (map_root_hash xm1, hashes).
Proof. exact (MerkleTree_compute_root_hash_correct 8 x_height xd xtree1 xm xm1 xtree1_models xtree1_loaded). Defined.

(** ** Paths, identifiers, databases, trie logs *)
Lemma Path_decode_encode_witness : Path_decode (Path_encode [true; false; true] ++ [7%Z]) = Ok ([true; false; true], [7%Z]).
Proof. apply Path_decode_encode. cbn. lia. Defined.

Lemma Path_encode_prefix_free_witness : bits_of_byte 5 = xkey 5.
Proof. apply Path_encode_prefix_free; [rewrite x_length; lia|rewrite x_length; lia|]. by exists []. Defined.

Lemma Path_decode_truncated_witness : exists e, Path_decode [9%Z; 255%Z] = Err e.
Proof. apply (Path_decode_truncated (replicate 9 true)); [cbn; lia|by exists [128%Z]|by vm_compute]. Defined.

Lemma bytes_to_bitvec_bitslice_to_bytes_witness :
  bytes_to_bitvec (E := HashMapDbError) (bitslice_to_bytes [true; true]) =
    Ok ([true; true] ++ replicate (8 * ((length [true; true] + 7) / 8) - length [true; true]) false) /\
  (bytes_to_bitvec (E := HashMapDbError) (bitslice_to_bytes [true; true]) = Ok [true; true] <-> length [true; true] mod 8 = 0).
Proof. apply bytes_to_bitvec_bitslice_to_bytes. done. Defined.

Lemma BasicIdBuilder_fresh_witness :
  exists ids b', BasicIdBuilder_take (E := HashMapDbError) 3 BasicIdBuilder_new = (b', Ok ids).
Proof. apply (BasicIdBuilder_fresh 3 BasicIdBuilder_new); cbn; lia. Defined.

Definition xsnap : XDB := HashMapDb_snapshot (HashMapDb_snapshot xdb (mkBasicId 7)) (mkBasicId 5).
Lemma xid_wf z : (0 <= z < 2 ^ 64)%Z -> id_wf (mkBasicId z).
Proof. done. Qed.
Lemma xsnap_wf : snapshots_wf xsnap.
Proof.
  apply snapshot_wf; [|by apply xid_wf]. apply snapshot_wf; [|by apply xid_wf]. split; constructor.
Qed.
Lemma HashMapDb_transaction_oldest_witness :
  match HashMapDb_transaction xsnap (mkBasicId 8) with
  | Some (i, snap) =>
      (i, snap) ∈ xsnap.(snapshots) /\ (id_as_u64 i < id_as_u64 (mkBasicId 8))%Z /\
      forall j, j ∈ xsnap.(snapshots).*1 -> (id_as_u64 i <= id_as_u64 j)%Z
  | None => forall j, j ∈ xsnap.(snapshots).*1 -> (id_as_u64 (mkBasicId 8) <= id_as_u64 j)%Z
  end.
Proof. apply HashMapDb_transaction_oldest; [exact xsnap_wf|by apply xid_wf]. Defined.

(** ** Trie logs and past states *)
Definition xchanges : gmap TrieKey Change :=
  <[TrieKey_Flat [1%Z] := mkChange (Some [10%Z]) (Some [20%Z])]> {[TrieKey_Trie [2%Z] := mkChange None (Some [7%Z])]}.
Lemma ChangeBatch_deserialize_any_order_witness :
  exists b', ChangeBatch_deserialize (E := HashMapDbError) (mkBasicId 3) (reverse (ChangeBatch_serialize xchanges (mkBasicId 3))) = Ok b' /\
    (forall key, old_value <$> b' !! key = old_value <$> filter changing xchanges !! key) /\
    map_Forall (fun _ ch => ch <> Change_default) b'.
Proof. apply (ChangeBatch_deserialize_any_order (mkBasicId 3) xchanges), reverse_Permutation. Defined.

Definition xpre : list (BasicId * list (ByteVec * (BitVec * Felt252))) := [(mkBasicId 3, [xw 200 64 1; xw 201 64 2])].
Definition xpost : list (BasicId * list (ByteVec * (BitVec * Felt252))) := [(mkBasicId 7, [xw 200 64 0]); (mkBasicId 10, [xw 201 64 5])].
Definition xat : list (ByteVec * (BitVec * Felt252)) := [xw 200 64 3; xw 200 96 4].
Lemma x_other w : w ∈ xpre ++ xpost -> other_commit (KeyValueDBConfig_from xcfg) (mkBasicId 5) w.
Proof.
  intros Hw. assert (w.1 ∈ [mkBasicId 3; mkBasicId 7; mkBasicId 10]) as Hid.
  { unfold xpre, xpost in Hw. cbn [app] in Hw. rewrite !elem_of_cons in Hw.
    destruct Hw as [-> |[-> |[-> |[]%elem_of_nil]]]; set_solver. }
  unfold other_commit, takes_snapshot. rewrite !elem_of_cons in Hid.
  destruct Hid as [-> |[-> |[-> |[]%elem_of_nil]]]; (split; [by split|split_and!; [done|by vm_compute|by vm_compute]]).
Qed.
Lemma x_others l : l ⊆ xpre ++ xpost -> Forall (other_commit (KeyValueDBConfig_from xcfg) (mkBasicId 5)) l.
Proof. intros Hl. apply Forall_forall. intros w Hw. by apply x_other, Hl. Qed.
Lemma x_state_hist : history_ok 8 xids (fun _ => ∅) (xpre ++ (mkBasicId 5, xat) :: xpost).
Proof. apply (bool_decide_eq_true_1 _). by vm_compute. Qed.

Lemma rdb_snaps : db_holds (LawfulDatabase := snap_lawful (DB := XRocks) (Some 100) []) rdb ∅.
Proof. split; [by split|]. split; [done|constructor]. Qed.
Lemma x_room : room (F := Felt252) (Some 100) (KeyValueDBConfig_from xcfg) [] (xpre ++ (mkBasicId 5, xat) :: xpost).
Proof. unfold room, has_room. vm_compute. lia. Qed.

Lemma storage_state_before_snapshot_witness :
  wp (for_each (xpre ++ (mkBasicId 5, xat) :: xpost) persist_window) xnew (fun self _ =>
    answers 8 self (history_maps (xpre ++ (mkBasicId 5, xat) :: xpost) (fun _ => ∅)) xids /\
    exists st, BonsaiStorage_get_transactional_state self (mkBasicId 6) xcfg = Ok (Some st) /\
      answers 8 st (history_maps xpre (fun _ => ∅)) xids) /\
  wp (for_each (xpre ++ (mkBasicId 5, xat) :: xpost) persist_window)
    (BonsaiStorage_new (F := Felt252) (K := positive) (M := gmap positive) rdb xcfg 8) (fun self _ =>
    answers 8 self (history_maps (xpre ++ (mkBasicId 5, xat) :: xpost) (fun _ => ∅)) xids /\
    exists st, BonsaiStorage_get_transactional_state self (mkBasicId 6) xcfg = Ok (Some st) /\
      answers 8 st (history_maps xpre (fun _ => ∅)) xids).
Proof.
  split.
  - apply (storage_state_before_snapshot (DB := XDB) 8 x_height None (KeyValueDBConfig_from xcfg) xids (mkBasicId 5)
      ltac:(done) ltac:(done) ltac:(by split) xdb ∅ xcfg xcfg xpre xat xpost (mkBasicId 6)
      ltac:(split; [exact x_holds|constructor]) x_unused ltac:(done) x_safe x_separated ltac:(done) x_state_hist ltac:(done)
      (x_others xpre ltac:(set_solver)) (x_others xpost ltac:(set_solver)) ltac:(done) ltac:(by split) ltac:(done)).
  - apply (storage_state_before_snapshot (DB := XRocks) 8 x_height (Some 100) (KeyValueDBConfig_from xcfg) xids (mkBasicId 5)
      ltac:(done) ltac:(done) ltac:(by split) rdb ∅ xcfg xcfg xpre xat xpost (mkBasicId 6)
      rdb_snaps x_unused ltac:(done) x_safe x_separated ltac:(done) x_state_hist ltac:(done)
      (x_others xpre ltac:(set_solver)) (x_others xpost ltac:(set_solver)) x_room ltac:(by split) ltac:(done)).
Defined.

Definition xrun : list (BasicId * list (ByteVec * (BitVec * Felt252))) := [(mkBasicId 6, [xw 200 64 6; xw 201 64 9])].
Definition xlater : list (BasicId * list (ByteVec * (BitVec * Felt252))) := [(mkBasicId 10, [xw 201 64 5])].
Lemma x_outside w : w ∈ xpre ++ xlater -> outside (KeyValueDBConfig_from xcfg) (mkBasicId 5) 2 w.
Proof.
  intros Hw. assert (w.1 ∈ [mkBasicId 3; mkBasicId 10]) as Hid.
  { unfold xpre, xlater in Hw. cbn [app] in Hw. rewrite !elem_of_cons in Hw.
    destruct Hw as [-> |[-> |[]%elem_of_nil]]; set_solver. }
  destruct w as [i l]. cbn [fst] in Hid. rewrite !elem_of_cons in Hid.
  destruct Hid as [-> |[-> |[]%elem_of_nil]]; (split; [by split|unfold in_range; cbn; lia|by vm_compute|intros e [= <-]; unfold in_range; cbn; lia]).
Qed.
Lemma x_outsides l : l ⊆ xpre ++ xlater -> Forall (outside (KeyValueDBConfig_from xcfg) (mkBasicId 5) 2) l.
Proof. intros Hl. apply Forall_forall. intros w Hw. by apply x_outside, Hl. Qed.
Lemma x_numbered : numbered (KeyValueDBConfig_from xcfg) (mkBasicId 5) 2 1 xrun.
Proof. split; [|done]. split; [by split|by vm_compute|by vm_compute]. Qed.
Lemma x_later_hist : history_ok 8 xids (fun _ => ∅) (xpre ++ ((mkBasicId 5, xat) :: xrun) ++ xlater).
Proof. apply (bool_decide_eq_true_1 _). by vm_compute. Qed.
Lemma x_later_room : room (F := Felt252) (Some 100) (KeyValueDBConfig_from xcfg) [] (xpre ++ ((mkBasicId 5, xat) :: xrun) ++ xlater).
Proof. unfold room, has_room. vm_compute. lia. Qed.

Lemma storage_later_state_witness :
  let before := history_maps xpre (fun _ => ∅) in
  wp (for_each (xpre ++ ((mkBasicId 5, xat) :: xrun) ++ xlater) persist_window) xnew (fun self _ =>
    exists st, BonsaiStorage_get_transactional_state self (mkBasicId 7) xcfg = Ok (Some st) /\
      answers_before_change (K := positive) (M := gmap positive) 8 xids st before (maps_after before ((mkBasicId 5, xat) :: xrun))) /\
  wp (for_each (xpre ++ ((mkBasicId 5, xat) :: xrun) ++ xlater) persist_window)
    (BonsaiStorage_new (F := Felt252) (K := positive) (M := gmap positive) rdb xcfg 8) (fun self _ =>
    exists st, BonsaiStorage_get_transactional_state self (mkBasicId 7) xcfg = Ok (Some st) /\
      answers_before_change 8 xids st before (maps_after before ((mkBasicId 5, xat) :: xrun))).
Proof.
  split.
  - exact (storage_later_state (DB := XDB) 8 x_height None (KeyValueDBConfig_from xcfg) xids (mkBasicId 5)
      ltac:(done) ltac:(done) ltac:(by split) xdb ∅ xcfg xcfg xpre xat xrun xlater (mkBasicId 7)
      ltac:(split; [exact x_holds|constructor]) x_unused ltac:(done) x_safe x_separated ltac:(done) x_later_hist ltac:(done)
      (x_outsides xpre ltac:(set_solver)) x_numbered (x_outsides xlater ltac:(set_solver)) ltac:(done) ltac:(by split) ltac:(done)).
  - exact (storage_later_state (DB := XRocks) 8 x_height (Some 100) (KeyValueDBConfig_from xcfg) xids (mkBasicId 5)
      ltac:(done) ltac:(done) ltac:(by split) rdb ∅ xcfg xcfg xpre xat xrun xlater (mkBasicId 7)
      rdb_snaps x_unused ltac:(done) x_safe x_separated ltac:(done) x_later_hist ltac:(done)
      (x_outsides xpre ltac:(set_solver)) x_numbered (x_outsides xlater ltac:(set_solver)) x_later_room ltac:(by split) ltac:(done)).
Defined.

(** The trie of [xid 201] does not change from the commit of 5 to that of 7, and
    does after. *)
Definition xrun7 : list (BasicId * list (ByteVec * (BitVec * Felt252))) := [(mkBasicId 6, [xw 200 64 6])].
Definition xat7 : list (ByteVec * (BitVec * Felt252)) := [xw 200 97 7].
Definition xhist7 : list (BasicId * list (ByteVec * (BitVec * Felt252))) :=
  xpre ++ ((mkBasicId 5, xat) :: xrun7) ++ (mkBasicId 7, xat7) :: xlater.
Lemma x_numbered7 : numbered (KeyValueDBConfig_from xcfg) (mkBasicId 5) 2 1 xrun7.
Proof. split; [|done]. split; [by split|by vm_compute|by vm_compute]. Qed.
Lemma x_outside7 : Forall (outside (KeyValueDBConfig_from xcfg) (mkBasicId 5) 2) ((mkBasicId 7, xat7) :: xlater).
Proof.
  constructor; [|exact (x_outsides xlater ltac:(set_solver))].
  split; [by split|unfold in_range; cbn; lia|by vm_compute|intros e [= <-]; unfold in_range; cbn; lia].
Qed.
Lemma x_hist7 : history_ok 8 xids (fun _ => ∅) xhist7.
Proof. apply (bool_decide_eq_true_1 _). by vm_compute. Qed.
Lemma x_room7 : room (F := Felt252) (Some 100) (KeyValueDBConfig_from xcfg) [] xhist7.
Proof. unfold room, has_room. vm_compute. lia. Qed.

(** The reads of the state from the theorem's conclusion. *)
Ltac x_reads7 :=
  cbn beta zeta; intros ? _ (st & Hst & Hreads); exists st; split; [exact Hst|];
  destruct (Hreads (xid 201) ltac:(set_solver)) as [Hroot Hget];
  (split; [apply Hroot|apply (Hget (xkey 64) ltac:(done))]); apply (bool_decide_eq_true_1 _); by vm_compute.

Lemma storage_state_unchanged_witness :
  let xroot := map_root_hash {[xkey 64 := felt 2]} in
  wp (for_each xhist7 persist_window) xnew (fun self _ =>
    exists st, BonsaiStorage_get_transactional_state self (mkBasicId 7) xcfg = Ok (Some st) /\
      BonsaiStorage_root_hash st (xid 201) = Ok xroot /\ BonsaiStorage_get st (xid 201) (xkey 64) = Ok (Some (felt 2))) /\
  wp (for_each xhist7 persist_window)
    (BonsaiStorage_new (F := Felt252) (K := positive) (M := gmap positive) rdb xcfg 8) (fun self _ =>
    exists st, BonsaiStorage_get_transactional_state self (mkBasicId 7) xcfg = Ok (Some st) /\
      BonsaiStorage_root_hash st (xid 201) = Ok xroot /\ BonsaiStorage_get st (xid 201) (xkey 64) = Ok (Some (felt 2))).
Proof.
  split.
  - eapply wp_mono; [|exact (storage_state_unchanged (DB := XDB) 8 x_height None (KeyValueDBConfig_from xcfg) xids (mkBasicId 5)
      ltac:(done) ltac:(done) ltac:(by split) xdb ∅ xcfg xcfg xpre xat xrun7 (mkBasicId 7) xat7 xlater
      ltac:(split; [exact x_holds|constructor]) x_unused ltac:(done) x_safe x_separated ltac:(done) x_hist7 ltac:(done)
      (x_outsides xpre ltac:(set_solver)) x_numbered7 x_outside7 ltac:(done) ltac:(done))]. x_reads7.
  - eapply wp_mono; [|exact (storage_state_unchanged (DB := XRocks) 8 x_height (Some 100) (KeyValueDBConfig_from xcfg) xids (mkBasicId 5)
      ltac:(done) ltac:(done) ltac:(by split) rdb ∅ xcfg xcfg xpre xat xrun7 (mkBasicId 7) xat7 xlater
      rdb_snaps x_unused ltac:(done) x_safe x_separated ltac:(done) x_hist7 ltac:(done)
      (x_outsides xpre ltac:(set_solver)) x_numbered7 x_outside7 x_room7 ltac:(done))]. x_reads7.
Defined.

(** ** Writes that fail *)
Lemma x_fail_hist : history_ok 8 xids (fun _ => ∅) (xpre ++ [(mkBasicId 5, xat)]).
Proof. apply (bool_decide_eq_true_1 _). by vm_compute. Qed.
Definition xe : DatabaseError XRocks := RocksDBError_RocksDB model_busy.

(** ** Listing *)
Lemma x_apart : apart 8 xids.
Proof. apply (apart_length 8 xids 1). by intros i [-> | ->]%xids_cases. Qed.

Lemma xmaps2_wf i : i ∈ xids -> map_wf 8 (xmaps2 i).
Proof. intros Hi. eapply trie_rep_map_wf, (storage_at_trie 8 xs2 xmaps2 xids i (proj2 x_run2) Hi). Qed.
Lemma storage_reaches_witness :
  exists ws, window 8 xids xmaps ws /\
    forall id, wp (commit_window (id, ws)) xs (fun self' _ => answers 8 self' xmaps2 xids).
Proof. exact (storage_reaches 8 x_height xs xmaps xmaps2 xids (proj2 x_run) xmaps2_wf). Defined.

(** ** Errors *)
Example key_length_message :
  BonsaiStorageError_fmt (DE := HashMapDbError) (fun _ => "database") (fun _ => "codec") (Error_KeyLength 251 10) =
  "Malformated key length: expected 251, got 10".
Proof. by vm_compute. Qed.

(** ** The contents of the database, and the property test *)
Lemma x_empty_view key : view_of (∅ : gmap DatabaseKey ByteVec) key = None.
Proof. apply lookup_empty. Qed.
Lemma storage_contents_exact_witness :
  wp (run_history xhist) xnew (fun self _ => exists c',
    db_holds self.(tries).(trees_db).(KeyValueDb.db) c' /\
    (forall key v, view_of c' key = Some v <-> trie_binding (K := positive) xids xmaps key v) /\
    ((forall i, i ∈ xids -> xmaps i = ∅) -> forall key, view_of c' key = None)).
Proof.
  exact (storage_contents_exact 8 x_height xdb ∅ xcfg xids xhist x_holds x_empty_view x_safe x_separated xhist_ok).
Defined.

(** Values are replaced once committed, and removals are undone before the commit. *)
Definition xsteps : list (Step (F := Felt252)) :=
  [Step_Insert (bits "10011") (felt 32); Step_Remove (bits "10011"); Step_Insert (bits "10011") (felt 33);
   Step_Insert (bits "10010") (felt 34); Step_Remove (bits "00000"); Step_Commit;
   Step_Insert (bits "10011") (felt 35); Step_Remove (bits "10010"); Step_Insert (bits "01000") (felt 1); Step_Commit].
Lemma proptest_inserts_witness : check (K := positive) (M := gmap positive) (ID := BasicId) 5 xsteps = Ok tt.
Proof. apply proptest_inserts; [lia|]. apply (bool_decide_eq_true_1 _). by vm_compute. Defined.

(** ** From the disk: a directory that holds an old database *)
Definition xfs : FileSystem := <["data" := Some (mkModelDb column_names {[(FLAT_CF, [1%Z]) := [2%Z]]} [])]> ∅.
Lemma create_rocks_db_storage_witness :
  wp (create_rocks_db "data") xfs (fun _ db =>
    wp (run_history (K := positive) (M := gmap positive) xhist) (BonsaiStorage_new (RocksDB_new (ID := BasicId) db RocksDBConfig_default) xcfg 8)
      (fun self _ => answers 8 self xmaps xids)).
Proof. exact (create_rocks_db_storage 8 x_height "data" xfs RocksDBConfig_default xcfg xids xhist I x_safe x_separated xhist_ok). Defined.
